(* ===== verification/_CoqProject ===== *)
-Q . S2P
Prelude.v
PyBytes.v
PyString.v
PyValue.v
PyText.v
PyScan.v
UpdatePlan.v
Sha256.v
Sha1.v
NarDescriptor.v
NarArchive.v
MachO.v
LauncherTemplate.v
Elf.v
Launcher.v
PortableRuntime.v
Effect.v
Cleanup.v
Pids.v
Guard.v
Supervise.v
Command.v
Provenance.v
ProvenanceGraph.v
Reconcile.v
PatchIO.v
Census.v
CensusRun.v
Closure.v
InterpreterClosure.v
WrapperAuthority.v
NativeStderr.v
GitObjects.v
GitExport.v
GitSnapshot.v
GitBudget.v
NativeRecords.v
NativeCheckpoint.v
SdkReadiness.v
HmProgress.v
FileSync.v
HmPair.v
HmBundle.v
HmStream.v
HmPublish.v
