(* ===== verification/Prelude.v ===== *)
(** * Omux delivery and guard tooling: a verification development

    Omux (the repository oauth-mux) is a daemon with clients, and around it a
    set of Python programs that build, package, deliver, run and audit it
    without trusting what they handle.  This development is about those
    programs: validators of bytes and JSON, builders of commands and binary
    records, and supervisors of processes.  It models them function by
    function and proves what their callers rely on.

    ** The parts and the files

    Language.  [Prelude] (exceptions, the error monad, loops, inversion and
    exception tactics), [PyBytes] (bytes, slices, struct), [PyString] (str as
    its UTF-8 bytes, decimal text), [PyValue] (decoded JSON with Python's
    equality, order and membership), [PyText] (characters, lines, JSON text,
    paths), [PyScan] (searching bytes), [Sha256] and [Sha1] (executable), and
    [Effect] (a state and exception monad with a trace, its program logic, and
    the rules for what runs return and throw).

    Update proposals: delivery/update_plan.py in [UpdatePlan].
    NAR descriptors: tools/nar_descriptor.py in [NarDescriptor], with the
    theorems about whole archives in [NarArchive].
    Binary images: tools/macho.py in [MachO]; the template validator of
    delivery/generate_portable_launcher_template.py in [LauncherTemplate];
    delivery/portable.py in [Elf] (elf_metadata), [Launcher] (linux_launcher)
    and [PortableRuntime] (verify_linux_runtime, the certificate bundle and
    the resolution witness).
    Execution guard: tools/execution_guard.py in [Cleanup] (cleanup_owned),
    [Pids] (sampled task counts), [Guard] (unit identity and the authorization
    of the stop), [Supervise] (await_startup, monitor_workload, diagnostics)
    and [Command] (bazel_command and the profiles of the guard_* files).
    Remote execution provenance: tools/reapi_provenance.py in [Provenance]
    (tables, expansion, plan), [ProvenanceGraph] (its reference semantics) and
    [Reconcile] (execution receipts, artifact summary).
    Upstream patches: integrations/codex-upstream/patch_io.py in [PatchIO].
    Native runs: delivery/native_thread_census.py in [Census] (status
    projection, records) and [CensusRun] (the class Census and its
    descriptors); delivery/native_cli_stderr.py in [NativeStderr];
    delivery/native_run_cli_failure.py, native_fd2_observer.py and
    native_history_diagnostic.py in [NativeRecords];
    delivery/native_resumed_checkpoint.py in [NativeCheckpoint].
    Nix closures: the visited-set loop two programs share in [Closure];
    tools/nix_interpreter_closure.py in [InterpreterClosure];
    delivery/yoga_wrapper_authority.py in [WrapperAuthority].
    Git inputs: tools/codex_git_inputs.py in [GitObjects] (identities, trees,
    links, snapshots, the framed proof) and [GitBudget] (budgets and refusals,
    with Budget of tools/codex_dependency_bundle.py); the tree format and the
    inverse laws in [GitExport], the semantics of a snapshot in [GitSnapshot].
    SDK profile: dependency_readiness of tools/codex_sdk_profile.py in
    [SdkReadiness].
    Home Manager acquisition: nix/home_manager_acquisition.py in [HmProgress]
    (the phase diagnostics and the report of main) and [FileSync] (the pool of
    file flushes, FileSyncLease and FileSyncOwner, whose worker threads are
    interleaved with every call of the copy thread).
    Home Manager bundles: nix/home_manager_inputs.py and the metadata of
    home_manager_acquired_inputs.py, home_manager_artifact.py and
    home_manager_bundle.py in [HmPair]; the framing, materialize and
    ReconstructionBudget of home_manager_bundle.py in [HmBundle];
    RepresentationInputs and RepresentationStream in [HmStream];
    PublicationFile, the publication of reconstruct_retained and its rollback
    in [HmPublish], where other processes act on the output directory between
    any two calls and any call may fail or be interrupted.

    How they interact.  [Launcher] embeds what [LauncherTemplate] validated
    and [PortableRuntime] rebuilds the launcher of [Launcher] and reads every
    image through [Elf].  [Cleanup] calls the authorization of [Guard] through
    its record of operations, and [Supervise] polls the same units.
    [Reconcile] consumes the plan of [Provenance].  [CensusRun] writes the
    records of [Census].  A snapshot of [GitObjects] feeds the proof it frames,
    and runs under any budget of [GitBudget].  [FileSync] reports to the
    object of [HmProgress].  [HmBundle] validates its trees with
    [NarDescriptor] and reads them from any type with the class [Stream]; its
    theorems rest on [StreamLaws], which an opened file has there and the
    stream of [HmStream] has over any files with [RetainedLaws].

    ** How the code is represented

    A Python function is a definition with the source's name.  A function that
    can raise returns [res A], [Err] carrying the exception class and, for
    ValueError, the message; each guard and early return of the source is one
    step of the definition, in the source's order.  Mutable locals of a loop
    are a record that the loop threads; a method is a function on the record
    of its object.  A [str] is its UTF-8 bytes, so encoding is the identity
    and code points sort as bytes do; [len] counts code points.  Integers are
    [Z], packed at their width with the reduction written out; floats are
    [spec_float] and compared exactly; dictionaries that are iterated are
    association lists in insertion order, sets whose order does not matter are
    [gset]s or lists read as sets.  Regular expressions are the boolean
    functions they denote on the strings they are applied to.  Times are
    integers, in milliseconds for the guard and the budgets and in nanoseconds
    where the source counts them.

    What is outside a program is an argument: the clock, the file opener and
    the file system of a description, the service manager, the kernel and the
    launched process, JSON decoding ([loads]), the text of a float, the value
    of a Unicode digit, gzip and tar decoding, the generated launcher module,
    and the reader of Git objects.  Each may raise; what a theorem needs of it
    is a hypothesis of that theorem, and its witness instantiates it.

    Recursion.  Loops over a list are structural.  The other loops take fuel
    and raise [NoFuel] when it runs out, which no theorem mistakes for a
    result: [nar_terminates] (257 levels of nodes, one more than MAX_DEPTH,
    and MAX_ENTRIES entries), [cleanup_ends] and [waits_end] (every turn waits,
    so the time left bounds the turns), [analysis_ends] (as many rounds as
    there are distinct actions), [select_ends] and [validate_ends] (seeds plus
    edges), [snapshot_ends] (65 levels, since at most 64 distinct ancestors
    are admitted, and the length of a tree object for its entries),
    [flush_ends] (a wait lasts as long as the worker takes for its at most
    four steps, the hypothesis on [patience]; the queue holds at most four),
    [HmPublish.write_all_ends] (as many turns as bytes),
    [materialize_ends] (every read, write or flush takes a byte or a file),
    and the lemma on [status_fuel] (one read per byte of MAX_STATUS).

    ** What the theorems show

    Safety of acceptance: what a validator accepts has the properties its
    consumers assume ([check_readback_sound], [macho_universal_sound],
    [template_hardened], [runtime_confined], [reconcile_sound],
    [wrappers_bound], [snapshot_exact], [combined_changes_reviewed]).
    Never authorizing: [update_never_authorizes], [network_only_for_producers],
    [bazel_command_local], [readiness_errors].
    Exactness against a reference: [describe_serialize], [analysis_exact],
    [apply_exact_edits], [status_read_by_lines], [selection_exact],
    [snapshot_exact], [materialize_exact].
    Inverse laws: [macho_roundtrip], [record_roundtrip], [proof_roundtrip],
    [reconstruction_exact],
    [pids_metadata_roundtrip], [tree_entries_sound] and
    [tree_entries_complete], [cli_parse_exact].
    Commitment: [archive_commits], [launcher_determines_configuration].
    Protocols and invariants over runs with arbitrary callbacks:
    [cleanup_protocol], [cleanup_stops_owned], [descriptor_custody],
    [pids_statistics], [monitor_reports], [first_evidence_kept],
    [flush_custody] (any interleaving of workers, calls and faults),
    [publication_custody] and [publication_atomic] (any faults and any acts of
    other processes).
    Bounds: [diagnostics_bounded], [serialize_framed].
    Closed outputs: [classify_closed], [macho_static_diagnostics],
    [history_closed], [cli_record_total].
    Liveness: [plan_then_readback], [failure_reports], [flush_ends].
    Refinement between components: [validated_template_launches],
    [receipts_cover_archive].

    ** Not modelled

    Pure input and output: file custody (open, fstat and rename sequences),
    subprocess and socket handling, argument parsing and printing, in the
    modelled programs and in those that consist of it (installation, staging,
    transfer, host probes, cache retirement, Yoga staging and sessions; the
    held directories, prefetch and publication of the Home Manager
    acquisition, and the packing and evaluation of a bundle).  The tar encoding of the
    Git export and the tar reader.  Programs whose logic is URL splitting or calendar
    arithmetic of the library (tools/codex_sdk_dependencies.py,
    tools/docs_check.py).  The daemon in Zig, the Swift and C++ clients, the
    browser extensions, and the Nix and Bazel build files, which are other
    languages. *)
From stdpp Require Export prelude strings sorting gmap.
From Stdlib Require Export Strings.Byte.


(** ** Python exceptions and the error monad

    [exn] lists the exception classes the modelled code raises or catches; a
    raised message is kept so that error branches can be told apart.
    [NoFuel] is no Python exception: it marks a fuel-bounded loop whose fuel
    ran out, and every fuel-bounded definition has a theorem that excludes it. *)
Inductive exn :=
  | ValueError (msg : string)
  | KeyError
  | TypeError
  | AttributeError
  | IndexError
  | UnicodeError
  | OSError
  | FileNotFoundError
  | RuntimeError
  | RecursionError
  | SubprocessError
  | TimeoutExpired            (** [subprocess.TimeoutExpired], in code that names the class *)
  | MemoryError
  | Unavailable (reason : string)
  | Errno (code : Z)          (** an [OSError] whose [errno] the code reads *)
  | KeyboardInterrupt
  | SystemExit
  | NoFuel.

#[export] Instance exn_eq_dec : EqDecision exn.
Proof. solve_decision. Defined.

Inductive res (A : Type) :=
  | Ok (a : A)
  | Err (e : exn).
Arguments Ok {A} a.
Arguments Err {A} e.

#[export] Instance res_eq_dec `{EqDecision A} : EqDecision (res A).
Proof. solve_decision. Defined.

#[export] Instance res_ret : MRet res := fun A a => Ok a.
#[export] Instance res_bind : MBind res := fun A B k m =>
  match m with Ok a => k a | Err e => Err e end.
#[export] Instance res_fmap : FMap res := fun A B f m =>
  match m with Ok a => Ok (f a) | Err e => Err e end.

Definition is_ok {A} (m : res A) : bool := match m with Ok _ => true | Err _ => false end.

(** [if bad: raise e] *)
Definition raise_if (bad : bool) (e : exn) : res unit := if bad then Err e else Ok tt.

(** [require(condition, ...)] and [if not condition: raise e] *)
Definition ensure (good : bool) (e : exn) : res unit := if good then Ok tt else Err e.

(** Short-circuiting [or] and [and] whose operands may raise. *)
Definition orM (a b : res bool) : res bool := x ← a; if (x : bool) then Ok true else b.
Definition andM (a b : res bool) : res bool := x ← a; if (x : bool) then b else Ok false.
Definition notM (a : res bool) : res bool := negb <$> a.

Declare Scope py_scope.
Delimit Scope py_scope with py.
Infix "||?" := orM (at level 50, left associativity) : py_scope.
Infix "&&?" := andM (at level 40, left associativity) : py_scope.
Open Scope py_scope.

(** [any]/[all] over an iterable, stopping at the first decisive element. *)
Fixpoint anyM {A} (f : A → res bool) (l : list A) : res bool :=
  match l with [] => Ok false | x :: l => f x ||? anyM f l end.
Fixpoint allM {A} (f : A → res bool) (l : list A) : res bool :=
  match l with [] => Ok true | x :: l => f x &&? allM f l end.

(** A [for] loop that threads the mutable locals [s]. *)
Fixpoint forM {A S} (f : S → A → res S) (l : list A) (s : S) : res S :=
  match l with [] => Ok s | x :: l => s' ← f s x; forM f l s' end.

Fixpoint mapM_res {A B} (f : A → res B) (l : list A) : res (list B) :=
  match l with [] => Ok [] | x :: l => y ← f x; ys ← mapM_res f l; Ok (y :: ys) end.

(** ** Inversion lemmas and tactics for the error monad *)
Lemma bind_Ok {A B} (m : res A) (k : A → res B) y :
  m ≫= k = Ok y ↔ ∃ x, m = Ok x ∧ k x = Ok y.
Proof. destruct m; naive_solver. Qed.

Lemma bind_Err {A B} (m : res A) (k : A → res B) e :
  m ≫= k = Err e ↔ m = Err e ∨ ∃ x, m = Ok x ∧ k x = Err e.
Proof. destruct m; naive_solver. Qed.

Lemma bind_assoc_res {A B C} (m : res A) (f : A → res B) (g : B → res C) :
  (m ≫= f) ≫= g = m ≫= (λ x, f x ≫= g).
Proof. by destruct m. Qed.

Lemma fmap_Ok {A B} (f : A → B) (m : res A) y :
  f <$> m = Ok y ↔ ∃ x, m = Ok x ∧ y = f x.
Proof. destruct m; naive_solver. Qed.

Lemma raise_if_Ok b e u : raise_if b e = Ok u ↔ b = false.
Proof. destruct b, u; naive_solver. Qed.

Lemma raise_if_Err b e e' : raise_if b e = Err e' ↔ b = true ∧ e' = e.
Proof. destruct b; naive_solver. Qed.

Lemma ensure_Ok b e u : ensure b e = Ok u ↔ b = true.
Proof. destruct b, u; naive_solver. Qed.

Lemma ensure_Err b e e' : ensure b e = Err e' ↔ b = false ∧ e' = e.
Proof. destruct b; naive_solver. Qed.

Lemma orM_false a b : a ||? b = Ok false ↔ a = Ok false ∧ b = Ok false.
Proof. destruct a as [[]|], b as [[]|]; naive_solver. Qed.

Lemma andM_true a b : a &&? b = Ok true ↔ a = Ok true ∧ b = Ok true.
Proof. destruct a as [[]|], b as [[]|]; naive_solver. Qed.

Lemma notM_Ok a b : notM a = Ok b ↔ a = Ok (negb b).
Proof. destruct a as [[]|], b; naive_solver. Qed.

Lemma anyM_false {A} (f : A → res bool) l :
  anyM f l = Ok false ↔ ∀ x, x ∈ l → f x = Ok false.
Proof.
  induction l as [|y l IH]; simpl; [set_solver|].
  rewrite orM_false, IH. set_solver.
Qed.

Lemma allM_true {A} (f : A → res bool) l :
  allM f l = Ok true ↔ ∀ x, x ∈ l → f x = Ok true.
Proof.
  induction l as [|y l IH]; simpl; [set_solver|].
  rewrite andM_true, IH. set_solver.
Qed.

Lemma mapM_res_Ok {A B} (f : A → res B) l ys :
  mapM_res f l = Ok ys ↔ Forall2 (λ x y, f x = Ok y) l ys.
Proof.
  revert ys. induction l as [|x l IH]; intros ys; simpl.
  { split; [intros [= <-]; constructor | by inversion 1]. }
  rewrite bind_Ok. setoid_rewrite bind_Ok. setoid_rewrite IH. split.
  - intros (y & ? & ys' & ? & [= <-]). by constructor.
  - inversion 1; subst. eauto 10.
Qed.

Lemma mapM_res_length {A B} (f : A → res B) l ys :
  mapM_res f l = Ok ys → length ys = length l.
Proof. intros ?%mapM_res_Ok%Forall2_length. done. Qed.

(** The loop rule: an invariant that every iteration keeps holds after the
    loop. *)
Lemma forM_inv {A S} (f : S → A → res S) (P : list A → S → Prop) l s s' :
  P [] s →
  (∀ done x s1 s2, P done s1 → x ∈ l → f s1 x = Ok s2 → P (done ++ [x]) s2) →
  forM f l s = Ok s' → P l s'.
Proof.
  intros H0 Hstep. assert (∀ d, P d s → (∀ done x s1 s2, P done s1 → x ∈ l → f s1 x = Ok s2 → P (done ++ [x]) s2) → forM f l s = Ok s' → P (d ++ l) s') as Hgen.
  { clear. revert s. induction l as [|x l IH]; intros s d Hd Hs; simpl.
    - intros [= <-]. by rewrite app_nil_r.
    - rewrite bind_Ok. intros (s1 & Hx & Hl).
      rewrite cons_middle, (assoc_L (++)).
      eapply IH; [eapply Hs; [exact Hd|set_solver|exact Hx]| |exact Hl].
      intros; eapply Hs; [done|set_solver|done]. }
  intros Hrun. by apply (Hgen []).
Qed.

Lemma forM_app {A S} (f : S → A → res S) l1 l2 s :
  forM f (l1 ++ l2) s = (s' ← forM f l1 s; forM f l2 s').
Proof.
  revert s. induction l1 as [|x l1 IH]; intros s; simpl; [done|].
  destruct (f s x); simpl; [apply IH|done].
Qed.

Lemma forM_unit {A} (f : unit → A → res unit) l u : forM f l tt = Ok u → ∀ x, x ∈ l → f tt x = Ok tt.
Proof.
  induction l as [|y l IH]; [set_solver|]. cbn [forM]. intros ([] & Hy & Hl)%bind_Ok x [->|Hx]%elem_of_cons; auto.
Qed.

Lemma existsb_false {A} (f : A → bool) l : existsb f l = false ↔ ∀ x, x ∈ l → f x = false.
Proof. induction l as [|y l IH]; simpl; [set_solver|]. rewrite orb_false_iff, IH. set_solver. Qed.

(** Split every successful step of the hypotheses into its parts. *)
Ltac ok_inv_step :=
  match goal with
  | H : (_ ≫= _) = Ok _ |- _ => apply bind_Ok in H; destruct H as (? & ? & ?)
  | H : (_ <$> _) = Ok _ |- _ => apply fmap_Ok in H; destruct H as (? & ? & ?)
  | H : raise_if _ _ = Ok _ |- _ => apply raise_if_Ok in H
  | H : ensure _ _ = Ok _ |- _ => apply ensure_Ok in H
  | H : (_ ||? _) = Ok false |- _ => apply orM_false in H; destruct H
  | H : (_ &&? _) = Ok true |- _ => apply andM_true in H; destruct H
  | H : notM _ = Ok _ |- _ => apply notM_Ok in H; simpl in H
  | H : Ok _ = Ok _ |- _ => injection H as H
  | H : Err _ = Ok _ |- _ => discriminate H
  | H : Ok _ = Err _ |- _ => discriminate H
  | H : mret _ = Ok _ |- _ => injection H as H
  | H : _ && _ = true |- _ => apply andb_true_iff in H; destruct H
  | H : _ || _ = false |- _ => apply orb_false_iff in H; destruct H
  | H : negb _ = true |- _ => apply negb_true_iff in H
  | H : negb _ = false |- _ => apply negb_false_iff in H
  | H : bool_decide _ = true |- _ => apply bool_decide_eq_true in H
  | H : bool_decide _ = false |- _ => apply bool_decide_eq_false in H
  | H : _ ∧ _ |- _ => destruct H
  | x : unit |- _ => destruct x
  end.
Ltac ok_inv := repeat (ok_inv_step; subst).

(** Case analysis on the first decision in a hypothesis. *)
Ltac decide_in H :=
  match type of H with context [@bool_decide ?P ?d] => destruct (@bool_decide_reflect P d) end.

(** Pass the first guard of the goal; its disjuncts are left to [tac]. *)
Ltac pass_guard tac :=
  match goal with
  | |- context [raise_if ?b ?e ≫= ?k] =>
      replace b with false; [change (raise_if false e ≫= k) with (k tt); cbn beta|
        symmetry; rewrite ?orb_false_iff, ?negb_false_iff, ?bool_decide_eq_false, ?bool_decide_eq_true; split_and?; tac]
  end.

(** Drop the first [n] successful steps of a computation. *)
Tactic Notation "skip_steps" integer(n) "in" hyp(H) := do n (apply bind_Ok in H as (? & _ & H)).

Create HintDb omux.

(** ** Which exceptions a computation can raise

    [raises P m]: every exception [m] ends in satisfies [P].  The rules follow
    the structure of the program; [solve_raises] applies them, closing the
    leaves with the [omux] hints and the side conditions [P e] by [done]. *)
Definition raises (P : exn → Prop) {A} (m : res A) : Prop := ∀ e, m = Err e → P e.

Section Raises.
Context (P : exn → Prop).

Lemma raises_ok {A} (a : A) : raises P (Ok a).
Proof. done. Qed.
Lemma raises_err {A} e : P e → raises P (@Err A e).
Proof. by intros HP e' [= <-]. Qed.
Lemma raises_bind {A B} (m : res A) (k : A → res B) :
  raises P m → (∀ a, raises P (k a)) → raises P (m ≫= k).
Proof. intros Hm Hk e [He|(x & _ & He)]%bind_Err; [by apply Hm|by apply (Hk x)]. Qed.
(** The continuation may use what the first step returned. *)
Lemma raises_bind_eq {A B} (m : res A) (k : A → res B) :
  raises P m → (∀ a, m = Ok a → raises P (k a)) → raises P (m ≫= k).
Proof. intros Hm Hk e [He|(x & Hx & He)]%bind_Err; [by apply Hm|by apply (Hk x Hx)]. Qed.
Lemma raises_fmap {A B} (f : A → B) (m : res A) : raises P m → raises P (f <$> m).
Proof. intros Hm e. destruct m; simpl; [done|]. intros [= ->]. by apply Hm. Qed.
Lemma raises_raise_if b e : P e → raises P (raise_if b e).
Proof. by intros ? e' [_ ->]%raise_if_Err. Qed.
Lemma raises_ensure b e : P e → raises P (ensure b e).
Proof. by intros ? e' [_ ->]%ensure_Err. Qed.
Lemma raises_orM a b : raises P a → raises P b → raises P (a ||? b).
Proof. intros Ha Hb. apply raises_bind; [done|]. by intros []. Qed.
Lemma raises_andM a b : raises P a → raises P b → raises P (a &&? b).
Proof. intros Ha Hb. apply raises_bind; [done|]. by intros []. Qed.
Lemma raises_anyM {A} (f : A → res bool) l : (∀ x, raises P (f x)) → raises P (anyM f l).
Proof. intros Hf. induction l; simpl; [apply raises_ok|by apply raises_orM]. Qed.
Lemma raises_allM {A} (f : A → res bool) l : (∀ x, raises P (f x)) → raises P (allM f l).
Proof. intros Hf. induction l; simpl; [apply raises_ok|by apply raises_andM]. Qed.
Lemma raises_mapM {A B} (f : A → res B) l : (∀ x, raises P (f x)) → raises P (mapM_res f l).
Proof.
  intros Hf. induction l; simpl; [apply raises_ok|]. apply raises_bind; [done|]. intros.
  apply raises_bind; [done|]. intros. apply raises_ok.
Qed.
Lemma raises_forM {A S} (f : S → A → res S) l s :
  (∀ s x, x ∈ l → raises P (f s x)) → raises P (forM f l s).
Proof.
  revert s. induction l as [|x l IH]; intros s Hf; simpl; [apply raises_ok|].
  apply raises_bind; [apply Hf; set_solver|]. intros s'. apply IH. intros; apply Hf; set_solver.
Qed.
End Raises.

Definition is_ValueError (e : exn) : bool := match e with ValueError _ => true | _ => false end.

Ltac raises_step :=
  match goal with
  | |- raises _ (Ok _) => apply raises_ok
  | |- raises _ (Err _) => apply raises_err; done
  | |- raises _ (_ ≫= _) => apply raises_bind; [|intros ?]
  | |- raises _ (_ <$> _) => apply raises_fmap
  | |- raises _ (raise_if _ _) => apply raises_raise_if; done
  | |- raises _ (ensure _ _) => apply raises_ensure; done
  | |- raises _ (_ ||? _) => apply raises_orM
  | |- raises _ (_ &&? _) => apply raises_andM
  | |- raises _ (notM _) => apply raises_fmap
  | |- raises _ (anyM _ _) => apply raises_anyM; intros ?
  | |- raises _ (allM _ _) => apply raises_allM; intros ?
  | |- raises _ (mapM_res _ _) => apply raises_mapM; intros ?
  | |- raises _ (forM _ _ _) => apply raises_forM; intros ???
  | |- raises _ (match ?x with _ => _ end) => destruct x
  | |- raises _ _ => solve [eauto with omux]
  end.
Ltac solve_raises := repeat raises_step.
