(* ===== verification/PyBytes.v ===== *)
(** * Python [bytes] and [struct]

    A [bytes] object is a [list byte]; an unsigned machine integer read by
    [struct] is a [Z], and packing reduces it modulo its width.  This file
    holds the slices, the little- and big-endian integer codecs and their
    inverse laws, which the binary-format components (Mach-O, ELF, NAR, the
    launcher record) share. *)
From S2P Require Import Prelude.
Local Open Scope Z_scope.

#[export] Instance byte_eq_dec : EqDecision byte := Byte.byte_eq_dec.

Definition bytes := list byte.

Definition zlen {A} (l : list A) : Z := Z.of_nat (length l).

Lemma zlen_app {A} (l m : list A) : zlen (l ++ m) = zlen l + zlen m.
Proof. unfold zlen. rewrite length_app. lia. Qed.

Lemma zlen_nonneg {A} (l : list A) : 0 <= zlen l.
Proof. unfold zlen. lia. Qed.

Lemma zlen_nil {A} : zlen (@nil A) = 0.
Proof. done. Qed.

Lemma zlen_cons {A} (x : A) l : zlen (x :: l) = 1 + zlen l.
Proof. unfold zlen. simpl. lia. Qed.

Definition byte_Z (b : byte) : Z := Z.of_N (Byte.to_N b).
Definition Z_byte (z : Z) : byte := default x00 (Byte.of_N (Z.to_N (z mod 256))).

Lemma byte_Z_range b : 0 <= byte_Z b < 256.
Proof.
  unfold byte_Z. pose proof (Byte.to_N_bounded b). lia.
Qed.

Lemma byte_Z_Z_byte z : byte_Z (Z_byte z) = z mod 256.
Proof.
  unfold byte_Z, Z_byte. assert (0 <= z mod 256 < 256) by (apply Z.mod_pos_bound; lia).
  destruct (Byte.of_N (Z.to_N (z mod 256))) as [b|] eqn:E; simpl.
  - apply Byte.to_of_N in E. lia.
  - apply Byte.of_N_None_iff in E. lia.
Qed.

Lemma Z_byte_byte_Z b : Z_byte (byte_Z b) = b.
Proof.
  unfold Z_byte, byte_Z. pose proof (Byte.to_N_bounded b).
  rewrite Z.mod_small by lia. rewrite N2Z.id, Byte.of_to_N. done.
Qed.

Lemma byte_Z_inj b1 b2 : byte_Z b1 = byte_Z b2 → b1 = b2.
Proof. intros E. by rewrite <-(Z_byte_byte_Z b1), E, Z_byte_byte_Z. Qed.

(** ** Slices: [payload[offset:offset + size]] for an in-range offset *)
Definition slice (off len : Z) (l : bytes) : bytes :=
  take (Z.to_nat len) (drop (Z.to_nat off) l).

Lemma length_slice off len l :
  0 <= off → 0 <= len → off + len <= zlen l → zlen (slice off len l) = len.
Proof. unfold slice, zlen. intros. rewrite length_take, length_drop. lia. Qed.

Lemma slice_app_l off len l1 l2 :
  0 <= off → 0 <= len → off + len <= zlen l1 → slice off len (l1 ++ l2) = slice off len l1.
Proof.
  unfold slice, zlen. intros. rewrite drop_app_le by lia. rewrite take_app_le; [done|].
  rewrite length_drop. lia.
Qed.

Lemma slice_app_r off len l1 l2 :
  zlen l1 <= off → slice off len (l1 ++ l2) = slice (off - zlen l1) len l2.
Proof.
  unfold slice, zlen. intros. rewrite drop_app_ge by lia.
  by replace (Z.to_nat (off - Z.of_nat (length l1))) with (Z.to_nat off - length l1)%nat by lia.
Qed.

Lemma slice_0 len l : zlen l = len → slice 0 len l = l.
Proof. unfold slice, zlen. intros <-. rewrite Nat2Z.id, take_ge; done. Qed.

Lemma slice_0_app l1 l2 : slice 0 (zlen l1) (l1 ++ l2) = l1.
Proof. unfold slice, zlen. rewrite Nat2Z.id. simpl. rewrite drop_0. apply take_app_length. Qed.

Lemma slice_at off len l1 l2 l3 :
  off = zlen l1 → len = zlen l2 → slice off len (l1 ++ l2 ++ l3) = l2.
Proof.
  intros -> ->. rewrite slice_app_r by lia. rewrite Z.sub_diag. apply slice_0_app.
Qed.

Lemma slice_slice o1 n1 o2 n2 l :
  0 <= o1 → 0 <= o2 → 0 <= n2 → o2 + n2 <= n1 →
  slice o2 n2 (slice o1 n1 l) = slice (o1 + o2) n2 l.
Proof.
  unfold slice. intros. rewrite skipn_firstn_comm, take_take, drop_drop.
  f_equal; [lia|]. f_equal. lia.
Qed.

(** ** Integer codecs *)
Fixpoint le_decode (bs : bytes) : Z :=
  match bs with [] => 0 | b :: bs => byte_Z b + 256 * le_decode bs end.

Fixpoint le_encode (n : nat) (z : Z) : bytes :=
  match n with O => [] | S n => Z_byte z :: le_encode n (z / 256) end.

Inductive endian := LE | BE.

#[export] Instance endian_eq_dec : EqDecision endian.
Proof. solve_decision. Defined.

(** [struct.unpack("<I", bs)] and friends: the width is the length of [bs]. *)
Definition decode (e : endian) (bs : bytes) : Z :=
  match e with LE => le_decode bs | BE => le_decode (reverse bs) end.

(** [struct.pack("<I", z)] for [z] in range. *)
Definition encode (e : endian) (n : nat) (z : Z) : bytes :=
  match e with LE => le_encode n z | BE => reverse (le_encode n z) end.

Lemma length_le_encode n z : length (le_encode n z) = n.
Proof. revert z. induction n; intros; simpl; auto. Qed.

Lemma length_encode e n z : length (encode e n z) = n.
Proof. destruct e; simpl; rewrite ?length_reverse; apply length_le_encode. Qed.

Lemma zlen_encode e n z : zlen (encode e n z) = Z.of_nat n.
Proof. unfold zlen. by rewrite length_encode. Qed.

Lemma le_decode_range bs : 0 <= le_decode bs < 256 ^ zlen bs.
Proof.
  unfold zlen. induction bs as [|b bs IH]; simpl length; simpl le_decode; [simpl; lia|].
  rewrite Nat2Z.inj_succ, Z.pow_succ_r by lia. pose proof (byte_Z_range b). nia.
Qed.

Lemma decode_range e bs : 0 <= decode e bs < 256 ^ zlen bs.
Proof.
  destruct e; simpl; [apply le_decode_range|].
  replace (zlen bs) with (zlen (reverse bs)) by (unfold zlen; by rewrite length_reverse).
  apply le_decode_range.
Qed.

Lemma le_decode_encode n z : le_decode (le_encode n z) = z mod 256 ^ Z.of_nat n.
Proof.
  revert z. induction n as [|n IH]; intros z.
  { simpl. by rewrite Z.mod_1_r. }
  cbn [le_encode le_decode]. rewrite IH, byte_Z_Z_byte, Nat2Z.inj_succ, Z.pow_succ_r by lia.
  rewrite Z.rem_mul_r by lia. lia.
Qed.

Lemma decode_encode e n z : 0 <= z < 256 ^ Z.of_nat n → decode e (encode e n z) = z.
Proof.
  intros. destruct e; simpl; rewrite ?reverse_involutive, le_decode_encode, Z.mod_small; done.
Qed.

Lemma le_encode_decode bs : le_encode (length bs) (le_decode bs) = bs.
Proof.
  induction bs as [|b bs IH]; [done|]. cbn [length le_encode le_decode].
  pose proof (byte_Z_range b). f_equal.
  - apply byte_Z_inj. rewrite byte_Z_Z_byte, Z.mul_comm, Z.mod_add by lia.
    by apply Z.mod_small.
  - rewrite Z.mul_comm, Z.div_add, Z.div_small by lia. by rewrite Z.add_0_l.
Qed.

Lemma encode_decode e n bs : length bs = n → encode e n (decode e bs) = bs.
Proof.
  intros <-. destruct e; simpl; [apply le_encode_decode|].
  rewrite <-(length_reverse bs), le_encode_decode. apply reverse_involutive.
Qed.

Lemma le_decode_inj bs1 bs2 :
  length bs1 = length bs2 → le_decode bs1 = le_decode bs2 → bs1 = bs2.
Proof.
  intros Hl Hd. by rewrite <-(le_encode_decode bs1), Hl, Hd, le_encode_decode.
Qed.

(** [data.find(b"\0")] restricted to the bytes given; [None] stands for -1. *)
Fixpoint find_zero (bs : bytes) : option nat :=
  match bs with
  | [] => None
  | b :: bs => if decide (b = x00) then Some O else S <$> find_zero bs
  end.

Lemma find_zero_Some bs n :
  find_zero bs = Some n ↔ ∃ r, bs = take n bs ++ x00 :: r ∧ length (take n bs) = n ∧ x00 ∉ take n bs.
Proof.
  revert n. induction bs as [|b bs IH]; intros n; simpl.
  { split; [done|]. intros (r & Hr & _). destruct n; discriminate Hr. }
  case_decide as Hb.
  - subst. split.
    + intros [= <-]. exists bs. simpl. split_and!; [done|done|set_solver].
    + intros (r & Hr & Hl & Hn). destruct n as [|n]; [done|]. simpl in Hn. set_solver.
  - rewrite fmap_Some. split.
    + intros (m & Hm & ->). apply IH in Hm as (r & Hr & Hl & Hn). exists r. simpl.
      split_and!; [by rewrite Hr at 1|by rewrite Hl|set_solver].
    + intros (r & Hr & Hl & Hn). destruct n as [|n]; simpl in *; [congruence|].
      exists n. split; [|done]. apply IH. exists r. split_and!; [congruence|lia|set_solver].
Qed.

Lemma find_zero_app s r : x00 ∉ s → find_zero (s ++ x00 :: r) = Some (length s).
Proof.
  induction s as [|b s IH]; simpl; intros Hn.
  - done.
  - rewrite decide_False by set_solver. rewrite IH by set_solver. done.
Qed.

(** ** [struct.unpack_from] and [struct.pack]

    A format with an explicit byte order is the list of the widths of its
    fields; such formats have no padding. *)
Definition calcsize (ws : list nat) : Z := foldr (λ w n, Z.of_nat w + n) 0 ws.

Fixpoint unpack (e : endian) (ws : list nat) (bs : bytes) : list Z :=
  match ws with
  | [] => []
  | w :: ws => decode e (take w bs) :: unpack e ws (drop w bs)
  end.

Definition unpack_from (e : endian) (ws : list nat) (data : bytes) (offset : Z) : list Z :=
  unpack e ws (drop (Z.to_nat offset) data).

Fixpoint pack (e : endian) (ws : list nat) (zs : list Z) : bytes :=
  match ws, zs with
  | w :: ws, z :: zs => encode e w z ++ pack e ws zs
  | _, _ => []
  end.

Lemma calcsize_nonneg ws : 0 <= calcsize ws.
Proof. unfold calcsize. induction ws; simpl; lia. Qed.

Lemma zlen_pack e ws zs : length zs = length ws → zlen (pack e ws zs) = calcsize ws.
Proof.
  revert zs. induction ws as [|w ws IH]; intros [|z zs] Hl; try done. cbn [pack calcsize foldr].
  rewrite zlen_app, zlen_encode. simpl in Hl. rewrite IH by lia. done.
Qed.

Lemma unpack_pack e ws zs r :
  Forall2 (λ w z, 0 <= z < 256 ^ Z.of_nat w) ws zs → unpack e ws (pack e ws zs ++ r) = zs.
Proof.
  induction 1 as [|w z ws zs Hz _ IH]; [done|]. cbn [pack unpack]. rewrite <-(assoc_L (++)).
  rewrite take_app_length', drop_app_length' by (by rewrite length_encode). by rewrite decode_encode, IH.
Qed.

Lemma unpack_from_pack e ws zs l r off :
  off = zlen l → Forall2 (λ w z, 0 <= z < 256 ^ Z.of_nat w) ws zs → unpack_from e ws (l ++ pack e ws zs ++ r) off = zs.
Proof.
  intros -> H. unfold unpack_from, zlen. rewrite Nat2Z.id, drop_app_length. by apply unpack_pack.
Qed.

Lemma unpack_range e ws bs : Forall2 (λ w z, 0 <= z < 256 ^ Z.of_nat w) ws (unpack e ws bs).
Proof.
  revert bs. induction ws as [|w ws IH]; intros bs; cbn [unpack]; constructor; [|apply IH].
  pose proof (decode_range e (take w bs)) as Hr. split; [lia|]. eapply Z.lt_le_trans; [apply Hr|].
  apply Z.pow_le_mono_r; [lia|]. unfold zlen. rewrite length_take. lia.
Qed.

Lemma zlen_replicate {A} n (x : A) : zlen (replicate n x) = Z.of_nat n.
Proof. unfold zlen. by rewrite length_replicate. Qed.

Lemma drop_zlen {A} n (l r : list A) : n = zlen l → drop (Z.to_nat n) (l ++ r) = r.
Proof. intros ->. unfold zlen. by rewrite Nat2Z.id, drop_app_length. Qed.

Lemma zlen_fmap {A B} (f : A → B) l : zlen (f <$> l) = zlen l.
Proof. unfold zlen. by rewrite length_fmap. Qed.

Lemma drop_S_app_zeros (s : bytes) n :
  existsb (λ b, negb (bool_decide (b = x00))) (drop (S (length s)) (s ++ x00 :: replicate n x00)) = false.
Proof.
  rewrite drop_app_ge by lia. replace (S (length s) - length s)%nat with 1%nat by lia. simpl.
  rewrite drop_0. induction n; [done|]. simpl. by rewrite IHn.
Qed.
