(* ===== verification/PyString.v ===== *)
(** * Python [str]

    A Python [str] is represented by its UTF-8 (file-system) encoding, a Rocq
    [string] of bytes: [os.fsencode] is then the identity on the underlying
    bytes, the order of code points is the order of the bytes, and splitting
    at or searching for an ASCII character acts on the bytes directly.  [len]
    counts code points, that is, the bytes that do not continue a UTF-8
    sequence. *)
From S2P Require Import Prelude PyBytes.
From Stdlib Require Import Ascii.
Local Open Scope Z_scope.

(** ** Encodings *)
Definition fsencode (s : string) : bytes := String.list_byte_of_string s.
Definition fsdecode (bs : bytes) : string := String.string_of_list_byte bs.

Lemma fsdecode_fsencode s : fsdecode (fsencode s) = s.
Proof. apply String.string_of_list_byte_of_string. Qed.

Lemma fsencode_fsdecode bs : fsencode (fsdecode bs) = bs.
Proof. apply String.list_byte_of_string_of_list_byte. Qed.

Lemma fsencode_inj s1 s2 : fsencode s1 = fsencode s2 → s1 = s2.
Proof. intros E. by rewrite <-(fsdecode_fsencode s1), E, fsdecode_fsencode. Qed.

Lemma length_fsencode s : length (fsencode s) = String.length s.
Proof. unfold fsencode, String.list_byte_of_string. induction s; simpl; auto. Qed.

Lemma fsencode_app s t : fsencode (s +:+ t) = fsencode s ++ fsencode t.
Proof.
  unfold fsencode, String.list_byte_of_string. induction s as [|a s IH]; simpl; [done|].
  by rewrite IH.
Qed.

Definition in_range (lo hi : Z) (b : byte) : bool :=
  bool_decide (lo <= byte_Z b) && bool_decide (byte_Z b <= hi).
Definition utf8_cont : byte → bool := in_range 128 191.

(** The byte sequences [bytes.decode("utf-8")] accepts. *)
Fixpoint utf8_valid (bs : bytes) : bool :=
  match bs with
  | [] => true
  | b :: r =>
      if in_range 0 127 b then utf8_valid r
      else match r with
      | [] => false
      | c1 :: r1 =>
          if in_range 194 223 b then utf8_cont c1 && utf8_valid r1
          else match r1 with
          | [] => false
          | c2 :: r2 =>
              let second lo hi := in_range lo hi c1 && utf8_cont c2 in
              if in_range 224 224 b then second 160 191 && utf8_valid r2
              else if in_range 237 237 b then second 128 159 && utf8_valid r2
              else if in_range 225 239 b then second 128 191 && utf8_valid r2
              else match r2 with
              | [] => false
              | c3 :: r3 =>
                  let tail := utf8_cont c2 && utf8_cont c3 && utf8_valid r3 in
                  if in_range 240 240 b then in_range 144 191 c1 && tail
                  else if in_range 241 243 b then in_range 128 191 c1 && tail
                  else if in_range 244 244 b then in_range 128 143 c1 && tail
                  else false
              end
          end
      end
  end.

Definition decode_utf8 (bs : bytes) : res string :=
  if utf8_valid bs then Ok (fsdecode bs) else Err UnicodeError.

Definition decode_ascii (bs : bytes) : res string :=
  if forallb (in_range 0 127) bs then Ok (fsdecode bs) else Err UnicodeError.

(** [len(s)] in code points. *)
Definition py_len (s : string) : Z :=
  zlen (List.filter (λ b, negb (utf8_cont b)) (fsencode s)).

(** ** Searching, splitting and joining *)
Fixpoint str_any (p : ascii → bool) (s : string) : bool :=
  match s with EmptyString => false | String a s => p a || str_any p s end.
Fixpoint str_all (p : ascii → bool) (s : string) : bool :=
  match s with EmptyString => true | String a s => p a && str_all p s end.

(** [c in s] for a one-character string *)
Definition str_mem (c : ascii) (s : string) : bool := str_any (λ a, bool_decide (a = c)) s.

Fixpoint str_split (c : ascii) (s : string) : list string :=
  match s with
  | EmptyString => [EmptyString]
  | String a s =>
      if bool_decide (a = c) then EmptyString :: str_split c s
      else match str_split c s with
           | p :: ps => String a p :: ps
           | [] => [String a EmptyString]
           end
  end.

Fixpoint str_join (sep : string) (l : list string) : string :=
  match l with
  | [] => EmptyString
  | x :: [] => x
  | x :: l => x +:+ sep +:+ str_join sep l
  end.

Fixpoint startswith (p s : string) : bool :=
  match p, s with
  | EmptyString, _ => true
  | String a p, String b s => bool_decide (a = b) && startswith p s
  | _, _ => false
  end.

Fixpoint str_drop (n : nat) (s : string) : string :=
  match n, s with
  | O, _ => s
  | S n, EmptyString => EmptyString
  | S n, String _ s => str_drop n s
  end.

Definition endswith (p s : string) : bool :=
  bool_decide (String.length p <= String.length s)%nat &&
  bool_decide (str_drop (String.length s - String.length p) s = p).

(** stdpp makes [String.append] opaque to [simpl]; these are its equations. *)
Lemma str_append_nil_l t : EmptyString +:+ t = t.
Proof. done. Qed.

Lemma str_append_cons a s t : String a s +:+ t = String a (s +:+ t).
Proof. done. Qed.

Create Rewrite HintDb str_append.
#[export] Hint Rewrite str_append_nil_l str_append_cons : str_append.
Ltac str_simpl := autorewrite with str_append; simpl.
Ltac str_simpl_in H := autorewrite with str_append in H; simpl in H.

Lemma str_any_app p s t : str_any p (s +:+ t) = str_any p s || str_any p t.
Proof. induction s as [|a s IH]; str_simpl; [done|]. by rewrite IH, orb_assoc. Qed.

Lemma str_all_app p s t : str_all p (s +:+ t) = str_all p s && str_all p t.
Proof. induction s as [|a s IH]; str_simpl; [done|]. by rewrite IH, andb_assoc. Qed.

Lemma str_mem_app c s t : str_mem c (s +:+ t) = str_mem c s || str_mem c t.
Proof. apply str_any_app. Qed.

Lemma str_length_app s t : String.length (s +:+ t) = (String.length s + String.length t)%nat.
Proof. induction s as [|a s IH]; str_simpl; [done|]. by rewrite IH. Qed.

Lemma str_split_not_nil c s : str_split c s ≠ [].
Proof.
  destruct s as [|a s]; simpl; [done|]. case_bool_decide; [done|]. by destruct (str_split c s).
Qed.

Lemma str_join_cons sep x l :
  l ≠ [] → str_join sep (x :: l) = x +:+ sep +:+ str_join sep l.
Proof. by destruct l. Qed.

Lemma str_join_split c s : str_join (String c EmptyString) (str_split c s) = s.
Proof.
  induction s as [|a s IH]; simpl; [done|].
  pose proof (str_split_not_nil c s) as Hn. case_bool_decide as Ha.
  - subst. rewrite str_join_cons by done. str_simpl. by rewrite IH.
  - destruct (str_split c s) as [|p ps] eqn:E; [done|].
    destruct ps as [|q ps]; [simpl in *; by rewrite IH|].
    rewrite str_join_cons in IH |- * by done.
    autorewrite with str_append in IH |- *. by rewrite IH.
Qed.

(** [str_split] is injective: the path determines and is determined by its
    components. *)
Lemma str_split_inj c s t : str_split c s = str_split c t → s = t.
Proof. intros E. by rewrite <-(str_join_split c s), E, str_join_split. Qed.

Lemma str_split_no_sep c s : str_mem c s = false → str_split c s = [s].
Proof.
  induction s as [|a s IH]; simpl; [done|]. unfold str_mem. simpl.
  intros [Ha Hs]%orb_false_iff. rewrite Ha. rewrite IH; done.
Qed.

Lemma str_split_app c s t :
  str_mem c s = false →
  str_split c (s +:+ String c EmptyString +:+ t) = s :: str_split c t.
Proof.
  induction s as [|a s IH]; intros Hs.
  - str_simpl. by rewrite bool_decide_true.
  - unfold str_mem in Hs. simpl in Hs. apply orb_false_iff in Hs as [Ha Hs].
    specialize (IH Hs). autorewrite with str_append in IH |- *. simpl. by rewrite Ha, IH.
Qed.

Lemma str_split_join c l :
  l ≠ [] → (∀ x, x ∈ l → str_mem c x = false) →
  str_split c (str_join (String c EmptyString) l) = l.
Proof.
  induction l as [|x l IH]; [done|]. intros _ Hall.
  destruct l as [|y l].
  - simpl. apply str_split_no_sep. set_solver.
  - rewrite str_join_cons by done. rewrite str_split_app by set_solver.
    rewrite IH; [done|done|set_solver].
Qed.

Lemma str_split_elem c s x : x ∈ str_split c s → str_mem c x = false.
Proof.
  revert x. induction s as [|a s IH]; intros x; simpl; [set_solver|].
  case_bool_decide as Ha; [set_solver|].
  destruct (str_split c s) as [|p ps]; [intros ->%list_elem_of_singleton|].
  { unfold str_mem. simpl. by rewrite bool_decide_false. }
  intros [->|Hx]%elem_of_cons; [|set_solver].
  unfold str_mem. simpl. rewrite bool_decide_false by done. apply IH. set_solver.
Qed.

Lemma str_split_any c p s x : str_any p s = false → x ∈ str_split c s → str_any p x = false.
Proof.
  revert x. induction s as [|a s IH]; intros x Hs; simpl; [set_solver|].
  simpl in Hs. apply orb_false_iff in Hs as [Ha Hs]. case_bool_decide; [set_solver|].
  destruct (str_split c s) as [|q qs]; [intros ->%list_elem_of_singleton; simpl; by rewrite Ha|].
  intros [->|Hx]%elem_of_cons; [|set_solver]. simpl. rewrite Ha. apply IH; [done|set_solver].
Qed.

Lemma startswith_spec p s : startswith p s = true ↔ ∃ t, s = p +:+ t.
Proof.
  revert s. induction p as [|a p IH]; intros s; simpl.
  { split; [by exists s|done]. }
  destruct s as [|b s]; [split; [done|intros [t Ht]; by str_simpl_in Ht]|].
  rewrite andb_true_iff, bool_decide_eq_true, IH. split.
  - intros [-> [t ->]]. by exists t.
  - intros [t Ht]. str_simpl_in Ht. injection Ht as -> ->. eauto.
Qed.

Lemma str_append_inj s t1 t2 : s +:+ t1 = s +:+ t2 → t1 = t2.
Proof. induction s as [|a s IH]; str_simpl; [done|]. intros [= ?]; auto. Qed.

Lemma str_append_nil s : s +:+ EmptyString = s.
Proof. induction s as [|a s IH]; str_simpl; congruence. Qed.

Lemma str_append_assoc s t u : (s +:+ t) +:+ u = s +:+ (t +:+ u).
Proof. induction s as [|a s IH]; str_simpl; congruence. Qed.

(** ** Character classes of the regular expressions *)
Definition chr_in (lo hi c : ascii) : bool :=
  (Ascii.leb lo c) && (Ascii.leb c hi).

Definition is_digit (c : ascii) : bool := chr_in "0" "9" c.
Definition is_lower (c : ascii) : bool := chr_in "a" "z" c.
Definition is_upper (c : ascii) : bool := chr_in "A" "Z" c.
Definition is_alnum (c : ascii) : bool := is_digit c || is_lower c || is_upper c.
Definition chr_of (set : string) (c : ascii) : bool := str_mem c set.
Definition is_lower_hex (c : ascii) : bool := is_digit c || chr_in "a" "f" c.

(** [re.fullmatch(r"[0-9a-f]{64}", s)] *)
Definition is_sha256_hex (s : string) : bool :=
  bool_decide (String.length s = 64%nat) && str_all is_lower_hex s.

(** ** Decimal integers *)
Definition digit_val (c : ascii) : Z := Z.of_N (Ascii.N_of_ascii c) - 48.

Fixpoint dec_acc (acc : Z) (s : string) : Z :=
  match s with EmptyString => acc | String c s => dec_acc (10 * acc + digit_val c) s end.

(** [int(s)] for a nonempty string of ASCII digits *)
Definition dec_value (s : string) : Z := dec_acc 0 s.

Definition digit_chr (d : Z) : ascii := Ascii.ascii_of_N (Z.to_N (48 + d)).

Fixpoint dec_print_go (fuel : nat) (z : Z) (acc : string) : string :=
  match fuel with
  | O => acc
  | S fuel =>
      let acc := String (digit_chr (z mod 10)) acc in
      if bool_decide (z < 10) then acc else dec_print_go fuel (z / 10) acc
  end.

(** [str(z)] for [z >= 0]: the fuel is the bit length, which bounds the
    number of decimal digits. *)
Definition dec_print (z : Z) : string := dec_print_go (S (Z.to_nat (Z.log2 z))) z EmptyString.

Lemma digit_val_chr d : 0 <= d < 10 → digit_val (digit_chr d) = d.
Proof. intros. unfold digit_val, digit_chr. rewrite Ascii.N_ascii_embedding; lia. Qed.

Lemma is_digit_chr d : 0 <= d < 10 → is_digit (digit_chr d) = true.
Proof.
  intros. assert (d = 0 ∨ d = 1 ∨ d = 2 ∨ d = 3 ∨ d = 4 ∨ d = 5 ∨ d = 6 ∨ d = 7 ∨ d = 8 ∨ d = 9)
    as Hd by lia.
  by repeat destruct Hd as [->|Hd]; subst.
Qed.

Lemma dec_print_go_step fuel z :
  0 <= z < 2 ^ Z.of_nat (S fuel) → 10 <= z → 0 <= z / 10 < 2 ^ Z.of_nat fuel.
Proof.
  rewrite Nat2Z.inj_succ, Z.pow_succ_r by lia. intros. split.
  - apply Z.div_pos; lia.
  - apply Z.div_lt_upper_bound; lia.
Qed.

Lemma dec_acc_print_go fuel z acc :
  0 <= z < 2 ^ Z.of_nat fuel → (0 < fuel)%nat →
  dec_acc 0 (dec_print_go fuel z acc) = dec_acc z acc.
Proof.
  revert z acc. induction fuel as [|fuel IH]; intros z acc Hz Hf; [lia|]. cbn [dec_print_go].
  assert (0 <= z mod 10 < 10) by (apply Z.mod_pos_bound; lia).
  case_bool_decide as Hlt; cbn [dec_acc].
  - rewrite digit_val_chr, Z.mod_small by lia. by rewrite Z.mul_0_r, Z.add_0_l.
  - pose proof (dec_print_go_step fuel z Hz ltac:(lia)) as Hs.
    destruct fuel as [|fuel]; [simpl in Hz; lia|].
    rewrite IH by (done || lia). cbn [dec_acc]. rewrite digit_val_chr by done.
    f_equal. pose proof (Z.div_mod z 10). lia.
Qed.

Lemma dec_value_print z : 0 <= z → dec_value (dec_print z) = z.
Proof.
  intros Hz. unfold dec_value, dec_print. rewrite dec_acc_print_go; [done| |lia].
  split; [done|]. destruct (decide (z = 0)) as [->|]; [done|].
  rewrite Nat2Z.inj_succ, Z2Nat.id by apply Z.log2_nonneg. apply Z.log2_spec. lia.
Qed.

Lemma dec_print_go_digits fuel z acc :
  0 <= z → str_all is_digit acc = true → str_all is_digit (dec_print_go fuel z acc) = true.
Proof.
  revert z acc. induction fuel as [|fuel IH]; intros z acc Hz Hacc; [done|]. cbn [dec_print_go].
  assert (0 <= z mod 10 < 10) by (apply Z.mod_pos_bound; lia).
  case_bool_decide; [|apply IH; [apply Z.div_pos; lia|]];
    simpl; by rewrite is_digit_chr, Hacc.
Qed.

Lemma dec_print_digits z : 0 <= z → str_all is_digit (dec_print z) = true.
Proof. intros. by apply dec_print_go_digits. Qed.

Lemma dec_print_go_head fuel z acc :
  0 < z < 2 ^ Z.of_nat fuel → ∃ d r, 1 <= d <= 9 ∧ dec_print_go fuel z acc = String (digit_chr d) r.
Proof.
  revert z acc. induction fuel as [|fuel IH]; intros z acc Hz; [simpl in Hz; lia|]. cbn [dec_print_go].
  case_bool_decide.
  - exists z, acc. rewrite Z.mod_small by lia. split; [lia|done].
  - pose proof (dec_print_go_step fuel z ltac:(lia) ltac:(lia)). apply IH. split; [apply Z.div_str_pos; lia|lia].
Qed.

Lemma dec_print_head z : 0 < z → ∃ d r, 1 <= d <= 9 ∧ dec_print z = String (digit_chr d) r.
Proof.
  intros Hz. apply dec_print_go_head. split; [done|].
  rewrite Nat2Z.inj_succ, Z2Nat.id by apply Z.log2_nonneg. apply Z.log2_spec. lia.
Qed.

Lemma dec_print_go_length fuel z acc n :
  0 <= z < 10 ^ Z.of_nat (S n) → (String.length (dec_print_go fuel z acc) <= S n + String.length acc)%nat.
Proof.
  revert z acc n. induction fuel as [|fuel IH]; intros z acc n Hz; cbn [dec_print_go]; [lia|].
  case_bool_decide; [simpl; lia|]. destruct n as [|n]; [simpl in Hz; lia|].
  assert (0 <= z / 10 < 10 ^ Z.of_nat (S n)).
  { rewrite (Nat2Z.inj_succ (S n)), Z.pow_succ_r in Hz by lia. split; [apply Z.div_pos; lia|apply Z.div_lt_upper_bound; lia]. }
  etrans; [by apply IH|]. simpl. lia.
Qed.

Lemma dec_print_length z n : 0 <= z < 10 ^ Z.of_nat (S n) → (String.length (dec_print z) <= S n)%nat.
Proof. intros. unfold dec_print. etrans; [by apply dec_print_go_length|]. simpl. lia. Qed.

(** [sorted(set(l))]: code points sort as their UTF-8 bytes do. *)
Definition sorted_set (l : list string) : list string := merge_sort String.le (remove_dups l).

Lemma elem_of_sorted_set x l : x ∈ sorted_set l ↔ x ∈ l.
Proof. unfold sorted_set. by rewrite merge_sort_Permutation, elem_of_remove_dups. Qed.

Lemma str_drop_app s t : str_drop (String.length s) (s +:+ t) = t.
Proof. induction s as [|c s IH]; [by destruct t|]. by rewrite str_append_cons. Qed.

(** ** Parts of strings and character classes *)
Lemma str_all_impl (p q : ascii → bool) s : (∀ c, p c = true → q c = true) → str_all p s = true → str_all q s = true.
Proof. intros Hpq. induction s as [|c s IH]; [done|]. cbn. intros [Hc Hs]%andb_true_iff. rewrite (Hpq c Hc). by apply IH. Qed.
Lemma str_all_split p n s : str_all p s = str_all p (String.substring 0 n s) && str_all p (str_drop n s).
Proof.
  revert s. induction n as [|n IH]; intros s; [by destruct s|]. destruct s as [|c s]; [done|]. cbn. rewrite IH. by rewrite andb_assoc.
Qed.
Lemma str_drop_drop m n s : str_drop m (str_drop n s) = str_drop (n + m) s.
Proof. revert s. induction n as [|n IH]; intros s; [done|]. destruct s as [|c s]; [by destruct m|]. cbn. apply IH. Qed.
Lemma startswith_all p (q s : string) :
  startswith q s = true → str_all p q = true → str_all p (str_drop (String.length q) s) = true → str_all p s = true.
Proof. intros [t ->]%startswith_spec Hq. rewrite str_drop_app, str_all_app, Hq. done. Qed.

(** Inclusion of character classes, by looking at every character *)
Definition all_chars : list ascii := Ascii.ascii_of_nat <$> seq 0 256.
Lemma class_impl (p q : ascii → bool) s :
  forallb (λ c, implb (p c) (q c)) all_chars = true → str_all p s = true → str_all q s = true.
Proof.
  intros Hp. apply str_all_impl. intros c Hc. rewrite forallb_forall in Hp.
  specialize (Hp c). rewrite Hc in Hp. apply Hp. apply list_elem_of_In, list_elem_of_fmap. exists (Ascii.nat_of_ascii c).
  rewrite Ascii.ascii_nat_embedding. split; [done|]. apply elem_of_seq. pose proof (Ascii.nat_ascii_bounded c). lia.
Qed.
