(* ===== verification/PyValue.v ===== *)
(** * Python values of decoded JSON

    [value] is what [json.loads] builds: [None], booleans, arbitrary-size
    integers, binary floats, strings, lists and string-keyed dicts in insertion
    order.  The operations are those the validators use, with the exception
    each raises on a value of the wrong type: [==], [in], [<], subscription,
    [.get], [type(v) is int] and [set(v)]. *)
From S2P Require Import Prelude PyBytes PyString.
From Stdlib Require Import SpecFloat.
Local Open Scope Z_scope.

Inductive value :=
  | VNone
  | VBool (b : bool)
  | VInt (z : Z)
  | VFloat (f : spec_float)
  | VStr (s : string)
  | VList (l : list value)
  | VDict (d : list (string * value)).

Abbreviation dict := (list (string * value)).

(** ** Numbers: [True == 1 == 1.0], compared exactly *)
Inductive num := NInt (z : Z) | NInf (neg : bool) | NNan | NDyadic (m e : Z).

Definition num_of (v : value) : option num :=
  match v with
  | VBool b => Some (NInt (if b then 1 else 0))
  | VInt z => Some (NInt z)
  | VFloat (S754_zero _) => Some (NInt 0)
  | VFloat (S754_infinity s) => Some (NInf s)
  | VFloat S754_nan => Some NNan
  | VFloat (S754_finite s m e) => Some (NDyadic (if s then Z.neg m else Z.pos m) e)
  | _ => None
  end.

Definition dyadic (n : num) : Z * Z :=
  match n with NInt z => (z, 0) | NDyadic m e => (m, e) | _ => (0, 0) end.

(** Both mantissas brought to the smaller exponent. *)
Definition align (a b : num) : Z * Z :=
  let '(m1, e1) := dyadic a in let '(m2, e2) := dyadic b in
  if bool_decide (e1 <= e2) then (m1, m2 * 2 ^ (e2 - e1)) else (m1 * 2 ^ (e1 - e2), m2).

Definition num_eqb (a b : num) : bool :=
  match a, b with
  | NNan, _ | _, NNan => false
  | NInf s, NInf t => bool_decide (s = t)
  | NInf _, _ | _, NInf _ => false
  | _, _ => let '(x, y) := align a b in bool_decide (x = y)
  end.

Definition num_ltb (a b : num) : bool :=
  match a, b with
  | NNan, _ | _, NNan => false
  | NInf s, NInf t => s && negb t
  | NInf s, _ => s
  | _, NInf t => negb t
  | _, _ => let '(x, y) := align a b in bool_decide (x < y)
  end.

(** ** Dictionaries *)
Fixpoint dget {V} (k : string) (d : list (string * V)) : option V :=
  match d with [] => None | (k', v) :: d => if bool_decide (k = k') then Some v else dget k d end.

(** [d[k] = v]: an existing key keeps its place, a new one goes last. *)
Fixpoint dset {V} (k : string) (v : V) (d : list (string * V)) : list (string * V) :=
  match d with
  | [] => [(k, v)]
  | (k', w) :: d => if bool_decide (k = k') then (k, v) :: d else (k', w) :: dset k v d
  end.

Definition dkeys {V} (d : list (string * V)) : list string := d.*1.

(** [set(d) == {k1, ..., kn}] *)
Definition keys_are {V} (ks : list string) (d : list (string * V)) : bool :=
  forallb (λ k, bool_decide (k ∈ ks)) (dkeys d) && forallb (λ k, bool_decide (k ∈ dkeys d)) ks.

(** ** Equality [v == w] *)
Fixpoint py_eq (v w : value) {struct v} : bool :=
  match v, w with
  | VNone, VNone => true
  | VStr s, VStr t => bool_decide (s = t)
  | VList l, VList m =>
      (fix go l m := match l, m with
        | [], [] => true
        | x :: l, y :: m => py_eq x y && go l m
        | _, _ => false
        end) l m
  | VDict d, VDict e =>
      bool_decide (length d = length e) &&
      (fix go d := match d with
        | [] => true
        | (k, x) :: d => match dget k e with Some y => py_eq x y | None => false end && go d
        end) d
  | _, _ => match num_of v, num_of w with Some a, Some b => num_eqb a b | _, _ => false end
  end.

Definition hashable (v : value) : bool :=
  match v with VList _ | VDict _ => false | _ => true end.

(** [type(v) is int], [v is True], [v is False], [isinstance(v, str)], ... *)
Definition is_int (v : value) : bool := match v with VInt _ => true | _ => false end.
Definition is_True (v : value) : bool := match v with VBool true => true | _ => false end.
Definition is_False (v : value) : bool := match v with VBool false => true | _ => false end.
Definition is_bool (v : value) : bool := match v with VBool _ => true | _ => false end.
Definition is_str (v : value) : bool := match v with VStr _ => true | _ => false end.
Definition is_list (v : value) : bool := match v with VList _ => true | _ => false end.
Definition is_dict (v : value) : bool := match v with VDict _ => true | _ => false end.

(** [v[k]] with a string key *)
Definition getitem (v : value) (k : string) : res value :=
  match v with
  | VDict d => match dget k d with Some x => Ok x | None => Err KeyError end
  | _ => Err TypeError
  end.

(** [v.get(k, default)] *)
Definition get_or (v : value) (k : string) (dflt : value) : res value :=
  match v with
  | VDict d => Ok (default dflt (dget k d))
  | _ => Err AttributeError
  end.
Definition get (v : value) (k : string) : res value := get_or v k VNone.

(** [v.items()] *)
Definition items (v : value) : res dict :=
  match v with VDict d => Ok d | _ => Err AttributeError end.

(** The characters of a string, as iterating over it yields them: a byte that
    continues a UTF-8 sequence stays with the bytes before it. *)
Fixpoint str_chars (s : string) : list string :=
  match s with
  | EmptyString => []
  | String a s =>
      match str_chars s with
      | (String b _ as c) :: cs =>
          if utf8_cont (Ascii.byte_of_ascii b) then String a c :: cs else String a EmptyString :: c :: cs
      | cs => String a EmptyString :: cs
      end
  end.

(** [set(v)]: the elements, all of which have to be hashable. *)
Definition py_set (v : value) : res (list value) :=
  match v with
  | VList l => if forallb hashable l then Ok l else Err TypeError
  | VDict d => Ok (VStr <$> dkeys d)
  | VStr s => Ok (VStr <$> str_chars s)
  | _ => Err TypeError
  end.

(** [set(l) <= set(m)] and [set(l) == set(m)] on lists of strings *)
Definition subset (l m : list string) : bool := forallb (λ x, bool_decide (x ∈ m)) l.
Definition same_set (l m : list string) : bool := subset l m && subset m l.

Lemma subset_spec l m : subset l m = true ↔ ∀ x, x ∈ l → x ∈ m.
Proof. unfold subset. rewrite forallb_forall. setoid_rewrite <-list_elem_of_In. setoid_rewrite bool_decide_eq_true. done. Qed.
Lemma same_set_spec l m : same_set l m = true ↔ ∀ x, x ∈ l ↔ x ∈ m.
Proof. unfold same_set. rewrite andb_true_iff, !subset_spec. firstorder. Qed.

Definition py_subset (l m : list value) : bool := forallb (λ x, existsb (py_eq x) m) l.

(** [w in v] *)
Definition py_in (w v : value) : res bool :=
  match v with
  | VList l => Ok (existsb (py_eq w) l)
  | VDict d => if hashable w then Ok (existsb (λ k, py_eq w (VStr k)) (dkeys d)) else Err TypeError
  | VStr s =>
      match w with
      | VStr t => Ok (existsb (λ n, startswith t (str_drop n s)) (seq 0 (S (String.length s))))
      | _ => Err TypeError
      end
  | _ => Err TypeError
  end.

(** [v < w], for numbers; strings and lists are ordered too. *)
Fixpoint py_lt (v w : value) {struct v} : res bool :=
  match v, w with
  | VStr s, VStr t => Ok (String.ltb s t)
  | VList l, VList m =>
      (fix go l m := match l, m with
        | _, [] => Ok false
        | [], _ :: _ => Ok true
        | x :: l, y :: m => if py_eq x y then go l m else py_lt x y
        end) l m
  | _, _ => match num_of v, num_of w with Some a, Some b => Ok (num_ltb a b) | _, _ => Err TypeError end
  end.

(** [v >= w] on numbers: false, not the negation of [<], when a NaN is met. *)
Definition int_ge (z : Z) (w : value) : res bool :=
  match num_of w with
  | Some n => Ok (num_ltb n (NInt z) || num_eqb n (NInt z))
  | None => Err TypeError
  end.

(** ** Laws *)
Lemma num_eqb_int a b : num_eqb (NInt a) (NInt b) = bool_decide (a = b).
Proof. simpl. unfold align. simpl. by rewrite Z.mul_1_r. Qed.

Lemma num_ltb_int a b : num_ltb (NInt a) (NInt b) = bool_decide (a < b).
Proof. simpl. unfold align. simpl. by rewrite Z.mul_1_r. Qed.

Lemma py_eq_str v s : py_eq v (VStr s) = true ↔ v = VStr s.
Proof.
  split; [|by intros ->; simpl; rewrite bool_decide_eq_true].
  destruct v as [| | |[]| | |]; simpl; try done. by intros ->%bool_decide_eq_true.
Qed.

Lemma py_eq_str_l v s : py_eq (VStr s) v = true ↔ v = VStr s.
Proof.
  split; [|by intros ->; simpl; rewrite bool_decide_eq_true].
  destruct v as [| | |[]| | |]; simpl; try done. by intros ->%bool_decide_eq_true.
Qed.

Lemma py_eq_int a b : py_eq (VInt a) (VInt b) = bool_decide (a = b).
Proof. apply num_eqb_int. Qed.

Lemma py_lt_int a b : py_lt (VInt a) (VInt b) = Ok (bool_decide (a < b)).
Proof. simpl. f_equal. apply num_ltb_int. Qed.

Lemma int_ge_int a b : int_ge a (VInt b) = Ok (bool_decide (b <= a)).
Proof.
  change (Ok (num_ltb (NInt b) (NInt a) || num_eqb (NInt b) (NInt a)) =
          Ok (bool_decide (b <= a))).
  rewrite num_ltb_int, num_eqb_int. f_equal.
  repeat case_bool_decide; try done; lia.
Qed.

Lemma dget_Some_elem {V} k (d : list (string * V)) v : dget k d = Some v → (k, v) ∈ d.
Proof.
  induction d as [|[k' w] d IH]; simpl; [done|]. case_bool_decide as Hk; [|set_solver].
  intros [= ->]. subst. set_solver.
Qed.

Lemma dget_None {V} k (d : list (string * V)) : dget k d = None ↔ k ∉ dkeys d.
Proof.
  unfold dkeys. induction d as [|[k' w] d IH]; simpl; [set_solver|].
  case_bool_decide as Hk; subst; [set_solver|]. rewrite IH. set_solver.
Qed.

Lemma elem_of_dkeys {V} k (d : list (string * V)) : k ∈ dkeys d ↔ ∃ v, dget k d = Some v.
Proof.
  split.
  - intros Hk. destruct (dget k d) as [v|] eqn:Hd; [by exists v|]. by apply dget_None in Hd.
  - intros [v Hv%dget_Some_elem]. apply list_elem_of_fmap. by exists (k, v).
Qed.

Lemma dget_NoDup {V} k (d : list (string * V)) v : NoDup (dkeys d) → (k, v) ∈ d → dget k d = Some v.
Proof.
  unfold dkeys. induction d as [|[k' w] d IH]; simpl; [set_solver|].
  intros [Hn Hd]%NoDup_cons [Heq|Hin]%elem_of_cons.
  - simplify_eq. by rewrite bool_decide_true.
  - rewrite bool_decide_false; [auto|]. intros <-. apply Hn.
    apply list_elem_of_fmap. by exists (k, v).
Qed.

Lemma dget_dset {V} k (v : V) d k' : dget k' (dset k v d) = if bool_decide (k' = k) then Some v else dget k' d.
Proof.
  induction d as [|[j w] d IH]; simpl; [done|].
  destruct (bool_decide_reflect (k = j)) as [->|Hj]; simpl; [by repeat case_bool_decide|].
  rewrite IH. repeat case_bool_decide; congruence.
Qed.

Lemma elem_of_dset {V} k (v : V) d x : x ∈ dset k v d → x = (k, v) ∨ x ∈ d.
Proof.
  induction d as [|[k' v'] d IH]; cbn; [intros ->%list_elem_of_singleton; by left|]. case_bool_decide; rewrite !elem_of_cons; naive_solver.
Qed.

Lemma dget_dset_ne {V} k (v : V) d k' : k' ≠ k → dget k' (dset k v d) = dget k' d.
Proof. intros. rewrite dget_dset. by rewrite bool_decide_false. Qed.

Lemma dget_dset_eq {V} k (v : V) d : dget k (dset k v d) = Some v.
Proof. rewrite dget_dset. by rewrite bool_decide_true. Qed.

Lemma keys_are_spec {V} ks (d : list (string * V)) : keys_are ks d = true ↔ ∀ k, k ∈ dkeys d ↔ k ∈ ks.
Proof.
  unfold keys_are. rewrite andb_true_iff, !forallb_forall. split.
  - intros [H1 H2] k. specialize (H1 k). specialize (H2 k).
    rewrite <-!list_elem_of_In in *. split; intros Hk.
    + apply H1 in Hk. by apply bool_decide_eq_true in Hk.
    + apply H2 in Hk. by apply bool_decide_eq_true in Hk.
  - intros Hk. split; intros k; rewrite <-list_elem_of_In, bool_decide_eq_true; apply Hk.
Qed.

Lemma is_int_inv v : is_int v = true → ∃ z, v = VInt z.
Proof. destruct v; naive_solver. Qed.
Lemma is_str_inv v : is_str v = true → ∃ s, v = VStr s.
Proof. destruct v; naive_solver. Qed.
Lemma is_list_inv v : is_list v = true → ∃ l, v = VList l.
Proof. destruct v; naive_solver. Qed.
Lemma is_dict_inv v : is_dict v = true → ∃ d, v = VDict d.
Proof. destruct v; naive_solver. Qed.
Lemma is_True_inv v : is_True v = true → v = VBool true.
Proof. destruct v as [|[]| | | | |]; naive_solver. Qed.
Lemma is_False_inv v : is_False v = true → v = VBool false.
Proof. destruct v as [|[]| | | | |]; naive_solver. Qed.

Lemma getitem_dict v k x : getitem v k = Ok x ↔ ∃ d, v = VDict d ∧ dget k d = Some x.
Proof. destruct v; simpl; try naive_solver. case_match; naive_solver. Qed.

Lemma get_dict v k x : get v k = Ok x ↔ ∃ d, v = VDict d ∧ default VNone (dget k d) = x.
Proof. unfold get, get_or. destruct v; naive_solver. Qed.

Lemma getitem_Some k d x : dget k d = Some x → getitem (VDict d) k = Ok x.
Proof. simpl. by intros ->. Qed.

Lemma get_Some k d x : dget k d = Some x → get (VDict d) k = Ok x.
Proof. unfold get, get_or. by intros ->. Qed.

Lemma dget_app {V} k (d e : list (string * V)) :
  dget k (d ++ e) = match dget k d with Some v => Some v | None => dget k e end.
Proof. induction d as [|[k' v] d IH]; simpl; [done|]. by case_bool_decide. Qed.

Lemma dget_Permutation {V} k (d e : list (string * V)) :
  d ≡ₚ e → NoDup (dkeys d) → dget k d = dget k e.
Proof.
  intros Hp Hd. assert (NoDup (dkeys e)) as He by (unfold dkeys in *; by rewrite <-Hp).
  destruct (dget k e) as [v|] eqn:Hv.
  - apply dget_NoDup; [done|]. rewrite Hp. by apply dget_Some_elem.
  - apply dget_None. apply dget_None in Hv. unfold dkeys in *. by rewrite Hp.
Qed.

Lemma dkeys_dset {V} k (v : V) d :
  dkeys (dset k v d) = if bool_decide (k ∈ dkeys d) then dkeys d else dkeys d ++ [k].
Proof.
  induction d as [|[k' w] d IH]; [done|]. cbn [dset].
  destruct (bool_decide_reflect (k = k')) as [->|Hk].
  - rewrite bool_decide_true; [reflexivity|]. unfold dkeys. set_solver.
  - change (k' :: dkeys (dset k v d) = if bool_decide (k ∈ k' :: dkeys d) then k' :: dkeys d else k' :: dkeys d ++ [k]).
    rewrite IH. repeat case_bool_decide; set_solver.
Qed.

Lemma dset_new {V} k (v : V) d : k ∉ dkeys d → dset k v d = d ++ [(k, v)].
Proof.
  induction d as [|[k' v'] d IH]; [done|]. cbn. intros [Hk Hd]%not_elem_of_cons. rewrite bool_decide_eq_false_2 by congruence.
  by rewrite IH.
Qed.

(** ** Exceptions of the operations on values *)
Section RaisesValue.
Context (P : exn → Prop).

Lemma raises_getitem v k : P KeyError → P TypeError → raises P (getitem v k).
Proof. intros ??. unfold getitem. solve_raises. Qed.
Lemma raises_get_or v k d : P AttributeError → raises P (get_or v k d).
Proof. intros ?. unfold get_or. solve_raises. Qed.
Lemma raises_get v k : P AttributeError → raises P (get v k).
Proof. apply raises_get_or. Qed.
Lemma raises_items v : P AttributeError → raises P (items v).
Proof. intros ?. unfold items. solve_raises. Qed.
Lemma raises_py_set v : P TypeError → raises P (py_set v).
Proof. intros ?. unfold py_set. solve_raises. Qed.
Lemma raises_py_in w v : P TypeError → raises P (py_in w v).
Proof. intros ?. unfold py_in. solve_raises. Qed.
Lemma raises_int_ge n v : P TypeError → raises P (int_ge n v).
Proof. intros ?. unfold int_ge. solve_raises. Qed.
Lemma raises_py_lt v w : P TypeError → raises P (py_lt v w).
Proof.
  intros HP. revert v w. fix IH 1. intros v w. destruct v as [| | |?| |l|]; try solve [simpl; solve_raises].
  destruct w as [| | |?| |m|]; try solve [simpl; solve_raises].
  simpl. revert m. induction l as [|x l IHl]; intros [|y m]; try apply raises_ok.
  destruct (py_eq x y); [apply IHl|apply IH].
Qed.
End RaisesValue.

#[export] Hint Extern 2 (raises _ (getitem _ _)) => apply raises_getitem; done : omux.
#[export] Hint Extern 2 (raises _ (get_or _ _ _)) => apply raises_get_or; done : omux.
#[export] Hint Extern 2 (raises _ (get _ _)) => apply raises_get; done : omux.
#[export] Hint Extern 2 (raises _ (items _)) => apply raises_items; done : omux.
#[export] Hint Extern 2 (raises _ (py_set _)) => apply raises_py_set; done : omux.
#[export] Hint Extern 2 (raises _ (py_in _ _)) => apply raises_py_in; done : omux.
#[export] Hint Extern 2 (raises _ (int_ge _ _)) => apply raises_int_ge; done : omux.
#[export] Hint Extern 2 (raises _ (py_lt _ _)) => apply raises_py_lt; done : omux.
