(* ===== verification/PyText.v ===== *)
(** * Python [str] by characters, and the canonical JSON text of a value

    Methods of [str] whose meaning depends on whole characters: [isspace] and
    [split()], [splitlines()], the greedy runs of the regular expressions, and
    [json.dumps] with sorted keys and compact separators.  A character is the
    string of its UTF-8 bytes, as [str_chars] yields it. *)
From S2P Require Import Prelude PyBytes PyString PyValue.
From Stdlib Require Import Ascii.
Local Open Scope Z_scope.

Definition unchars (l : list string) : string := str_join EmptyString l.

(** The bytes of a character, as numbers *)
Definition codes (c : string) : list Z := byte_Z <$> fsencode c.

(** [c.isspace()], which is also [\s] on [str]: ASCII blanks and separators,
    U+0085, U+00A0, U+1680, U+2000 to U+200A, U+2028, U+2029, U+202F, U+205F
    and U+3000 *)
Definition is_space (c : string) : bool :=
  match codes c with
  | [a] => (bool_decide (9 <= a <= 13)) || (bool_decide (28 <= a <= 32))
  | [194; b] => bool_decide (b ∈ [133; 160])
  | [225; 154; 128] => true
  | [226; 128; b] => bool_decide (128 <= b <= 138) || bool_decide (b ∈ [168; 169; 175])
  | [226; 129; 159] => true
  | [227; 128; 128] => true
  | _ => false
  end.

(** A line boundary of [splitlines], a carriage return with a line feed being
    one: the separators among the blanks except the tabulator, U+001F, the
    space and the non-breaking ones *)
Definition is_break (c : string) : bool :=
  match codes c with
  | [a] => bool_decide (10 <= a <= 13) || bool_decide (28 <= a <= 30)
  | [194; 133] => true
  | [226; 128; b] => bool_decide (b ∈ [168; 169])
  | _ => false
  end.

(** The longest prefix whose elements satisfy [p], and the rest *)
Fixpoint span {A} (p : A → bool) (l : list A) : list A * list A :=
  match l with
  | [] => ([], [])
  | x :: l' => if p x then let '(a, b) := span p l' in (x :: a, b) else ([], l)
  end.

(** [s.split()] *)
Fixpoint words_go (l : list string) (word : list string) : list string :=
  let flush := match word with [] => [] | _ => [unchars (rev word)] end in
  match l with
  | [] => flush
  | c :: l => if is_space c then flush ++ words_go l [] else words_go l (c :: word)
  end.
Definition words (s : string) : list string := words_go (str_chars s) [].

(** [s.splitlines()] *)
Definition CR : string := String "013" EmptyString.
Definition LF : string := String "010" EmptyString.
Fixpoint lines_go (l : list string) (line : list string) : list string :=
  match l with
  | [] => match line with [] => [] | _ => [unchars (rev line)] end
  | c :: l' =>
      if is_break c then
        unchars (rev line) ::
        match l' with
        | d :: l'' => if bool_decide (c = CR) && bool_decide (d = LF) then lines_go l'' [] else lines_go l' []
        | [] => []
        end
      else lines_go l' (c :: line)
  end.
Definition splitlines (s : string) : list string := lines_go (str_chars s) [].

(** [s.splitlines(keepends=True)] *)
Fixpoint lines_keep_go (l : list string) (line : list string) : list string :=
  match l with
  | [] => match line with [] => [] | _ => [unchars (rev line)] end
  | c :: l' =>
      if is_break c then
        match l' with
        | d :: l'' =>
            if bool_decide (c = CR) && bool_decide (d = LF) then unchars (rev (d :: c :: line)) :: lines_keep_go l'' []
            else unchars (rev (c :: line)) :: lines_keep_go l' []
        | [] => [unchars (rev (c :: line))]
        end
      else lines_keep_go l' (c :: line)
  end.
Definition splitlines_keep (s : string) : list string := lines_keep_go (str_chars s) [].

Lemma unchars_cons c l : unchars (c :: l) = c +:+ unchars l.
Proof. unfold unchars. destruct l; [cbn; by rewrite str_append_nil|]. by rewrite str_join_cons. Qed.
Lemma unchars_app l m : unchars (l ++ m) = unchars l +:+ unchars m.
Proof. induction l as [|c l IH]; [done|]. by rewrite <-app_comm_cons, !unchars_cons, IH, str_append_assoc. Qed.
Lemma unchars_chars s : unchars (str_chars s) = s.
Proof.
  induction s as [|a s IH]; [done|]. cbn [str_chars].
  destruct (str_chars s) as [|c cs]; [cbn in IH; by rewrite <-IH|].
  destruct c as [|b c]; [by rewrite unchars_cons, IH|].
  destruct (utf8_cont _); rewrite !unchars_cons in *; rewrite <-IH; done.
Qed.

Lemma lines_keep_join_go l line : unchars (lines_keep_go l line) = unchars (rev line ++ l).
Proof.
  revert line. induction l as [l IH] using (induction_ltof1 _ length). unfold ltof in IH. intros line.
  destruct l as [|c l]; cbn [lines_keep_go].
  { rewrite app_nil_r. destruct line; [done|]. by rewrite unchars_cons, str_append_nil. }
  destruct (is_break c).
  - destruct l as [|d l]; [rewrite unchars_cons; cbn [rev]; by rewrite str_append_nil|].
    destruct (_ && _); rewrite unchars_cons, IH by (cbn; lia); rewrite <-unchars_app; cbn [rev app]; by rewrite <-!(assoc_L (++)).
  - rewrite IH by (cbn; lia). cbn [rev]. by rewrite <-(assoc_L (++)).
Qed.

(** Joining the lines gives the text back. *)
Lemma splitlines_keep_join s : unchars (splitlines_keep s) = s.
Proof. unfold splitlines_keep. rewrite lines_keep_join_go. apply unchars_chars. Qed.

(** [s.strip()] *)
Definition lstrip_chars (l : list string) : list string := (span is_space l).2.
Definition strip (s : string) : string := unchars (rev (lstrip_chars (rev (lstrip_chars (str_chars s))))).

(** [needle in s] *)
Fixpoint contains (needle s : string) : bool :=
  startswith needle s || match s with EmptyString => false | String _ s => contains needle s end.

(** [s.split(sep, 1)] for a separator that occurs: the parts around the first *)
Fixpoint split_once (c : ascii) (s : string) : option (string * string) :=
  match s with
  | EmptyString => None
  | String a s =>
      if bool_decide (a = c) then Some (EmptyString, s)
      else match split_once c s with Some (l, r) => Some (String a l, r) | None => None end
  end.

Lemma split_once_spec c s l r :
  split_once c s = Some (l, r) ↔ s = l +:+ String c r ∧ str_mem c l = false.
Proof.
  revert l r. induction s as [|a s IH]; intros l r; cbn.
  { split; [done|]. intros [H _]. destruct l; by str_simpl_in H. }
  destruct (bool_decide_reflect (a = c)) as [->|Ha].
  - split; [by intros [= <- <-]|]. intros [H Hm]. destruct l as [|b l]; str_simpl_in H; [by simplify_eq|].
    injection H as <- ->. unfold str_mem in Hm. cbn in Hm. by rewrite bool_decide_true in Hm.
  - destruct (split_once c s) as [[l' r']|].
    + destruct (IH l' r') as [IH1 _]. destruct (IH1 eq_refl) as [-> Hl].
      split; [intros [= <- <-]|intros [H Hm]].
      * split; [done|]. unfold str_mem. cbn. by rewrite bool_decide_false.
      * destruct l as [|b l]; str_simpl_in H; [by simplify_eq|]. injection H as <- H.
        unfold str_mem in Hm. cbn in Hm. apply orb_false_iff in Hm as [_ Hm].
        destruct (IH l r) as [_ IH2]. specialize (IH2 (conj H Hm)). by simplify_eq.
    + split; [done|]. intros [H Hm]. destruct l as [|b l]; str_simpl_in H; simplify_eq.
      unfold str_mem in Hm. cbn in Hm. apply orb_false_iff in Hm as [_ Hm]. by destruct (IH l r) as [_ IH2]; discriminate IH2.
Qed.

Lemma span_spec {A} (p : A → bool) l a b : span p l = (a, b) → l = a ++ b ∧ forallb p a = true ∧ match b with [] => True | x :: _ => p x = false end.
Proof.
  revert a b. induction l as [|x l IH]; cbn; intros a b; [by intros [= <- <-]|].
  destruct (p x) eqn:Hp; [|by intros [= <- <-]].
  destruct (span p l) as [a' b']. intros [= <- <-]. destruct (IH _ _ eq_refl) as (-> & Ha & Hb). cbn. by rewrite Hp.
Qed.

(** [re.fullmatch("[1-9][0-9]*", s)] *)
Definition positive_decimal (s : string) : bool :=
  match s with EmptyString => false | String a r => chr_in "1" "9" a && str_all is_digit r end.

(** ** [pathlib] on POSIX paths *)
(** The components of a path after its root: empty ones and "." are dropped *)
Definition path_parts (s : string) : list string := filter (λ c, c ≠ "" ∧ c ≠ ".") (str_split "/" s).
Definition path_name (s : string) : string := default "" (last (path_parts s)).

(** ** Integers *)
(** [int(s)] for ASCII digits: blanks around, a sign, and single underscores
    between the digits *)
Fixpoint int_digits (s : string) (acc : Z) (after_digit : bool) : option Z :=
  match s with
  | EmptyString => if after_digit then Some acc else None
  | String c s =>
      if is_digit c then int_digits s (10 * acc + digit_val c) true
      else if bool_decide (c = "_"%char) && after_digit then int_digits s acc false else None
  end.
Definition py_int (s : string) : res Z :=
  let t := strip s in
  let r := match t with
           | String "-" r => Z.opp <$> int_digits r 0 false
           | String "+" r => int_digits r 0 false
           | _ => int_digits t 0 false
           end in
  match r with Some z => Ok z | None => Err (ValueError "invalid literal for int() with base 10") end.

(** [str(z)] *)
Definition int_print (z : Z) : string := if bool_decide (z < 0) then "-" +:+ dec_print (- z) else dec_print z.

(** ** [json.dumps(v, sort_keys=True, separators=(",", ":"))] *)
Definition hex_digit (n : Z) : ascii := Ascii.ascii_of_N (Z.to_N (if bool_decide (n < 10) then 48 + n else 87 + n)).
Definition u_escape (n : Z) : string :=
  "\u" +:+ String (hex_digit (n / 4096 mod 16)) (String (hex_digit (n / 256 mod 16))
    (String (hex_digit (n / 16 mod 16)) (String (hex_digit (n mod 16)) EmptyString))).

(** The code point of a character *)
Definition code_point (c : string) : Z :=
  match codes c with
  | [a] => a
  | [a; b] => (a - 192) * 64 + (b - 128)
  | [a; b; d] => (a - 224) * 4096 + (b - 128) * 64 + (d - 128)
  | [a; b; d; e] => (a - 240) * 262144 + (b - 128) * 4096 + (d - 128) * 64 + (e - 128)
  | _ => 0
  end.

Definition escape_char (c : string) : string :=
  let n := code_point c in
  if bool_decide (n = 34) then String "\" (String "034" EmptyString)
  else if bool_decide (n = 92) then "\\"
  else if bool_decide (n = 10) then "\n"
  else if bool_decide (n = 13) then "\r"
  else if bool_decide (n = 9) then "\t"
  else if bool_decide (n = 12) then "\f"
  else if bool_decide (n = 8) then "\b"
  else if bool_decide (32 <= n <= 126) then c
  else if bool_decide (n < 65536) then u_escape n
  else u_escape (55296 + (n - 65536) / 1024) +:+ u_escape (56320 + (n - 65536) mod 1024).

Definition quote_mark : string := String "034" EmptyString.
Definition json_string (s : string) : string := quote_mark +:+ unchars (escape_char <$> str_chars s) +:+ quote_mark.

Definition pair_le (a b : string * string) : Prop := String.le a.1 b.1.
#[export] Instance pair_le_dec a b : Decision (pair_le a b).
Proof. unfold pair_le. apply _. Defined.

Section Dumps.
(** [float.__repr__] *)
Context (float_repr : SpecFloat.spec_float → string).

Fixpoint json_dumps (v : value) : string :=
  match v with
  | VNone => "null"
  | VBool b => if b then "true" else "false"
  | VInt z => int_print z
  | VFloat f => float_repr f
  | VStr s => json_string s
  | VList l => "[" +:+ str_join "," (json_dumps <$> l) +:+ "]"
  | VDict d =>
      let members := (λ kv, (kv.1, json_string kv.1 +:+ ":" +:+ json_dumps kv.2)) <$> d in
      "{" +:+ str_join "," (merge_sort pair_le members).*2 +:+ "}"
  end.
End Dumps.
