(* ===== verification/PyScan.v ===== *)
(** * Searching Python [bytes]

    [startswith], [endswith], [partition], [find], the removal of every
    occurrence of a marker and [in], on [list byte].  Each has a lemma that
    says which concatenations it recognises. *)
From S2P Require Import Prelude PyBytes PyString.
Local Open Scope Z_scope.

(** [l.startswith(p)] *)
Fixpoint bstartswith (p l : bytes) : bool :=
  match p, l with
  | [], _ => true
  | a :: p, b :: l => bool_decide (a = b) && bstartswith p l
  | _, _ => false
  end.

(** [l.endswith(p)] *)
Definition bendswith (p l : bytes) : bool :=
  bool_decide (length p <= length l)%nat && bool_decide (drop (length l - length p) l = p).

(** [l.partition(sep)]: the parts around the first occurrence, [None] when there is none *)
Fixpoint bpartition (sep l : bytes) : option (bytes * bytes) :=
  if bstartswith sep l then Some ([], drop (length sep) l) else
  match l with
  | [] => None
  | b :: l => match bpartition sep l with Some (h, t) => Some (b :: h, t) | None => None end
  end.

(** [sep in l] *)
Definition bcontains (sep l : bytes) : bool := match bpartition sep l with Some _ => true | None => false end.

(** [l.replace(code, b"")] for a nonempty [code]: leftmost occurrences first,
    [skip] bytes of the last one being still to drop *)
Fixpoint bremove_go (code : bytes) (skip : nat) (l : bytes) : bytes :=
  match l, skip with
  | [], _ => []
  | _ :: l', S k => bremove_go code k l'
  | b :: l', O => if bstartswith code l then bremove_go code (length code - 1) l' else b :: bremove_go code 0 l'
  end.
Definition bremove (code l : bytes) : bytes := bremove_go code 0 l.

(** [l.find(b, start)] for a single byte; [-1] when it does not occur *)
Fixpoint index_from (b : byte) (l : bytes) (pos : Z) : Z :=
  match l with [] => -1 | c :: l => if bool_decide (c = b) then pos else index_from b l (pos + 1) end.
Definition bfind (b : byte) (l : bytes) (start : Z) : Z := index_from b (drop (Z.to_nat start) l) start.

Lemma bstartswith_spec p l : bstartswith p l = true ↔ ∃ t, l = p ++ t.
Proof.
  revert l. induction p as [|a p IH]; intros l; [split; [by exists l|done]|].
  destruct l as [|b l]; cbn [bstartswith]; [split; [done|by intros [t ?]]|].
  rewrite andb_true_iff, bool_decide_eq_true, IH. split; [intros [-> [t ->]]; by exists t|].
  intros [t [= -> ->]]. eauto.
Qed.

Lemma bendswith_spec p l : bendswith p l = true → l = take (length l - length p) l ++ p.
Proof.
  unfold bendswith. intros [_ H%bool_decide_eq_true]%andb_true_iff. pose proof (take_drop (length l - length p) l) as E. by rewrite H in E.
Qed.

Lemma bpartition_Some sep l h t : bpartition sep l = Some (h, t) → l = h ++ sep ++ t.
Proof.
  revert h t. induction l as [|b l IH]; intros h t; cbn [bpartition].
  - destruct sep; [|done]. by intros [= <- <-].
  - destruct (bstartswith sep (b :: l)) eqn:E.
    + intros [= <- <-]. apply bstartswith_spec in E as [t ->]. by rewrite drop_app_length.
    + destruct (bpartition sep l) as [[h' t']|]; [|done]. intros [= <- <-]. cbn. f_equal. by apply IH.
Qed.

Lemma bcontains_intro sep h t : bcontains sep (h ++ sep ++ t) = true.
Proof.
  unfold bcontains. induction h as [|b h IH].
  - destruct (sep ++ t) as [|c l] eqn:E; cbn [app bpartition].
    + apply app_nil in E as [-> ->]. done.
    + replace (bstartswith sep (c :: l)) with true; [done|]. symmetry. rewrite <-E. apply bstartswith_spec. eauto.
  - cbn [app bpartition]. destruct (bstartswith sep (b :: h ++ sep ++ t)); [done|].
    destruct (bpartition sep (h ++ sep ++ t)) as [[? ?]|]; done.
Qed.

Lemma index_from_spec b l pos i :
  0 <= pos → index_from b l pos = i →
  (i = -1 ∧ b ∉ l) ∨ (∃ h t, l = h ++ b :: t ∧ b ∉ h ∧ i = pos + zlen h).
Proof.
  revert pos. induction l as [|c l IH]; intros pos Hp; cbn [index_from].
  - intros <-. left. split; [done|apply not_elem_of_nil].
  - case_bool_decide as Hc.
    + intros <-. right. exists [], l. subst. split_and!; [done|apply not_elem_of_nil|rewrite zlen_nil; lia].
    + intros Hi. destruct (IH (pos + 1) ltac:(lia) Hi) as [[-> Hn]|(h & t & -> & Hn & ->)].
      * left. split; [done|]. rewrite not_elem_of_cons. naive_solver.
      * right. exists (c :: h), t. split_and!; [done|rewrite not_elem_of_cons; naive_solver|rewrite zlen_cons; lia].
Qed.

Lemma index_from_app b h t pos : b ∉ h → index_from b (h ++ b :: t) pos = pos + zlen h.
Proof.
  revert pos. induction h as [|c h IH]; intros pos Hn; cbn [app index_from].
  - rewrite bool_decide_true by done. rewrite zlen_nil. lia.
  - apply not_elem_of_cons in Hn as [Hc Hn]. rewrite bool_decide_false by done. rewrite IH by done. rewrite zlen_cons. lia.
Qed.
