(* ===== verification/UpdatePlan.v ===== *)
(** * delivery/update_plan.py: declarative update proposals and readback

    The module is pure: [plan_update] turns two artifact records and a runtime
    observation into a review proposal or a refusal, [check_readback] compares
    the runtime observed after an activation with the proposal.  Both catch the
    exceptions that malformed inputs raise and refuse.  Inputs and outputs are
    decoded JSON ([value]); every definition below keeps the source's order of
    tests, since a later test is only reached when the earlier ones pass. *)
From S2P Require Import Prelude PyBytes PyString PyValue.
Local Open Scope Z_scope.

Module UpdatePlan.

Definition CHANNELS : list (string * string) := [("development", "dev"); ("release", "default")].
Definition MAX_FENCE_SECONDS : Z := 30.

(** [CHANNELS[channel]] for a channel already known to be one of its keys *)
Definition channel_instance (c : string) : res string :=
  match list_find (λ p, p.1 = c) CHANNELS with Some (_, p) => Ok p.2 | None => Err KeyError end.

(** [v in CHANNELS]: an unhashable [v] raises *)
Definition in_channels (v : value) : res bool :=
  if hashable v then Ok (existsb (λ p, py_eq v (VStr p.1)) CHANNELS) else Err TypeError.

Definition digest (v : value) : bool :=
  match v with VStr s => is_sha256_hex s | _ => false end.

Definition integer (v : value) : bool :=
  match v with VInt z => bool_decide (0 <= z <= 2 ^ 63 - 1) | _ => false end.

Definition refused (reason : string) : value :=
  VDict [("schema_version", VInt 1); ("decision", VStr "refused"); ("reason", VStr reason);
         ("activation_authorized", VBool false)].

Definition artifact (record : value) : res value :=
  val ← getitem record "artifact";
  channel ← getitem val "channel";
  bad ← (sv ← get record "schemaVersion"; Ok (negb (py_eq sv (VInt 1))))
     ||? (ow ← get record "owner"; Ok (negb (py_eq ow (VStr "home-manager"))))
     ||? (pv ← get record "payload_verified"; Ok (negb (is_True pv)))
     ||? notM (in_channels channel)
     ||? (d ← getitem val "manifestSha256"; Ok (negb (digest d)))
     ||? (t ← get val "target"; Ok (negb (is_str t)));
  _ ← raise_if bad (ValueError "artifact");
  Ok val.

Definition RUNTIME_INTEGERS : list string :=
  ["protocol_version"; "storage_schema"; "snapshot_schema"; "custody_format"; "revision";
   "checkpoint_sequence"].

Definition runtime_valid (runtime : value) : res bool :=
  (a ← get runtime "authenticated"; Ok (is_True a))
  &&? (s ← get runtime "schema_version"; Ok (py_eq s (VInt 1)))
  &&? (c ← get runtime "custody_available"; Ok (is_True c))
  &&? allM (λ name, v ← get runtime name; Ok (integer v)) RUNTIME_INTEGERS
  &&? (p ← get runtime "preservation_commitment"; Ok (digest p)).

(** [re.fullmatch(r"[a-z][a-z0-9_.-]{0,47}", s)] *)
Definition feature_name (s : string) : bool :=
  match s with
  | EmptyString => false
  | String c r => is_lower c && bool_decide (String.length r <= 47)%nat &&
                  str_all (λ a, is_lower a || is_digit a || chr_of "_.-" a) r
  end.

Definition valid_features (v : value) : bool :=
  match v with
  | VList l => bool_decide (0 < zlen l <= 32) &&
               forallb (λ x, match x with VStr s => feature_name s | _ => false end) l
  | _ => false
  end.

Definition strs_of (v : value) : list string :=
  match v with VList l => omap (λ x, match x with VStr s => Some s | _ => None end) l | _ => [] end.

Definition select_keys (names : list string) (v : value) : res value :=
  VDict <$> mapM_res (λ name, x ← getitem v name; Ok (name, x)) names.

(** The refusals return early, so the body is a sum: [inl] a refusal reason,
    [inr] the dictionary of the last [return]. *)
Definition plan_body (current target runtime now : value) : res (string + value) :=
  previous ← artifact current;
  proposed ← artifact target;
  pc ← getitem previous "channel"; qc ← getitem proposed "channel";
  mismatch ← (Ok (negb (py_eq pc qc)) : res bool)
     ||? (pt ← getitem previous "target"; qt ← getitem proposed "target"; Ok (negb (py_eq pt qt)));
  if (mismatch : bool) then Ok (inl "artifact_context_mismatch") else
  valid ← runtime_valid runtime;
  if negb valid then Ok (inl "runtime_readback_unavailable") else
  inst ← match qc with VStr c => channel_instance c | _ => Err KeyError end;
  mismatch ← (c ← get runtime "channel"; Ok (negb (py_eq c qc)))
     ||? (i ← get runtime "instance"; Ok (negb (py_eq i (VStr inst))))
     ||? (a ← get runtime "artifact_digest"; m ← getitem previous "manifestSha256"; Ok (negb (py_eq a m)));
  if (mismatch : bool) then Ok (inl "runtime_context_mismatch") else
  compatibility ← get proposed "compatibility";
  unknown ← (Ok (negb (is_dict compatibility)) : res bool)
     ||? (s ← get compatibility "schema_version"; Ok (negb (py_eq s (VInt 1))));
  if (unknown : bool) then Ok (inl "compatibility_unknown") else
  incompatible ← anyM (λ '(runtime_name, readable, writable),
       notM (r ← getitem runtime runtime_name; l ← get_or compatibility readable (VList []); py_in r l)
       ||? (w ← get compatibility writable; r ← getitem runtime runtime_name; Ok (negb (py_eq w r))))
     [("storage_schema", "storage_read", "storage_write");
      ("snapshot_schema", "snapshot_read", "snapshot_write")];
  if (incompatible : bool) then Ok (inl "schema_incompatible") else
  incompatible ←
     notM (p ← getitem runtime "protocol_version"; l ← get_or compatibility "protocol_read" (VList []); py_in p l)
     ||? notM (c ← getitem runtime "custody_format"; l ← get_or compatibility "custody_formats" (VList []); py_in c l);
  if (incompatible : bool) then Ok (inl "protocol_or_custody_incompatible") else
  required ← get runtime "required_features";
  preserved ← get compatibility "preserves_features";
  if negb (valid_features required) || negb (valid_features preserved)
     || negb (forallb (λ f, bool_decide (f ∈ strs_of preserved)) (strs_of required))
  then Ok (inl "preservation_capability_missing") else
  fence ← get runtime "update_fence";
  nofence ← (Ok (negb (is_dict fence)) : res bool) ||? (i ← get fence "id"; Ok (negb (digest i)));
  if (nofence : bool) then Ok (inl "update_fence_unavailable") else
  expires ← get fence "expires_at";
  if negb (match now, expires with
           | VInt n, VInt x => integer now && integer expires && bool_decide (0 < x - n <= MAX_FENCE_SECONDS)
           | _, _ => false
           end)
  then Ok (inl "update_fence_expired_or_unbounded") else
  busy ← (q ← get fence "quiescent"; Ok (negb (is_True q)))
     ||? (r ← get fence "revision"; r' ← getitem runtime "revision"; Ok (negb (py_eq r r')))
     ||? (w ← get runtime "active_work"; Ok (negb (py_eq w (VInt 0)) || negb (is_int w)));
  if (busy : bool) then Ok (inl "custody_not_quiescent") else
  platform ← getitem proposed "target";
  prev_sha ← getitem previous "manifestSha256";
  target_sha ← getitem proposed "manifestSha256";
  schema ← select_keys ["protocol_version"; "storage_schema"; "snapshot_schema"; "custody_format"] runtime;
  fid ← getitem fence "id";
  before ← select_keys ["revision"; "checkpoint_sequence"; "preservation_commitment"] runtime;
  Ok (inr (VDict [
    ("schema_version", VInt 1); ("decision", VStr "proposal"); ("activation_authorized", VBool false);
    ("channel", qc); ("instance", VStr inst); ("platform", platform);
    ("previous_artifact", prev_sha); ("target_artifact", target_sha);
    ("runtime_schema", schema);
    ("required_features", VList (VStr <$> sorted_set (strs_of required)));
    ("fence_id", fid); ("expires_at", expires);
    ("before", before);
    ("scope", VStr "deployment-only-no-custody-restore")])).

(** [except (AttributeError, KeyError, TypeError, ValueError)] *)
Definition guarded (reason : string) (body : res (string + value)) : res value :=
  match body with
  | Ok (inl why) => Ok (refused why)
  | Ok (inr v) => Ok v
  | Err (AttributeError | KeyError | TypeError | ValueError _) => Ok (refused reason)
  | Err e => Err e
  end.

Definition plan_update (current target runtime now : value) : res value :=
  guarded "verified_update_inputs_unavailable" (plan_body current target runtime now).

Definition readback_body (proposal runtime now : value) : res (string + value) :=
  unavailable ← (d ← get proposal "decision"; Ok (negb (py_eq d (VStr "proposal"))))
     ||? notM (runtime_valid runtime);
  if (unavailable : bool) then Ok (inl "readback_unavailable") else
  expired ← (Ok (negb (integer now)) : res bool)
     ||? (x ← getitem proposal "expires_at";
          match now with VInt n => int_ge n x | _ => Err TypeError end);
  if (expired : bool) then Ok (inl "update_fence_expired_or_unbounded") else
  mismatch ← (c ← get runtime "channel"; c' ← getitem proposal "channel"; Ok (negb (py_eq c c')))
     ||? (i ← get runtime "instance"; i' ← getitem proposal "instance"; Ok (negb (py_eq i i')))
     ||? (a ← get runtime "artifact_digest"; a' ← getitem proposal "target_artifact"; Ok (negb (py_eq a a')))
     ||? (s ← getitem proposal "runtime_schema"; kv ← items s;
          anyM (λ '(name, x), r ← get runtime name; Ok (negb (py_eq r x))) kv);
  if (mismatch : bool) then Ok (inl "readback_context_mismatch") else
  fence ← get_or runtime "update_fence" (VDict []);
  mismatch ← (i ← get fence "id"; i' ← getitem proposal "fence_id"; Ok (negb (py_eq i i')))
     ||? (x ← get fence "expires_at"; x' ← getitem proposal "expires_at"; Ok (negb (py_eq x x')))
     ||? (r ← get fence "revision"; b ← getitem proposal "before"; r' ← getitem b "revision"; Ok (negb (py_eq r r')))
     ||? (q ← get fence "quiescent"; Ok (negb (is_True q)))
     ||? (w ← get runtime "active_work"; Ok (negb (py_eq w (VInt 0)) || negb (is_int w)))
     ||? (f ← get runtime "required_features"; Ok (negb (is_list f)))
     ||? notM (p ← getitem proposal "required_features"; ps ← py_set p;
               f ← getitem runtime "required_features"; fs ← py_set f; Ok (py_subset ps fs));
  if (mismatch : bool) then Ok (inl "readback_fence_mismatch") else
  before ← getitem proposal "before";
  lost ← (r ← getitem runtime "revision"; r' ← getitem before "revision"; py_lt r r')
     ||? (c ← getitem runtime "checkpoint_sequence"; c' ← getitem before "checkpoint_sequence"; py_lt c c')
     ||? (p ← getitem runtime "preservation_commitment"; p' ← getitem before "preservation_commitment";
          Ok (negb (py_eq p p')));
  if (lost : bool) then Ok (inl "custody_preservation_failed") else
  channel ← getitem proposal "channel"; inst ← getitem proposal "instance";
  prev ← getitem proposal "previous_artifact"; target ← getitem proposal "target_artifact";
  names ← items before;
  after ← select_keys (dkeys names) runtime;
  Ok (inr (VDict [
    ("schema_version", VInt 1); ("decision", VStr "readback_predicates_passed");
    ("activation_authorized", VBool false); ("channel", channel); ("instance", inst);
    ("previous_artifact", prev); ("target_artifact", target);
    ("before", before); ("after", after); ("scope", VStr "deployment-only-no-custody-restore")])).

Definition check_readback (proposal runtime now : value) : res value :=
  guarded "readback_unavailable" (readback_body proposal runtime now).

(** ** Which exceptions the bodies can raise *)
Definition caught (e : exn) : Prop :=
  match e with AttributeError | KeyError | TypeError | ValueError _ => True | _ => False end.
Abbreviation only_caught := (raises caught).

Lemma oc_artifact r : only_caught (artifact r).
Proof. unfold artifact, in_channels. solve_raises. Qed.
Lemma oc_runtime_valid r : only_caught (runtime_valid r).
Proof. unfold runtime_valid. solve_raises. Qed.
Lemma oc_channel_instance c : only_caught (channel_instance c).
Proof. unfold channel_instance. solve_raises. Qed.
Lemma oc_select_keys l v : only_caught (select_keys l v).
Proof. unfold select_keys. solve_raises. Qed.
#[local] Hint Resolve oc_artifact oc_runtime_valid oc_channel_instance oc_select_keys : omux.

Lemma oc_plan_body c t r n : only_caught (plan_body c t r n).
Proof. unfold plan_body. solve_raises. Qed.
Lemma oc_readback_body p r n : only_caught (readback_body p r n).
Proof. unfold readback_body. solve_raises. Qed.

Lemma guarded_total why body :
  only_caught body →
  (∃ w, guarded why body = Ok (refused w)) ∨ (∃ v, body = Ok (inr v) ∧ guarded why body = Ok v).
Proof.
  intros Hb. destruct body as [[w|v]|e]; simpl; eauto.
  left. specialize (Hb e eq_refl). destruct e; simpl in Hb; try done; eauto.
Qed.

(** ** What an admitted proposal implies

    [admitted] restates, over the dictionaries themselves, the facts a caller
    may rely on when it receives a proposal. *)
Record artifact_ok (record : value) (art : dict) : Prop := {
  ao_record : ∃ d, record = VDict d ∧ dget "artifact" d = Some (VDict art) ∧
    dget "owner" d = Some (VStr "home-manager") ∧ dget "payload_verified" d = Some (VBool true);
  ao_channel : dget "channel" art = Some (VStr "development") ∨ dget "channel" art = Some (VStr "release");
  ao_sha : ∃ s, dget "manifestSha256" art = Some (VStr s) ∧ is_sha256_hex s = true;
  ao_target : ∃ s, dget "target" art = Some (VStr s);
}.

Definition rt_int (rt : dict) (k : string) (z : Z) : Prop :=
  dget k rt = Some (VInt z) ∧ 0 <= z <= 2 ^ 63 - 1.

Record runtime_ok (rt : dict) : Prop := {
  ro_authenticated : dget "authenticated" rt = Some (VBool true);
  ro_custody : dget "custody_available" rt = Some (VBool true);
  ro_ints : ∀ k, k ∈ RUNTIME_INTEGERS → ∃ z, rt_int rt k z;
  ro_commitment : ∃ s, dget "preservation_commitment" rt = Some (VStr s) ∧ is_sha256_hex s = true;
}.

Lemma dget_default_inv k d (v : value) : default VNone (dget k d) = v → v ≠ VNone → dget k d = Some v.
Proof. destruct (dget k d); simpl; congruence. Qed.

Lemma digest_inv v : digest v = true → ∃ s, v = VStr s ∧ is_sha256_hex s = true.
Proof. destruct v; naive_solver. Qed.

Lemma integer_inv v : integer v = true → ∃ z, v = VInt z ∧ 0 <= z <= 2 ^ 63 - 1.
Proof. destruct v; try done. simpl. intros ?%bool_decide_eq_true. eauto. Qed.

Ltac dict_inv_step :=
  match goal with
  | H : getitem _ _ = Ok _ |- _ => apply getitem_dict in H as (? & ? & ?)
  | H : get _ _ = Ok _ |- _ => apply get_dict in H as (? & ? & ?)
  | H : VDict _ = VDict _ |- _ => injection H as H
  | H : digest _ = true |- _ => apply digest_inv in H as (? & ? & ?)
  | H : integer _ = true |- _ => apply integer_inv in H as (? & ? & ?)
  | H : is_True _ = true |- _ => apply is_True_inv in H
  | H : is_str _ = true |- _ => apply is_str_inv in H as [? ?]
  | H : is_dict _ = true |- _ => apply is_dict_inv in H as [? ?]
  | H : is_int _ = true |- _ => apply is_int_inv in H as [? ?]
  | H : py_eq _ (VStr _) = true |- _ => apply py_eq_str in H
  | H : default VNone (dget _ _) = _ |- _ => apply dget_default_inv in H; [|congruence]
  end.
Ltac dict_inv := repeat ((dict_inv_step || ok_inv_step); subst; try done).

Lemma in_channels_inv v :
  in_channels v = Ok true → v = VStr "development" ∨ v = VStr "release".
Proof.
  unfold in_channels. destruct (hashable v); [|done]. cbn [existsb CHANNELS fst].
  intros [= H]. rewrite !orb_true_iff, !py_eq_str in H. naive_solver.
Qed.

Lemma artifact_inv record v : artifact record = Ok v → ∃ art, v = VDict art ∧ artifact_ok record art.
Proof.
  unfold artifact. intros H. dict_inv.
  match goal with H : in_channels _ = Ok true |- _ => apply in_channels_inv in H end.
  eexists. split; [done|]. split; eauto 10. naive_solver.
Qed.

Lemma runtime_valid_inv v : runtime_valid v = Ok true → ∃ rt, v = VDict rt ∧ runtime_ok rt.
Proof.
  unfold runtime_valid. intros H. dict_inv.
  match goal with H : allM _ _ = Ok true |- _ => rewrite allM_true in H; rename H into Hall end.
  eexists. split; [done|]. split; eauto.
  intros k Hk. specialize (Hall k Hk). dict_inv. eexists. split; eauto.
Qed.

Definition SCHEMA_KEYS : list string :=
  ["protocol_version"; "storage_schema"; "snapshot_schema"; "custody_format"].

Definition BEFORE_KEYS : list string := ["revision"; "checkpoint_sequence"; "preservation_commitment"].

Record admitted (current target : value) (rt : dict) (now : Z) (prop : dict) : Prop := {
  ad_artifacts : ∃ prev next, artifact_ok current prev ∧ artifact_ok target next ∧
    dget "channel" prev = dget "channel" next ∧ dget "target" prev = dget "target" next ∧
    dget "artifact_digest" rt = dget "manifestSha256" prev ∧
    dget "channel" rt = dget "channel" next ∧
    dget "previous_artifact" prop = dget "manifestSha256" prev ∧
    dget "target_artifact" prop = dget "manifestSha256" next ∧
    dget "platform" prop = dget "target" next ∧
    ∃ compat, dget "compatibility" next = Some (VDict compat) ∧
      (∀ name readable writable,
         (name, readable, writable) ∈ [("storage_schema", "storage_read", "storage_write");
                                       ("snapshot_schema", "snapshot_read", "snapshot_write")] →
         ∃ z l w, dget name rt = Some (VInt z) ∧ dget readable compat = Some l ∧ py_in (VInt z) l = Ok true ∧
               dget writable compat = Some w ∧ py_eq w (VInt z) = true) ∧
      ∃ required preserved, dget "required_features" rt = Some (VList (VStr <$> required)) ∧
        dget "preserves_features" compat = Some (VList (VStr <$> preserved)) ∧ required ⊆ preserved ∧
        dget "required_features" prop = Some (VList (VStr <$> sorted_set required));
  ad_fence : ∃ fence id x, dget "update_fence" rt = Some (VDict fence) ∧
    dget "id" fence = Some (VStr id) ∧ is_sha256_hex id = true ∧
    dget "expires_at" fence = Some (VInt x) ∧ 0 < x - now <= MAX_FENCE_SECONDS ∧ x <= 2 ^ 63 - 1 ∧
    dget "quiescent" fence = Some (VBool true) ∧
    (∃ z, dget "revision" rt = Some (VInt z) ∧ py_eq (default VNone (dget "revision" fence)) (VInt z) = true) ∧
    dget "fence_id" prop = Some (VStr id) ∧ dget "expires_at" prop = Some (VInt x);
  ad_context : ∃ c i, (c, i) ∈ CHANNELS ∧
    dget "channel" prop = Some (VStr c) ∧ dget "channel" rt = Some (VStr c) ∧
    dget "instance" prop = Some (VStr i) ∧ dget "instance" rt = Some (VStr i);
  ad_schema : ∃ sch, dget "runtime_schema" prop = Some (VDict sch) ∧ dkeys sch = SCHEMA_KEYS ∧
    ∀ k, k ∈ SCHEMA_KEYS → dget k sch = dget k rt ∧ is_Some (dget k rt);
  ad_idle : dget "active_work" rt = Some (VInt 0);
  ad_before : ∃ b, dget "before" prop = Some (VDict b) ∧ dkeys b = BEFORE_KEYS ∧
    ∀ k, k ∈ BEFORE_KEYS → dget k b = dget k rt ∧ is_Some (dget k rt);
}.

Lemma valid_features_inv v :
  valid_features v = true → ∃ l, v = VList (VStr <$> l) ∧ strs_of v = l.
Proof.
  destruct v as [| | | | |l|]; try done. simpl. intros [_ Hl]%andb_true_iff.
  assert (∃ l', l = VStr <$> l') as [l' ->].
  { induction l as [|x l IH]; [by exists []|]. simpl in Hl. apply andb_true_iff in Hl as [Hx Hl].
    destruct (IH Hl) as [l' ->]. destruct x; try done. by exists (s :: l'). }
  exists l'. split; [done|]. clear Hl. induction l' as [|a l' IH]; [done|]. simpl. f_equal. exact IH.
Qed.

Lemma select_keys_inv names rt v :
  select_keys names (VDict rt) = Ok v →
  ∃ d, v = VDict d ∧ dkeys d = names ∧ ∀ k, k ∈ names → dget k d = dget k rt ∧ is_Some (dget k rt).
Proof.
  unfold select_keys. intros H. ok_inv. rename x into d.
  match goal with H : mapM_res _ _ = _ |- _ => rename H into Hm end.
  exists d. split; [done|]. apply mapM_res_Ok in Hm.
  induction Hm as [|k [k' x] names d Hkx Hm [IH1 IH2]]; [split; [done|set_solver]|].
  apply bind_Ok in Hkx as (y & Hy & [= <- <-]). apply getitem_dict in Hy as (? & [= <-] & Hy).
  simpl. split; [by rewrite IH1|].
  intros k'. rewrite elem_of_cons. case_bool_decide as Hk; [intros _; subst; by rewrite Hy; eauto|].
  intros [?|?]; [done|]. by apply IH2.
Qed.

Ltac if_inv :=
  match goal with
  | H : (if ?b then Ok (inl _) else _) = Ok (inr _) |- _ =>
      destruct b eqn:?; [discriminate H|]
  end.
Ltac plan_inv := repeat ((if_inv || dict_inv_step || ok_inv_step); subst; try done).

(** The schema loop: a schema the runtime holds as an integer is readable and
    is the one the target writes. *)
Lemma schema_loop_inv rt compat :
  runtime_ok rt →
  anyM (λ '(runtime_name, readable, writable),
       notM (r ← getitem (VDict rt) runtime_name; l ← get_or (VDict compat) readable (VList []); py_in r l)
       ||? (w ← get (VDict compat) writable; r ← getitem (VDict rt) runtime_name; Ok (negb (py_eq w r))))
     [("storage_schema", "storage_read", "storage_write");
      ("snapshot_schema", "snapshot_read", "snapshot_write")] = Ok false →
  ∀ name readable writable,
    (name, readable, writable) ∈ [("storage_schema", "storage_read", "storage_write");
                                  ("snapshot_schema", "snapshot_read", "snapshot_write")] →
    ∃ z l w, dget name rt = Some (VInt z) ∧ dget readable compat = Some l ∧ py_in (VInt z) l = Ok true ∧
         dget writable compat = Some w ∧ py_eq w (VInt z) = true.
Proof.
  intros Hrt Hany name readable writable Hin. rewrite anyM_false in Hany.
  specialize (Hany _ Hin). simpl in Hany.
  assert (∃ z, rt_int rt name z) as (z & Hz & _).
  { apply (ro_ints _ Hrt). unfold RUNTIME_INTEGERS. set_solver. }
  rewrite Hz in Hany. simpl in Hany. ok_inv.
  destruct (dget readable compat) as [l|] eqn:Hl; simplify_eq/=.
  destruct (dget writable compat) as [w|] eqn:Hw; simplify_eq/=. by eauto 10.
Qed.

Lemma fence_time_inv now x :
  match now, x with
  | VInt n, VInt y => integer now && integer x && bool_decide (0 < y - n <= MAX_FENCE_SECONDS)
  | _, _ => false
  end = true → ∃ n y, now = VInt n ∧ x = VInt y ∧ 0 < y - n <= MAX_FENCE_SECONDS ∧
    y <= 2 ^ 63 - 1.
Proof. destruct now, x; try done. intros ?. ok_inv. dict_inv. simplify_eq. eauto 12. Qed.

Lemma features_subset req pres :
  forallb (λ f : string, bool_decide (f ∈ pres)) req = true → req ⊆ pres.
Proof.
  rewrite forallb_forall. intros H f Hf. apply list_elem_of_In, H in Hf.
  by apply bool_decide_eq_true in Hf.
Qed.

Lemma plan_body_inv current target runtime now v :
  plan_body current target runtime now = Ok (inr v) →
  ∃ rt n prop, runtime = VDict rt ∧ now = VInt n ∧ v = VDict prop ∧
    runtime_valid (VDict rt) = Ok true ∧ runtime_ok rt ∧ admitted current target rt n prop ∧ dget "decision" prop = Some (VStr "proposal").
Proof.
  unfold plan_body. intros H. plan_inv. simplify_eq.
  match goal with H : artifact current = _ |- _ => apply artifact_inv in H as (prev & [= <-] & Hprev) end.
  match goal with H : artifact target = _ |- _ => apply artifact_inv in H as (next & [= <-] & Hnext) end.
  match goal with H : runtime_valid _ = _ |- _ => pose proof (runtime_valid_inv _ H) as (rt & [= <-] & Hrt) end.
  repeat match goal with H : dget "compatibility" _ = _ |- _ => progress rewrite H in * end.
  match goal with H : anyM _ _ = _ |- _ => pose proof (schema_loop_inv _ _ Hrt H) as Hschema; clear H end.
  match goal with H : _ = true |- _ => apply fence_time_inv in H as (n & y & -> & Hy & Htime & Hmax) end.
  match goal with H : forallb _ _ = true |- _ => apply features_subset in H as Hsub end.
  repeat match goal with H : valid_features _ = true |- _ => apply valid_features_inv in H as (? & ? & <-) end.
  repeat match goal with H : default VNone _ = VList _ |- _ => apply dget_default_inv in H; [|done] end.
  apply dget_default_inv in Hy; [|done].
  match goal with H : select_keys ["revision"; _; _] _ = _ |- _ =>
    apply select_keys_inv in H as (b & -> & Hbk & Hb) end.
  match goal with H : select_keys _ _ = _ |- _ =>
    apply select_keys_inv in H as (sch & -> & Hk & Hsch) end.
  destruct (ao_sha _ _ Hprev) as (sp & Hsp & _), (ao_target _ _ Hnext) as (tn & Htn),
    (ro_ints _ Hrt "revision" ltac:(unfold RUNTIME_INTEGERS; set_solver)) as (z & Hz & _),
    (ao_channel _ _ Hnext) as [Hc|Hc]; simplify_eq;
  repeat match goal with H : py_eq _ (VStr _) = true |- _ => apply py_eq_str in H; subst end;
  repeat match goal with H : default VNone _ = _ |- _ => apply dget_default_inv in H; [|done] end;
  (match goal with H : py_eq _ (VInt 0) = true, H' : dget "active_work" _ = _ |- _ =>
     rewrite H' in H; cbn [default from_option id] in H; rewrite py_eq_int in H; apply bool_decide_eq_true in H; subst end);
  (match goal with H : channel_instance _ = Ok _ |- _ => vm_compute in H; injection H as <- end);
  (eexists _, n, _; split_and!; [done|done|done|done|done|split|done];
    [ eexists _, _; split_and!; [done|done|(simpl; congruence)..|];
      eexists; split_and!; [done|done|]; eexists _, _; split_and!; try done
    | eexists _, _, _; split_and!; eauto; try apply Htime; simpl; by rewrite Hy
    | eexists _, _; split_and!; [|done..]; unfold CHANNELS; set_solver
    | eexists; split_and!; [done|done|exact Hsch]
    | done
    | eexists; split_and!; [done|done|exact Hb] ]).
Qed.
Lemma runtime_valid_other k v rt :
  k ∉ ["authenticated"; "schema_version"; "custody_available"; "preservation_commitment"] ++ RUNTIME_INTEGERS →
  runtime_valid (VDict (dset k v rt)) = runtime_valid (VDict rt).
Proof.
  unfold RUNTIME_INTEGERS. intros Hk. unfold runtime_valid, get, get_or. cbn [allM RUNTIME_INTEGERS].
  rewrite !dget_dset_ne by set_solver. done.
Qed.

Lemma py_subset_strs l m : l ⊆ m → py_subset (VStr <$> l) (VStr <$> m) = true.
Proof.
  intros Hlm. unfold py_subset. apply forallb_forall. intros x Hx.
  apply list_elem_of_In, list_elem_of_fmap in Hx as (s & -> & Hs).
  apply existsb_exists. exists (VStr s). split; [|by apply py_eq_str].
  apply list_elem_of_In, list_elem_of_fmap. eauto.
Qed.

Lemma hashable_strs l : forallb hashable (VStr <$> l) = true.
Proof. induction l; [done|]. simpl. done. Qed.

(** The dictionary a passing readback returns. *)
Definition is_passed (v : value) (rt : dict) (prop : dict) : Prop :=
  ∃ q, v = VDict q ∧ dget "decision" q = Some (VStr "readback_predicates_passed") ∧
    dget "before" q = dget "before" prop ∧
    ∃ a, dget "after" q = Some (VDict a) ∧
      ∀ k, k ∈ BEFORE_KEYS → dget k a = dget k rt.

Section Readback.
Context (current target : value) (rt prop : dict) (n x n' : Z) (sha : value).
Hypothesis Hvalid : runtime_valid (VDict rt) = Ok true.
Hypothesis Hrt : runtime_ok rt.
Hypothesis Hadm : admitted current target rt n prop.
Hypothesis Hdec : dget "decision" prop = Some (VStr "proposal").
Hypothesis Hx : dget "expires_at" prop = Some (VInt x).
Hypothesis Hsha : dget "target_artifact" prop = Some sha.
Hypothesis Hn' : 0 <= n' < x.

(** the runtime after a switch that only replaced the artifact *)
Definition switched : dict := dset "artifact_digest" sha rt.

Lemma switched_get k y : k ≠ "artifact_digest" → dget k rt = Some y → get (VDict switched) k = Ok y.
Proof. intros Hk Hy. apply get_Some. unfold switched. by rewrite dget_dset_ne. Qed.

Lemma switched_getitem k y : k ≠ "artifact_digest" → dget k rt = Some y → getitem (VDict switched) k = Ok y.
Proof. intros Hk Hy. apply getitem_Some. unfold switched. by rewrite dget_dset_ne. Qed.

Lemma guard_available :
  (d ← get (VDict prop) "decision"; Ok (negb (py_eq d (VStr "proposal"))))
    ||? notM (runtime_valid (VDict switched)) = Ok false.
Proof.
  rewrite (get_Some _ _ _ Hdec). unfold switched.
  rewrite runtime_valid_other by (unfold RUNTIME_INTEGERS; set_solver). by rewrite Hvalid.
Qed.

Lemma guard_time :
  ((Ok (negb (integer (VInt n'))) : res bool) ||? (y ← getitem (VDict prop) "expires_at"; int_ge n' y)) = Ok false.
Proof.
  destruct (ad_fence _ _ _ _ _ Hadm) as (f & i & y & _ & _ & _ & _ & _ & Hmax & _ & _ & _ & Hy).
  assert (y = x) as -> by congruence.
  rewrite (getitem_Some _ _ _ Hx). cbn [mbind res_bind]. rewrite int_ge_int.
  cbn [integer]. rewrite bool_decide_true by lia. rewrite bool_decide_false by lia. done.
Qed.

Lemma guard_context :
  (c ← get (VDict switched) "channel"; c' ← getitem (VDict prop) "channel"; Ok (negb (py_eq c c')))
   ||? (i ← get (VDict switched) "instance"; i' ← getitem (VDict prop) "instance"; Ok (negb (py_eq i i')))
   ||? (a ← get (VDict switched) "artifact_digest"; a' ← getitem (VDict prop) "target_artifact"; Ok (negb (py_eq a a')))
   ||? (s ← getitem (VDict prop) "runtime_schema"; kv ← items s;
        anyM (λ '(name, y), r ← get (VDict switched) name; Ok (negb (py_eq r y))) kv) = Ok false.
Proof.
  destruct (ad_context _ _ _ _ _ Hadm) as (c & i & _ & Hc & Hc' & Hi & Hi').
  destruct (ad_schema _ _ _ _ _ Hadm) as (sch & Hs & Hks & Hsch).
  destruct (ad_artifacts _ _ _ _ _ Hadm) as (prev & next & _ & Hnext & _ & _ & _ & _ & _ & Ht & _).
  destruct (ao_sha _ _ Hnext) as (sn & Hsn & _).
  rewrite (switched_get "channel" _ ltac:(done) Hc'), (getitem_Some _ _ _ Hc).
  rewrite (switched_get "instance" _ ltac:(done) Hi'), (getitem_Some _ _ _ Hi).
  rewrite (getitem_Some _ _ _ Hsha), (getitem_Some _ _ _ Hs).
  rewrite (get_Some "artifact_digest" switched sha) by apply dget_dset_eq.
  assert (sha = VStr sn) as -> by congruence.
  rewrite !orM_false. cbn [mbind res_bind items].
  rewrite !(proj2 (py_eq_str _ _)) by done. split_and!; [done..|].
  apply anyM_false. intros [k y] Hky.
  assert (k ∈ SCHEMA_KEYS) as Hk by (rewrite <-Hks; apply list_elem_of_fmap; by exists (k, y)).
  assert (dget k sch = Some y) as Hy.
  { apply dget_NoDup; [|done]. rewrite Hks. by apply (bool_decide_unpack _). }
  destruct (Hsch k Hk) as [He _].
  destruct (ro_ints _ Hrt k) as (z & Hz & _); [unfold SCHEMA_KEYS, RUNTIME_INTEGERS in *; set_solver|].
  assert (y = VInt z) as -> by congruence.
  rewrite (switched_get _ (VInt z)); [|by unfold SCHEMA_KEYS in Hk; set_solver|done].
  cbn [mbind res_bind]. by rewrite py_eq_int, bool_decide_true.
Qed.

Lemma guard_fence :
  (fence ← get_or (VDict switched) "update_fence" (VDict []);
   (i ← get fence "id"; i' ← getitem (VDict prop) "fence_id"; Ok (negb (py_eq i i')))
   ||? (y ← get fence "expires_at"; y' ← getitem (VDict prop) "expires_at"; Ok (negb (py_eq y y')))
   ||? (r ← get fence "revision"; b ← getitem (VDict prop) "before"; r' ← getitem b "revision"; Ok (negb (py_eq r r')))
   ||? (q ← get fence "quiescent"; Ok (negb (is_True q)))
   ||? (w ← get (VDict switched) "active_work"; Ok (negb (py_eq w (VInt 0)) || negb (is_int w)))
   ||? (f ← get (VDict switched) "required_features"; Ok (negb (is_list f)))
   ||? notM (p ← getitem (VDict prop) "required_features"; ps ← py_set p;
             f ← getitem (VDict switched) "required_features"; fs ← py_set f; Ok (py_subset ps fs))) = Ok false.
Proof.
  destruct (ad_fence _ _ _ _ _ Hadm) as
    (f & i & y & Hf & Hi & _ & Hy & _ & _ & Hq & (z & Hz & Hrev) & Hfi & Hy').
  destruct (ad_artifacts _ _ _ _ _ Hadm) as
    (? & ? & _ & _ & _ & _ & _ & _ & _ & _ & _ & compat & _ & _ & req & pres & Hreq & _ & _ & Hreq').
  destruct (ad_before _ _ _ _ _ Hadm) as (b & Hb & _ & Hbk).
  destruct (Hbk "revision" ltac:(unfold BEFORE_KEYS; set_solver)) as [Hbr _]. rewrite Hz in Hbr.
  assert (get_or (VDict switched) "update_fence" (VDict []) = Ok (VDict f)) as ->.
  { unfold get_or, switched. by rewrite dget_dset_ne, Hf. }
  cbn [mbind res_bind].
  rewrite (get_Some _ _ _ Hi), (getitem_Some _ _ _ Hfi), (get_Some _ _ _ Hy), (getitem_Some _ _ _ Hy'),
    (getitem_Some _ _ _ Hb), (get_Some _ _ _ Hq).
  rewrite (switched_get "active_work" _ ltac:(done) (ad_idle _ _ _ _ _ Hadm)).
  rewrite (switched_get "required_features" _ ltac:(done) Hreq),
    (switched_getitem "required_features" _ ltac:(done) Hreq), (getitem_Some _ _ _ Hreq').
  unfold get, get_or. cbn [mbind res_bind getitem]. rewrite Hbr. cbn [mbind res_bind py_set].
  rewrite !hashable_strs. cbn [mbind res_bind].
  rewrite (proj2 (py_eq_str _ _)) by done. rewrite py_eq_int, bool_decide_true by done.
  rewrite Hrev, py_subset_strs; [done|]. intros s Hs. by apply elem_of_sorted_set.
Qed.

Lemma guard_preserved :
  (before ← getitem (VDict prop) "before";
   (r ← getitem (VDict switched) "revision"; r' ← getitem before "revision"; py_lt r r')
   ||? (c ← getitem (VDict switched) "checkpoint_sequence"; c' ← getitem before "checkpoint_sequence"; py_lt c c')
   ||? (p ← getitem (VDict switched) "preservation_commitment"; p' ← getitem before "preservation_commitment";
        Ok (negb (py_eq p p')))) = Ok false.
Proof.
  destruct (ad_before _ _ _ _ _ Hadm) as (b & Hb & _ & Hbk).
  destruct (ro_ints _ Hrt "revision") as (z & Hz & _); [unfold RUNTIME_INTEGERS; set_solver|].
  destruct (ro_ints _ Hrt "checkpoint_sequence") as (c & Hc & _); [unfold RUNTIME_INTEGERS; set_solver|].
  destruct (ro_commitment _ Hrt) as (p & Hp & _).
  rewrite (getitem_Some _ _ _ Hb). cbn [mbind res_bind].
  rewrite (switched_getitem "revision" _ ltac:(done) Hz), (switched_getitem "checkpoint_sequence" _ ltac:(done) Hc),
    (switched_getitem "preservation_commitment" _ ltac:(done) Hp).
  assert (∀ k, k ∈ BEFORE_KEYS → dget k b = dget k rt) as Hbe.
  { intros k Hk. by apply Hbk. }
  cbn [getitem]. rewrite !Hbe, Hz, Hc, Hp by (unfold BEFORE_KEYS; set_solver). cbn [mbind res_bind].
  rewrite !py_lt_int, (proj2 (py_eq_str _ _)) by done. rewrite !bool_decide_false by lia. done.
Qed.

Lemma select_keys_ok names d :
  (∀ k, k ∈ names → is_Some (dget k d)) → ∃ v, select_keys names (VDict d) = Ok v.
Proof.
  intros Hd. unfold select_keys. induction names as [|k names IH]; [by eexists|].
  destruct (Hd k ltac:(set_solver)) as [y Hy]. destruct IH as [v Hv]; [set_solver|].
  apply fmap_Ok in Hv as (l & Hl & ->). eexists. cbn [mapM_res].
  rewrite (getitem_Some _ _ _ Hy). cbn [mbind res_bind]. rewrite Hl. done.
Qed.

Lemma readback_after_switch :
  ∃ v, readback_body (VDict prop) (VDict switched) (VInt n') = Ok (inr v) ∧ is_passed v switched prop.
Proof.
  destruct (ad_context _ _ _ _ _ Hadm) as (c & i & _ & Hc & _ & Hi & _).
  destruct (ad_before _ _ _ _ _ Hadm) as (b & Hb & Hdk & Hbk).
  destruct (ad_artifacts _ _ _ _ _ Hadm) as (prev & ? & Hpa & _ & _ & _ & _ & _ & Hpv & _).
  destruct (ao_sha _ _ Hpa) as (ps & Hps & _). rewrite Hps in Hpv.
  pose proof guard_fence as (f & Hf & Hfence)%bind_Ok.
  pose proof guard_preserved as (b' & Hb' & Hpres)%bind_Ok.
  rewrite (getitem_Some _ _ _ Hb) in Hb'. injection Hb' as <-.
  destruct (select_keys_ok BEFORE_KEYS switched) as [v Hv].
  { intros k Hk. unfold switched. rewrite dget_dset_ne by (unfold BEFORE_KEYS in Hk; set_solver).
    by apply Hbk. }
  unfold readback_body.
  rewrite guard_available. cbn [mbind res_bind]. rewrite guard_time. cbn [mbind res_bind].
  rewrite guard_context. cbn [mbind res_bind]. rewrite Hf. cbn [mbind res_bind].
  rewrite Hfence. cbn [mbind res_bind]. rewrite (getitem_Some _ _ _ Hb). cbn [mbind res_bind].
  rewrite Hpres. cbn [mbind res_bind]. rewrite (getitem_Some _ _ _ Hc), (getitem_Some _ _ _ Hi),
    (getitem_Some _ _ _ Hpv), (getitem_Some _ _ _ Hsha). cbn [mbind res_bind items].
  rewrite Hdk, Hv. cbn [mbind res_bind]. eexists. split; [done|].
  apply select_keys_inv in Hv as (a & -> & _ & Ha).
  eexists. split_and!; [done|done|by rewrite Hb|]. exists a. split; [done|]. intros k Hk. by apply Ha.
Qed.
End Readback.

(** ** Properties *)

Lemma plan_update_inv current target runtime now prop :
  plan_update current target runtime now = Ok (VDict prop) →
  dget "decision" prop = Some (VStr "proposal") →
  ∃ rt n, runtime = VDict rt ∧ now = VInt n ∧ runtime_valid (VDict rt) = Ok true ∧ runtime_ok rt ∧
    admitted current target rt n prop.
Proof.
  unfold plan_update. intros H Hd.
  destruct (guarded_total "verified_update_inputs_unavailable" _ (oc_plan_body current target runtime now))
    as [[w Hw]|(v & Hb & Hv)].
  - rewrite Hw in H. injection H as <-. discriminate Hd.
  - rewrite Hv in H. injection H as ->.
    apply plan_body_inv in Hb as (rt & n & prop' & -> & -> & [= <-] & ? & ? & ? & _). eauto 10.
Qed.

(** C1: [plan_update] and [check_readback] never raise, whatever JSON values
    they are given, and no dictionary they return authorises an activation. *)
Theorem update_never_authorizes current target proposal runtime now :
  (∃ d, plan_update current target runtime now = Ok (VDict d) ∧
        dget "activation_authorized" d = Some (VBool false)) ∧
  (∃ d, check_readback proposal runtime now = Ok (VDict d) ∧
        dget "activation_authorized" d = Some (VBool false)).
Proof.
  split.
  - destruct (guarded_total "verified_update_inputs_unavailable" _ (oc_plan_body current target runtime now))
      as [[w Hw]|(v & Hb & Hv)]; [eexists; split; [exact Hw|done]|].
    unfold plan_body in Hb. plan_inv. eexists; split; [exact Hv|done].
  - destruct (guarded_total "readback_unavailable" _ (oc_readback_body proposal runtime now))
      as [[w Hw]|(v & Hb & Hv)]; [eexists; split; [exact Hw|done]|].
    unfold readback_body in Hb. plan_inv. eexists; split; [exact Hv|done].
Qed.


(** C3: a generation switch that only replaces the artifact digest, read back
    before the fence expires, passes the readback predicate, and the receipt's
    "after" facts are the runtime's. *)
Theorem plan_then_readback current target rt now prop x sha n'
    (Hrun : plan_update current target (VDict rt) now = Ok (VDict prop))
    (Hdec : dget "decision" prop = Some (VStr "proposal"))
    (Hx : dget "expires_at" prop = Some (VInt x))
    (Hsha : dget "target_artifact" prop = Some sha)
    (Hn : 0 <= n' < x) :
  ∃ v, check_readback (VDict prop) (VDict (switched rt sha)) (VInt n') = Ok v ∧
       is_passed v (switched rt sha) prop.
Proof.
  destruct (plan_update_inv _ _ _ _ _ Hrun Hdec) as (rt' & n & [= <-] & -> & Hv & Hrt & Hadm).
  destruct (readback_after_switch current target rt prop n x n' sha) as (v & Hb & Hp); try done.
  exists v. unfold check_readback. by rewrite Hb.
Qed.

(** C4: a passing readback proves that custody was preserved: the runtime runs
    the proposed artifact, the commitment is unchanged, neither the revision nor
    the checkpoint sequence went back, the fence has not expired, it is
    quiescent and no work is active. *)
Theorem check_readback_sound prop runtime now q
    (Hrun : check_readback (VDict prop) runtime now = Ok (VDict q))
    (Hdec : dget "decision" q = Some (VStr "readback_predicates_passed")) :
  ∃ rt n before fence, runtime = VDict rt ∧ now = VInt n ∧ runtime_ok rt ∧
    dget "before" prop = Some (VDict before) ∧
    dget "preservation_commitment" rt = dget "preservation_commitment" before ∧
    (∀ k z z', k ∈ ["revision"; "checkpoint_sequence"] →
       dget k rt = Some (VInt z) → dget k before = Some (VInt z') → z' <= z) ∧
    (∀ x, dget "expires_at" prop = Some (VInt x) → n < x) ∧
    (∀ sha, dget "target_artifact" prop = Some (VStr sha) → dget "artifact_digest" rt = Some (VStr sha)) ∧
    dget "update_fence" rt = Some (VDict fence) ∧ dget "quiescent" fence = Some (VBool true) ∧
    dget "active_work" rt = Some (VInt 0).
Proof.
  unfold check_readback in Hrun.
  destruct (guarded_total "readback_unavailable" _ (oc_readback_body (VDict prop) runtime now))
    as [[w Hw]|(v & Hb & Hv)]; [rewrite Hw in Hrun; injection Hrun as <-; discriminate Hdec|].
  clear Hrun. unfold readback_body in Hb. plan_inv. simplify_eq.
  match goal with H : runtime_valid _ = _ |- _ => apply runtime_valid_inv in H as (rt & [= <-] & Hrt) end.
  destruct (ro_commitment _ Hrt) as (com & Hcom & _). simplify_eq.
  match goal with H : py_eq (VStr com) _ = true |- _ => apply py_eq_str_l in H; subst end.
  match goal with H : py_eq _ (VInt 0) = true, H' : dget "active_work" _ = _ |- _ =>
    rewrite H' in H; cbn [default from_option id] in H; rewrite py_eq_int in H; apply bool_decide_eq_true in H; subst end.
  match goal with H : get_or _ "update_fence" _ = _, Hq : dget "quiescent" ?f = _ |- _ =>
    injection H as H; rename f into fence; rename H into Hfence end.
  eexists _, _, _, fence. split_and!; try done.
  - congruence.
  - intros k z z' Hk Hz Hz'. rewrite !elem_of_cons in Hk.
    destruct Hk as [->|[->|Hk]]; [| |by apply elem_of_nil in Hk]; simplify_eq;
    match goal with H : py_lt (VInt z) (VInt z') = _ |- _ => rewrite py_lt_int in H end; ok_inv; lia.
  - intros y Hy. simplify_eq. match goal with H : int_ge _ _ = _ |- _ => rewrite int_ge_int in H end. ok_inv. lia.
  - intros sha Hsha. simplify_eq.
    match goal with H : py_eq _ (VStr sha) = true |- _ => apply py_eq_str, dget_default_inv in H; done end.
  - destruct (dget "update_fence" _); simplify_eq/=; done.
Qed.
(** ** A concrete update, used by the witnesses *)
Definition ex_artifact (sha : string) : value :=
  VDict [("schemaVersion", VInt 1); ("owner", VStr "home-manager"); ("payload_verified", VBool true);
    ("artifact", VDict [("channel", VStr "development"); ("manifestSha256", VStr sha);
      ("target", VStr "x86_64-linux");
      ("compatibility", VDict [("schema_version", VInt 1);
         ("storage_read", VList [VInt 3; VInt 4]); ("storage_write", VInt 4);
         ("snapshot_read", VList [VInt 2]); ("snapshot_write", VInt 2);
         ("protocol_read", VList [VInt 1]); ("custody_formats", VList [VInt 7]);
         ("preserves_features", VList [VStr "renewal"; VStr "tombstones"])])])].
Definition ex_sha_a : string := "aaaaaaaaaaaaaaaaaaaaaaaaaaaaaaaaaaaaaaaaaaaaaaaaaaaaaaaaaaaaaaaa".
Definition ex_sha_b : string := "bbbbbbbbbbbbbbbbbbbbbbbbbbbbbbbbbbbbbbbbbbbbbbbbbbbbbbbbbbbbbbbb".
Definition ex_runtime : dict :=
  [("authenticated", VBool true); ("schema_version", VInt 1); ("custody_available", VBool true);
   ("protocol_version", VInt 1); ("storage_schema", VInt 4); ("snapshot_schema", VInt 2);
   ("custody_format", VInt 7); ("revision", VInt 12); ("checkpoint_sequence", VInt 40);
   ("preservation_commitment", VStr ex_sha_a); ("channel", VStr "development"); ("instance", VStr "dev");
   ("artifact_digest", VStr ex_sha_a); ("required_features", VList [VStr "tombstones"]);
   ("active_work", VInt 0);
   ("update_fence", VDict [("id", VStr ex_sha_b); ("expires_at", VInt 1020); ("quiescent", VBool true);
                           ("revision", VInt 12)])].
Definition ex_proposal : dict :=
  Eval vm_compute in
  match plan_update (ex_artifact ex_sha_a) (ex_artifact ex_sha_b) (VDict ex_runtime) (VInt 1000) with
  | Ok (VDict d) => d | _ => [] end.


Lemma plan_then_readback_witness :
  ∃ v, check_readback (VDict ex_proposal) (VDict (switched ex_runtime (VStr ex_sha_b))) (VInt 1010) = Ok v ∧
       is_passed v (switched ex_runtime (VStr ex_sha_b)) ex_proposal.
Proof.
  apply (plan_then_readback (ex_artifact ex_sha_a) (ex_artifact ex_sha_b) ex_runtime (VInt 1000) _ 1020);
    [vm_compute; reflexivity..|lia].
Defined.

Definition ex_receipt : dict :=
  Eval vm_compute in
  match check_readback (VDict ex_proposal) (VDict (switched ex_runtime (VStr ex_sha_b))) (VInt 1010) with
  | Ok (VDict d) => d | _ => [] end.

Lemma check_readback_sound_witness :
  ∃ rt n before fence, VDict (switched ex_runtime (VStr ex_sha_b)) = VDict rt ∧ VInt 1010 = VInt n ∧
    runtime_ok rt ∧ dget "before" ex_proposal = Some (VDict before) ∧
    dget "preservation_commitment" rt = dget "preservation_commitment" before ∧
    (∀ k z z', k ∈ ["revision"; "checkpoint_sequence"] →
       dget k rt = Some (VInt z) → dget k before = Some (VInt z') → z' <= z) ∧
    (∀ x, dget "expires_at" ex_proposal = Some (VInt x) → n < x) ∧
    (∀ sha, dget "target_artifact" ex_proposal = Some (VStr sha) → dget "artifact_digest" rt = Some (VStr sha)) ∧
    dget "update_fence" rt = Some (VDict fence) ∧ dget "quiescent" fence = Some (VBool true) ∧
    dget "active_work" rt = Some (VInt 0).
Proof. apply (check_readback_sound _ _ _ ex_receipt); vm_compute; reflexivity. Defined.

End UpdatePlan.
