(* ===== verification/Sha256.v ===== *)
(** * [hashlib.sha256(...).hexdigest()]

    The hash every receipt of the delivery tools binds bytes with, written out
    as an executable function (FIPS 180-4) so that the definitions that digest
    bytes evaluate.  Words are 32-bit, kept reduced modulo [2^32]. *)
From S2P Require Import Prelude PyBytes PyString.
From Stdlib Require Import Ascii.
Local Open Scope Z_scope.

Module Sha256.

Definition w32 (z : Z) : Z := z mod 2 ^ 32.
Definition rotr (n x : Z) : Z := Z.lor (Z.shiftr x n) (w32 (Z.shiftl x (32 - n))).

(** The constants are the first 32 fractional bits of the square roots of the
    first eight primes and of the cube roots of the first sixty-four. *)
Fixpoint root_bits (k : Z) (n : Z) (bit : nat) (acc : Z) : Z :=
  match bit with
  | O => acc
  | S bit =>
      let c := acc + 2 ^ Z.of_nat bit in
      root_bits k n bit (if bool_decide (c ^ k <= n) then c else acc)
  end.

Definition prime (n : Z) : bool :=
  forallb (λ d, negb (bool_decide (n mod d = 0))) (seqZ 2 (n - 2)).
Definition primes : list Z := List.filter prime (seqZ 2 310).

Definition H0 : list Z := Eval vm_compute in (λ p, w32 (root_bits 2 (p * 2 ^ 64) 37 0)) <$> take 8 primes.
Definition K : list Z := Eval vm_compute in (λ p, w32 (root_bits 3 (p * 2 ^ 96) 36 0)) <$> primes.

(** The message is followed by 0x80, zeros and its bit length, to a multiple
    of 64 bytes. *)
Definition pad (m : bytes) : bytes :=
  m ++ x80 :: replicate (Z.to_nat ((55 - zlen m) mod 64)) x00 ++ encode BE 8 (8 * zlen m).

Fixpoint words (m : bytes) : list Z :=
  match m with
  | a :: b :: c :: d :: m => decode BE [a; b; c; d] :: words m
  | _ => []
  end.

Definition nthz (l : list Z) (n : nat) : Z := default 0 (l !! n).

(** The message schedule, most recent word first. *)
Fixpoint schedule (n : nat) (w : list Z) : list Z :=
  match n with
  | O => w
  | S n =>
      let x := nthz w 1 in let y := nthz w 14 in
      let s1 := Z.lxor (Z.lxor (rotr 17 x) (rotr 19 x)) (Z.shiftr x 10) in
      let s0 := Z.lxor (Z.lxor (rotr 7 y) (rotr 18 y)) (Z.shiftr y 3) in
      schedule n (w32 (s1 + nthz w 6 + s0 + nthz w 15) :: w)
  end.

Definition round (st : list Z) (kw : Z * Z) : list Z :=
  match st with
  | [a; b; c; d; e; f; g; h] =>
      let s1 := Z.lxor (Z.lxor (rotr 6 e) (rotr 11 e)) (rotr 25 e) in
      let ch := Z.lxor (Z.land e f) (Z.land (2 ^ 32 - 1 - e) g) in
      let t1 := h + s1 + ch + kw.1 + kw.2 in
      let s0 := Z.lxor (Z.lxor (rotr 2 a) (rotr 13 a)) (rotr 22 a) in
      let maj := Z.lxor (Z.lxor (Z.land a b) (Z.land a c)) (Z.land b c) in
      [w32 (t1 + s0 + maj); a; b; c; w32 (d + t1); e; f; g]
  | _ => st
  end.

Definition compress (st : list Z) (block : list Z) : list Z :=
  let w := reverse (schedule 48 (reverse block)) in
  zip_with (λ x y, w32 (x + y)) st (foldl round st (zip K w)).

Fixpoint blocks (n : nat) (st w : list Z) : list Z :=
  match n with
  | O => st
  | S n => blocks n (compress st (take 16 w)) (drop 16 w)
  end.

Definition sha256 (m : bytes) : bytes :=
  let p := pad m in
  concat (encode BE 4 <$> blocks (Z.to_nat (zlen p / 64)) H0 (words p)).

Definition hex_digit (z : Z) : ascii :=
  Ascii.ascii_of_N (Z.to_N (if bool_decide (z < 10) then 48 + z else 87 + z)).

Fixpoint hex (bs : bytes) : string :=
  match bs with
  | [] => EmptyString
  | b :: bs => String (hex_digit (byte_Z b / 16)) (String (hex_digit (byte_Z b mod 16)) (hex bs))
  end.

Definition hexdigest (m : bytes) : string := hex (sha256 m).

Example sha256_abc :
  hexdigest (fsencode "abc") = "ba7816bf8f01cfea414140de5dae2223b00361a396177a9cb410ff61f20015ad".
Proof. vm_compute. reflexivity. Qed.

Example sha256_two_blocks :
  hexdigest (fsencode "abcdbcdecdefdefgefghfghighijhijkijkljklmklmnlmnomnopnopq")
  = "248d6a61d20638b8e5c026930c3e6039a33ce45964ff2167f6ecedd419db06c1".
Proof. vm_compute. reflexivity. Qed.

(** The digest is always 64 lower-case hexadecimal digits, the form
    [re.fullmatch(r"[0-9a-f]{64}", ...)] accepts. *)
Lemma length_compress st b : length st = 8%nat → length (compress st b) = 8%nat.
Proof.
  intros Hst. unfold compress. rewrite length_zip_with.
  assert (∀ l s, length s = 8%nat → length (foldl round s l) = 8%nat) as Hr.
  { induction l as [|x l IH]; intros s Hs; [done|]. simpl. apply IH.
    destruct s as [|? [|? [|? [|? [|? [|? [|? [|? [|? ?]]]]]]]]]; done. }
  rewrite Hr by done. lia.
Qed.

Lemma length_blocks n st w : length st = 8%nat → length (blocks n st w) = 8%nat.
Proof. revert st w. induction n; intros; simpl; [done|]. auto using length_compress. Qed.

Lemma length_encode_words l : length (concat (encode BE 4 <$> l)) = (4 * length l)%nat.
Proof.
  induction l as [|x l IH]; [done|]. cbn [fmap list_fmap concat].
  rewrite length_app, length_encode. simpl length. change (list_fmap _ _ (encode BE 4) l) with (encode BE 4 <$> l).
  rewrite IH. lia.
Qed.

Lemma length_sha256 m : length (sha256 m) = 32%nat.
Proof.
  unfold sha256. pose proof (length_blocks (Z.to_nat (zlen (pad m) / 64)) H0 (words (pad m)) eq_refl) as Hl.
  revert Hl. generalize (blocks (Z.to_nat (zlen (pad m) / 64)) H0 (words (pad m))). intros l Hl.
  rewrite length_encode_words. lia.
Qed.

Lemma hex_digit_ok z : 0 <= z < 16 → is_lower_hex (hex_digit z) = true.
Proof.
  intros. assert (∃ n, (n < 16)%nat ∧ z = Z.of_nat n) as (n & Hn & ->) by (exists (Z.to_nat z); lia).
  do 16 (destruct n as [|n]; [done|]). lia.
Qed.

Lemma hex_ok bs : str_all is_lower_hex (hex bs) = true ∧ String.length (hex bs) = (2 * length bs)%nat.
Proof.
  induction bs as [|b bs [IH1 IH2]]; [done|]. pose proof (byte_Z_range b). simpl. split.
  - rewrite !hex_digit_ok, IH1; [done|apply Z.mod_pos_bound; lia|].
    split; [apply Z.div_pos; lia|apply Z.div_lt_upper_bound; lia].
  - rewrite IH2. lia.
Qed.

Lemma hexdigest_is_sha256_hex m : is_sha256_hex (hexdigest m) = true.
Proof.
  unfold is_sha256_hex, hexdigest. destruct (hex_ok (sha256 m)) as [-> ->].
  rewrite length_sha256. done.
Qed.

End Sha256.
