(* ===== verification/Sha1.v ===== *)
(** * [hashlib.sha1(...)]

    The hash that names Git objects, written out as an executable function
    (FIPS 180-4) on 32-bit words kept reduced modulo [2^32], and the
    hexadecimal text of byte strings with its inverse, [bytes.fromhex]. *)
From S2P Require Import Prelude PyBytes PyString Sha256.
From Stdlib Require Import Ascii.
Local Open Scope Z_scope.

Module Sha1.
Import Sha256.

Definition rotl (n x : Z) : Z := rotr (32 - n) x.
Definition H0 : list Z := [0x67452301; 0xEFCDAB89; 0x98BADCFE; 0x10325476; 0xC3D2E1F0].

(** The message schedule, most recent word first *)
Fixpoint schedule (n : nat) (w : list Z) : list Z :=
  match n with
  | O => w
  | S n => schedule n (rotl 1 (Z.lxor (Z.lxor (nthz w 2) (nthz w 7)) (Z.lxor (nthz w 13) (nthz w 15))) :: w)
  end.

(** The round function and the constant of step [t] *)
Definition choose (t : Z) (b c d : Z) : Z * Z :=
  if bool_decide (t < 20) then (Z.lxor (Z.land b c) (Z.land (2 ^ 32 - 1 - b) d), 0x5A827999)
  else if bool_decide (t < 40) then (Z.lxor (Z.lxor b c) d, 0x6ED9EBA1)
  else if bool_decide (t < 60) then (Z.lxor (Z.lxor (Z.land b c) (Z.land b d)) (Z.land c d), 0x8F1BBCDC)
  else (Z.lxor (Z.lxor b c) d, 0xCA62C1D6).

Definition round (st : list Z) (tw : Z * Z) : list Z :=
  match st with
  | [a; b; c; d; e] =>
      let '(f, k) := choose tw.1 b c d in
      [w32 (rotl 5 a + f + e + k + tw.2); a; rotl 30 b; c; d]
  | _ => st
  end.

Definition compress (st : list Z) (block : list Z) : list Z :=
  let w := reverse (schedule 64 (reverse block)) in
  zip_with (λ x y, w32 (x + y)) st (foldl round st (zip (seqZ 0 80) w)).

Fixpoint blocks (n : nat) (st w : list Z) : list Z :=
  match n with O => st | S n => blocks n (compress st (take 16 w)) (drop 16 w) end.

Definition sha1 (m : bytes) : bytes :=
  let p := pad m in
  concat (encode BE 4 <$> blocks (Z.to_nat (zlen p / 64)) H0 (words p)).

Example sha1_abc : hex (sha1 (fsencode "abc")) = "a9993e364706816aba3e25717850c26c9cd0d89d".
Proof. vm_compute. reflexivity. Qed.
Example sha1_two_blocks :
  hex (sha1 (fsencode "abcdbcdecdefdefgefghfghighijhijkijkljklmklmnlmnomnopnopq"))
  = "84983e441c3bd26ebaae4aa1f95129e5e54670f1".
Proof. vm_compute. reflexivity. Qed.

Lemma sha1_compress_length st b : length st = 5%nat → length (compress st b) = 5%nat.
Proof.
  intros Hst. unfold compress. rewrite length_zip_with.
  assert (∀ l s, length s = 5%nat → length (foldl round s l) = 5%nat) as Hr.
  { induction l as [|x l IH]; intros s Hs; [done|]. apply IH.
    destruct s as [|? [|? [|? [|? [|? [|? ?]]]]]]; try done. unfold round. by destruct (choose _ _ _ _). }
  rewrite Hr by done. lia.
Qed.

Lemma sha1_blocks_length n st w : length st = 5%nat → length (blocks n st w) = 5%nat.
Proof. revert st w. induction n; intros; simpl; [done|]. auto using sha1_compress_length. Qed.

Lemma length_sha1 m : length (sha1 m) = 20%nat.
Proof.
  unfold sha1. pose proof (sha1_blocks_length (Z.to_nat (zlen (pad m) / 64)) H0 (words (pad m)) eq_refl) as Hl.
  revert Hl. generalize (blocks (Z.to_nat (zlen (pad m) / 64)) H0 (words (pad m))). intros l Hl.
  rewrite (length_encode_words l), Hl. done.
Qed.

(** ** [bytes.fromhex] on lower-case digits without blanks *)
Definition hex_val (c : ascii) : option Z :=
  if is_digit c then Some (digit_val c)
  else if chr_in "a" "f" c then Some (Z.of_N (Ascii.N_of_ascii c) - 87) else None.
Fixpoint fromhex (s : string) : option bytes :=
  match s with
  | EmptyString => Some []
  | String a (String b s) =>
      match hex_val a, hex_val b, fromhex s with
      | Some x, Some y, Some l => Some (Z_byte (16 * x + y) :: l)
      | _, _, _ => None
      end
  | _ => None
  end.

Lemma hex_val_digit z : 0 <= z < 16 → hex_val (hex_digit z) = Some z.
Proof.
  intros. assert (∃ n, (n < 16)%nat ∧ z = Z.of_nat n) as (n & Hn & ->) by (exists (Z.to_nat z); lia).
  do 16 (destruct n as [|n]; [done|]). lia.
Qed.

Lemma fromhex_hex bs : fromhex (hex bs) = Some bs.
Proof.
  induction bs as [|b bs IH]; [done|]. cbn [hex fromhex]. pose proof (byte_Z_range b).
  rewrite !hex_val_digit, IH; [|apply Z.mod_pos_bound; lia|].
  - do 2 f_equal. rewrite <-Z.div_mod by lia. apply Z_byte_byte_Z.
  - split; [apply Z.div_pos; lia|apply Z.div_lt_upper_bound; lia].
Qed.

Lemma hex_inj a b : hex a = hex b → a = b.
Proof. intros E. apply (f_equal fromhex) in E. rewrite !fromhex_hex in E. by injection E. Qed.

End Sha1.
