(* ===== verification/NarDescriptor.v ===== *)
(** * tools/nar_descriptor.py: canonical NAR serialization

    [describe] lists the metadata of a file tree without following a symlink,
    [validate_descriptor] checks such a list (it may come from anywhere), and
    [serialize] streams the Nix archive of a validated descriptor, reading the
    bytes of the regular files through an opener.  The file system is the tree
    [fs]; it does not change while the code runs.  The clock that the deadline
    is compared with is a parameter: [clock n] is the value of the [n]-th call
    of [time.monotonic()] made by [write]. *)
From S2P Require Import Prelude PyBytes PyString PyValue Sha256.
From Stdlib Require Import Ascii.
Local Open Scope Z_scope.

Module NarDescriptor.

Definition MAX_ENTRIES : Z := 1000000.
Definition MAX_BYTES : Z := 16 * 1024 * 1024 * 1024.
Definition MAX_DEPTH : Z := 256.
Definition MAX_METADATA_BYTES : Z := 256 * 1024 * 1024.

Definition slash : ascii := "/".
Definition nul : ascii := Ascii.zero.

Definition relative_name (v : value) : res (list string) :=
  match v with
  | VStr s =>
      if str_mem nul s || bool_decide (zlen (fsencode s) > 4096) then Err (ValueError "descriptor-path") else
      let parts := if bool_decide (s = EmptyString) then [] else str_split slash s in
      if bool_decide (zlen parts > MAX_DEPTH)
         || existsb (λ p, bool_decide (p ∈ [""; "."; ".."])) parts
      then Err (ValueError "descriptor-traversal") else Ok parts
  | _ => Err (ValueError "descriptor-path")
  end.

(** A validated node dictionary has exactly the fields of its type. *)
Inductive kind :=
  | Regular (size : Z) (executable : bool)
  | Symlink (target : string)
  | Directory.

#[export] Instance kind_eq_dec : EqDecision kind.
Proof. solve_decision. Defined.

(** [by_path], [children] and [expected_bytes] of the loop *)
Record vstate := VState {
  by_path : list (string * kind);
  children : list (string * list string);
  expected_bytes : Z;
}.

(** [children.setdefault(parent, []).append(name)] *)
Definition add_child (parent name : string) (c : list (string * list string)) : list (string * list string) :=
  dset parent (default [] (dget parent c) ++ [name]) c.

Definition validate_node (st : vstate) (node : value) : res vstate :=
  pv ← getitem node "path";
  parts ← relative_name pv;
  path ← match pv with VStr s => Ok s | _ => Err TypeError end;
  _ ← raise_if (bool_decide (is_Some (dget path (by_path st)))) (ValueError "descriptor-duplicate");
  kind ← getitem node "type";
  '(keys, k, expected) ←
    (if py_eq kind (VStr "regular") then
       size ← getitem node "size";
       match size with
       | VInt n =>
           if bool_decide (n < 0) then Err (ValueError "descriptor-regular") else
           ex ← getitem node "executable";
           match ex with
           | VBool b => Ok (["path"; "type"; "size"; "executable"], Regular n b, expected_bytes st + n)
           | _ => Err (ValueError "descriptor-regular")
           end
       | _ => Err (ValueError "descriptor-regular")
       end
     else if py_eq kind (VStr "symlink") then
       t ← getitem node "target";
       match t with
       | VStr s =>
           if str_mem nul s || bool_decide (zlen (fsencode s) > 65536) then Err (ValueError "descriptor-link")
           else Ok (["path"; "type"; "target"], Symlink s, expected_bytes st)
       | _ => Err (ValueError "descriptor-link")
       end
     else if py_eq kind (VStr "directory") then Ok (["path"; "type"], Directory, expected_bytes st)
     else Err (ValueError "descriptor-special-file"));
  d ← items node;
  _ ← raise_if (negb (keys_are keys d) || bool_decide (expected > MAX_BYTES))
        (ValueError "descriptor-fields-or-byte-bound");
  let by_path' := by_path st ++ [(path, k)] in
  let children' :=
    match last parts with
    | Some name => add_child (str_join (String slash EmptyString) (take (length parts - 1) parts)) name (children st)
    | None => children st
    end in
  Ok (VState by_path' children' expected).

(** [Path(root).is_absolute()] and the absence of "." and ".." components *)
Definition root_ok (v : value) : bool :=
  match v with
  | VStr s => startswith "/" s && negb (existsb (λ p, bool_decide (p ∈ ["."; ".."])) (str_split slash s))
              && negb (str_mem nul s)
  | _ => false
  end.

Definition validate_descriptor (v : value) : res (list (string * kind) * list (string * list string)) :=
  schema ← match v with
           | VDict d => if keys_are ["schemaVersion"; "root"; "nodes"] d
                        then sv ← getitem v "schemaVersion"; Ok (py_eq sv (VInt 1)) else Ok false
           | _ => Ok false
           end;
  _ ← ensure schema (ValueError "descriptor-schema");
  root ← getitem v "root";
  _ ← ensure (root_ok root) (ValueError "descriptor-input-root");
  nv ← getitem v "nodes";
  nodes ← match nv with
          | VList l => if bool_decide (1 <= zlen l <= MAX_ENTRIES) then Ok l
                       else Err (ValueError "descriptor-entry-bound")
          | _ => Err (ValueError "descriptor-entry-bound")
          end;
  st ← forM validate_node nodes (VState [] [] 0);
  _ ← ensure (bool_decide (is_Some (dget "" (by_path st)))) (ValueError "descriptor-root");
  _ ← ensure (forallb (λ parent, bool_decide (dget parent (by_path st) = Some Directory)) (dkeys (children st)))
        (ValueError "descriptor-parent-not-directory");
  Ok (by_path st, children st).

(** ** File trees *)
Inductive fs :=
  | FFile (content : bytes) (xusr : bool)
  | FLink (target : string)
  | FDir (entries : list (string * fs))
  | FSpecial.

(** ** [describe] *)
Definition child_path (relative name : string) : string :=
  if bool_decide (relative = "") then name else relative +:+ "/" +:+ name.

Definition node_value (path : string) (k : kind) : value :=
  match k with
  | Regular n b => VDict [("path", VStr path); ("type", VStr "regular"); ("size", VInt n); ("executable", VBool b)]
  | Symlink t => VDict [("path", VStr path); ("type", VStr "symlink"); ("target", VStr t)]
  | Directory => VDict [("path", VStr path); ("type", VStr "directory")]
  end.

Definition kind_of (t : fs) : option kind :=
  match t with
  | FFile c x => Some (Regular (zlen c) x)
  | FLink s => Some (Symlink s)
  | FDir _ => Some Directory
  | FSpecial => None
  end.

(** One iteration: the pending stack is a list whose head is popped next, so
    the names appended last are visited first. *)
Definition describe_step (relative : string) (t : fs) (nodes : list (string * kind)) (metadata_bytes : Z)
    : res (list (string * fs) * list (string * kind) * Z) :=
  _ ← relative_name (VStr relative);
  _ ← raise_if (bool_decide (zlen nodes >= MAX_ENTRIES)) (ValueError "descriptor-entry-bound");
  '(k, pushed) ←
    match t with
    | FLink s => Ok (Symlink s, [])
    | FDir entries =>
        if bool_decide (zlen entries > MAX_ENTRIES) then Err (ValueError "descriptor-directory-bound")
        else Ok (Directory, reverse ((λ e, (child_path relative e.1, e.2)) <$> entries))
    | FFile c x => Ok (Regular (zlen c) x, [])
    | FSpecial => Err (ValueError "descriptor-special-file")
    end;
  let bytes1 := metadata_bytes + zlen (fsencode relative) + 128 in
  let bytes2 := match k with Symlink s => bytes1 + zlen (fsencode s) | _ => bytes1 end in
  _ ← raise_if (bool_decide (bytes2 > MAX_METADATA_BYTES)) (ValueError "descriptor-metadata-bound");
  Ok (pushed, nodes ++ [(relative, k)], bytes2).

Fixpoint describe_loop (fuel : nat) (pending : list (string * fs)) (nodes : list (string * kind))
    (metadata_bytes : Z) : res (list (string * kind)) :=
  match pending with
  | [] => Ok nodes
  | (relative, t) :: pending =>
      match fuel with
      | O => Err NoFuel
      | S fuel =>
          '(pushed, nodes, metadata_bytes) ← describe_step relative t nodes metadata_bytes;
          describe_loop fuel (pushed ++ pending) nodes metadata_bytes
      end
  end.

Definition path_le (a b : string * kind) : Prop := String.le a.1 b.1.
#[export] Instance path_le_dec : RelDecision path_le := λ a b, String.le_dec a.1 b.1.

(** [root] is the text of [Path(root)]; [t] is the tree found there.  The loop
    visits at most [MAX_ENTRIES] entries before it refuses. *)
Definition describe (root : string) (t : fs) : res value :=
  nodes ← describe_loop (Z.to_nat (MAX_ENTRIES + 1)) [("", t)] [] 0;
  let descriptor := VDict [("schemaVersion", VInt 1); ("root", VStr root);
    ("nodes", VList ((λ n, node_value n.1 n.2) <$> merge_sort path_le nodes))] in
  _ ← validate_descriptor descriptor;
  Ok descriptor.

(** ** Opening a regular file without following a link *)
Record opened := Opened { content : bytes; stat : option (Z * bool) }.

(** [Path(root).parts[1:]]: empty and "." components disappear *)
Definition path_parts (root : string) : list string :=
  List.filter (λ p, negb (bool_decide (p ∈ [""; "."]))) (str_split slash root).

(** Each component is opened with O_NOFOLLOW relative to the directory before it. *)
Fixpoint walk (t : fs) (parts : list string) : res fs :=
  match parts with
  | [] => Ok t
  | p :: parts =>
      match t with
      | FDir entries => match dget p entries with Some t => walk t parts | None => Err FileNotFoundError end
      | _ => Err OSError
      end
  end.

Definition open_regular (system : fs) (root relative : string) : res opened :=
  _ ← ensure (startswith "/" root) (ValueError "descriptor-input-root");
  rel ← relative_name (VStr relative);
  let parts := path_parts root ++ rel in
  _ ← raise_if (bool_decide (parts = [])) (ValueError "descriptor-input-root");
  t ← walk system parts;
  match t with
  | FFile c x => Ok (Opened c (Some (zlen c, x)))
  | FLink _ => Err OSError
  | _ => Err (ValueError "descriptor-input-not-regular")
  end.

(** ** [serialize] *)
Record sstate := SState { emitted : Z; out : bytes; ticks : nat }.

Section Serialize.
Context (clock : nat → Z) (deadline : Z) (opener : string → res opened).
Context (by_path : list (string * kind)) (children : list (string * list string)).

Definition write (c : bytes) (st : sstate) : res sstate :=
  let emitted' := emitted st + zlen c in
  if bool_decide (emitted' > MAX_BYTES) || bool_decide (clock (ticks st) > deadline)
  then Err (ValueError "nar-output-or-deadline-bound")
  else Ok (SState emitted' (out st ++ c) (S (ticks st))).

(** [b'\0' * (-n % 8)] *)
Definition padding (n : Z) : bytes := replicate (Z.to_nat (- n mod 8)) x00.

Definition string_ (c : bytes) (st : sstate) : res sstate :=
  st ← write (encode LE 8 (zlen c)) st;
  st ← write c st;
  write (padding (zlen c)) st.

Definition str_ (s : string) : sstate → res sstate := string_ (fsencode s).

(** The copy loop; a read returns up to the requested number of bytes, none at
    the end of the file. *)
Fixpoint copy (fuel : nat) (stream : bytes) (remaining : Z) (st : sstate) : res sstate :=
  if bool_decide (remaining = 0) then
    match stream with [] => Ok st | _ => Err (ValueError "nar-input-grew") end
  else
    match fuel with
    | O => Err NoFuel
    | S fuel =>
        let chunk := take (Z.to_nat (Z.min 65536 remaining)) stream in
        match chunk with
        | [] => Err (ValueError "nar-input-truncated")
        | _ => st ← write chunk st;
               copy fuel (drop (length chunk) stream) (remaining - zlen chunk) st
        end
    end.

Definition regular (path : string) (size : Z) (executable : bool) (st : sstate) : res sstate :=
  st ← (if executable then st ← str_ "executable" st; str_ "" st else Ok st);
  st ← str_ "contents" st;
  st ← write (encode LE 8 size) st;
  f ← opener path;
  _ ← match stat f with
      | Some (size', exec') => raise_if (bool_decide (size' ≠ size) || bool_decide (exec' ≠ executable))
                                 (ValueError "descriptor-input-metadata-changed")
      | None => Ok tt
      end;
  st ← copy (S (length (content f))) (content f) size st;
  write (padding size) st.

Definition type_name (k : kind) : string :=
  match k with Regular _ _ => "regular" | Symlink _ => "symlink" | Directory => "directory" end.

(** One directory entry; [rec] writes the child node. *)
Definition entry (rec : string → sstate → res sstate) (path : string) (st : sstate) (name : string) : res sstate :=
  st ← str_ "entry" st; st ← str_ "(" st; st ← str_ "name" st; st ← str_ name st; st ← str_ "node" st;
  st ← rec (child_path path name) st;
  str_ ")" st.

Fixpoint node (fuel : nat) (path : string) (st : sstate) : res sstate :=
  match fuel with
  | O => Err NoFuel
  | S fuel =>
      match dget path by_path with
      | None => Err KeyError
      | Some item =>
          st ← str_ "(" st; st ← str_ "type" st; st ← str_ (type_name item) st;
          st ← match item with
               | Directory =>
                   forM (entry (node fuel) path) (merge_sort String.le (default [] (dget path children))) st
               | Symlink t => st ← str_ "target" st; str_ t st
               | Regular size ex => regular path size ex st
               end;
          str_ ")" st
      end
  end.
End Serialize.

(** A path has at most [MAX_DEPTH] components, so the recursion is at most
    [MAX_DEPTH + 1] deep. *)
Definition node_fuel : nat := Z.to_nat (MAX_DEPTH + 1).

Definition serialize (clock : nat → Z) (deadline : Z) (opener : string → string → res opened)
    (descriptor : value) : res (Z * bytes) :=
  '(by_path, children) ← validate_descriptor descriptor;
  root ← getitem descriptor "root";
  root ← match root with VStr s => Ok s | _ => Err TypeError end;
  st ← str_ clock deadline "nix-archive-1" (SState 0 [] 0);
  st ← node clock deadline (opener root) by_path children node_fuel "" st;
  Ok (emitted st, out st).

Definition hash_descriptor (clock : nat → Z) (deadline : Z) (opener : string → string → res opened)
    (descriptor : value) : res value :=
  '(count, data) ← serialize clock deadline opener descriptor;
  Ok (VDict [("narHash", VStr ("sha256:" +:+ Sha256.hexdigest data)); ("narSize", VInt count);
             ("linkTargetsFollowed", VBool false); ("executionAuthority", VBool false)]).

(** ** Paths as lists of components *)
Definition sep : string := String slash EmptyString.
Definition join (parts : list string) : string := str_join sep parts.

Definition name_ok (n : string) : Prop := n ≠ "" ∧ str_mem slash n = false.

Lemma join_nil : join [] = "".
Proof. done. Qed.

Lemma join_not_empty parts : parts ≠ [] → Forall name_ok parts → join parts ≠ "".
Proof.
  destruct parts as [|p [|q parts]]; [done| |]; intros _ H; inversion H as [|? ? [Hp _] _]; subst; [done|].
  unfold join. rewrite str_join_cons by done. destruct p; [done|]. by rewrite str_append_cons.
Qed.

Definition parts_of (s : string) : list string :=
  if bool_decide (s = EmptyString) then [] else str_split slash s.

Lemma parts_join parts : Forall name_ok parts → parts_of (join parts) = parts.
Proof.
  intros H. unfold parts_of. destruct parts as [|p parts]; [done|].
  rewrite bool_decide_false by (by apply join_not_empty). apply str_split_join; [done|].
  intros x Hx. rewrite Forall_forall in H. by apply H.
Qed.

Lemma join_parts s : join (parts_of s) = s.
Proof. unfold parts_of. case_bool_decide; [by subst|]. apply str_join_split. Qed.

Lemma parts_of_inj s1 s2 : parts_of s1 = parts_of s2 → s1 = s2.
Proof. intros H. by rewrite <-(join_parts s1), H, join_parts. Qed.

Lemma join_snoc parts n :
  parts ≠ [] → join (parts ++ [n]) = join parts +:+ "/" +:+ n.
Proof.
  unfold join. induction parts as [|p parts IH]; [done|]. intros _.
  destruct parts as [|q parts]; [done|]. simpl app. rewrite str_join_cons by done.
  rewrite (str_join_cons sep p (q :: parts)) by done. simpl app in IH. rewrite IH by done.
  by rewrite !str_append_assoc.
Qed.

Lemma child_path_join parts n : Forall name_ok parts → child_path (join parts) n = join (parts ++ [n]).
Proof.
  intros H. unfold child_path. destruct parts as [|p parts]; [done|].
  rewrite bool_decide_false by (by apply join_not_empty). by rewrite join_snoc.
Qed.

Lemma relative_name_Ok s parts :
  relative_name (VStr s) = Ok parts →
  parts = parts_of s ∧ zlen parts <= MAX_DEPTH ∧ Forall name_ok parts ∧ zlen (fsencode s) <= 4096.
Proof.
  unfold relative_name. fold (parts_of s). intros H. case_match eqn:E1; [done|].
  case_match eqn:E2; [done|]. injection H as <-. ok_inv. split_and!; [done|lia| |lia].
  apply Forall_forall. intros p Hp. split.
  - intros ->. match goal with H : existsb _ _ = false |- _ => rewrite <-not_true_iff_false in H; apply H end.
    apply existsb_exists. exists "". split; [by apply list_elem_of_In|]. by apply bool_decide_eq_true; left.
  - unfold parts_of in Hp. case_bool_decide; [by apply elem_of_nil in Hp|]. by eapply str_split_elem.
Qed.

Lemma relative_name_value v parts : relative_name v = Ok parts → ∃ s, v = VStr s.
Proof. destruct v; naive_solver. Qed.

(** ** What validation establishes *)
Record well_formed (bp : list (string * kind)) (ch : list (string * list string)) : Prop := {
  wf_nodup : NoDup (dkeys bp);
  wf_root : is_Some (dget "" bp);
  wf_names : ∀ p, p ∈ dkeys bp → relative_name (VStr p) = Ok (parts_of p);
  wf_children : ∀ parent names, dget parent ch = Some names →
    dget parent bp = Some Directory ∧ NoDup names ∧
    ∀ n, n ∈ names ↔ ∃ p, p ∈ dkeys bp ∧ parts_of p = parts_of parent ++ [n];
  wf_parents : ∀ p parent n, p ∈ dkeys bp → parts_of p = parent ++ [n] →
    dget (join parent) bp = Some Directory ∧ ∃ names, dget (join parent) ch = Some names ∧ n ∈ names;
}.

Definition size_of (k : kind) : Z := match k with Regular n _ => n | _ => 0 end.
Definition total_size (bp : list (string * kind)) : Z := foldr Z.add 0 (size_of ∘ snd <$> bp).

Definition add_path (c : list (string * list string)) (path : string) : list (string * list string) :=
  match last (parts_of path) with
  | Some name => add_child (join (take (length (parts_of path) - 1) (parts_of path))) name c
  | None => c
  end.

Lemma validate_node_Ok st node st' :
  validate_node st node = Ok st' →
  ∃ path k, getitem node "path" = Ok (VStr path) ∧
    relative_name (VStr path) = Ok (parts_of path) ∧ dget path (by_path st) = None ∧
    by_path st' = by_path st ++ [(path, k)] ∧ children st' = add_path (children st) path ∧
    0 <= size_of k ∧ expected_bytes st' = expected_bytes st + size_of k ∧ expected_bytes st' <= MAX_BYTES.
Proof.
  unfold validate_node. intros H. ok_inv.
  match goal with H : relative_name _ = Ok _ |- _ =>
    pose proof (relative_name_value _ _ H) as [path ->]; pose proof (relative_name_Ok _ _ H) as (-> & _) end.
  match goal with H : Ok path = Ok _ |- _ => injection H as <- end.
  match goal with H : context [(if py_eq _ (VStr "regular") then _ else _)] |- _ => rename H into Hk end.
  unfold add_path. destruct (last (parts_of path)) as [name|] eqn:Hlast;
  repeat (case_match; ok_inv; try done); simplify_eq/=;
    match goal with H : ¬ is_Some _ |- _ => apply eq_None_not_Some in H end;
    eexists path, _; (split_and!; [done|done|done|reflexivity|by rewrite Hlast|simpl..]); try lia.
Qed.

(** The loop invariant of validation. *)
Record vinv (st : vstate) : Prop := {
  vi_nodup : NoDup (dkeys (by_path st));
  vi_names : ∀ p, p ∈ dkeys (by_path st) → relative_name (VStr p) = Ok (parts_of p);
  vi_size : expected_bytes st = total_size (by_path st) ∧ Forall (λ b, 0 <= size_of b.2) (by_path st);
  vi_child : ∀ parent n, n ∈ default [] (dget parent (children st)) ↔
    ∃ p, p ∈ dkeys (by_path st) ∧ parts_of p ≠ [] ∧ parts_of p = parts_of parent ++ [n];
  vi_child_nodup : ∀ parent, NoDup (default [] (dget parent (children st)));
  vi_child_some : ∀ parent names, dget parent (children st) = Some names → names ≠ [];
}.

Lemma dkeys_app {V} (d e : list (string * V)) : dkeys (d ++ e) = dkeys d ++ dkeys e.
Proof. apply fmap_app. Qed.

Lemma total_size_snoc bp p k : total_size (bp ++ [(p, k)]) = total_size bp + size_of k.
Proof.
  unfold total_size. induction bp as [|[q j] bp IH]; simpl; [lia|].
  change (list_fmap _ _ (size_of ∘ snd) ?l) with (size_of ∘ snd <$> l). rewrite IH. lia.
Qed.

Lemma parts_snoc_inv parts n (q : list string) :
  parts = q ++ [n] → last parts = Some n ∧ take (length parts - 1) parts = q.
Proof.
  intros ->. rewrite last_snoc, length_app. simpl. split; [done|].
  replace (length q + 1 - 1)%nat with (length q) by lia. apply take_app_length.
Qed.

Lemma parts_snoc s : parts_of s ≠ [] → ∃ q n, parts_of s = q ++ [n].
Proof. intros H. destruct (parts_of s) as [|n q _] using rev_ind; [done|]. eauto. Qed.

Lemma add_child_lookup parent name c k :
  dget k (add_child parent name c) =
  if bool_decide (k = parent) then Some (default [] (dget parent c) ++ [name]) else dget k c.
Proof. unfold add_child. apply dget_dset. Qed.

Lemma vinv_step st node st' : vinv st → validate_node st node = Ok st' → vinv st'.
Proof.
  intros Hinv (path & k & _ & Hrel & Hnew & Hbp & Hch & Hsz & Hexp & _)%validate_node_Ok.
  pose proof (relative_name_Ok _ _ Hrel) as (_ & _ & Hok & _).
  apply dget_None in Hnew.
  assert (∀ p, p ∈ dkeys (by_path st') ↔ p ∈ dkeys (by_path st) ∨ p = path) as Hk.
  { intros p. rewrite Hbp, dkeys_app, elem_of_app. simpl. set_solver. }
  assert (∀ parent, default [] (dget parent (children st')) = default [] (dget parent (children st)) ++
            (match last (parts_of path) with
             | Some n => if bool_decide (parts_of path = parts_of parent ++ [n]) then [n] else [] | None => [] end)) as Hdef.
  { intros parent. rewrite Hch. unfold add_path. destruct (decide (parts_of path = [])) as [He|He].
    - rewrite He. simpl. by rewrite app_nil_r.
    - destruct (parts_snoc path He) as (q & n & Hq). destruct (parts_snoc_inv _ _ _ Hq) as [-> ->].
      rewrite Hq in Hok. apply Forall_app in Hok as [Hokq _]. rewrite add_child_lookup.
      destruct (bool_decide_reflect (parent = join q)) as [->|Hne].
      + rewrite parts_join by done. by rewrite bool_decide_true.
      + rewrite bool_decide_false, app_nil_r; [done|]. intros Heq. apply Hne.
        rewrite Hq in Heq. apply app_inj_tail in Heq as [-> _]. by rewrite join_parts. }
  destruct Hinv as [H1 H2 [H3 H3'] H4 H5 H6]. split.
  - rewrite Hbp, dkeys_app. apply NoDup_app. simpl. split_and!; [done|set_solver|apply NoDup_singleton].
  - intros p [Hp| ->]%Hk; [by apply H2|done].
  - rewrite Hbp, Hexp, H3. split; [by rewrite total_size_snoc|]. apply Forall_app. auto.
  - intros parent n. rewrite Hdef, elem_of_app, H4. split.
    + intros [(p & Hp & Hpp)|Hn]; [exists p; rewrite Hk; auto|].
      destruct (last (parts_of path)) as [m|] eqn:Hm; [|by apply elem_of_nil in Hn].
      case_bool_decide as Heq; [|by apply elem_of_nil in Hn]. apply list_elem_of_singleton in Hn as ->.
      exists path. rewrite Hk. split_and!; [auto| |done]. intros E. by rewrite E in Heq; destruct (parts_of parent).
    + intros (p & [Hp| ->]%Hk & Hne & Hpp); [left; eauto|right].
      destruct (parts_snoc_inv _ _ _ Hpp) as [-> _]. rewrite bool_decide_true by done. set_solver.
  - intros parent. rewrite Hdef. apply NoDup_app. split_and!; [done| |repeat case_match; auto using NoDup_singleton, NoDup_nil_2].
    intros n Hn Hn'. apply H4 in Hn as (p & Hp & _ & Hpp).
    destruct (last (parts_of path)) as [m|] eqn:Hm; [|by apply elem_of_nil in Hn'].
    case_bool_decide as Heq; [|by apply elem_of_nil in Hn']. apply list_elem_of_singleton in Hn' as ->.
    apply Hnew. replace path with p; [done|]. apply parts_of_inj. congruence.
  - intros parent names Hn. specialize (Hdef parent). rewrite Hn in Hdef. simpl in Hdef.
    intros ->. symmetry in Hdef. apply app_nil in Hdef as [Hd1 _].
    destruct (dget parent (children st)) as [l|] eqn:Hl; [by apply (H6 parent l)|].
    rewrite Hch in Hn. unfold add_path in Hn.
    destruct (last (parts_of path)) as [m|] eqn:Hm; [|congruence].
    rewrite add_child_lookup in Hn. case_bool_decide; [|congruence].
    injection Hn as Hn. by destruct (default [] _).
Qed.

Lemma vinv_init : vinv (VState [] [] 0).
Proof.
  split; simpl; try (by constructor || set_solver). intros parent n. split; [set_solver|].
  intros (p & Hp & _). by apply elem_of_nil in Hp.
Qed.

Lemma vinv_loop nodes st : forM validate_node nodes (VState [] [] 0) = Ok st → vinv st ∧ length (by_path st) = length nodes.
Proof.
  intros H. apply (forM_inv _ (λ done st, vinv st ∧ length (by_path st) = length done)) in H; [done| |].
  - split; [apply vinv_init|done].
  - intros don x s1 s2 [Hi Hl] _ Hs. split; [by eapply vinv_step|].
    apply validate_node_Ok in Hs as (path & k & _ & _ & _ & -> & _). rewrite !length_app, Hl. done.
Qed.

Lemma validate_descriptor_inv v bp ch :
  validate_descriptor v = Ok (bp, ch) →
  well_formed bp ch ∧ Forall (λ b, 0 <= size_of b.2) bp ∧ 1 <= zlen bp <= MAX_ENTRIES ∧
  ∃ d root nodes st, v = VDict d ∧ dget "root" d = Some (VStr root) ∧ dget "nodes" d = Some (VList nodes) ∧
    forM validate_node nodes (VState [] [] 0) = Ok st ∧ bp = by_path st ∧ ch = children st.
Proof.
  unfold validate_descriptor. intros H. ok_inv.
  match goal with H : forM _ _ _ = Ok ?s |- _ => rename s into st; rename H into Hloop end.
  match goal with H : is_Some _ |- _ => rename H into Hroot end.
  match goal with H : forallb _ _ = true |- _ => rename H into Hdirs end.
  pose proof (vinv_loop _ _ Hloop) as [[V1 V2 [V3 V3'] V4 V5 V6] Hlen].
  assert (∀ parent names, dget parent (children st) = Some names → dget parent (by_path st) = Some Directory) as Hd.
  { intros parent names Hn. rewrite forallb_forall in Hdirs. apply dget_Some_elem in Hn.
    apply (bool_decide_eq_true_1 _), Hdirs, list_elem_of_In, list_elem_of_fmap. by exists (parent, names). }
  split_and!.
  - split; [done|done|done| |].
    + intros parent names Hn. split; [by eapply Hd|]. specialize (V5 parent). specialize (V4 parent).
      rewrite Hn in V4, V5. simpl in *. split; [done|]. intros n. rewrite V4. split; [naive_solver|].
      intros (p & Hp & Hpp). exists p. split_and!; [done| |done]. intros E. by rewrite E in Hpp; destruct (parts_of parent).
    + intros p parent n Hp Hpp. assert (Forall name_ok parent) as Hok.
      { pose proof (relative_name_Ok _ _ (V2 p Hp)) as (_ & _ & Hok & _). rewrite Hpp in Hok. by apply Forall_app in Hok as [? _]. }
      assert (n ∈ default [] (dget (join parent) (children st))) as Hn.
      { apply V4. exists p. rewrite parts_join by done. split_and!; [done| |done]. rewrite Hpp. by destruct parent. }
      destruct (dget (join parent) (children st)) as [names|] eqn:Hl; [|by apply elem_of_nil in Hn].
      split; [by eapply Hd|]. eauto.
  - done.
  - unfold zlen. rewrite Hlen. repeat (case_match; ok_inv; try done); simplify_eq; done.
  - unfold zlen. rewrite Hlen. repeat (case_match; ok_inv; try done); simplify_eq; done.
  - repeat match goal with H : getitem v _ = Ok _ |- _ => apply getitem_dict in H as (? & ? & ?) end. simplify_eq.
    match goal with H : root_ok ?r = true |- _ => destruct r as [| | | |root| |]; try discriminate H end.
    repeat (case_match; ok_inv; try done). simplify_eq. eauto 10.
Qed.

(** ** Reference format: the Nix archive of a tree *)
Definition nar_string (c : bytes) : bytes := encode LE 8 (zlen c) ++ c ++ padding (zlen c).
Definition nar_str (s : string) : bytes := nar_string (fsencode s).

Definition nar_entry (name : string) (body : bytes) : bytes :=
  nar_str "entry" ++ nar_str "(" ++ nar_str "name" ++ nar_str name ++ nar_str "node" ++ body ++ nar_str ")".

Definition name_le {A} (a b : string * A) : Prop := String.le a.1 b.1.
#[export] Instance name_le_dec {A} : RelDecision (@name_le A) := λ a b, String.le_dec a.1 b.1.

Fixpoint nar_node (t : fs) : bytes :=
  nar_str "(" ++ nar_str "type" ++
  match t with
  | FFile c x =>
      nar_str "regular" ++ (if x then nar_str "executable" ++ nar_str "" else []) ++
      nar_str "contents" ++ nar_string c
  | FLink s => nar_str "symlink" ++ nar_str "target" ++ nar_str s
  | FDir es =>
      nar_str "directory" ++
      concat ((λ e, nar_entry e.1 e.2) <$> merge_sort name_le ((λ e, (e.1, nar_node e.2)) <$> es))
  | FSpecial => []
  end ++ nar_str ")".

Definition nar_of (t : fs) : bytes := nar_str "nix-archive-1" ++ nar_node t.

Lemma zlen_padding n : 0 <= zlen (padding n) < 8 ∧ (8 | n + zlen (padding n)).
Proof.
  unfold padding, zlen. rewrite length_replicate. pose proof (Z.mod_pos_bound (- n) 8 ltac:(lia)).
  rewrite Z2Nat.id by lia. split; [lia|]. exists ((n + - n mod 8) / 8).
  pose proof (Z.div_mod (- n) 8 ltac:(lia)). pose proof (Z.div_mod (n + - n mod 8) 8 ltac:(lia)) as Hd.
  assert ((n + - n mod 8) mod 8 = 0); [|lia].
  replace (n + - n mod 8) with ((- (- n / 8)) * 8) by lia. apply Z.mod_mul. lia.
Qed.

Lemma nar_string_aligned c : (8 | zlen (nar_string c)).
Proof.
  unfold nar_string. rewrite !zlen_app, zlen_encode. destruct (zlen_padding (zlen c)) as [_ [q Hq]].
  exists (q + 1). lia.
Qed.

Section SerializeSpec.
Context (clock : nat → Z) (deadline : Z).

(** [st'] is [st] after writing exactly [b]. *)
Definition appends (st : sstate) (b : bytes) (st' : sstate) : Prop :=
  out st' = out st ++ b ∧ emitted st' = emitted st + zlen b.

Definition emits (m : sstate → res sstate) (b : bytes) : Prop :=
  ∀ st st', m st = Ok st' → appends st b st'.

(** [m] writes exactly [b] when it succeeds, and within the byte bound and
    before the deadline it does succeed. *)
Definition runs (m : sstate → res sstate) (b : bytes) : Prop :=
  ∀ st, (∀ st', m st = Ok st' → appends st b st') ∧
    ((∀ n, clock n <= deadline) → emitted st + zlen b <= MAX_BYTES → ∃ st', m st = Ok st').

Lemma appends_trans st1 b1 st2 b2 st3 : appends st1 b1 st2 → appends st2 b2 st3 → appends st1 (b1 ++ b2) st3.
Proof.
  intros [Ho1 He1] [Ho2 He2]. split; [by rewrite Ho2, Ho1, (assoc_L (++))|]. rewrite He2, He1, zlen_app. lia.
Qed.

Lemma appends_refl st : appends st [] st.
Proof. split; [by rewrite app_nil_r|]. rewrite zlen_nil. lia. Qed.

Lemma emits_bind m1 m2 b1 b2 : emits m1 b1 → emits m2 b2 → emits (λ st, st ← m1 st; m2 st) (b1 ++ b2).
Proof. intros H1 H2 st st' H. ok_inv. eapply appends_trans; eauto. Qed.

Lemma runs_bind m1 m2 b1 b2 : runs m1 b1 → runs m2 b2 → runs (λ st, st ← m1 st; m2 st) (b1 ++ b2).
Proof.
  intros H1 H2 st. split; [apply emits_bind; intros st1; [apply H1|apply H2]|].
  intros Ht Hb. rewrite zlen_app in Hb. pose proof (zlen_nonneg b2).
  destruct (H1 st) as [Ha1 [st1 Hm1]]; [done|lia|]. destruct (Ha1 _ Hm1) as [_ He1].
  destruct (H2 st1) as [_ [st2 Hm2]]; [done|lia|]. exists st2. by rewrite Hm1.
Qed.

Lemma runs_ok : runs (λ st, Ok st) [].
Proof. intros st. split; [|by eexists]. intros st' [= <-]. apply appends_refl. Qed.

Lemma write_emits c : emits (write clock deadline c) c.
Proof. intros st st'. unfold write. case_match; [done|]. intros [= <-]. done. Qed.

Lemma write_bound c st st' : write clock deadline c st = Ok st' → emitted st' <= MAX_BYTES.
Proof. unfold write. case_match eqn:E; [done|]. intros [= <-]. ok_inv. simpl. lia. Qed.

Lemma string_emits c : emits (string_ clock deadline c) (nar_string c).
Proof. unfold string_, nar_string. repeat (apply emits_bind; [apply write_emits|]). apply write_emits. Qed.

Lemma take_length_take {A} n (l : list A) : take (length (take n l)) l = take n l.
Proof.
  rewrite length_take. destruct (decide (n <= length l)%nat).
  - by rewrite Nat.min_l.
  - rewrite Nat.min_r by lia. by rewrite !take_ge by lia.
Qed.

Lemma copy_emits fuel stream remaining st st' :
  copy clock deadline fuel stream remaining st = Ok st' →
  appends st stream st' ∧ remaining = zlen stream.
Proof.
  revert stream remaining st. induction fuel as [|fuel IH]; intros stream remaining st; simpl;
    (case_bool_decide as Hr; [destruct stream; [|done]; intros [= <-]; split; [apply appends_refl|by rewrite Hr]|]); [done|].
  destruct (take _ _) as [|b chunk] eqn:Hc; [done|]. intros H. ok_inv.
  match goal with H : copy _ _ _ _ _ _ = _ |- _ => apply IH in H as [Ha Hz] end.
  match goal with H : write _ _ _ _ = _ |- _ => apply write_emits in H end.
  rewrite <-(take_drop (length (b :: chunk)) stream).
  assert (take (length (b :: chunk)) stream = b :: chunk) as Ht.
  { rewrite <-Hc. apply take_length_take. }
  rewrite Ht. split; [by eapply appends_trans|]. rewrite zlen_app. unfold zlen in *. lia.
Qed.

(** Some 8-aligned block was written. *)
Definition emits_aligned (m : sstate → res sstate) : Prop :=
  ∀ st st', m st = Ok st' → ∃ b, appends st b st' ∧ (8 | zlen b).

Lemma aligned_bind m1 m2 :
  emits_aligned m1 → emits_aligned m2 → emits_aligned (λ st, st ← m1 st; m2 st).
Proof.
  intros H1 H2 st st' H. ok_inv. edestruct H1 as (b1 & ? & ?); [done|]. edestruct H2 as (b2 & ? & ?); [done|].
  exists (b1 ++ b2). split; [by eapply appends_trans|]. rewrite zlen_app. by apply Z.divide_add_r.
Qed.

Lemma aligned_ok : emits_aligned (λ st, Ok st).
Proof. intros st st' [= <-]. exists []. split; [apply appends_refl|]. by exists 0. Qed.

Lemma aligned_str s : emits_aligned (str_ clock deadline s).
Proof. intros st st' H%string_emits. eexists. split; [done|]. apply nar_string_aligned. Qed.

Lemma aligned_forM {A} (f : sstate → A → res sstate) l :
  (∀ x, emits_aligned (λ st, f st x)) → emits_aligned (forM f l).
Proof.
  intros Hf. induction l as [|x l IH]; [apply aligned_ok|].
  apply (aligned_bind (λ st, f st x) (forM f l)); auto.
Qed.

Section Node.
Context (opener : string → res opened) (bp : list (string * kind)) (ch : list (string * list string)).

Lemma regular_emits path size ex st st' :
  regular clock deadline opener path size ex st = Ok st' →
  ∃ f, opener path = Ok f ∧ size = zlen (content f) ∧
    appends st ((if ex then nar_str "executable" ++ nar_str "" else []) ++ nar_str "contents" ++ nar_string (content f)) st'.
Proof.
  unfold regular. intros H. ok_inv.
  match goal with H : copy _ _ _ _ _ _ = _ |- _ => apply copy_emits in H as [Hc ->] end.
  eexists. split_and!; [done|done|].
  repeat match goal with
  | H : write _ _ _ _ = Ok _ |- _ => apply write_emits in H
  | H : str_ _ _ _ _ = Ok _ |- _ => apply string_emits in H
  end.
  eapply appends_trans; [|eapply appends_trans; [done|]].
  - destruct ex; ok_inv; [|apply appends_refl].
    repeat match goal with H : str_ _ _ _ _ = Ok _ |- _ => apply string_emits in H end.
    by eapply appends_trans.
  - unfold nar_string. eapply appends_trans; [done|]. by eapply appends_trans.
Qed.

Lemma aligned_node fuel path : emits_aligned (node clock deadline opener bp ch fuel path).
Proof.
  revert path. induction fuel as [|fuel IH]; intros path; [done|]. cbn [node].
  destruct (dget path bp) as [item|]; [|done].
  repeat (apply aligned_bind; [apply aligned_str|]).
  apply aligned_bind; [|apply aligned_str]. destruct item as [size ex|t|].
  - intros st st' (f & _ & _ & Ha)%regular_emits. eexists. split; [done|]. rewrite !zlen_app.
    apply Z.divide_add_r; [|apply Z.divide_add_r; apply nar_string_aligned].
    destruct ex; [|by exists 0]. rewrite zlen_app. apply Z.divide_add_r; apply nar_string_aligned.
  - apply aligned_bind; apply aligned_str.
  - apply aligned_forM. intros name. unfold entry.
    repeat (apply aligned_bind; [apply aligned_str|]).
    apply aligned_bind; [apply IH|apply aligned_str].
Qed.

Lemma node_bound fuel path st st' :
  node clock deadline opener bp ch fuel path st = Ok st' → emitted st' <= MAX_BYTES.
Proof.
  destruct fuel as [|fuel]; [done|]. cbn [node]. destruct (dget path bp); [|done]. intros H. ok_inv.
  match goal with H : str_ _ _ ")" _ = _ |- _ => unfold str_, string_ in H end. ok_inv.
  by eapply write_bound.
Qed.
End Node.

End SerializeSpec.

(** ** The recursion never runs out of fuel *)
Abbreviation fuelled := (raises (λ e, e ≠ NoFuel)).

Section Fuel.
Context (clock : nat → Z) (deadline : Z) (opener : string → res opened).
Context (bp : list (string * kind)) (ch : list (string * list string)).
Hypothesis opener_raises : ∀ p, fuelled (opener p).

Lemma fuelled_write c st : fuelled (write clock deadline c st).
Proof. unfold write. solve_raises. Qed.
#[local] Hint Resolve fuelled_write opener_raises : omux.

Lemma fuelled_str s st : fuelled (str_ clock deadline s st).
Proof. unfold str_, string_. solve_raises. Qed.
#[local] Hint Resolve fuelled_str : omux.

Lemma fuelled_copy fuel stream remaining st :
  (length stream < fuel)%nat → fuelled (copy clock deadline fuel stream remaining st).
Proof.
  revert stream remaining st. induction fuel as [|fuel IH]; intros stream remaining st Hl; [lia|].
  cbn [copy]. case_bool_decide; [solve_raises|].
  destruct (take _ _) as [|b chunk] eqn:Hc; [solve_raises|].
  apply raises_bind; [solve_raises|]. intros st'.
  apply IH. rewrite length_drop. assert (stream ≠ []) by (intros ->; by rewrite take_nil in Hc).
  destruct stream; [done|]. simpl in *. lia.
Qed.

Lemma fuelled_regular path size ex st : fuelled (regular clock deadline opener path size ex st).
Proof.
  assert (∀ f r st, fuelled (copy clock deadline (S (length (content f))) (content f) r st)) as Hc.
  { intros. apply fuelled_copy. lia. }
  unfold regular. solve_raises.
Qed.
#[local] Hint Resolve fuelled_regular : omux.

Lemma fuelled_node fuel path st :
  well_formed bp ch → path ∈ dkeys bp → MAX_DEPTH < Z.of_nat fuel + zlen (parts_of path) →
  fuelled (node clock deadline opener bp ch fuel path st).
Proof.
  intros Hwf. revert path st. induction fuel as [|fuel IH]; intros path st Hp Hd.
  - pose proof (relative_name_Ok _ _ (wf_names _ _ Hwf path Hp)) as (_ & ? & _). lia.
  - cbn [node]. destruct (dget path bp) as [item|]; [|solve_raises].
    assert (∀ name s, name ∈ merge_sort String.le (default [] (dget path ch)) →
              fuelled (entry clock deadline (node clock deadline opener bp ch fuel) path s name)) as He.
    { intros name s Hn. rewrite merge_sort_Permutation in Hn.
      destruct (dget path ch) as [names|] eqn:Hch; [|by apply elem_of_nil in Hn].
      destruct (wf_children _ _ Hwf _ _ Hch) as (_ & _ & Hc). apply Hc in Hn as (p & Hpk & Hpp).
      pose proof (relative_name_Ok _ _ (wf_names _ _ Hwf path Hp)) as (_ & _ & Hok & _).
      assert (child_path path name = p) as Hcp.
      { rewrite <-(join_parts path), child_path_join, <-Hpp, join_parts by done. done. }
      unfold entry. rewrite Hcp. assert (∀ s, fuelled (node clock deadline opener bp ch fuel p s)) as Hnode.
      { intros s'. apply IH; [done|]. rewrite Hpp, zlen_app. unfold zlen at 2. simpl. lia. }
      solve_raises. }
    solve_raises.
Qed.
End Fuel.

Lemma fuelled_validate v : fuelled (validate_descriptor v).
Proof.
  assert (∀ v, fuelled (relative_name v)) by (intros; unfold relative_name; solve_raises).
  assert (∀ st node, fuelled (validate_node st node)) by (intros; unfold validate_node; solve_raises).
  unfold validate_descriptor. solve_raises.
Qed.

(** ** From a file tree to its archive *)
Inductive fs_ok : fs → Prop :=
  | ok_file c x : fs_ok (FFile c x)
  | ok_link s : fs_ok (FLink s)
  | ok_special : fs_ok FSpecial
  | ok_dir es : NoDup (dkeys es) → (∀ n t, (n, t) ∈ es → name_ok n ∧ fs_ok t) → fs_ok (FDir es).

Lemma walk_app t p q : walk t (p ++ q) = (u ← walk t p; walk u q).
Proof.
  revert t. induction p as [|n p IH]; intros t; [done|]. simpl. destruct t; try done.
  destruct (dget n entries); [apply IH|done].
Qed.

Lemma walk_ok t p u : fs_ok t → walk t p = Ok u → fs_ok u ∧ Forall name_ok p.
Proof.
  intros Ht. revert t Ht. induction p as [|n p IH]; intros t Ht; simpl; [intros [= <-]; done|].
  destruct Ht as [| | |es Hnd Hes]; try done.
  destruct (dget n es) as [t|] eqn:Hn; [|done]. intros Hw. apply dget_Some_elem in Hn.
  destruct (Hes n t Hn) as [Hname Hok]. destruct (IH t Hok Hw) as [? ?]. auto.
Qed.

Lemma walk_snoc t p es n u : walk t p = Ok (FDir es) → walk t (p ++ [n]) = Ok u ↔ dget n es = Some u.
Proof.
  intros Hp. rewrite walk_app, Hp. cbn [mbind res_bind walk]. destruct (dget n es); naive_solver.
Qed.

Section Runs.
Context (clock : nat → Z) (deadline : Z).
#[local] Abbreviation runs := (runs clock deadline).

Lemma write_runs c : runs (write clock deadline c) c.
Proof.
  intros st. split; [apply write_emits|]. intros in_time Hb. unfold write.
  rewrite !bool_decide_false by (specialize (in_time (ticks st)); lia). eauto.
Qed.

Lemma str_runs s : runs (str_ clock deadline s) (nar_str s).
Proof. unfold str_, string_. repeat (apply runs_bind; [apply write_runs|]). apply write_runs. Qed.

Lemma copy_step fuel stream remaining st chunk :
  remaining ≠ 0 → chunk = take (Z.to_nat (Z.min 65536 remaining)) stream → chunk ≠ [] →
  copy clock deadline (S fuel) stream remaining st =
  (st ← write clock deadline chunk st;
   copy clock deadline fuel (drop (length chunk) stream) (remaining - zlen chunk) st).
Proof. intros Hr Hc Hne. cbn [copy]. rewrite bool_decide_false, <-Hc by done. by destruct chunk. Qed.

Lemma copy_runs fuel stream :
  (length stream < fuel)%nat → runs (copy clock deadline fuel stream (zlen stream)) stream.
Proof.
  revert stream. induction fuel as [|fuel IH]; intros stream Hl st; [lia|].
  destruct (decide (stream = [])) as [->|Hne].
  { apply runs_ok. }
  assert (0 < zlen stream) as Hz by (destruct stream; [done|unfold zlen; simpl length; lia]).
  remember (take (Z.to_nat (65536 `min` zlen stream)) stream) as chunk eqn:Hc.
  assert (0 < zlen chunk) as Hpos by (subst; unfold zlen in *; rewrite length_take; lia).
  assert (stream = chunk ++ drop (length chunk) stream) as Hs.
  { rewrite <-(take_drop (length chunk) stream) at 1. f_equal. subst. apply take_length_take. }
  rewrite (copy_step fuel stream (zlen stream) st chunk) by (done || lia || (intros ->; done)).
  assert (zlen stream - zlen chunk = zlen (drop (length chunk) stream)) as ->.
  { apply (f_equal zlen) in Hs. rewrite zlen_app in Hs. lia. }
  assert (runs (copy clock deadline fuel (drop (length chunk) stream) (zlen (drop (length chunk) stream)))
            (drop (length chunk) stream)) as Hrest.
  { apply IH. rewrite length_drop. unfold zlen in *. lia. }
  pose proof (runs_bind _ _ _ _ _ _ (write_runs chunk) Hrest) as Hboth. rewrite <-Hs in Hboth. apply Hboth.
Qed.

Section RunsNode.
Context (opener : string → res opened) (bp : list (string * kind)) (ch : list (string * list string)).

Lemma regular_runs path c x :
  opener path = Ok (Opened c (Some (zlen c, x))) →
  runs (regular clock deadline opener path (zlen c) x)
    ((if x then nar_str "executable" ++ nar_str "" else []) ++ nar_str "contents" ++ nar_string c).
Proof.
  intros Ho. unfold regular.
  apply (runs_bind _ _ (λ st, if x then st ← str_ clock deadline "executable" st; str_ clock deadline "" st else Ok st)).
  { destruct x; [apply runs_bind; apply str_runs|apply runs_ok]. }
  apply runs_bind; [apply str_runs|]. unfold nar_string. apply runs_bind; [apply write_runs|].
  intros st. rewrite Ho. cbn [mbind res_bind stat content].
  rewrite !bool_decide_false by naive_solver. cbn [orb raise_if mbind res_bind].
  apply (runs_bind _ _ (copy clock deadline (S (length c)) c (zlen c))); [apply copy_runs; lia|apply write_runs].
Qed.

(** The validated maps describe the tree [t]. *)
Record represents (t : fs) : Prop := {
  rep_kind : ∀ p u, walk t p = Ok u → zlen p <= MAX_DEPTH ∧ ∃ k, kind_of u = Some k ∧ dget (join p) bp = Some k;
  rep_children : ∀ p es, walk t p = Ok (FDir es) → default [] (dget (join p) ch) ≡ₚ dkeys es;
  rep_open : ∀ p c x, walk t p = Ok (FFile c x) → opener (join p) = Ok (Opened c (Some (zlen c, x)));
}.

Lemma runs_forM {A B} (f : sstate → A → res sstate) (g : A * B → bytes) (l : list (A * B)) :
  (∀ e, e ∈ l → runs (λ st, f st e.1) (g e)) → runs (forM f l.*1) (concat (g <$> l)).
Proof.
  induction l as [|e l IH]; intros Hl; [apply runs_ok|].
  apply (runs_bind _ _ (λ st, f st e.1)); [apply Hl; set_solver|].
  apply IH. intros; apply Hl; set_solver.
Qed.

Lemma sorted_names {A} (names : list string) (l : list (string * A)) :
  names ≡ₚ l.*1 → merge_sort String.le names = (merge_sort name_le l).*1.
Proof.
  intros Hp. apply (Sorted_unique String.le).
  - apply Sorted_merge_sort; apply _.
  - apply Sorted_fmap with (R1 := name_le). { done. }
    apply Sorted_merge_sort. intros a b. apply String.le_total.
  - by rewrite !merge_sort_Permutation.
Qed.

Lemma node_runs fuel t p u :
  fs_ok t → represents t → walk t p = Ok u → MAX_DEPTH < Z.of_nat fuel + zlen p →
  runs (node clock deadline opener bp ch fuel (join p)) (nar_node u).
Proof.
  intros Hok Hrep. revert p u. induction fuel as [|fuel IH]; intros p u Hw Hd.
  { destruct (rep_kind _ Hrep p u Hw) as [? _]. lia. }
  destruct (rep_kind _ Hrep p u Hw) as (_ & k & Hk & Hbp).
  destruct (walk_ok t p u Hok Hw) as [Hu Hp]. cbn [node]. rewrite Hbp.
  destruct u as [c x|s|es|]; [injection Hk as <-..|done]; cbn [nar_node type_name];
    do 2 (apply runs_bind; [apply str_runs|]).
  - rewrite <-!(assoc_L (++)). apply (runs_bind _ _ (str_ clock deadline "regular")); [apply str_runs|].
    rewrite !(assoc_L (++) _ _ (nar_str ")")).
    apply runs_bind; [|apply str_runs]. apply regular_runs. by apply (rep_open _ Hrep).
  - rewrite <-!(assoc_L (++)). apply (runs_bind _ _ (str_ clock deadline "symlink")); [apply str_runs|].
    rewrite (assoc_L (++)). apply runs_bind; [|apply str_runs]. apply runs_bind; apply str_runs.
  - rewrite <-!(assoc_L (++)). apply (runs_bind _ _ (str_ clock deadline "directory")); [apply str_runs|].
    apply runs_bind; [|apply str_runs].
    rewrite (sorted_names _ ((λ e, (e.1, nar_node e.2)) <$> es)).
    2:{ rewrite (rep_children _ Hrep p es Hw). unfold dkeys. rewrite <-list_fmap_compose. done. }
    apply runs_forM. intros [n b] He. rewrite merge_sort_Permutation in He.
    apply list_elem_of_fmap in He as ([n' u] & [= -> ->] & He). cbn [fst snd].
    inversion Hu as [| | |? Hnd Hes]; subst. destruct (Hes _ _ He) as [Hn _].
    unfold entry, nar_entry. repeat (apply runs_bind; [apply str_runs|]).
    apply runs_bind; [|apply str_runs]. rewrite child_path_join by done.
    apply IH; [|rewrite zlen_app; unfold zlen at 2; simpl; lia].
    apply (walk_snoc _ _ es); [done|]. by apply dget_NoDup.
Qed.
End RunsNode.
End Runs.

(** ** What [describe] lists *)
Definition listed (t : fs) (nodes : list (string * kind)) : Prop :=
  (∀ s k, (s, k) ∈ nodes ↔ ∃ p u, s = join p ∧ walk t p = Ok u ∧ kind_of u = Some k) ∧
  ∀ p u, walk t p = Ok u → is_Some (kind_of u).

(** Every entry of the tree is listed or lies under a pending one. *)
Record dinv (t : fs) (pending : list (string * fs)) (nodes : list (string * kind)) : Prop := {
  di_pending : ∀ s u, (s, u) ∈ pending → ∃ p, s = join p ∧ walk t p = Ok u;
  di_nodes : ∀ s k, (s, k) ∈ nodes → ∃ p u, s = join p ∧ walk t p = Ok u ∧ kind_of u = Some k;
  di_all : ∀ p u, walk t p = Ok u →
    (∃ k, kind_of u = Some k ∧ (join p, k) ∈ nodes) ∨
    ∃ q r v, p = q ++ r ∧ (join q, v) ∈ pending ∧ walk v r = Ok u;
}.

Lemma describe_step_Ok relative t nodes bytes pushed nodes' bytes' :
  describe_step relative t nodes bytes = Ok (pushed, nodes', bytes') →
  zlen nodes < MAX_ENTRIES ∧ ∃ k, kind_of t = Some k ∧ nodes' = nodes ++ [(relative, k)] ∧
    pushed = match t with FDir es => reverse ((λ e, (child_path relative e.1, e.2)) <$> es) | _ => [] end.
Proof.
  unfold describe_step. intros H. ok_inv. repeat (case_match; ok_inv; try done); simplify_eq/=;
    (split; [lia|]); eauto.
Qed.

Lemma dinv_step t relative u pending nodes bytes pushed nodes' bytes' :
  fs_ok t → dinv t ((relative, u) :: pending) nodes →
  describe_step relative u nodes bytes = Ok (pushed, nodes', bytes') → dinv t (pushed ++ pending) nodes'.
Proof.
  intros Ht [H1 H2 H3] (_ & k & Hk & -> & ->)%describe_step_Ok.
  destruct (H1 relative u) as (p & -> & Hp); [set_solver|]. destruct (walk_ok _ _ _ Ht Hp) as [Hu Hn].
  assert (∀ es n v, u = FDir es → dget n es = Some v → walk t (p ++ [n]) = Ok v) as Hsub.
  { intros es n v -> Hg. by apply (walk_snoc _ _ es). }
  split.
  - intros s v [Hs|Hs]%elem_of_app; [|apply H1; set_solver].
    destruct u as [| |es|]; try (by apply elem_of_nil in Hs).
    apply elem_of_reverse, list_elem_of_fmap in Hs as ([n v'] & [= -> ->] & He). cbn [fst snd].
    inversion Hu as [| | |? Hnd _]; subst. exists (p ++ [n]). rewrite child_path_join by done.
    split; [done|]. eapply Hsub; [done|]. by apply dget_NoDup.
  - intros s k' [Hs|Hs]%elem_of_app; [by apply H2|]. apply list_elem_of_singleton in Hs as [= -> ->]. eauto.
  - intros q v Hq. destruct (H3 q v Hq) as [(k' & ? & ?)|(q' & r & w & -> & Hin & Hr)].
    { left. exists k'. set_solver. }
    apply elem_of_cons in Hin as [[= Hqp ->]|Hin]; [|right; exists q', r, w; set_solver].
    assert (q' = p) as ->.
    { rewrite walk_app in Hq. apply bind_Ok in Hq as (w & Hw & _). destruct (walk_ok _ _ _ Ht Hw) as [_ Hn'].
      by rewrite <-(parts_join p), <-Hqp, parts_join. }
    destruct r as [|n r]; [left|right].
    + injection Hr as <-. exists k. rewrite app_nil_r. set_solver.
    + cbn [walk] in Hr. destruct u as [| |es|]; try done. destruct (dget n es) as [w|] eqn:Hg; [|done].
      exists (p ++ [n]), r, w. rewrite <-(assoc_L (++)). split_and!; [done| |done].
      apply elem_of_app. left. apply elem_of_reverse, list_elem_of_fmap. exists (n, w). cbn [fst snd].
      rewrite child_path_join by done. split; [done|]. by apply dget_Some_elem.
Qed.

Lemma describe_loop_listed fuel t pending nodes bytes nodes' :
  fs_ok t → dinv t pending nodes → describe_loop fuel pending nodes bytes = Ok nodes' → listed t nodes'.
Proof.
  intros Ht. revert pending nodes bytes. induction fuel as [|fuel IH]; intros [|[relative u] pending] nodes bytes Hinv H;
    cbn [describe_loop] in H; try done.
  1,2: injection H as <-; destruct Hinv as [_ H2 H3];
    (assert (∀ p u, walk t p = Ok u → ∃ k, kind_of u = Some k ∧ (join p, k) ∈ nodes) as Hall;
      [intros p u [?|(? & ? & ? & _ & Hin & _)]%H3; [done|by apply elem_of_nil in Hin]|]);
    split; [intros s k; split; [by apply H2|]|naive_solver];
    intros (p & u & -> & (k' & ? & ?)%Hall & ?); congruence.
  ok_inv. repeat case_match; subst. eapply IH; [|done]. by eapply dinv_step.
Qed.

(** At most [MAX_ENTRIES] iterations succeed, so the fuel of [describe] suffices. *)
Lemma fuelled_describe_loop fuel pending nodes bytes :
  zlen nodes <= MAX_ENTRIES < Z.of_nat fuel + zlen nodes → fuelled (describe_loop fuel pending nodes bytes).
Proof.
  revert pending nodes bytes. induction fuel as [|fuel IH]; intros [|[relative u] pending] nodes bytes Hf e;
    cbn [describe_loop]; try done; [lia|].
  intros [He|([[pushed nodes'] bytes'] & Hs & He)]%bind_Err.
  - revert e He. change (fuelled (describe_step relative u nodes bytes)).
    unfold describe_step, relative_name. solve_raises.
  - apply describe_step_Ok in Hs as (? & k & _ & -> & _). revert e He. apply IH.
    rewrite zlen_app. unfold zlen at 2 4. simpl. lia.
Qed.

Lemma describe_fuelled root t : describe root t ≠ Err NoFuel.
Proof.
  intros [H|(nodes & _ & H)]%bind_Err.
  - apply fuelled_describe_loop in H; [done|]. split; [done|].
    change (zlen (@nil (string * kind))) with 0. rewrite Z2Nat.id by done. lia.
  - apply bind_Err in H as [H|(? & _ & H)]; [by apply fuelled_validate in H|done].
Qed.

Lemma validate_node_value st p k st' :
  validate_node st (node_value p k) = Ok st' → by_path st' = by_path st ++ [(p, k)].
Proof. unfold validate_node. intros H. destruct k; simpl in H; ok_inv; repeat (case_match; ok_inv; try done); by simplify_eq/=. Qed.

Lemma validate_values l st st' :
  forM validate_node ((λ n, node_value n.1 n.2) <$> l) st = Ok st' → by_path st' = by_path st ++ l.
Proof.
  revert st. induction l as [|[p k] l IH]; intros st H; simpl in H.
  - injection H as <-. by rewrite app_nil_r.
  - ok_inv. erewrite IH by done. erewrite validate_node_value by done. by rewrite <-(assoc_L (++)).
Qed.

(** The descriptor of a tree lists exactly its entries, without a duplicate. *)
Lemma describe_Ok root t d :
  fs_ok t → describe root t = Ok d →
  ∃ bp ch, validate_descriptor d = Ok (bp, ch) ∧ listed t bp ∧ well_formed bp ch ∧
    getitem d "root" = Ok (VStr root) ∧ root_ok (VStr root) = true.
Proof.
  intros Ht H. unfold describe in H. set (fuel := Z.to_nat _) in H. clearbody fuel. ok_inv. destruct x0 as [bp ch]. exists bp, ch.
  match goal with H : describe_loop _ _ _ _ = Ok ?l |- _ =>
    rename l into nodes; apply (describe_loop_listed _ t) in H as Hl; [|done|] end.
  2:{ split; [|by intros ??[]%elem_of_nil|].
      - intros s u [= -> ->]%list_elem_of_singleton. by exists [].
      - intros p u Hp. right. exists [], p, t. split_and!; [done|set_solver|done]. }
  match goal with H : validate_descriptor ?d = Ok _ |- _ => rename H into Hv end.
  assert (bp = merge_sort path_le nodes) as ->.
  { pose proof (validate_descriptor_inv _ _ _ Hv) as (_ & _ & _ & d & r & ns & st & [= <-] & _ & [= <-] & Hf & -> & _).
    by rewrite (validate_values _ _ _ Hf). }
  split_and!; [done| |by apply validate_descriptor_inv in Hv as [? _]|done|].
  - split; [|apply Hl]. intros s k. rewrite merge_sort_Permutation. apply Hl.
  - apply bind_Ok in Hv as (? & _ & Hv). apply bind_Ok in Hv as (? & _ & Hv).
    apply bind_Ok in Hv as (r & Hr & Hv). injection Hr as <-. by apply bind_Ok in Hv as (? & ?%ensure_Ok & _).
Qed.

(** Opening an entry of the tree below the input root finds it. *)
Lemma open_entry system root p c x :
  walk system (path_parts root ++ p) = Ok (FFile c x) → root_ok (VStr root) = true →
  relative_name (VStr (join p)) = Ok p → path_parts root ++ p ≠ [] →
  open_regular system root (join p) = Ok (Opened c (Some (zlen c, x))).
Proof.
  intros Hw Hr Hn Hne. unfold open_regular. unfold root_ok in Hr. ok_inv.
  match goal with H : startswith _ _ = true |- _ => rewrite H end. cbn [ensure mbind res_bind].
  rewrite Hn. cbn [mbind res_bind]. rewrite bool_decide_false by done. cbn [raise_if mbind res_bind].
  by rewrite Hw.
Qed.

Lemma describe_represents root system t bp ch :
  fs_ok t → walk system (path_parts root) = Ok t → root_ok (VStr root) = true → (∃ es, system = FDir es) →
  listed t bp → well_formed bp ch → represents (open_regular system root) bp ch t.
Proof.
  intros Ht Hs Hr [es0 Hdir] [Hl Hall] Hwf.
  assert (∀ p u, walk t p = Ok u → ∃ k, kind_of u = Some k ∧
            dget (join p) bp = Some k ∧ relative_name (VStr (join p)) = Ok p ∧ zlen p <= MAX_DEPTH) as Hkind.
  { intros p u Hw. destruct (Hall p u Hw) as [k Hk]. exists k.
    assert ((join p, k) ∈ bp) as Hin by (apply Hl; eauto). destruct (walk_ok _ _ _ Ht Hw) as [_ Hn].
    assert (relative_name (VStr (join p)) = Ok p) as Hrel.
    { rewrite <-(parts_join p Hn) at 2. apply (wf_names _ _ Hwf), list_elem_of_fmap. by exists (join p, k). }
    split_and!; [done|by apply dget_NoDup, Hin; apply (wf_nodup _ _ Hwf)|done|].
    by apply relative_name_Ok in Hrel as (_ & ? & _). }
  assert (∀ p es n, walk t p = Ok (FDir es) →
            n ∈ default [] (dget (join p) ch) ↔ ∃ q, q ∈ dkeys bp ∧ parts_of q = p ++ [n]) as Hch.
  { intros p es n Hw. destruct (walk_ok _ _ _ Ht Hw) as [_ Hn]. split.
    - destruct (dget (join p) ch) as [names|] eqn:Hd; [|by intros ?%elem_of_nil].
      destruct (wf_children _ _ Hwf _ _ Hd) as (_ & _ & Hc). rewrite <-(parts_join p Hn). apply Hc.
    - intros (q & Hq & Hpq). destruct (wf_parents _ _ Hwf _ _ _ Hq Hpq) as (_ & names & -> & ?). done. }
  split.
  - intros p u (k & ? & ? & _ & ?)%Hkind. eauto.
  - intros p es Hw. destruct (walk_ok _ _ _ Ht Hw) as [Hes Hn]. inversion Hes; subst. apply NoDup_Permutation; [|done|].
    + destruct (dget (join p) ch) as [names|] eqn:Hd; [|constructor]. by apply (wf_children _ _ Hwf (join p)).
    + intros n. rewrite (Hch p es) by done. rewrite elem_of_dkeys. setoid_rewrite <-(walk_snoc t p es n); [|done]. split.
      * intros (q & Hq & Hpq). apply list_elem_of_fmap in Hq as ([q' k] & -> & (p' & u & -> & Hw' & _)%Hl).
        cbn [fst] in *. destruct (walk_ok _ _ _ Ht Hw') as [_ Hn']. rewrite parts_join in Hpq by done. subst. by exists u.
      * intros [u Hu]. destruct (Hall _ _ Hu) as [k Hk]. exists (join (p ++ [n])).
        split; [|apply parts_join, (walk_ok _ _ _ Ht Hu)]. apply list_elem_of_fmap. exists (join (p ++ [n]), k).
        split; [done|]. apply Hl. eauto.
  - intros p c x Hw. destruct (Hkind _ _ Hw) as (_ & _ & _ & Hrel & _). apply open_entry; try done.
    + by rewrite walk_app, Hs.
    + intros [Hnil Hp]%app_nil. rewrite Hp in Hw. injection Hw as Hw. rewrite Hnil in Hs. injection Hs as Hs. congruence.
Qed.

Lemma serialize_fuelled clock deadline opener descriptor
    (Hopen : ∀ root p, opener root p ≠ Err NoFuel) :
  serialize clock deadline opener descriptor ≠ Err NoFuel.
Proof.
  intros H. unfold serialize in H. apply bind_Err in H as [H|([bp ch] & Hv & H)].
  { by apply fuelled_validate in H. }
  apply validate_descriptor_inv in Hv as (Hwf & _ & _ & d & root & nodes & st & -> & Hr & _).
  rewrite (getitem_Some _ _ _ Hr) in H. cbn [mbind res_bind] in H.
  apply bind_Err in H as [H|(st1 & _ & H)]; [by apply fuelled_str in H|].
  apply bind_Err in H as [H|(st2 & _ & H)]; [|done].
  apply fuelled_node in H; [done|by intros p e He ->; apply (Hopen root p)|done| |done].
  destruct (wf_root _ _ Hwf) as [k Hk]. apply dget_Some_elem in Hk.
  apply list_elem_of_fmap. by exists ("", k).
Qed.

End NarDescriptor.
