(* ===== verification/NarArchive.v ===== *)
(** * What the archive of a tree is worth

    The theorems that join the parts of [NarDescriptor]: describing a tree and
    serializing the descriptor yields the Nix archive of that tree, and the
    archive determines the tree, so that the hash of [hash_descriptor] commits
    to every path, file content, executable bit and link target. *)
From S2P Require Import Prelude PyBytes PyString PyValue Sha256 NarDescriptor.
Import NarDescriptor.
Local Open Scope Z_scope.

Module NarArchive.

(** ** The archive is uniquely readable *)
Definition capped (b : bytes) : Prop := zlen b <= MAX_BYTES.

Lemma capped_app a b : capped (a ++ b) → capped a ∧ capped b.
Proof. unfold capped. rewrite zlen_app. pose proof (zlen_nonneg a). pose proof (zlen_nonneg b). lia. Qed.

Lemma nar_string_inj a b r1 r2 :
  capped a → capped b → nar_string a ++ r1 = nar_string b ++ r2 → a = b ∧ r1 = r2.
Proof.
  unfold capped, nar_string. rewrite <-!(assoc_L (++)). intros Ha Hb H.
  apply app_inj_1 in H as [Hl H]; [|by rewrite !length_encode].
  assert (zlen a = zlen b) as Hz.
  { apply (f_equal (decode LE)) in Hl. pose proof (zlen_nonneg a). pose proof (zlen_nonneg b).
    assert (MAX_BYTES < 256 ^ Z.of_nat 8) by (vm_compute; done). by rewrite !decode_encode in Hl by lia. }
  apply app_inj_1 in H as [-> H]; [|unfold zlen in Hz; lia]. split; [done|].
  by apply app_inv_head in H.
Qed.

Lemma capped_string c r : capped (nar_string c ++ r) → capped c ∧ capped r.
Proof. intros [H Hr]%capped_app. unfold nar_string in H. apply capped_app in H as [_ [? _]%capped_app]. done. Qed.

Lemma nar_str_inj s1 s2 r1 r2 :
  capped (nar_str s1 ++ r1) → nar_str s1 ++ r1 = nar_str s2 ++ r2 → s1 = s2 ∧ r1 = r2 ∧ capped r1.
Proof.
  intros Hc H. pose proof Hc as Hc2. rewrite H in Hc2. apply capped_string in Hc as [Hs1 Hr], Hc2 as [Hs2 _].
  apply nar_string_inj in H as [?%fsencode_inj ?]; done.
Qed.

(** Peel the strings off two equal streams. *)
Ltac peel :=
  repeat match goal with
  | H : nar_str _ ++ _ = nar_str _ ++ _, Hc : capped (nar_str _ ++ _) |- _ =>
      let E := fresh "E" in apply (nar_str_inj _ _ _ _ Hc) in H as (E & H & Hc');
      clear Hc; rename Hc' into Hc; try discriminate E
  end.

(** ** Equality of trees up to the order of directory entries *)
Inductive same_tree : fs → fs → Prop :=
  | same_file c x : same_tree (FFile c x) (FFile c x)
  | same_link s : same_tree (FLink s) (FLink s)
  | same_special : same_tree FSpecial FSpecial
  | same_dir es1 es2 l1 l2 : es1 ≡ₚ l1 → es2 ≡ₚ l2 →
      Forall2 (λ a b, a.1 = b.1 ∧ same_tree a.2 b.2) l1 l2 → same_tree (FDir es1) (FDir es2).

Definition readable (t1 : fs) : Prop := ∀ t2 r1 r2,
  capped (nar_node t1 ++ r1) → nar_node t1 ++ r1 = nar_node t2 ++ r2 → same_tree t1 t2 ∧ r1 = r2.

Definition entries (l : list (string * fs)) : bytes := concat ((λ e, nar_entry e.1 (nar_node e.2)) <$> l).

Lemma entries_cons e l r :
  entries (e :: l) ++ r = nar_str "entry" ++ nar_str "(" ++ nar_str "name" ++ nar_str e.1 ++ nar_str "node" ++
    nar_node e.2 ++ nar_str ")" ++ entries l ++ r.
Proof. unfold entries. cbn [fmap list_fmap concat]. unfold nar_entry. by rewrite <-!(assoc_L (++)). Qed.

Lemma entries_readable l1 l2 r1 r2 :
  Forall (λ e, readable e.2) l1 →
  capped (entries l1 ++ nar_str ")" ++ r1) →
  entries l1 ++ nar_str ")" ++ r1 = entries l2 ++ nar_str ")" ++ r2 →
  Forall2 (λ a b, a.1 = b.1 ∧ same_tree a.2 b.2) l1 l2 ∧ r1 = r2.
Proof.
  intros Hl. revert l2. induction Hl as [|e1 l1 He Hl IH]; intros [|e2 l2] Hc H;
    rewrite ?entries_cons in H; rewrite ?entries_cons in Hc; change (entries []) with (@nil byte) in *; cbn [app] in *.
  - peel. split; [constructor|done].
  - peel.
  - peel.
  - peel. assert (capped (nar_str ")" ++ entries l1 ++ nar_str ")" ++ r1)) as Hc2 by by apply capped_app in Hc as [_ ?].
    apply He in H as [Hs H]; [|done]. clear Hc. peel. apply IH in H as [? ?]; [|done]. auto.
Qed.

Lemma dir_entries es : ∃ l, es ≡ₚ l ∧
  concat ((λ e, nar_entry e.1 e.2) <$> merge_sort name_le ((λ e, (e.1, nar_node e.2)) <$> es)) = entries l.
Proof.
  pose proof (merge_sort_Permutation name_le ((λ e : string * fs, (e.1, nar_node e.2)) <$> es)) as Hp.
  apply Permutation_map_inv in Hp as (l & Hl & Hp). exists l. split; [done|].
  change (map ?f ?l) with (f <$> l) in Hl. rewrite Hl, <-list_fmap_compose. done.
Qed.

(** Induction on a tree, with the hypothesis for every entry of a directory. *)
Lemma fs_entries_ind (P : fs → Prop) :
  (∀ c x, P (FFile c x)) → (∀ s, P (FLink s)) → P FSpecial →
  (∀ es, Forall (λ e, P e.2) es → P (FDir es)) → ∀ t, P t.
Proof.
  intros Hf Hl Hs Hd. fix IH 1. intros [c x|s|es|]; [apply Hf|apply Hl| |apply Hs].
  apply Hd. induction es as [|[n t] es IHes]; constructor; [apply IH|apply IHes].
Qed.

Lemma file_readable c c2 r1 r2 :
  capped (nar_string c ++ nar_str ")" ++ r1) →
  nar_string c ++ nar_str ")" ++ r1 = nar_string c2 ++ nar_str ")" ++ r2 → c = c2 ∧ r1 = r2.
Proof.
  intros Hc H. pose proof Hc as Hc2. rewrite H in Hc2. apply capped_string in Hc as [Hc Hr], Hc2 as [Hc2 _].
  apply nar_string_inj in H as [-> H]; [|done..]. by peel.
Qed.

Lemma tree_readable t : readable t.
Proof.
  induction t as [c x|s| |es IH] using fs_entries_ind; intros t2 r1 r2 Hc H;
    destruct t2 as [c2 x2|s2|es2|]; cbn [nar_node] in H, Hc;
    rewrite <-!(assoc_L (++)) in H; rewrite <-!(assoc_L (++)) in Hc; cbn [app] in H, Hc; peel.
  - destruct x, x2; rewrite <-?(assoc_L (++)) in H; rewrite <-?(assoc_L (++)) in Hc; cbn [app] in H, Hc; peel;
    apply file_readable in H as [-> ->]; try done; (split; [constructor|done]).
  - peel. subst. split; [constructor|done].
  - split; [constructor|done].
  - destruct (dir_entries es) as (l1 & Hl1 & Hd1), (dir_entries es2) as (l2 & Hl2 & Hd2).
    rewrite Hd1 in Hc, H. rewrite Hd2 in H.
    apply entries_readable in H as [H ->]; [|by rewrite <-Hl1|done]. split; [by econstructor|done].
Qed.

(** ** What a tree shows *)
Inductive shape := ShFile (c : bytes) (x : bool) | ShLink (target : string) | ShDir | ShSpecial.

Definition shape_of (t : fs) : shape :=
  match t with FFile c x => ShFile c x | FLink s => ShLink s | FDir _ => ShDir | FSpecial => ShSpecial end.

Definition look (t : fs) (p : list string) : res shape := shape_of <$> walk t p.

Lemma same_dget (l1 l2 : list (string * fs)) n :
  Forall2 (λ a b, a.1 = b.1 ∧ same_tree a.2 b.2) l1 l2 → option_Forall2 same_tree (dget n l1) (dget n l2).
Proof.
  induction 1 as [|[n1 t1] [n2 t2] l1 l2 [Hn Ht] _ IH]; cbn [dget fst snd] in *; [constructor|]. subst.
  case_bool_decide; [by constructor|done].
Qed.

Lemma same_look p : ∀ t1 t2, fs_ok t1 → fs_ok t2 → same_tree t1 t2 → look t1 p = look t2 p.
Proof.
  unfold look. induction p as [|n p IH]; intros t1 t2 H1 H2 Hs; [by destruct Hs|].
  destruct Hs as [| | |es1 es2 l1 l2 Hp1 Hp2 Hl]; [done..|]. cbn [walk].
  inversion H1 as [| | |? Hnd1 He1]; inversion H2 as [| | |? Hnd2 He2]; subst.
  pose proof (same_dget l1 l2 n Hl) as Hd.
  rewrite (dget_Permutation n es1 l1), (dget_Permutation n es2 l2) by done.
  destruct (dget n l1) as [u1|] eqn:E1, (dget n l2) as [u2|] eqn:E2; inversion Hd; subst; [|done].
  apply dget_Some_elem in E1, E2. rewrite <-Hp1 in E1. rewrite <-Hp2 in E2. apply IH; [by eapply He1|by eapply He2|done].
Qed.

Lemma nar_of_inj t1 t2 : capped (nar_of t1) → nar_of t1 = nar_of t2 → same_tree t1 t2.
Proof.
  unfold nar_of. intros Hc H. peel. rewrite <-(app_nil_r (nar_node t1)) in H, Hc. rewrite <-(app_nil_r (nar_node t2)) in H.
  by apply tree_readable in H as [? _].
Qed.

(** ** The archive of a described tree *)
Section Described.
Context (clock : nat → Z) (deadline : Z) (system t : fs) (root : string) (d : value).
Context (Hfs : fs_ok t) (Hsys : ∃ es, system = FDir es).
Context (Hat : walk system (path_parts root) = Ok t) (Hdesc : describe root t = Ok d).

Lemma described_serialize :
  ∃ m, runs clock deadline m (nar_of t) ∧
    serialize clock deadline (open_regular system) d = (st ← m (SState 0 [] 0); Ok (emitted st, out st)).
Proof.
  destruct (describe_Ok _ _ _ Hfs Hdesc) as (bp & ch & Hv & Hl & Hwf & Hr & Hroot).
  pose proof (describe_represents root system t bp ch Hfs Hat Hroot Hsys Hl Hwf) as Hrep.
  exists (λ st, st ← str_ clock deadline "nix-archive-1" st;
                node clock deadline (open_regular system root) bp ch node_fuel "" st). split.
  - apply runs_bind; [apply str_runs|]. by apply (node_runs clock deadline _ _ _ _ t []).
  - unfold serialize. rewrite Hv. cbn [mbind res_bind]. rewrite Hr. cbn [mbind res_bind].
    by rewrite bind_assoc_res.
Qed.

Lemma described_data count data :
  serialize clock deadline (open_regular system) d = Ok (count, data) → data = nar_of t ∧ count = zlen data.
Proof.
  destruct described_serialize as (m & Hm & ->). intros H. ok_inv. simplify_eq.
  edestruct Hm as [Ha _]. edestruct Ha as [-> ->]; [done|]. done.
Qed.

Lemma described_runs :
  (∀ n, clock n <= deadline) → capped (nar_of t) →
  ∃ r, serialize clock deadline (open_regular system) d = Ok r.
Proof.
  intros Ht Hc. destruct described_serialize as (m & Hm & ->).
  destruct (Hm (SState 0 [] 0)) as [_ [st ->]]; [done|done|]. by eexists.
Qed.
End Described.

Lemma serialize_framing clock deadline opener descriptor count data :
  serialize clock deadline opener descriptor = Ok (count, data) → count = zlen data ∧ (8 | count) ∧ 0 < count <= MAX_BYTES.
Proof.
  intros Hrun.
  unfold serialize in Hrun. ok_inv. destruct x as [bp ch]. ok_inv.
  match goal with H : node _ _ _ _ _ _ _ _ = _ |- _ =>
    pose proof (node_bound _ _ _ _ _ _ _ _ _ H) as Hmax; apply aligned_node in H as (b & [Ho He] & Hb) end.
  match goal with H : str_ _ _ _ _ = _ |- _ => apply string_emits in H as [Ho1 He1] end.
  rewrite Ho, He, Ho1, He1. cbn [out emitted]. rewrite app_nil_l, Z.add_0_l, zlen_app. pose proof (zlen_nonneg b).
  pose proof (nar_string_aligned (fsencode "nix-archive-1")).
  split_and!; [lia|by apply Z.divide_add_r|..].
  - vm_compute (zlen (nar_string (fsencode "nix-archive-1"))). lia.
  - rewrite He, He1 in Hmax. cbn [emitted] in Hmax. lia.
Qed.

Lemma open_regular_fuelled system root p : open_regular system root p ≠ Err NoFuel.
Proof.
  assert (∀ q t, fuelled (walk t q)) as Hw.
  { intros q. induction q as [|n q IH]; intros t; cbn [walk]; solve_raises; apply IH. }
  assert (fuelled (open_regular system root p)) as H; [|by intros ?%H].
  unfold open_regular, relative_name. solve_raises.
Qed.

(** A tree of the examples: a program, its data and a link, under the store. *)
Definition sample : fs :=
  FDir [("share", FDir [("motd", FFile (fsencode "hello") false)]);
        ("bin", FDir [("omux", FFile (fsencode "#!") true)]); ("latest", FLink "../elsewhere")].
Definition sample_system : fs := FDir [("nix", FDir [("store", FDir [("p", sample)])])].
Definition sample_descriptor : value :=
  match describe "/nix/store/p" sample with Ok d => d | Err _ => VNone end.

Ltac ok_tree :=
  match goal with
  | |- fs_ok (FDir _) => constructor;
      [apply (bool_decide_unpack _); vm_compute; exact I
      |let H := fresh in intros ?? H; repeat (apply elem_of_cons in H as [[= -> ->]|H]; [split; [done|ok_tree]|]);
       by apply elem_of_nil in H]
  | |- fs_ok _ => constructor
  end.

Lemma sample_ok : fs_ok sample.
Proof. unfold sample. ok_tree. Qed.

(** ** The properties of the component *)



(** C6: two trees that serialize to the same bytes are the same tree: every
    path leads to the same kind of object in both, with the same content and
    executable bit or the same link target. *)
Theorem archive_commits clock1 clock2 deadline1 deadline2 system1 system2 root1 root2 t1 t2 d1 d2 data count1 count2
    (Hfs1 : fs_ok t1) (Hfs2 : fs_ok t2)
    (Hsys1 : ∃ es, system1 = FDir es) (Hsys2 : ∃ es, system2 = FDir es)
    (Hat1 : walk system1 (path_parts root1) = Ok t1) (Hat2 : walk system2 (path_parts root2) = Ok t2)
    (Hdesc1 : describe root1 t1 = Ok d1) (Hdesc2 : describe root2 t2 = Ok d2)
    (Hrun1 : serialize clock1 deadline1 (open_regular system1) d1 = Ok (count1, data))
    (Hrun2 : serialize clock2 deadline2 (open_regular system2) d2 = Ok (count2, data)) :
  ∀ p, look t1 p = look t2 p.
Proof.
  intros p. apply same_look; [done..|]. pose proof (serialize_framing _ _ _ _ _ _ Hrun1) as (Hz & _ & Hc).
  apply (described_data _ _ _ t1 root1) in Hrun1 as [-> _]; [|done..].
  apply (described_data _ _ _ t2 root2) in Hrun2 as [He _]; [|done..].
  apply nar_of_inj; [|done]. unfold capped. lia.
Qed.

Lemma archive_commits_witness : look sample ["bin"; "omux"] = look sample ["bin"; "omux"].
Proof.
  apply (archive_commits (λ _, 0) (λ _, 1) 1 2 sample_system sample_system "/nix/store/p" "/nix/store/p" sample sample
           sample_descriptor sample_descriptor (nar_of sample) (zlen (nar_of sample)) (zlen (nar_of sample)));
    [apply sample_ok|apply sample_ok|by eexists|by eexists|done|done|vm_compute; done..].
Defined.

(** C7: [describe] and [serialize] terminate: on every tree, and on every
    descriptor, valid or not, the traversal, the node recursion and the copy
    loops finish within their bounds ([MAX_ENTRIES] entries, [MAX_DEPTH + 1]
    nested nodes, one read per byte of the opened file). *)
Theorem nar_terminates clock deadline opener descriptor root t
    (Hopen : ∀ root p, opener root p ≠ Err NoFuel) :
  describe root t ≠ Err NoFuel ∧ serialize clock deadline opener descriptor ≠ Err NoFuel.
Proof. split; [apply describe_fuelled|by apply serialize_fuelled]. Qed.

Lemma nar_terminates_witness :
  describe "/p" sample ≠ Err NoFuel ∧
  serialize (λ _, 0) 1 (open_regular sample_system) (VDict []) ≠ Err NoFuel.
Proof.
  apply nar_terminates. apply open_regular_fuelled.
Defined.

(** Whatever descriptor and opener it is given, [serialize] only returns
    the number of bytes it emitted, which is a multiple of eight and within
    [MAX_BYTES]. *)
Theorem serialize_framed clock deadline opener descriptor count data
    (Hrun : serialize clock deadline opener descriptor = Ok (count, data)) :
  count = zlen data ∧ (8 | count) ∧ 0 < count <= MAX_BYTES.
Proof. by eapply serialize_framing. Qed.

Lemma serialize_framed_witness : (8 | zlen (nar_of sample)).
Proof.
  apply (serialize_framed (λ _, 0) 1 (open_regular sample_system) sample_descriptor (zlen (nar_of sample)) (nar_of sample)).
  vm_compute. done.
Defined.
End NarArchive.
