(* ===== verification/MachO.v ===== *)
(** * tools/macho.py: strict Mach-O inspection

    [parse_macho] reads thin and universal 64-bit Mach-O images.  A
    [memoryview] is the list of its bytes; [struct] formats are the widths of
    their fields.  The dictionaries of the source are functions, [None] where
    [dict.get] has no entry.  The loop over [range(ncommands)] recurses on the
    number of commands left, so it terminates by structure. *)
From S2P Require Import Prelude PyBytes PyString.
Local Open Scope Z_scope.

Module MachO.

Record MachOSlice := Slice {
  architecture : string;
  filetype : Z;
  dependencies : list string;
  rpaths : list string;
  install_id : option string;
  minimum_os : option (Z * Z * Z);
  code_signature : option (Z * Z);
}.

Definition THIN_MAGIC (magic : bytes) : option endian :=
  if bool_decide (magic = [xcf; xfa; xed; xfe]) then Some LE
  else if bool_decide (magic = [xfe; xed; xfa; xcf]) then Some BE else None.
Definition THIN_32_MAGIC (magic : bytes) : bool :=
  bool_decide (magic = [xce; xfa; xed; xfe]) || bool_decide (magic = [xfe; xed; xfa; xce]).
Definition FAT_MAGIC (magic : bytes) : option (endian * bool) :=
  if bool_decide (magic = [xca; xfe; xba; xbe]) then Some (BE, false)
  else if bool_decide (magic = [xbe; xba; xfe; xca]) then Some (LE, false)
  else if bool_decide (magic = [xca; xfe; xba; xbf]) then Some (BE, true)
  else if bool_decide (magic = [xbf; xba; xfe; xca]) then Some (LE, true) else None.
Definition ARCHITECTURES (cpu : Z) : option string :=
  if bool_decide (cpu = 0x01000007) then Some "x86_64"
  else if bool_decide (cpu = 0x0100000C) then Some "arm64" else None.
Definition DYLIB_LOAD_COMMANDS : list Z := [0xC; 0x80000018; 0x8000001F; 0x80000023; 0x20].
Definition LC_ID_DYLIB : Z := 0xD.
Definition LC_RPATH : Z := 0x8000001C.
Definition LC_CODE_SIGNATURE : Z := 0x1D.
Definition LC_VERSION_MIN_MACOSX : Z := 0x24.
Definition LC_BUILD_VERSION : Z := 0x32.

Definition check_range (offset size limit : Z) (description : string) : res unit :=
  raise_if (bool_decide (offset < 0) || bool_decide (size < 0) || bool_decide (offset > limit)
            || bool_decide (size > limit - offset)) (ValueError (description +:+ " is out of bounds")).

Definition unpack_ (data : bytes) (e : endian) (fmt : list nat) (offset : Z) (description : string) : res (list Z) :=
  _ ← check_range offset (calcsize fmt) (zlen data) description;
  Ok (unpack_from e fmt data offset).

(** Tuple unpacking of a fixed number of fields. *)
Definition tuple1 (l : list Z) : res Z := match l with [a] => Ok a | _ => Err (ValueError "unpack") end.
Definition tuple2 (l : list Z) : res (Z * Z) := match l with [a; b] => Ok (a, b) | _ => Err (ValueError "unpack") end.

Definition command_string (command : bytes) (e : endian) (minimum : Z) : res string :=
  _ ← raise_if (bool_decide (zlen command < minimum)) (ValueError "truncated path load command");
  offset ← unpack_ command e [4%nat] 8 "path offset" ≫= tuple1;
  _ ← raise_if (bool_decide (offset < minimum) || bool_decide (offset >= zlen command))
        (ValueError "invalid load-command string offset");
  let value := drop (Z.to_nat offset) command in
  match find_zero value with
  | None => Err (ValueError "unterminated load-command string")
  | Some terminator =>
      _ ← raise_if (bool_decide (terminator = O)) (ValueError "empty load-command path");
      _ ← raise_if (existsb (λ b, negb (bool_decide (b = x00))) (drop (S terminator) value))
            (ValueError "nonzero load-command string padding");
      match decode_utf8 (take terminator value) with
      | Err UnicodeError => Err (ValueError "load-command path is not UTF-8")
      | r => r
      end
  end.

Definition version (value : Z) : Z * Z * Z :=
  (Z.shiftr value 16, Z.land (Z.shiftr value 8) 0xFF, Z.land value 0xFF).

Definition minimum_os_ (previous : option (Z * Z * Z)) (value : Z) : res (Z * Z * Z) :=
  let v := version value in
  match previous with
  | Some p => if bool_decide (p ≠ v) then Err (ValueError "conflicting macOS minimum versions") else Ok v
  | None => Ok v
  end.

(** The mutable locals of the command loop *)
Record lstate := LState {
  l_deps : list string;
  l_rpaths : list string;
  l_id : option string;
  l_os : option (Z * Z * Z);
  l_sig : option (Z * Z);
}.

(** The body of the loop after the command [command] was cut out *)
Definition parse_command (e : endian) (limit commands_end : Z) (cmd cmdsize : Z) (command : bytes) (st : lstate)
    : res lstate :=
  let '(LState deps rpaths id os sig) := st in
  if bool_decide (cmd ∈ DYLIB_LOAD_COMMANDS) || bool_decide (cmd = LC_ID_DYLIB) then
    path ← command_string command e 24;
    if bool_decide (cmd = LC_ID_DYLIB) then
      match id with
      | Some _ => Err (ValueError "duplicate dylib install-ID command")
      | None => Ok (LState deps rpaths (Some path) os sig)
      end
    else Ok (LState (deps ++ [path]) rpaths id os sig)
  else if bool_decide (cmd = LC_RPATH) then
    path ← command_string command e 12;
    Ok (LState deps (rpaths ++ [path]) id os sig)
  else if bool_decide (cmd = LC_VERSION_MIN_MACOSX) then
    _ ← raise_if (bool_decide (cmdsize ≠ 16)) (ValueError "invalid macOS minimum-version command size");
    '(version, _) ← unpack_ command e [4;4]%nat 8 "minimum-version fields" ≫= tuple2;
    os' ← minimum_os_ os version;
    Ok (LState deps rpaths id (Some os') sig)
  else if bool_decide (cmd = LC_BUILD_VERSION) then
    _ ← raise_if (bool_decide (cmdsize < 24)) (ValueError "truncated build-version command");
    fields ← unpack_ command e [4;4;4;4]%nat 8 "build-version fields";
    match fields with
    | [platform; version; _; ntools] =>
        _ ← raise_if (bool_decide (cmdsize ≠ 24 + ntools * 8)) (ValueError "invalid build-version tool-table size");
        _ ← raise_if (bool_decide (platform ≠ 1)) (ValueError "build-version platform is not macOS");
        os' ← minimum_os_ os version;
        Ok (LState deps rpaths id (Some os') sig)
    | _ => Err (ValueError "unpack")
    end
  else if bool_decide (cmd = LC_CODE_SIGNATURE) then
    _ ← raise_if (bool_decide (cmdsize ≠ 16)) (ValueError "invalid code-signature command size");
    _ ← raise_if (bool_decide (is_Some sig)) (ValueError "duplicate code-signature command");
    '(offset, size) ← unpack_ command e [4;4]%nat 8 "code-signature fields" ≫= tuple2;
    _ ← check_range offset size limit "code-signature blob";
    _ ← raise_if (bool_decide (size = 0) || bool_decide (offset < commands_end))
          (ValueError "empty or overlapping code-signature blob");
    Ok (LState deps rpaths id os (Some (offset, size)))
  else Ok st.

Fixpoint parse_commands (data : bytes) (e : endian) (commands_end : Z) (ncommands : nat) (cursor : Z) (st : lstate)
    : res (Z * lstate) :=
  match ncommands with
  | O => Ok (cursor, st)
  | S n =>
      _ ← raise_if (bool_decide (commands_end - cursor < 8)) (ValueError "truncated load-command header");
      '(cmd, cmdsize) ← unpack_ data e [4;4]%nat cursor "load-command header" ≫= tuple2;
      _ ← raise_if (bool_decide (cmdsize < 8) || negb (bool_decide (cmdsize mod 8 = 0)))
            (ValueError "invalid load-command size or alignment");
      _ ← check_range cursor cmdsize commands_end "Mach-O load command";
      st ← parse_command e (zlen data) commands_end cmd cmdsize (slice cursor cmdsize data) st;
      parse_commands data e commands_end n (cursor + cmdsize) st
  end.

Definition parse_thin (data : bytes) (expected_cpu : option (Z * Z)) : res MachOSlice :=
  let magic := slice 0 4 data in
  _ ← raise_if (THIN_32_MAGIC magic) (ValueError "32-bit Mach-O slices are unsupported");
  match THIN_MAGIC magic with
  | None => Err (ValueError "slice is not a 64-bit Mach-O file")
  | Some e =>
      header ← unpack_ data e [4;4;4;4;4;4;4;4]%nat 0 "Mach-O header";
      match header with
      | [_; cpu; subtype; filetype; ncommands; commands_size; _; reserved] =>
          match ARCHITECTURES cpu with
          | None => Err (ValueError "unsupported Mach-O CPU type")
          | Some architecture =>
              _ ← raise_if (match expected_cpu with
                            | Some p => bool_decide (p ≠ (cpu, subtype)) | None => false end)
                    (ValueError "universal CPU metadata differs from slice header");
              _ ← raise_if (bool_decide (reserved ≠ 0)) (ValueError "nonzero reserved Mach-O header field");
              _ ← check_range 32 commands_size (zlen data) "Mach-O load-command region";
              _ ← raise_if (negb (bool_decide (commands_size mod 8 = 0)) || bool_decide (ncommands > commands_size / 8))
                    (ValueError "invalid Mach-O load-command count or alignment");
              let commands_end := 32 + commands_size in
              '(cursor, st) ← parse_commands data e commands_end (Z.to_nat ncommands) 32 (LState [] [] None None None);
              _ ← raise_if (bool_decide (cursor ≠ commands_end))
                    (ValueError "load commands do not fill their declared region");
              Ok (Slice architecture filetype (l_deps st) (l_rpaths st) (l_id st) (l_os st) (l_sig st))
          end
      | _ => Err (ValueError "unpack")
      end
  end.

(** A row of the universal table: offset, size, cpu, subtype *)
Definition fat_entry : Type := Z * Z * Z * Z.
Definition e_off (x : fat_entry) : Z := x.1.1.1.
Definition e_size (x : fat_entry) : Z := x.1.1.2.
Definition e_cpu (x : fat_entry) : Z := x.1.2.
Definition e_sub (x : fat_entry) : Z := x.2.

Definition parse_entry (view : bytes) (e : endian) (fat64 : bool) (table_end : Z) (cursor : Z)
    (seen_cpus : list Z) : res fat_entry :=
  '(cpu, subtype, offset, size, alignment) ←
    (if fat64 then
       fields ← unpack_ view e [4;4;8;8;4;4]%nat cursor "universal slice entry";
       match fields with
       | [cpu; subtype; offset; size; alignment; reserved] =>
           if bool_decide (reserved ≠ 0) then Err (ValueError "nonzero reserved universal slice field")
           else Ok (cpu, subtype, offset, size, alignment)
       | _ => Err (ValueError "unpack")
       end
     else
       fields ← unpack_ view e [4;4;4;4;4]%nat cursor "universal slice entry";
       match fields with
       | [cpu; subtype; offset; size; alignment] => Ok (cpu, subtype, offset, size, alignment)
       | _ => Err (ValueError "unpack")
       end);
  _ ← raise_if (bool_decide (ARCHITECTURES cpu = None)) (ValueError "unsupported universal CPU type");
  _ ← raise_if (bool_decide (cpu ∈ seen_cpus)) (ValueError "duplicate universal architecture");
  _ ← raise_if (bool_decide (alignment > (if fat64 then 63 else 31))
                || negb (bool_decide (offset mod Z.shiftl 1 alignment = 0)))
        (ValueError "invalid universal slice alignment");
  _ ← check_range offset size (zlen view) "universal slice";
  _ ← raise_if (bool_decide (offset < table_end) || bool_decide (size = 0))
        (ValueError "empty universal slice or overlap with its table");
  Ok (offset, size, cpu, subtype).

Fixpoint parse_table (view : bytes) (e : endian) (fat64 : bool) (table_end : Z) (count : nat) (index : Z)
    (entries : list fat_entry) : res (list fat_entry) :=
  match count with
  | O => Ok entries
  | S n =>
      x ← parse_entry view e fat64 table_end (8 + index * (if fat64 then 32 else 20)) (e_cpu <$> entries);
      parse_table view e fat64 table_end n (index + 1) (entries ++ [x])
  end.

(** The order of [sorted(entries)]: tuples compare lexicographically. *)
Definition entry_le (a b : fat_entry) : Prop :=
  e_off a < e_off b ∨ e_off a = e_off b ∧ (e_size a < e_size b ∨ e_size a = e_size b ∧
    (e_cpu a < e_cpu b ∨ e_cpu a = e_cpu b ∧ e_sub a <= e_sub b)).
#[export] Instance entry_le_dec : RelDecision entry_le.
Proof. intros a b. unfold entry_le. apply _. Defined.

(** The loop that refuses overlapping slices *)
Definition check_overlap (previous_end : Z) (x : fat_entry) : res Z :=
  if bool_decide (e_off x < previous_end) then Err (ValueError "overlapping universal slices")
  else Ok (e_off x + e_size x).

Definition parse_macho (data : bytes) : res (list MachOSlice) :=
  _ ← raise_if (bool_decide (zlen data < 4)) (ValueError "truncated Mach-O magic");
  match FAT_MAGIC (slice 0 4 data) with
  | None => s ← parse_thin data None; Ok [s]
  | Some (e, fat64) =>
      count ← unpack_ data e [4%nat] 4 "universal header" ≫= tuple1;
      let table_size := count * (if fat64 then 32 else 20) in
      _ ← check_range 8 table_size (zlen data) "universal slice table";
      _ ← raise_if (bool_decide (count = 0)) (ValueError "universal file has no slices");
      let table_end := 8 + table_size in
      entries ← parse_table data e fat64 table_end (Z.to_nat count) 0 [];
      _ ← forM check_overlap (merge_sort entry_le entries) table_end;
      mapM_res (λ x, parse_thin (slice (e_off x) (e_size x) data) (Some (e_cpu x, e_sub x))) entries
  end.

(** ** Shared facts *)
Lemma macho_range_Ok offset size limit d u :
  check_range offset size limit d = Ok u ↔ 0 <= offset ∧ 0 <= size ∧ offset + size <= limit.
Proof.
  unfold check_range. rewrite raise_if_Ok, !orb_false_iff, !bool_decide_eq_false. lia.
Qed.

Lemma check_range_in offset size limit d :
  0 <= offset → 0 <= size → offset + size <= limit → check_range offset size limit d = Ok tt.
Proof. intros. by apply macho_range_Ok. Qed.

Lemma unpack_in data e fmt offset d :
  0 <= offset → offset + calcsize fmt <= zlen data → unpack_ data e fmt offset d = Ok (unpack_from e fmt data offset).
Proof.
  intros. unfold unpack_. rewrite check_range_in; [done|done|apply calcsize_nonneg|done].
Qed.

(** ** Reference encoder

    A load command as the writer of an image sees it; [meta] are the bytes
    between the string offset and the string, [pad] the number of padding
    bytes after the terminator. *)
Inductive lc :=
  | Dylib (cmd : Z) (meta : bytes) (path : string) (pad : nat)
  | IdDylib (meta : bytes) (path : string) (pad : nat)
  | Rpath (meta : bytes) (path : string) (pad : nat)
  | VersionMin (version sdk : Z)
  | BuildVersion (version sdk ntools : Z) (tools : bytes)
  | CodeSignature (offset size : Z)
  | Other (cmd : Z) (body : bytes).

Definition cmd_of (c : lc) : Z :=
  match c with
  | Dylib cmd _ _ _ => cmd
  | IdDylib _ _ _ => LC_ID_DYLIB
  | Rpath _ _ _ => LC_RPATH
  | VersionMin _ _ => LC_VERSION_MIN_MACOSX
  | BuildVersion _ _ _ _ => LC_BUILD_VERSION
  | CodeSignature _ _ => LC_CODE_SIGNATURE
  | Other cmd _ => cmd
  end.

Definition lc_string (e : endian) (meta : bytes) (path : string) (pad : nat) : bytes :=
  pack e [4%nat] [12 + zlen meta] ++ meta ++ fsencode path ++ x00 :: replicate pad x00.

Definition payload (e : endian) (c : lc) : bytes :=
  match c with
  | Dylib _ meta path pad | IdDylib meta path pad | Rpath meta path pad => lc_string e meta path pad
  | VersionMin v sdk => pack e [4;4]%nat [v; sdk]
  | BuildVersion v sdk ntools tools => pack e [4;4;4;4]%nat [1; v; sdk; ntools] ++ tools
  | CodeSignature off size => pack e [4;4]%nat [off; size]
  | Other _ body => body
  end.

Definition lc_size (e : endian) (c : lc) : Z := 8 + zlen (payload e c).
Definition encode_lc (e : endian) (c : lc) : bytes :=
  pack e [4;4]%nat [cmd_of c; lc_size e c] ++ payload e c.

Definition u32 (z : Z) : Prop := 0 <= z < 256 ^ 4.
Definition known (cmd : Z) : Prop :=
  cmd ∈ DYLIB_LOAD_COMMANDS ∨ cmd ∈ [LC_ID_DYLIB; LC_RPATH; LC_VERSION_MIN_MACOSX; LC_BUILD_VERSION; LC_CODE_SIGNATURE].

Definition path_ok (path : string) : Prop :=
  path ≠ "" ∧ (x00 ∉ fsencode path) ∧ utf8_valid (fsencode path) = true.

(** The fields of a command fit their width, its size is a multiple of eight. *)
Definition lc_ok (e : endian) (c : lc) : Prop :=
  u32 (cmd_of c) ∧ u32 (lc_size e c) ∧ lc_size e c mod 8 = 0 ∧
  match c with
  | Dylib cmd meta path _ => cmd ∈ DYLIB_LOAD_COMMANDS ∧ 12 <= zlen meta ∧ path_ok path
  | IdDylib meta path _ => 12 <= zlen meta ∧ path_ok path
  | Rpath meta path _ => path_ok path
  | VersionMin v sdk => u32 v ∧ u32 sdk
  | BuildVersion v sdk ntools tools => u32 v ∧ u32 sdk ∧ u32 ntools ∧ zlen tools = 8 * ntools
  | CodeSignature off size => u32 off ∧ u32 size
  | Other cmd _ => ¬ known cmd
  end.

(** What a command adds to the slice; [None] where two commands contradict
    each other or the signature is outside the image. *)
Definition set_os (st : lstate) (v : Z) : option lstate :=
  if bool_decide (l_os st = None ∨ l_os st = Some (version v))
  then Some (LState (l_deps st) (l_rpaths st) (l_id st) (Some (version v)) (l_sig st)) else None.

Definition apply_lc (limit commands_end : Z) (st : lstate) (c : lc) : option lstate :=
  match c with
  | Dylib _ _ path _ => Some (LState (l_deps st ++ [path]) (l_rpaths st) (l_id st) (l_os st) (l_sig st))
  | IdDylib _ path _ =>
      match l_id st with
      | None => Some (LState (l_deps st) (l_rpaths st) (Some path) (l_os st) (l_sig st))
      | Some _ => None
      end
  | Rpath _ path _ => Some (LState (l_deps st) (l_rpaths st ++ [path]) (l_id st) (l_os st) (l_sig st))
  | VersionMin v _ | BuildVersion v _ _ _ => set_os st v
  | CodeSignature off size =>
      if bool_decide (l_sig st = None ∧ 0 < size ∧ commands_end <= off ∧ off + size <= limit)
      then Some (LState (l_deps st) (l_rpaths st) (l_id st) (l_os st) (Some (off, size))) else None
  | Other _ _ => Some st
  end.

Fixpoint apply_lcs (limit commands_end : Z) (st : lstate) (cs : list lc) : option lstate :=
  match cs with
  | [] => Some st
  | c :: cs => apply_lc limit commands_end st c ≫= (λ st, apply_lcs limit commands_end st cs)
  end.

Definition encode_lcs (e : endian) (cs : list lc) : bytes := concat (encode_lc e <$> cs).

Definition encode_thin (e : endian) (cpu subtype filetype flags : Z) (cs : list lc) (rest : bytes) : bytes :=
  pack e [4;4;4;4;4;4;4;4]%nat
    [0xFEEDFACF; cpu; subtype; filetype; zlen cs; zlen (encode_lcs e cs); flags; 0] ++ encode_lcs e cs ++ rest.

(** ** The parser reads what the encoder writes *)
Ltac pack_size := rewrite ?zlen_app, ?zlen_pack, ?zlen_cons, ?zlen_replicate by done; cbn [calcsize foldr length].
Ltac fits := repeat constructor; cbn; unfold u32 in *; lia.

Lemma command_string_ok e hdr meta path pad minimum :
  zlen hdr = 8 → minimum <= 12 + zlen meta → 12 <= minimum → u32 (12 + zlen meta) → path_ok path →
  command_string (hdr ++ lc_string e meta path pad) e minimum = Ok path.
Proof.
  intros Hh Hm Hm2 Hu (Hne & Hz & Hutf). unfold command_string, lc_string.
  pose proof (zlen_nonneg meta). pose proof (zlen_nonneg (fsencode path)).
  rewrite bool_decide_false by (pack_size; lia). cbn [raise_if mbind res_bind].
  rewrite unpack_in by (pack_size; lia). rewrite unpack_from_pack by (done || fits). cbn [mbind res_bind tuple1].
  rewrite !bool_decide_false by (pack_size; lia). cbn [orb raise_if mbind res_bind].
  rewrite !(assoc_L (++)), <-(assoc_L (++) _ (fsencode path)), drop_zlen by (pack_size; lia).
  rewrite find_zero_app by done. rewrite bool_decide_false.
  2:{ intros Hl. apply Hne. rewrite length_fsencode in Hl. by destruct path. }
  cbn [raise_if mbind res_bind].
  rewrite drop_S_app_zeros. cbn [raise_if mbind res_bind].
  rewrite take_app_length. unfold decode_utf8. by rewrite Hutf, fsdecode_fsencode.
Qed.

Lemma minimum_os_ok st v st' :
  set_os st v = Some st' → minimum_os_ (l_os st) v = Ok (version v) ∧
    st' = LState (l_deps st) (l_rpaths st) (l_id st) (Some (version v)) (l_sig st).
Proof.
  unfold set_os, minimum_os_. case_bool_decide as H; [|done]. intros [= <-]. split; [|done].
  destruct H as [->| ->]; [done|]. by rewrite bool_decide_false by naive_solver.
Qed.

Lemma unpack_payload e hdr ws zs r d :
  zlen hdr = 8 → Forall2 (λ w z, 0 <= z < 256 ^ Z.of_nat w) ws zs → unpack_ (hdr ++ pack e ws zs ++ r) e ws 8 d = Ok zs.
Proof.
  intros Hh Hf. pose proof (Forall2_length _ _ _ Hf). pose proof (zlen_nonneg r).
  rewrite unpack_in by (rewrite ?zlen_app, ?zlen_pack by done; lia). by rewrite unpack_from_pack.
Qed.

(** Decide the comparisons of command constants. *)
Ltac decide_const P :=
  let b := eval vm_compute in (bool_decide P) in
  match b with
  | true => change (bool_decide P) with true
  | false => change (bool_decide P) with false
  end.
Ltac decide_closed :=
  repeat match goal with
  | |- context [bool_decide (?a = ?b)] => is_const a; is_const b; decide_const (a = b)
  | |- context [bool_decide (?a ∈ DYLIB_LOAD_COMMANDS)] => is_const a; decide_const (a ∈ DYLIB_LOAD_COMMANDS)
  end; cbn [orb].

Lemma lc_string_u32 e meta path pad : u32 (8 + zlen (lc_string e meta path pad)) → u32 (12 + zlen meta).
Proof.
  unfold lc_string, u32. pack_size. pose proof (zlen_nonneg (fsencode path)). pose proof (zlen_nonneg meta). lia.
Qed.

Lemma parse_command_ok e limit commands_end hdr c st st' :
  lc_ok e c → zlen hdr = 8 → apply_lc limit commands_end st c = Some st' → 0 <= commands_end →
  parse_command e limit commands_end (cmd_of c) (lc_size e c) (hdr ++ payload e c) st = Ok st'.
Proof.
  intros (Hcmd & Hsize & _ & Hok) Hh Ha Hend. unfold lc_size in Hsize.
  destruct st as [deps rp id os sig].
  destruct c as [cmd meta path pad|meta path pad|meta path pad|v sdk|v sdk ntools tools|off size|cmd body];
    unfold parse_command, lc_size; cbn [apply_lc payload cmd_of l_deps l_rpaths l_id l_os l_sig] in *; decide_closed.
  - destruct Hok as (Hin & Hm & Hp). apply lc_string_u32 in Hsize.
    rewrite (bool_decide_true (cmd ∈ _)) by done. cbn [orb].
    rewrite command_string_ok by (done || lia). cbn [mbind res_bind].
    rewrite bool_decide_false; [congruence|]. intros ->. revert Hin. apply (bool_decide_eq_false_1 _). done.
  - destruct Hok as (Hm & Hp). apply lc_string_u32 in Hsize.
    rewrite command_string_ok by (done || lia). cbn [mbind res_bind]. destruct id; [done|]. by injection Ha as <-.
  - apply lc_string_u32 in Hsize. pose proof (zlen_nonneg meta).
    rewrite command_string_ok by (done || lia). by injection Ha as <-.
  - destruct Hok as [Hv Hs]. apply minimum_os_ok in Ha as [Hos ->]. cbn [l_os] in Hos.
    rewrite <-(app_nil_r (pack _ _ _)), unpack_payload by (done || fits).
    cbn [mbind res_bind tuple2]. rewrite Hos. rewrite app_nil_r. by rewrite zlen_pack.
  - destruct Hok as (Hv & Hs & Hn & Ht). apply minimum_os_ok in Ha as [Hos ->]. cbn [l_os] in Hos.
    rewrite unpack_payload by (done || fits). cbn [mbind res_bind]. rewrite Hos. pack_size.
    rewrite Ht. rewrite (bool_decide_false (_ < 24)), (bool_decide_false (_ ≠ 24 + _)) by (unfold u32 in *; lia). done.
  - destruct Hok as [Ho Hs]. case_bool_decide as Hc; [|done]. destruct Hc as (-> & ? & ? & ?).
    rewrite <-(app_nil_r (pack _ _ _)), unpack_payload by (done || fits).
    cbn [mbind res_bind tuple2]. rewrite app_nil_r. rewrite zlen_pack by done.
    rewrite check_range_in by (unfold u32 in *; lia). cbn [mbind res_bind].
    rewrite (bool_decide_false (size = 0)), (bool_decide_false (off < _)) by lia. by injection Ha as <-.
  - injection Ha as <-. unfold known in Hok.
    rewrite !bool_decide_false; [done|set_solver..].
Qed.

Lemma encode_lcs_cons e c cs : encode_lcs e (c :: cs) = encode_lc e c ++ encode_lcs e cs.
Proof. done. Qed.

Lemma zlen_encode_lc e c : zlen (encode_lc e c) = lc_size e c.
Proof. unfold encode_lc, lc_size. pack_size. lia. Qed.

Lemma parse_commands_ok e cs pre rest commands_end st st' :
  Forall (lc_ok e) cs → apply_lcs (zlen (pre ++ encode_lcs e cs ++ rest)) commands_end st cs = Some st' →
  commands_end = zlen pre + zlen (encode_lcs e cs) →
  parse_commands (pre ++ encode_lcs e cs ++ rest) e commands_end (length cs) (zlen pre) st = Ok (commands_end, st').
Proof.
  intros Hcs Ha Hend. remember (pre ++ encode_lcs e cs ++ rest) as data eqn:Hd.
  revert pre st Hd Ha Hend. induction Hcs as [|c cs Hc Hcs IH]; intros pre st Hd Ha Hend.
  - injection Ha as <-. change (encode_lcs e []) with (@nil byte) in Hend.
    rewrite Hend, zlen_nil, Z.add_0_r. done.
  - cbn [apply_lcs] in Ha. apply bind_Some in Ha as (st1 & Ha1 & Ha2). cbn [length parse_commands].
    rewrite encode_lcs_cons, zlen_app, zlen_encode_lc in Hend.
    pose proof (zlen_nonneg (payload e c)). pose proof (zlen_nonneg (encode_lcs e cs)). pose proof (zlen_nonneg pre).
    pose proof (zlen_nonneg rest). destruct Hc as (Hcmd & Hsize & Hmod & Hrest) eqn:Hcc. clear Hcc.
    rewrite encode_lcs_cons, <-(assoc_L (++)) in Hd.
    assert (8 <= lc_size e c) by (unfold lc_size; lia).
    assert (zlen data = zlen pre + lc_size e c + zlen (encode_lcs e cs) + zlen rest) as Hz.
    { rewrite Hd, !zlen_app, zlen_encode_lc. lia. }
    rewrite bool_decide_false by lia. cbn [raise_if mbind res_bind].
    rewrite unpack_in by (cbn [calcsize foldr]; lia).
    assert (unpack_from e [4;4]%nat data (zlen pre) = [cmd_of c; lc_size e c]) as ->.
    { rewrite Hd. unfold encode_lc. rewrite <-!(assoc_L (++)). apply unpack_from_pack; [done|]. fits. }
    cbn [mbind res_bind tuple2]. rewrite Hmod, bool_decide_false by lia. cbn [orb negb bool_decide raise_if mbind res_bind].
    rewrite check_range_in by lia. cbn [mbind res_bind].
    assert (slice (zlen pre) (lc_size e c) data = encode_lc e c) as ->.
    { rewrite Hd. apply slice_at; [done|]. by rewrite zlen_encode_lc. }
    unfold encode_lc at 1. rewrite (parse_command_ok _ _ _ _ _ _ st1); [|done|pack_size; lia|done|lia].
    cbn [mbind res_bind]. rewrite <-(zlen_encode_lc e c), <-zlen_app. apply IH; [|done|].
    + by rewrite Hd, (assoc_L (++)).
    + rewrite zlen_app, zlen_encode_lc. lia.
Qed.

Lemma magic_thin e zs r : slice 0 4 (pack e [4;4;4;4;4;4;4;4]%nat (0xFEEDFACF :: zs) ++ r) = encode e 4 0xFEEDFACF.
Proof.
  cbn [pack]. rewrite <-(assoc_L (++)). rewrite <-(slice_0_app (encode e 4 0xFEEDFACF)) at 2.
  by rewrite zlen_encode.
Qed.

Lemma parse_thin_ok e cpu subtype filetype flags cs rest expected arch st :
  let data := encode_thin e cpu subtype filetype flags cs rest in
  ARCHITECTURES cpu = Some arch → u32 subtype → u32 filetype → u32 flags → Forall (lc_ok e) cs →
  u32 (zlen (encode_lcs e cs)) → (expected = None ∨ expected = Some (cpu, subtype)) →
  apply_lcs (zlen data) (32 + zlen (encode_lcs e cs)) (LState [] [] None None None) cs = Some st →
  parse_thin data expected = Ok (Slice arch filetype (l_deps st) (l_rpaths st) (l_id st) (l_os st) (l_sig st)).
Proof.
  intros data Harch Hsub Hft Hfl Hcs Hsize Hexp Ha. unfold parse_thin.
  assert (u32 cpu) as Hcpu.
  { unfold ARCHITECTURES in Harch. repeat case_bool_decide; try done; subst; unfold u32; lia. }
  assert (8 * zlen cs <= zlen (encode_lcs e cs) ∧ zlen (encode_lcs e cs) mod 8 = 0) as [Hn Hmod].
  { clear -Hcs. induction Hcs as [|c cs (_ & _ & Hm & _) _ [IH1 IH2]]; [done|].
    rewrite encode_lcs_cons, zlen_app, zlen_encode_lc, zlen_cons. rewrite Z.add_mod, Hm, IH2 by lia.
    unfold lc_size. pose proof (zlen_nonneg (payload e c)). split; [lia|done]. }
  pose proof (zlen_nonneg cs). pose proof (zlen_nonneg rest).
  assert (zlen data = 32 + zlen (encode_lcs e cs) + zlen rest) as Hz.
  { unfold data, encode_thin. rewrite !zlen_app, zlen_pack by done. cbn [calcsize foldr]. lia. }
  assert (slice 0 4 data = encode e 4 0xFEEDFACF) as -> by apply magic_thin.
  assert (THIN_32_MAGIC (encode e 4 0xFEEDFACF) = false) as -> by (by destruct e).
  assert (THIN_MAGIC (encode e 4 0xFEEDFACF) = Some e) as -> by (by destruct e). cbn [raise_if mbind res_bind].
  rewrite unpack_in by (cbn [calcsize foldr]; lia).
  assert (unpack_from e [4;4;4;4;4;4;4;4]%nat data 0 =
            [0xFEEDFACF; cpu; subtype; filetype; zlen cs; zlen (encode_lcs e cs); flags; 0]) as ->.
  { apply (unpack_from_pack e _ _ []); [done|]. fits. }
  cbn [mbind res_bind]. rewrite Harch. cbn [mbind res_bind].
  assert (match expected with Some p => bool_decide (p ≠ (cpu, subtype)) | None => false end = false) as ->.
  { destruct Hexp as [->| ->]; [done|]. by rewrite bool_decide_false by naive_solver. }
  cbn [raise_if mbind res_bind]. rewrite (bool_decide_false (0 ≠ 0)) by lia. cbn [raise_if mbind res_bind].
  rewrite check_range_in by lia. cbn [mbind res_bind]. rewrite Hmod.
  rewrite (bool_decide_false (zlen cs > _)) by (pose proof (Z.div_le_lower_bound (zlen (encode_lcs e cs)) 8 (zlen cs)); lia).
  rewrite (bool_decide_true (0 = 0)) by done. cbn [negb orb raise_if mbind res_bind].
  assert (Z.to_nat (zlen cs) = length cs) as -> by (unfold zlen; lia).
  set (hdr := pack e [4;4;4;4;4;4;4;4]%nat
    [0xFEEDFACF; cpu; subtype; filetype; zlen cs; zlen (encode_lcs e cs); flags; 0]).
  assert (zlen hdr = 32) as Hh by (unfold hdr; by rewrite zlen_pack).
  pose proof (parse_commands_ok e cs hdr rest (32 + zlen (encode_lcs e cs)) (LState [] [] None None None) st) as Hp.
  rewrite Hh in Hp. change (hdr ++ encode_lcs e cs ++ rest) with data in Hp. rewrite Hp by done.
  cbn [mbind res_bind]. by rewrite bool_decide_false by naive_solver.
Qed.

(** ** What the parser establishes *)
Lemma command_string_sound command e minimum path : command_string command e minimum = Ok path → path_ok path.
Proof.
  unfold command_string. intros H. ok_inv. destruct (find_zero _) as [n|] eqn:Hf; [|done]. ok_inv.
  match goal with H : match decode_utf8 ?b with _ => _ end = _ |- _ => unfold decode_utf8 in H;
    destruct (utf8_valid b) eqn:Hu; [|done]; injection H as <- end.
  apply find_zero_Some in Hf as (r & _ & Hl & Hn). unfold path_ok. rewrite fsencode_fsdecode.
  split_and!; [|done|done]. intros E. apply (f_equal String.length) in E. rewrite <-length_fsencode, fsencode_fsdecode in E.
  simpl in E. lia.
Qed.

(** Every path is usable text, the signature lies after the commands and
    inside the image. *)
Record lsound (limit commands_end : Z) (st : lstate) : Prop := {
  ls_paths : Forall path_ok (l_deps st ++ l_rpaths st ++ option_list (l_id st));
  ls_sig : ∀ off size, l_sig st = Some (off, size) → commands_end <= off ∧ 0 < size ∧ off + size <= limit;
}.

Lemma parse_command_sound e limit commands_end cmd cmdsize command st st' :
  parse_command e limit commands_end cmd cmdsize command st = Ok st' →
  lsound limit commands_end st → lsound limit commands_end st'.
Proof.
  destruct st as [deps rp id os sig]. unfold parse_command. intros H [Hp Hs]. cbn in Hp, Hs.
  repeat match type of H with
  | (if ?b then _ else _) = _ => destruct b
  end; ok_inv; try (by split);
    repeat match goal with
    | H : command_string _ _ _ = Ok _ |- _ => apply command_string_sound in H
    | H : (if ?b then _ else _) = _ |- _ => destruct b; ok_inv
    | H : match id with _ => _ end = _ |- _ => destruct id; ok_inv
    | H : match ?p with (_, _) => _ end = _ |- _ => destruct p; ok_inv
    | H : match ?l with [] => _ | _ => _ end = _ |- _ => destruct l; ok_inv
    end; try (split; cbn in *; [rewrite ?Forall_app, ?Forall_cons, ?Forall_nil in *; naive_solver|done]).
  match goal with H : check_range _ _ _ _ = _ |- _ => apply macho_range_Ok in H end.
  split; [done|]. cbn. intros ?? [= <- <-]. lia.
Qed.

Lemma parse_commands_sound data e commands_end n cursor st cursor' st' :
  parse_commands data e commands_end n cursor st = Ok (cursor', st') →
  lsound (zlen data) commands_end st → lsound (zlen data) commands_end st'.
Proof.
  revert cursor st. induction n as [|n IH]; intros cursor st H Hs; cbn [parse_commands] in H; [by injection H as <- <-|].
  ok_inv. destruct x0 as [cmd cmdsize]. ok_inv. eapply IH; [done|]. by eapply parse_command_sound.
Qed.

(** The end of the load commands, as the header of an image declares it *)
Definition commands_end_of (data : bytes) : Z :=
  match THIN_MAGIC (slice 0 4 data) with
  | Some e => 32 + default 0 (unpack_from e [4;4;4;4;4;4;4;4]%nat data 0 !! 5%nat)
  | None => 0
  end.

Definition cpu_of (data : bytes) : Z :=
  match THIN_MAGIC (slice 0 4 data) with
  | Some e => default 0 (unpack_from e [4;4;4;4;4;4;4;4]%nat data 0 !! 1%nat)
  | None => 0
  end.

Lemma parse_thin_sound data expected s :
  parse_thin data expected = Ok s →
  ARCHITECTURES (cpu_of data) = Some (architecture s) ∧
  (∀ cpu sub, expected = Some (cpu, sub) → cpu = cpu_of data) ∧
  Forall path_ok (dependencies s ++ rpaths s ++ option_list (install_id s)) ∧
  (∀ off size, code_signature s = Some (off, size) →
     commands_end_of data <= off ∧ 0 < size ∧ off + size <= zlen data).
Proof.
  unfold parse_thin, commands_end_of, cpu_of. intros H. ok_inv. destruct (THIN_MAGIC _) as [e|]; [|done]. ok_inv.
  match goal with H : unpack_ _ _ _ _ _ = Ok ?h |- _ => unfold unpack_ in H; ok_inv end. cbn [unpack_from unpack] in *.
  match goal with H : context [ARCHITECTURES ?c] |- _ => destruct (ARCHITECTURES c) as [arch|] eqn:Harch; [|done] end.
  ok_inv. match goal with x : (Z * lstate)%type |- _ => destruct x as [cursor st] end. ok_inv. cbn [architecture dependencies rpaths install_id code_signature].
  match goal with H : parse_commands _ _ _ _ _ _ = _ |- _ => apply parse_commands_sound in H as [Hp Hs] end.
  2:{ by split. }
  split_and!; [done| |done|done].
  intros cpu sub ->. match goal with H : @bool_decide ((cpu, _) ≠ _) _ = false |- _ =>
    apply bool_decide_eq_false, dec_stable in H; injection H as H _; exact H end.
Qed.

(** Two byte ranges that share no byte *)
Definition apart (a b : fat_entry) : Prop :=
  e_off a + e_size a <= e_off b ∨ e_off b + e_size b <= e_off a.

Lemma parse_entry_sound view e fat64 table_end cursor seen x :
  parse_entry view e fat64 table_end cursor seen = Ok x →
  is_Some (ARCHITECTURES (e_cpu x)) ∧ (e_cpu x ∉ seen) ∧
  table_end <= e_off x ∧ 0 < e_size x ∧ e_off x + e_size x <= zlen view.
Proof.
  unfold parse_entry. intros H. ok_inv. destruct x0 as [[[[cpu sub] off] size] al]. ok_inv.
  unfold e_cpu, e_off, e_size; cbn [fst snd].
  match goal with H : check_range _ _ _ _ = _ |- _ => apply macho_range_Ok in H end.
  split_and!; try lia; [|done]. by apply not_eq_None_Some.
Qed.

Lemma parse_table_sound view e fat64 table_end n index entries entries' :
  let ok x := is_Some (ARCHITECTURES (e_cpu x)) ∧
    table_end <= e_off x ∧ 0 < e_size x ∧ e_off x + e_size x <= zlen view in
  parse_table view e fat64 table_end n index entries = Ok entries' →
  NoDup (e_cpu <$> entries) → Forall ok entries →
  NoDup (e_cpu <$> entries') ∧ Forall ok entries' ∧ length entries' = (length entries + n)%nat.
Proof.
  intros ok. revert index entries. induction n as [|n IH]; intros index entries H Hn Hf; cbn [parse_table] in H.
  { injection H as <-. split_and!; [done|done|lia]. }
  apply bind_Ok in H as (x & (Ha & Hs & Hx)%parse_entry_sound & H). apply IH in H as (? & ? & Hl).
  - rewrite Hl, length_app. simpl. split_and!; [done|done|lia].
  - rewrite fmap_app. apply NoDup_app. split_and!; [done|set_solver|apply NoDup_singleton].
  - apply Forall_app. split; [done|]. by apply Forall_singleton.
Qed.

Lemma check_overlap_sound l p p' :
  forM check_overlap l p = Ok p' → Forall (λ x, 0 < e_size x) l →
  Forall (λ x, p <= e_off x) l ∧ ForallOrdPairs apart l.
Proof.
  revert p. induction l as [|x l IH]; intros p H Hf; [by repeat constructor|].
  cbn [forM] in H. apply bind_Ok in H as (q & Hx & H). unfold check_overlap in Hx. case_bool_decide; [done|].
  injection Hx as <-. apply Forall_cons in Hf as [Hx Hf]. apply IH in H as [Hq Hp]; [|done]. split.
  - constructor; [lia|]. eapply Forall_impl; [exact Hq|]. intros y Hy. cbn in *. lia.
  - constructor; [|done]. eapply Forall_impl; [exact Hq|]. intros y Hy. by left.
Qed.

Lemma apart_Permutation l1 l2 : l1 ≡ₚ l2 → ForallOrdPairs apart l1 → ForallOrdPairs apart l2.
Proof.
  assert (∀ a b, apart a b → apart b a) as Hsym by (unfold apart; tauto).
  induction 1 as [|x l1 l2 Hp IH|x y l|l1 l2 l3 _ IH1 _ IH2]; intros H; [done|..|auto].
  - inversion H; subst. constructor; [by rewrite <-Hp|auto].
  - inversion H as [|? ? Hy Ht]; subst. inversion Ht as [|? ? Hx Hl]; subst.
    inversion Hy; subst. constructor; [constructor; auto|]. by constructor.
Qed.

Lemma two_architectures (cpus : list Z) :
  NoDup cpus → Forall (λ c, is_Some (ARCHITECTURES c)) cpus → (length cpus <= 2)%nat.
Proof.
  intros Hn Hf. apply (submseteq_length _ [0x01000007; 0x0100000C]), NoDup_submseteq; [done|].
  intros c Hc. rewrite Forall_forall in Hf. destruct (Hf c Hc) as [a Ha]. unfold ARCHITECTURES in Ha.
  repeat case_bool_decide; try done; set_solver.
Qed.

(** The messages [parse_macho] raises: none quotes the input. *)
Definition DIAGNOSTICS : list string :=
  ["truncated Mach-O magic"; "32-bit Mach-O slices are unsupported"; "slice is not a 64-bit Mach-O file";
   "Mach-O header is out of bounds"; "unsupported Mach-O CPU type"; "universal CPU metadata differs from slice header";
   "nonzero reserved Mach-O header field"; "Mach-O load-command region is out of bounds";
   "invalid Mach-O load-command count or alignment"; "truncated load-command header";
   "load-command header is out of bounds"; "invalid load-command size or alignment";
   "Mach-O load command is out of bounds"; "truncated path load command"; "path offset is out of bounds";
   "invalid load-command string offset"; "unterminated load-command string"; "empty load-command path";
   "nonzero load-command string padding"; "load-command path is not UTF-8"; "duplicate dylib install-ID command";
   "invalid macOS minimum-version command size"; "minimum-version fields is out of bounds";
   "conflicting macOS minimum versions"; "truncated build-version command"; "build-version fields is out of bounds";
   "invalid build-version tool-table size"; "build-version platform is not macOS";
   "invalid code-signature command size"; "duplicate code-signature command";
   "code-signature fields is out of bounds"; "code-signature blob is out of bounds";
   "empty or overlapping code-signature blob"; "load commands do not fill their declared region";
   "universal header is out of bounds"; "universal slice table is out of bounds"; "universal file has no slices";
   "universal slice entry is out of bounds"; "nonzero reserved universal slice field";
   "unsupported universal CPU type"; "duplicate universal architecture"; "invalid universal slice alignment";
   "universal slice is out of bounds"; "empty universal slice or overlap with its table"; "overlapping universal slices"].

Definition diagnostic (e : exn) : bool :=
  match e with ValueError msg => existsb (String.eqb msg) DIAGNOSTICS | _ => false end.

Section Diagnostics.
#[local] Abbreviation static := (raises diagnostic).

Lemma static_range off size limit d :
  diagnostic (ValueError (d +:+ " is out of bounds")) → static (check_range off size limit d).
Proof. intros. unfold check_range. by apply raises_raise_if. Qed.

Lemma static_unpack data e fmt off d :
  diagnostic (ValueError (d +:+ " is out of bounds")) → static (unpack_ data e fmt off d).
Proof. intros. unfold unpack_. apply raises_bind; [by apply static_range|]. intros. apply raises_ok. Qed.

Lemma static_unpack_bind {A} data e fmt off d (k : list Z → res A) :
  diagnostic (ValueError (d +:+ " is out of bounds")) →
  (∀ bs, static (k (unpack e fmt bs))) → static (unpack_ data e fmt off d ≫= k).
Proof.
  intros Hd Hk. unfold unpack_. rewrite bind_assoc_res. apply raises_bind; [by apply static_range|]. intros. apply Hk.
Qed.

Ltac static_step :=
  match goal with
  | |- raises _ ((unpack_ _ _ _ _ _ ≫= _) ≫= _) => rewrite bind_assoc_res
  | |- raises _ (unpack_ _ _ _ _ _ ≫= _) => apply static_unpack_bind; [done|intros ?; cbn [unpack tuple1 tuple2 mbind res_bind]]
  | |- raises _ (check_range _ _ _ _) => apply static_range; done
  | |- _ => raises_step
  end.
Ltac solve_static := repeat static_step.

Lemma static_string command e minimum : static (command_string command e minimum).
Proof.
  unfold command_string.
  assert (∀ b, static (match decode_utf8 b with
    | Err UnicodeError => Err (ValueError "load-command path is not UTF-8") | r => r end)) as Hu.
  { intros b. unfold decode_utf8. destruct (utf8_valid b); solve_static. }
  repeat (apply Hu || static_step).
Qed.
#[local] Hint Resolve static_string : omux.

Lemma static_minimum previous v : static (minimum_os_ previous v).
Proof. unfold minimum_os_. solve_static. Qed.
#[local] Hint Resolve static_minimum : omux.

Lemma static_command e limit commands_end cmd cmdsize command st :
  static (parse_command e limit commands_end cmd cmdsize command st).
Proof. unfold parse_command. solve_static. Qed.
#[local] Hint Resolve static_command : omux.

Lemma static_commands data e commands_end n cursor st : static (parse_commands data e commands_end n cursor st).
Proof. revert cursor st. induction n as [|n IH]; intros cursor st; cbn [parse_commands]; solve_static. Qed.
#[local] Hint Resolve static_commands : omux.

Lemma static_thin data expected : static (parse_thin data expected).
Proof. unfold parse_thin. solve_static. Qed.
#[local] Hint Resolve static_thin : omux.

Lemma static_entry view e fat64 table_end cursor seen : static (parse_entry view e fat64 table_end cursor seen).
Proof. unfold parse_entry. solve_static. Qed.
#[local] Hint Resolve static_entry : omux.

Lemma static_table view e fat64 table_end n index entries : static (parse_table view e fat64 table_end n index entries).
Proof. revert index entries. induction n as [|n IH]; intros index entries; cbn [parse_table]; solve_static. Qed.
#[local] Hint Resolve static_table : omux.

Lemma static_macho data : static (parse_macho data).
Proof. unfold parse_macho, check_overlap. solve_static. Qed.
End Diagnostics.

(** Example images: a little-endian one with a dependency and a signature, a
    big-endian one, and a universal file of both. *)
Definition ex_cmds : list lc :=
  [Dylib 0xC (replicate 12 x00) "/usr/lib/libSystem.B.dylib" 5; VersionMin 0x000B0000 0x000C0000;
   CodeSignature 120 16].
Definition ex_arm : bytes := encode_thin LE 0x0100000C 0 2 0 ex_cmds (replicate 16 x01).
Definition ex_x86 : bytes := encode_thin BE 0x01000007 3 2 0 [Rpath [] "@loader_path" 7] [].
Definition ex_fat : bytes :=
  pack BE [4;4]%nat [0xCAFEBABE; 2] ++ pack BE [4;4;4;4;4]%nat [0x0100000C; 0; 48; zlen ex_arm; 3]
  ++ pack BE [4;4;4;4;4]%nat [0x01000007; 3; 48 + zlen ex_arm; zlen ex_x86; 3] ++ ex_arm ++ ex_x86.
Definition parsed (data : bytes) : list MachOSlice := match parse_macho data with Ok l => l | Err _ => [] end.

Lemma ex_cmds_ok : Forall (lc_ok LE) ex_cmds.
Proof.
  repeat apply Forall_cons_2; [..|apply Forall_nil_2]; unfold lc_ok; split_and!; try (by vm_compute).
  - by apply (bool_decide_unpack _); vm_compute.
  - by apply (bool_decide_unpack _); vm_compute.
Qed.

(** ** The properties of the component *)



(** In an accepted image the architecture is that of the header, every
    dependency, run path and install name is non-empty UTF-8 text without a
    NUL, and the code signature lies after the load commands and inside the
    image. *)
Theorem macho_slice_sound data expected s (Hrun : parse_thin data expected = Ok s) :
  ARCHITECTURES (cpu_of data) = Some (architecture s) ∧
  Forall path_ok (dependencies s ++ rpaths s ++ option_list (install_id s)) ∧
  ∀ off size, code_signature s = Some (off, size) →
    commands_end_of data <= off ∧ 0 < size ∧ off + size <= zlen data.
Proof. apply parse_thin_sound in Hrun as (? & _ & ? & ?). done. Qed.

Lemma macho_slice_sound_witness : commands_end_of ex_arm <= 120 ∧ 0 < 16 ∧ 120 + 16 <= zlen ex_arm.
Proof.
  apply (macho_slice_sound ex_arm None (Slice "arm64" 2 ["/usr/lib/libSystem.B.dylib"] [] None (Some (11, 0, 0)) (Some (120, 16))));
    [vm_compute; done|done].
Defined.

(** C11: [parse_macho] reads back every well-formed thin image of the
    reference encoder, in either byte order: the load commands yield the
    dependencies, run paths, install name, minimum version and signature they
    state. *)
Theorem macho_roundtrip e cpu subtype filetype flags cs rest arch st
    (Harch : ARCHITECTURES cpu = Some arch) (Hsub : u32 subtype) (Hft : u32 filetype) (Hfl : u32 flags)
    (Hcs : Forall (lc_ok e) cs) (Hsize : u32 (zlen (encode_lcs e cs)))
    (Happ : apply_lcs (zlen (encode_thin e cpu subtype filetype flags cs rest)) (32 + zlen (encode_lcs e cs))
              (LState [] [] None None None) cs = Some st) :
  parse_macho (encode_thin e cpu subtype filetype flags cs rest) =
  Ok [Slice arch filetype (l_deps st) (l_rpaths st) (l_id st) (l_os st) (l_sig st)].
Proof.
  unfold parse_macho. unfold encode_thin at 1 2. rewrite magic_thin.
  assert (FAT_MAGIC (encode e 4 0xFEEDFACF) = None) as -> by (by destruct e).
  rewrite bool_decide_false.
  - cbn [raise_if mbind res_bind]. by rewrite (parse_thin_ok _ _ _ _ _ _ _ _ arch st) by auto.
  - unfold encode_thin. rewrite !zlen_app, zlen_pack by done. cbn [calcsize foldr].
    pose proof (zlen_nonneg (encode_lcs e cs)). pose proof (zlen_nonneg rest). lia.
Qed.

Lemma macho_roundtrip_witness :
  parse_macho (encode_thin LE 0x0100000C 0 2 0 ex_cmds (replicate 16 x01)) =
  Ok [Slice "arm64" 2 ["/usr/lib/libSystem.B.dylib"] [] None (Some (11, 0, 0)) (Some (120, 16))].
Proof.
  refine (macho_roundtrip LE 0x0100000C 0 2 0 ex_cmds (replicate 16 x01) "arm64"
           (LState ["/usr/lib/libSystem.B.dylib"] [] None (Some (11, 0, 0)) (Some (120, 16))) _ _ _ _ _ _ _);
    [done|done|done|done|apply ex_cmds_ok|by vm_compute|by vm_compute].
Defined.

(** A refusal is a [ValueError] with one of the fixed messages
    [DIAGNOSTICS]: no byte of the input reaches a diagnostic. *)
Theorem macho_static_diagnostics data err (Hrun : parse_macho data = Err err) : diagnostic err.
Proof. by apply static_macho in Hrun. Qed.

Lemma macho_static_diagnostics_witness : diagnostic (ValueError "truncated Mach-O magic").
Proof. apply (macho_static_diagnostics [x00]). done. Defined.
End MachO.
