(* ===== verification/LauncherTemplate.v ===== *)
(** * delivery/generate_portable_launcher_template.py: the trusted launcher template

    [validate_template] decides whether a static ELF executable may become the
    launcher template.  [struct.unpack_from] reads are the records [ehdr],
    [phdr] and [shdr]; the tables they are read from were range-checked first. *)
From S2P Require Import Prelude PyBytes PyString.
Local Open Scope Z_scope.

Module LauncherTemplate.

Definition MACHINES (target : string) : option Z :=
  if bool_decide (target = "x86_64-linux") then Some 62
  else if bool_decide (target = "aarch64-linux") then Some 183 else None.
Definition MAX_FILE : Z := 32 * 1024 * 1024.
Definition MAX_HEADERS : Z := 4096.
Definition MAX_SECTIONS : Z := 8192.
Definition MAGIC : bytes := fsencode "OMUXLNXLAUNCHv1" ++ [x00].

Definition range_ (payload : bytes) (offset size : Z) : res unit :=
  raise_if (bool_decide (offset < 0) || bool_decide (size < 0) || bool_decide (offset > zlen payload)
            || bool_decide (size > zlen payload - offset)) (ValueError "launcher ELF range is outside the bounded file").

(** ** ELF records *)
Record ehdr := EHdr {
  kind : Z; machine : Z; version : Z; entry : Z; phoff : Z; shoff : Z; flags : Z;
  ehsize : Z; phsize : Z; phnum : Z; shsize : Z; shnum : Z; shstr : Z }.

Definition read_ehdr (payload : bytes) : ehdr :=
  match unpack_from LE [2;2;4;8;8;8;4;2;2;2;2;2;2]%nat payload 16 with
  | [a; b; c; d; e; f; g; h; i; j; k; l; m] => EHdr a b c d e f g h i j k l m
  | _ => EHdr 0 0 0 0 0 0 0 0 0 0 0 0 0
  end.

Record phdr := PHdr {
  p_type : Z; p_flags : Z; p_offset : Z; p_vaddr : Z; p_paddr : Z; p_filesz : Z; p_memsz : Z; p_align : Z }.

Definition read_phdr (payload : bytes) (at_ : Z) : phdr :=
  match unpack_from LE [4;4;8;8;8;8;8;8]%nat payload at_ with
  | [a; b; c; d; e; f; g; h] => PHdr a b c d e f g h
  | _ => PHdr 0 0 0 0 0 0 0 0
  end.

Record shdr := SHdr {
  s_name : Z; s_type : Z; s_flags : Z; s_addr : Z; s_offset : Z; s_size : Z;
  s_link : Z; s_info : Z; s_align : Z; s_entsize : Z }.

Definition read_shdr (payload : bytes) (at_ : Z) : shdr :=
  match unpack_from LE [4;4;8;8;8;8;4;4;8;8]%nat payload at_ with
  | [a; b; c; d; e; f; g; h; i; j] => SHdr a b c d e f g h i j
  | _ => SHdr 0 0 0 0 0 0 0 0 0 0
  end.

(** [x & 1], [x & 2] as conditions *)
Definition bits (x mask : Z) : bool := bool_decide (Z.land x mask ≠ 0).

Record tstate := TState { loads : list (Z * Z); executable_entry : bool; stack_headers : Z }.

Definition check_phdr (payload : bytes) (h : ehdr) (st : tstate) (index : Z) : res tstate :=
  let p := read_phdr payload (phoff h + index * phsize h) in
  let '(TState loads executable_entry stack_headers) := st in
  _ ← range_ payload (p_offset p) (p_filesz p);
  _ ← raise_if (bool_decide (p_type p ∈ [2; 3])) (ValueError "launcher must have no PT_DYNAMIC or PT_INTERP");
  if bool_decide (p_type p = 1) then
    _ ← raise_if (bool_decide (p_filesz p > p_memsz p) || bool_decide (p_vaddr p + p_memsz p > Z.shiftl 1 64)
                  || bits (p_flags p) (Z.lnot 7)) (ValueError "invalid launcher load segment");
    _ ← raise_if (negb (bool_decide (p_align p ∈ [0; 1]))
                  && (bits (p_align p) (p_align p - 1)
                      || negb (bool_decide (p_offset p mod p_align p = p_vaddr p mod p_align p))))
          (ValueError "invalid launcher load alignment");
    _ ← raise_if (bits (p_flags p) 1 && bits (p_flags p) 2) (ValueError "launcher has a writable executable segment");
    let executable_entry :=
      if bits (p_flags p) 1 && bool_decide (p_vaddr p <= entry h < p_vaddr p + p_filesz p) then true
      else executable_entry in
    Ok (TState (loads ++ [(p_vaddr p, p_vaddr p + p_memsz p)]) executable_entry stack_headers)
  else if bool_decide (p_type p = 0x6474E551) then
    _ ← raise_if (bits (p_flags p) 1 || bool_decide (p_memsz p ≠ 0))
          (ValueError "launcher requires a nonexecutable zero-size GNU_STACK");
    Ok (TState loads executable_entry (stack_headers + 1))
  else Ok st.

Definition check_shdr (payload : bytes) (h : ehdr) (st : unit) (index : Z) : res unit :=
  let s := read_shdr payload (shoff h + index * shsize h) in
  _ ← raise_if (bool_decide (s_type s = 6)) (ValueError "launcher must have no dynamic section");
  _ ← (if bool_decide (s_type s ∈ [0; 8]) then Ok tt else range_ payload (s_offset s) (s_size s));
  _ ← raise_if (negb (bool_decide (s_align s ∈ [0; 1])) && bits (s_align s) (s_align s - 1))
        (ValueError "invalid launcher section alignment");
  raise_if (bool_decide (s_link s >= shnum h)) (ValueError "launcher section link is outside its table").

(** Tuples sort lexicographically. *)
Definition load_le (a b : Z * Z) : Prop := a.1 < b.1 ∨ a.1 = b.1 ∧ a.2 <= b.2.
#[export] Instance load_le_dec : RelDecision load_le.
Proof. intros a b. unfold load_le. apply _. Defined.

(** [any(left[1] > right[0] for left, right in zip(loads, loads[1:]))] *)
Definition overlapping (l : list (Z * Z)) : bool :=
  existsb (λ lr, bool_decide (lr.1.2 > lr.2.1)) (zip l (tail l)).

Definition validate_template (payload : bytes) (target : string) : res unit :=
  match MACHINES target with
  | None => Err (ValueError "unsupported launcher target")
  | Some expected =>
      _ ← raise_if (negb (bool_decide (64 <= zlen payload <= MAX_FILE))
                    || bool_decide (take 7 payload ≠ [x7f; x45; x4c; x46; x02; x01; x01]))
            (ValueError "launcher is not bounded ELF64 little-endian version 1");
      _ ← raise_if (negb (bool_decide (nth 7 payload x00 ∈ [x00; x03])) || bool_decide (nth 8 payload x00 ≠ x00)
                    || existsb (λ b, bool_decide (b ≠ x00)) (slice 9 7 payload))
            (ValueError "unsupported launcher ELF ABI");
      let h := read_ehdr payload in
      _ ← raise_if (bool_decide (kind h ≠ 2) || bool_decide (machine h ≠ expected) || bool_decide (version h ≠ 1)
                    || bool_decide (ehsize h ≠ 64) || bool_decide (flags h ≠ 0))
            (ValueError "launcher requires the exact target's static ET_EXEC");
      _ ← raise_if (negb (bool_decide (0 < phnum h <= MAX_HEADERS)) || bool_decide (phsize h ≠ 56)
                    || bool_decide (phoff h < 64)) (ValueError "invalid launcher program-header table");
      _ ← range_ payload (phoff h) (phsize h * phnum h);
      st ← forM (check_phdr payload h) (seqZ 0 (phnum h)) (TState [] false 0);
      _ ← raise_if (bool_decide (stack_headers st ≠ 1))
            (ValueError "launcher requires exactly one zero-size GNU_STACK");
      _ ← raise_if (negb (executable_entry st) || bool_decide (loads st = []))
            (ValueError "launcher entry is not in a file-backed executable load");
      _ ← raise_if (overlapping (merge_sort load_le (loads st))) (ValueError "launcher load segments overlap");
      _ ← (if bool_decide (shoff h = 0) then
             raise_if (bool_decide (shnum h ≠ 0) || bool_decide (shstr h ≠ 0)
                       || negb (bool_decide (shsize h ∈ [0; 64])))
               (ValueError "invalid absent launcher section table")
           else
             _ ← raise_if (bool_decide (shoff h < 64) || bool_decide (shsize h ≠ 64)
                           || negb (bool_decide (0 < shnum h <= MAX_SECTIONS)) || bool_decide (shstr h >= shnum h))
                   (ValueError "invalid launcher section table");
             _ ← range_ payload (shoff h) (shnum h * shsize h);
             forM (check_shdr payload h) (seqZ 0 (shnum h)) tt);
      raise_if (bool_decide (zlen payload >= 256)
                && bool_decide (slice (zlen payload - 256) 16 payload = MAGIC))
        (ValueError "compiled template already contains a launcher record")
  end.

(** ** What a validated template guarantees *)
Definition phdrs (payload : bytes) : list phdr :=
  let h := read_ehdr payload in
  (λ i, read_phdr payload (phoff h + i * phsize h)) <$> seqZ 0 (phnum h).
Definition shdrs (payload : bytes) : list shdr :=
  let h := read_ehdr payload in
  if bool_decide (shoff h = 0) then [] else (λ i, read_shdr payload (shoff h + i * shsize h)) <$> seqZ 0 (shnum h).

Definition PT_LOAD (p : phdr) : bool := bool_decide (p_type p = 1).
Definition load_range (p : phdr) : Z * Z := (p_vaddr p, p_vaddr p + p_memsz p).

Record phdr_ok (payload : bytes) (p : phdr) : Prop := {
  ok_range : 0 <= p_offset p ∧ 0 <= p_filesz p ∧ p_offset p + p_filesz p <= zlen payload;
  ok_static : p_type p ≠ 2 ∧ p_type p ≠ 3;
  ok_load : p_type p = 1 → p_filesz p <= p_memsz p ∧ p_vaddr p + p_memsz p <= 2 ^ 64 ∧
    ¬ (Z.land (p_flags p) 1 ≠ 0 ∧ Z.land (p_flags p) 2 ≠ 0);
  ok_stack : p_type p = 0x6474E551 → Z.land (p_flags p) 1 = 0 ∧ p_memsz p = 0;
}.

Lemma range_Ok payload off size u :
  range_ payload off size = Ok u ↔ 0 <= off ∧ 0 <= size ∧ off + size <= zlen payload.
Proof. unfold range_. rewrite raise_if_Ok, !orb_false_iff, !bool_decide_eq_false. lia. Qed.

(** The state of the loop after the headers [done]. *)
Record tinv (payload : bytes) (h : ehdr) (done : list phdr) (st : tstate) : Prop := {
  ti_ok : Forall (phdr_ok payload) done;
  ti_loads : loads st = load_range <$> List.filter PT_LOAD done;
  ti_entry : executable_entry st = true →
    ∃ p, p ∈ done ∧ p_type p = 1 ∧ Z.land (p_flags p) 1 ≠ 0 ∧ p_vaddr p <= entry h < p_vaddr p + p_filesz p;
  ti_stack : stack_headers st = zlen (List.filter (λ p, bool_decide (p_type p = 0x6474E551)) done);
}.

Lemma check_phdr_inv payload h done st index st' :
  tinv payload h done st → check_phdr payload h st index = Ok st' →
  tinv payload h (done ++ [read_phdr payload (phoff h + index * phsize h)]) st'.
Proof.
  intros [H1 H2 H3 H4] H. destruct st as [ls ee sh]. unfold check_phdr in H.
  remember (read_phdr payload (phoff h + index * phsize h)) as p eqn:Hp. clear Hp.
  apply bind_Ok in H as (? & Hr%range_Ok & H). ok_inv. cbn [loads executable_entry stack_headers] in *.
  assert (p_type p ≠ 2 ∧ p_type p ≠ 3) as Hs by set_solver.
  assert (∀ f, List.filter f (done ++ [p]) = List.filter f done ++ (if f p then [p] else [])) as Hfilter.
  { intros f. rewrite List.filter_app. by simpl; destruct (f p). }
  assert (∀ q, q ∈ done → q ∈ done ++ [p]) as Hin by set_solver.
  unfold PT_LOAD in *. case_bool_decide as Hload; [|case_bool_decide as Hstack]; ok_inv; cbn [loads executable_entry stack_headers].
  - split; cbn [loads executable_entry stack_headers].
    + apply Forall_app. split; [done|]. apply Forall_singleton. split; [lia|done| |congruence].
      intros _. unfold bits in *. split_and!; [lia|by change (2 ^ 64) with (Z.shiftl 1 64); lia|].
      match goal with H : @bool_decide (Z.land _ 1 ≠ 0) _ && _ = false |- _ => rename H into Hwx end.
      apply andb_false_iff in Hwx as [Hwx|Hwx]; apply bool_decide_eq_false in Hwx; tauto.
    + rewrite Hfilter; unfold PT_LOAD; cbn beta; rewrite bool_decide_true, fmap_app by done. done.
    + destruct (bits (p_flags p) 1) eqn:Hb; cbn [andb];
        [destruct (bool_decide_reflect (p_vaddr p <= entry h < p_vaddr p + p_filesz p)) as [He|He]|]; intros Hee.
      * exists p. unfold bits in Hb. apply bool_decide_eq_true in Hb. split_and!; try done; try lia.
        apply elem_of_app. right. by apply list_elem_of_singleton.
      * destruct (H3 Hee) as (q & ? & ?). eauto.
      * destruct (H3 Hee) as (q & ? & ?). eauto.
    + rewrite Hfilter; unfold PT_LOAD; cbn beta; rewrite (bool_decide_false (p_type p = _)), app_nil_r by lia. done.
  - split; cbn [loads executable_entry stack_headers].
    + apply Forall_app. split; [done|]. apply Forall_singleton. unfold bits in *. ok_inv.
      split; [lia|done|congruence|]. intros _. split; by apply dec_stable.
    + rewrite Hfilter; unfold PT_LOAD; cbn beta; rewrite bool_decide_false, app_nil_r by done. done.
    + intros Hee. destruct (H3 Hee) as (q & ? & ?). eauto.
    + rewrite Hfilter; unfold PT_LOAD; cbn beta; rewrite bool_decide_true, zlen_app by done. done.
  - split; cbn [loads executable_entry stack_headers].
    + apply Forall_app. split; [done|]. apply Forall_singleton. by split.
    + rewrite Hfilter; unfold PT_LOAD; cbn beta; rewrite bool_decide_false, app_nil_r by done. done.
    + intros Hee. destruct (H3 Hee) as (q & ? & ?). eauto.
    + rewrite Hfilter; unfold PT_LOAD; cbn beta; rewrite bool_decide_false, app_nil_r by done. done.
Qed.

Lemma overlapping_false l :
  overlapping l = false → Forall (λ r, r.1 <= r.2) l → ForallOrdPairs (λ a b, a.2 <= b.1) l.
Proof.
  unfold overlapping. induction l as [|a l IH]; intros Ho Hf; [constructor|].
  apply Forall_cons in Hf as [Ha Hf]. destruct l as [|b l]; [repeat constructor|].
  cbn in Ho. apply orb_false_iff in Ho as [Hab Ho]. apply bool_decide_eq_false in Hab.
  specialize (IH Ho Hf). constructor; [|done]. inversion IH as [|? ? Hb _]; subst.
  apply Forall_cons in Hf as [Hb' _]. constructor; [lia|]. eapply Forall_impl; [exact Hb|]. cbn. intros c Hc. lia.
Qed.

Lemma apart_permutation (l1 l2 : list (Z * Z)) :
  l1 ≡ₚ l2 → ForallOrdPairs (λ a b, a.2 <= b.1 ∨ b.2 <= a.1) l1 → ForallOrdPairs (λ a b, a.2 <= b.1 ∨ b.2 <= a.1) l2.
Proof.
  induction 1 as [|x l1 l2 Hp IH|x y l|l1 l2 l3 _ IH1 _ IH2]; intros H; [done|..|auto].
  - inversion H; subst. constructor; [by rewrite <-Hp|auto].
  - inversion H as [|? ? Hy Ht]; subst. inversion Ht as [|? ? Hx Hl]; subst.
    inversion Hy; subst. constructor; [constructor; [tauto|done]|]. by constructor.
Qed.

Lemma forM_phdrs payload h l st0 st done :
  tinv payload h done st0 → forM (check_phdr payload h) l st0 = Ok st →
  tinv payload h (done ++ ((λ i, read_phdr payload (phoff h + i * phsize h)) <$> l)) st.
Proof.
  revert st0 done. induction l as [|i l IH]; intros st0 done Hi H; cbn [forM] in H.
  - injection H as <-. by rewrite app_nil_r.
  - apply bind_Ok in H as (st1 & Hs & H). rewrite fmap_cons, cons_middle, (assoc_L (++)).
    eapply IH; [|done]. by eapply check_phdr_inv.
Qed.

Lemma forM_shdrs payload h l u :
  forM (check_shdr payload h) l tt = Ok u →
  Forall (λ s, s_type s ≠ 6) ((λ i, read_shdr payload (shoff h + i * shsize h)) <$> l).
Proof.
  induction l as [|i l IH]; intros H; [constructor|]. cbn [forM] in H. apply bind_Ok in H as ([] & Hs & H).
  constructor; [|by apply IH]. unfold check_shdr in Hs. apply bind_Ok in Hs as (? & Hs & _). by ok_inv.
Qed.

Lemma template_facts payload target u :
  validate_template payload target = Ok u →
  MACHINES target = Some (machine (read_ehdr payload)) ∧ kind (read_ehdr payload) = 2 ∧
  Forall (phdr_ok payload) (phdrs payload) ∧
  Forall (λ s, s_type s ≠ 6) (shdrs payload) ∧
  ForallOrdPairs (λ a b, a.2 <= b.1 ∨ b.2 <= a.1) (load_range <$> List.filter PT_LOAD (phdrs payload)) ∧
  length (List.filter (λ p, bool_decide (p_type p = 0x6474E551)) (phdrs payload)) = 1%nat ∧
  ∃ p, p ∈ phdrs payload ∧ p_type p = 1 ∧ Z.land (p_flags p) 1 ≠ 0 ∧
    p_vaddr p <= entry (read_ehdr payload) < p_vaddr p + p_filesz p.
Proof.
  intros Hrun.
  unfold validate_template in Hrun. destruct (MACHINES target) as [expected|]; [|done].
  remember (read_ehdr payload) as h eqn:Hh.
  apply bind_Ok in Hrun as (? & _ & Hrun). apply bind_Ok in Hrun as (? & _ & Hrun).
  apply bind_Ok in Hrun as (? & Hhead & Hrun). apply bind_Ok in Hrun as (? & _ & Hrun).
  apply bind_Ok in Hrun as (? & _ & Hrun). apply bind_Ok in Hrun as (st & Hloop & Hrun).
  apply bind_Ok in Hrun as (? & Hstack & Hrun). apply bind_Ok in Hrun as (? & Hentry & Hrun).
  apply bind_Ok in Hrun as (? & Hover & Hrun). apply bind_Ok in Hrun as (? & Hsec & _).
  apply (forM_phdrs _ _ _ _ _ []) in Hloop as [Hok Hloads He Hs]; [|by repeat split; [constructor|..]].
  rewrite app_nil_l in *. assert (phdrs payload = (λ i, read_phdr payload (phoff h + i * phsize h)) <$> seqZ 0 (phnum h)) as Hphdrs.
  { unfold phdrs. by rewrite <-Hh. }
  rewrite <-Hphdrs in *. ok_inv. rewrite Hloads in *. split_and!.
  - match goal with H : ¬ machine ?h ≠ _ |- _ => apply dec_stable in H; by rewrite <-H end.
  - match goal with H : ¬ kind _ ≠ _ |- _ => by apply dec_stable in H end.
  - done.
  - unfold shdrs. case_bool_decide; [constructor|]. ok_inv. by eapply forM_shdrs.
  - eapply apart_permutation; [apply (merge_sort_Permutation load_le)|].
    apply overlapping_false in Hover.
    + clear -Hover. induction Hover as [|a l Ha _ IH]; constructor; [|done]. eapply Forall_impl; [exact Ha|]. tauto.
    + rewrite merge_sort_Permutation. apply Forall_fmap, Forall_forall. intros p [Hp Ht]%list_elem_of_In%List.filter_In.
      rewrite Forall_forall in Hok. apply list_elem_of_In in Hp. destruct (Hok p Hp) as [Hr _ Hl _].
      unfold PT_LOAD in Ht. apply bool_decide_eq_true in Ht. specialize (Hl Ht). unfold load_range. cbn. lia.
  - unfold zlen in Hs. match goal with H : ¬ (stack_headers st ≠ 1) |- _ => apply dec_stable in H end. lia.
  - by apply He.
Qed.

Lemma template_size payload target u : validate_template payload target = Ok u → 64 <= zlen payload <= MAX_FILE.
Proof.
  unfold validate_template. destruct (MACHINES target); [|done].
  intros (? & Hs%raise_if_Ok & _)%bind_Ok. by ok_inv.
Qed.

(** C13: a validated launcher template is a static executable of exactly the
    selected machine that cannot run data: no header or section asks for a
    dynamic linker, every file range is inside the file, no load segment is
    both writable and executable, the stack is not executable, the load
    segments are disjoint in memory, and the entry point lies in a
    file-backed executable segment. *)
Theorem template_hardened payload target u (Hrun : validate_template payload target = Ok u) :
  MACHINES target = Some (machine (read_ehdr payload)) ∧ kind (read_ehdr payload) = 2 ∧
  Forall (phdr_ok payload) (phdrs payload) ∧
  Forall (λ s, s_type s ≠ 6) (shdrs payload) ∧
  ForallOrdPairs (λ a b, a.2 <= b.1 ∨ b.2 <= a.1) (load_range <$> List.filter PT_LOAD (phdrs payload)) ∧
  length (List.filter (λ p, bool_decide (p_type p = 0x6474E551)) (phdrs payload)) = 1%nat ∧
  ∃ p, p ∈ phdrs payload ∧ p_type p = 1 ∧ Z.land (p_flags p) 1 ≠ 0 ∧
    p_vaddr p <= entry (read_ehdr payload) < p_vaddr p + p_filesz p.
Proof. by eapply template_facts. Qed.

(** A template of one executable segment and its stack header *)
Definition ex_template : bytes :=
  [x7f; x45; x4c; x46; x02; x01; x01] ++ replicate 9 x00
  ++ pack LE [2;2;4;8;8;8;4;2;2;2;2;2;2]%nat [2; 62; 1; 0x400090; 64; 0; 0; 64; 56; 2; 0; 0; 0]
  ++ pack LE [4;4;8;8;8;8;8;8]%nat [1; 5; 0; 0x400000; 0x400000; 176; 176; 4096]
  ++ pack LE [4;4;8;8;8;8;8;8]%nat [0x6474E551; 6; 0; 0; 0; 0; 0; 16].

Lemma template_hardened_witness : kind (read_ehdr ex_template) = 2.
Proof. apply (template_hardened ex_template "x86_64-linux" tt). vm_compute. done. Defined.
End LauncherTemplate.
