(* ===== verification/Elf.v ===== *)
(** * delivery/portable.py: bounded ELF64 metadata

    [elf_metadata] reads the interpreter, the needed libraries and the lookup
    paths of an ELF64 image from its program headers.  The first loop threads
    [lstate], the second scans the dynamic table; both iterate over index
    ranges that the checked header bounds. *)
From S2P Require Import Prelude PyBytes PyString PyValue LauncherTemplate.
From Stdlib Require Import Ascii.
Import LauncherTemplate (ehdr, phdr, read_ehdr, read_phdr, MACHINES).
Local Open Scope Z_scope.

Module Elf.

Definition MAX_FILE : Z := 128 * 1024 * 1024.
Definition MAX_BACKEND_FILE : Z := 512 * 1024 * 1024.
Definition MAX_HEADERS : Z := 4096.
Definition MAX_DYNAMIC : Z := 4096.
Definition MAX_STRING : Z := 4096.
(** [_MACHINES.values()] *)
Definition MACHINE_VALUES : list Z := [62; 183].

Definition check_range (payload : bytes) (offset size : Z) : res unit :=
  raise_if (bool_decide (offset < 0) || bool_decide (size < 0) || bool_decide (offset > zlen payload)
            || bool_decide (size > zlen payload - offset)) (ValueError "ELF record extends beyond its file").

Definition slice_ (payload : bytes) (offset size : Z) : res bytes :=
  _ ← check_range payload offset size; Ok (slice offset size payload).

Definition control_char (c : ascii) : bool :=
  bool_decide (N_of_ascii c < 32)%N || bool_decide (N_of_ascii c = 127)%N.

Definition cstring (table : bytes) (offset : Z) : res string :=
  _ ← ensure (bool_decide (0 <= offset < zlen table)) (ValueError "ELF string offset is outside its table");
  let window := slice offset (Z.min (zlen table) (offset + MAX_STRING + 1) - offset) table in
  match find_zero window with
  | None => Err (ValueError "ELF string is unterminated or oversized")
  | Some n =>
      value ← match decode_ascii (take n window) with
              | Err UnicodeError => Err (ValueError "ELF runtime name is not ASCII")
              | r => r
              end;
      _ ← raise_if (str_any control_char value) (ValueError "ELF runtime name contains control characters");
      Ok value
  end.

Definition file_limit (max_bytes : value) : res Z :=
  match max_bytes with
  | VInt n => if bool_decide (0 < n <= MAX_BACKEND_FILE) then Ok n
              else Err (ValueError "invalid finite runtime file byte limit")
  | _ => Err (ValueError "invalid finite runtime file byte limit")
  end.

Record elf_info := ElfInfo {
  needed : list string;
  rpath : list string;
  interpreter : option string;
  machine : Z;
}.

(** [loads], [dynamic] and [interpreter] of the program-header loop *)
Record lstate := LState {
  l_loads : list (Z * Z * Z);
  l_dynamic : option bytes;
  l_interpreter : option string;
}.

Definition program_header (payload : bytes) (h : ehdr) (st : lstate) (index : Z) : res lstate :=
  let p := read_phdr payload (LauncherTemplate.phoff h + index * LauncherTemplate.phsize h) in
  let tag := LauncherTemplate.p_type p in
  let offset := LauncherTemplate.p_offset p in
  let filesz := LauncherTemplate.p_filesz p in
  let '(LState loads dynamic interp) := st in
  _ ← raise_if (bool_decide (filesz > LauncherTemplate.p_memsz p))
        (ValueError "ELF segment file size exceeds memory size");
  _ ← check_range payload offset filesz;
  if bool_decide (tag = 1) then Ok (LState (loads ++ [(LauncherTemplate.p_vaddr p, offset, filesz)]) dynamic interp)
  else if bool_decide (tag = 2) then
    _ ← raise_if (bool_decide (is_Some dynamic) || bool_decide (filesz = 0) || negb (bool_decide (filesz mod 16 = 0))
                  || bool_decide (filesz / 16 > MAX_DYNAMIC)) (ValueError "invalid ELF dynamic segment");
    d ← slice_ payload offset filesz;
    Ok (LState loads (Some d) interp)
  else if bool_decide (tag = 3) then
    _ ← raise_if (bool_decide (is_Some interp) || bool_decide (filesz = 0) || bool_decide (filesz > MAX_STRING + 1))
          (ValueError "invalid ELF interpreter");
    data ← slice_ payload offset filesz;
    _ ← raise_if (bool_decide (last data ≠ Some x00)) (ValueError "invalid ELF interpreter");
    i ← cstring data 0;
    _ ← raise_if (bool_decide (i = "") || bool_decide (py_len i ≠ zlen data - 1))
          (ValueError "invalid ELF interpreter termination");
    Ok (LState loads dynamic (Some i))
  else Ok st.

(** The signed 64-bit field of ["<qQ"] *)
Definition signed64 (z : Z) : Z := if bool_decide (z >= 2 ^ 63) then z - 2 ^ 64 else z.

Definition FORBIDDEN_TAGS : list Z := [0x7FFFFFFF; 0x7FFFFFFD; 0x6FFFFEFC; 0x6FFFFEFB; 0x6FFFFEFA].

(** The entries before the terminating null tag; the offsets are those of
    [range(0, len(dynamic), 16)] that are left. *)
Fixpoint dynamic_entries (dynamic : bytes) (offsets : list Z) (entries : list (Z * Z)) : res (list (Z * Z)) :=
  match offsets with
  | [] => Err (ValueError "ELF dynamic segment is unterminated")
  | offset :: offsets =>
      match unpack_from LE [8;8]%nat dynamic offset with
      | [t; v] =>
          let tag := signed64 t in
          if bool_decide (tag = 0) then Ok entries
          else if bool_decide (tag ∈ FORBIDDEN_TAGS) then
            Err (ValueError "unsupported ELF auxiliary library, audit or configuration lookup")
          else dynamic_entries dynamic offsets (entries ++ [(tag, v)])
      | _ => Err (ValueError "unpack")
      end
  end.

Definition tagged (p : Z → bool) (entries : list (Z * Z)) : list (Z * Z) := List.filter (λ e, p e.1) entries.

(** The file offset of the string table for each load segment that maps all of it *)
Definition mapping (address size : Z) (load : Z * Z * Z) : option Z :=
  let '(virtual, file_offset, length) := load in
  if bool_decide (address >= virtual) && bool_decide (address - virtual <= length)
     && bool_decide (size <= length - (address - virtual))
  then Some (file_offset + address - virtual) else None.

Definition reference (table : bytes) (r : list string * list string) (e : Z * Z) : res (list string * list string) :=
  value ← cstring table e.2;
  if bool_decide (e.1 = 1) then
    _ ← raise_if (bool_decide (value = "")) (ValueError "ELF dependency name is empty");
    Ok (r.1 ++ [value], r.2)
  else Ok (r.1, r.2 ++ str_split ":" value).

Definition elf_metadata (payload : bytes) (max_bytes : value) : res elf_info :=
  max_bytes ← file_limit max_bytes;
  _ ← raise_if (bool_decide (zlen payload > max_bytes) || bool_decide (zlen payload < 64)
                || bool_decide (take 4 payload ≠ [x7f; x45; x4c; x46]))
        (ValueError "input is not a bounded ELF executable");
  _ ← raise_if (bool_decide (slice 4 3 payload ≠ [x02; x01; x01]))
        (ValueError "only ELF64 little-endian version 1 is supported");
  let h := read_ehdr payload in
  _ ← raise_if (negb (bool_decide (LauncherTemplate.kind h ∈ [2; 3]))
                || negb (bool_decide (LauncherTemplate.machine h ∈ MACHINE_VALUES))
                || bool_decide (LauncherTemplate.version h ≠ 1) || bool_decide (LauncherTemplate.ehsize h ≠ 64))
        (ValueError "unsupported ELF header");
  _ ← raise_if (negb (bool_decide (0 < LauncherTemplate.phnum h <= MAX_HEADERS))
                || bool_decide (LauncherTemplate.phsize h ≠ 56)
                || bool_decide (LauncherTemplate.phoff h < LauncherTemplate.ehsize h))
        (ValueError "invalid ELF program-header table");
  _ ← slice_ payload (LauncherTemplate.phoff h) (LauncherTemplate.phsize h * LauncherTemplate.phnum h);
  st ← forM (program_header payload h) (seqZ 0 (LauncherTemplate.phnum h)) (LState [] None None);
  let result := ElfInfo [] [] (l_interpreter st) (LauncherTemplate.machine h) in
  match l_dynamic st with
  | None => Ok result
  | Some dynamic =>
      entries ← dynamic_entries dynamic ((λ i, i * 16) <$> seqZ 0 (zlen dynamic / 16)) [];
      let string_addresses := (tagged (λ t, bool_decide (t = 5)) entries).*2 in
      let string_sizes := (tagged (λ t, bool_decide (t = 10)) entries).*2 in
      let references := tagged (λ t, bool_decide (t ∈ [1; 15; 29])) entries in
      if bool_decide (references = []) && bool_decide (string_addresses = []) && bool_decide (string_sizes = [])
      then Ok result else
      match string_addresses, string_sizes with
      | [address], [size] =>
          if negb (bool_decide (0 < size <= MAX_FILE))
          then Err (ValueError "ELF dynamic strings have no unique bounded table") else
          match omap (mapping address size) (l_loads st) with
          | [offset] =>
              table ← slice_ payload offset size;
              '(n, r) ← forM (reference table) references ([], []);
              Ok (ElfInfo n r (l_interpreter st) (LauncherTemplate.machine h))
          | _ => Err (ValueError "ELF string table has no unique file-backed mapping")
          end
      | _, _ => Err (ValueError "ELF dynamic strings have no unique bounded table")
      end
  end.

(** ** What the metadata is *)
Definition printable (s : string) : Prop := str_any control_char s = false.

(** [s] stands in the file as a NUL-terminated string. *)
Definition in_file (payload : bytes) (s : string) : Prop := ∃ a b, payload = a ++ fsencode s ++ x00 :: b.

Lemma elf_range_Ok payload off size u :
  check_range payload off size = Ok u ↔ 0 <= off ∧ 0 <= size ∧ off + size <= zlen payload.
Proof. unfold check_range. rewrite raise_if_Ok, !orb_false_iff, !bool_decide_eq_false. lia. Qed.

Lemma slice_Ok payload off size b :
  slice_ payload off size = Ok b → b = slice off size payload ∧ 0 <= off ∧ 0 <= size ∧ off + size <= zlen payload.
Proof. unfold slice_. intros (u & H%elf_range_Ok & [= <-])%bind_Ok. auto. Qed.

Lemma slice_split (l : bytes) off size : ∃ a b, l = a ++ slice off size l ++ b.
Proof.
  exists (take (Z.to_nat off) l), (drop (Z.to_nat size) (drop (Z.to_nat off) l)). unfold slice.
  by rewrite !take_drop.
Qed.

Lemma in_file_slice payload off size s : in_file (slice off size payload) s → in_file payload s.
Proof.
  intros (a & b & Hs). destruct (slice_split payload off size) as (a' & b' & Hp). rewrite Hs in Hp.
  exists (a' ++ a), (b ++ b'). rewrite Hp at 1. by rewrite <-!(assoc_L (++)).
Qed.

Lemma cstring_Ok table off s :
  cstring table off = Ok s → printable s ∧ (x00 ∉ fsencode s) ∧ in_file table s ∧
    ∃ b, drop (Z.to_nat off) table = fsencode s ++ x00 :: b.
Proof.
  unfold cstring. intros H. apply bind_Ok in H as (u & _ & H). clear u.
  remember (slice off (Z.min (zlen table) (off + MAX_STRING + 1) - off) table) as window eqn:Hw.
  destruct (find_zero window) as [n|] eqn:Hz; [|done].
  apply bind_Ok in H as (value & Hv & H). apply bind_Ok in H as (u & Hc%raise_if_Ok & [= <-]). clear u.
  apply find_zero_Some in Hz as (r & Hr & _ & Hn).
  assert (fsencode value = take n window) as Hval.
  { unfold decode_ascii in Hv. destruct (forallb _ _); [|done]. injection Hv as <-. apply fsencode_fsdecode. }
  rewrite <-Hval in Hr, Hn. split_and!; [done|done| |].
  - apply (in_file_slice _ off (Z.min (zlen table) (off + MAX_STRING + 1) - off)). rewrite <-Hw. by exists [], r.
  - unfold slice in Hw. exists (r ++ drop (Z.to_nat (Z.min (zlen table) (off + MAX_STRING + 1) - off)) (drop (Z.to_nat off) table)).
    rewrite app_comm_cons, (assoc_L (++)), <-Hr, Hw. by rewrite take_drop.
Qed.

(** The interpreter of the loop state is the content of a PT_INTERP segment. *)
Definition interp_ok (payload : bytes) (st : lstate) : Prop :=
  ∀ i, l_interpreter st = Some i → i ≠ "" ∧ printable i ∧
    ∃ p, p ∈ LauncherTemplate.phdrs payload ∧ LauncherTemplate.p_type p = 3 ∧
      slice (LauncherTemplate.p_offset p) (LauncherTemplate.p_filesz p) payload = fsencode i ++ [x00].

Lemma py_len_ascii s : forallb (in_range 0 127) (fsencode s) = true → py_len s = zlen (fsencode s).
Proof.
  unfold py_len. intros H. f_equal. apply List.forallb_filter_id. rewrite forallb_forall in *. intros b Hb.
  specialize (H b Hb). unfold utf8_cont, in_range in *. ok_inv. rewrite bool_decide_false by lia. done.
Qed.

Lemma cstring_ascii table off s : cstring table off = Ok s → forallb (in_range 0 127) (fsencode s) = true.
Proof.
  unfold cstring. intros H. apply bind_Ok in H as (u & _ & H). destruct (find_zero _) as [n|]; [|done].
  apply bind_Ok in H as (value & Hv & H). apply bind_Ok in H as (? & _ & [= <-]).
  unfold decode_ascii in Hv. destruct (forallb _ _) eqn:Hf; [|done]. injection Hv as <-. by rewrite fsencode_fsdecode.
Qed.

Lemma program_header_interp payload st index st' :
  index ∈ seqZ 0 (LauncherTemplate.phnum (read_ehdr payload)) →
  program_header payload (read_ehdr payload) st index = Ok st' → interp_ok payload st → interp_ok payload st'.
Proof.
  intros Hi H Hok. unfold program_header in H. destruct st as [loads dynamic interp].
  apply bind_Ok in H as (? & _ & H). apply bind_Ok in H as (? & _ & H).
  remember (read_phdr _ _) as p eqn:Hp in *.
  assert (p ∈ LauncherTemplate.phdrs payload) as Hin.
  { unfold LauncherTemplate.phdrs. apply list_elem_of_fmap. eauto. }
  clear Hp.
  case_bool_decide as H1; [injection H as <-; exact Hok|].
  case_bool_decide as H2; [ok_inv; exact Hok|].
  case_bool_decide as H3; [|by injection H as <-]. ok_inv.
  match goal with H : slice_ _ _ _ = Ok ?d |- _ => rename d into data; apply slice_Ok in H as (Hd & _) end.
  match goal with H : cstring data 0 = Ok ?j |- _ => rename j into i, H into Hc end.
  pose proof (cstring_ascii _ _ _ Hc) as Hascii. apply cstring_Ok in Hc as (Hpr & _ & _ & b & Hb).
  intros i' [= <-]. split_and!; [done|done|]. exists p. split_and!; [done|done|]. rewrite <-Hd.
  match goal with H : ¬ (py_len i ≠ _) |- _ => apply dec_stable in H; rename H into Hl end.
  rewrite py_len_ascii in Hl by done. change (drop (Z.to_nat 0) data) with data in Hb.
  rewrite Hb in Hl |- *. rewrite zlen_app, zlen_cons in Hl. destruct b; [done|]. rewrite zlen_cons in Hl.
  pose proof (zlen_nonneg b0). lia.
Qed.

Lemma reference_inv payload table off size l n r :
  table = slice off size payload → forM (reference table) l ([], []) = Ok (n, r) →
  Forall (λ s, s ≠ "" ∧ printable s ∧ in_file payload s) n ∧ Forall (λ s, str_mem ":" s = false ∧ printable s) r.
Proof.
  intros Ht H. apply (forM_inv _ (λ _ p, Forall (λ s, s ≠ "" ∧ printable s ∧ in_file payload s) p.1 ∧
    Forall (λ s, str_mem ":" s = false ∧ printable s) p.2)) in H; [done|by repeat constructor|].
  clear n r H. intros _ [tag o] [n1 r1] [n2 r2] [H1 H2] _ H. unfold reference in H. cbn [fst snd] in *.
  apply bind_Ok in H as (v & (Hp & _ & Hin & _)%cstring_Ok & H).
  case_bool_decide; ok_inv; simplify_eq; (split; [|done || idtac]); try done.
  - apply Forall_app. split; [done|]. apply Forall_singleton. split_and!; [done|done|]. by eapply in_file_slice.
  - apply Forall_app. split; [done|]. apply Forall_forall. intros x Hx. split; [by eapply str_split_elem|].
    by eapply str_split_any.
Qed.


(** An image with an interpreter, one needed library and one lookup path *)
Definition ex_strings : bytes := [x00] ++ fsencode "libc.so.6" ++ [x00] ++ fsencode "$ORIGIN/../lib" ++ [x00].
Definition ex_dynamic : bytes :=
  [x7f; x45; x4c; x46; x02; x01; x01] ++ replicate 9 x00
  ++ pack LE [2;2;4;8;8;8;4;2;2;2;2;2;2]%nat [3; 62; 1; 0; 64; 0; 0; 64; 56; 3; 0; 0; 0]
  ++ pack LE [4;4;8;8;8;8;8;8]%nat [1; 4; 0; 0; 0; 354; 354; 4096]
  ++ pack LE [4;4;8;8;8;8;8;8]%nat [3; 4; 232; 232; 232; 11; 11; 1]
  ++ pack LE [4;4;8;8;8;8;8;8]%nat [2; 6; 248; 248; 248; 80; 80; 8]
  ++ fsencode "/lib/ld.so" ++ replicate 6 x00
  ++ pack LE [8;8;8;8;8;8;8;8;8;8]%nat [1; 1; 29; 11; 5; 328; 10; 26; 0; 0] ++ ex_strings.


(** ** Refusals *)
Lemma cstring_errors table off : raises is_ValueError (cstring table off).
Proof.
  unfold cstring.
  assert (∀ b, raises is_ValueError (match decode_ascii b with
    | Err UnicodeError => Err (ValueError "ELF runtime name is not ASCII") | r => r end)) as Hu.
  { intros b. unfold decode_ascii. destruct (forallb _ b); solve_raises. }
  repeat (apply Hu || raises_step).
Qed.
#[export] Hint Resolve cstring_errors : omux.

Lemma dynamic_entries_errors d offsets entries : raises is_ValueError (dynamic_entries d offsets entries).
Proof. revert entries. induction offsets; intros; cbn [dynamic_entries]; solve_raises. Qed.
#[export] Hint Resolve dynamic_entries_errors : omux.

Lemma elf_metadata_errors payload max_bytes : raises is_ValueError (elf_metadata payload max_bytes).
Proof. unfold elf_metadata, file_limit, program_header, reference, slice_, check_range. solve_raises. Qed.
#[export] Hint Resolve elf_metadata_errors : omux.

(** ** A validated launcher template is static to this reader too *)
Definition memory_ok (payload : bytes) : Prop :=
  Forall (λ p, LauncherTemplate.p_filesz p <= LauncherTemplate.p_memsz p) (LauncherTemplate.phdrs payload).

Lemma static_loop payload h l st :
  Forall (λ i, let p := read_phdr payload (LauncherTemplate.phoff h + i * LauncherTemplate.phsize h) in
            LauncherTemplate.phdr_ok payload p ∧ LauncherTemplate.p_filesz p <= LauncherTemplate.p_memsz p) l →
  l_dynamic st = None → l_interpreter st = None →
  ∃ st', forM (program_header payload h) l st = Ok st' ∧ l_dynamic st' = None ∧ l_interpreter st' = None.
Proof.
  intros Hl. revert st. induction Hl as [|i l [Hp Hm] _ IH]; intros st Hd Hi; [by exists st|].
  cbn [forM]. destruct Hp as [(H1 & H2 & H3) [Ht2 Ht3] _ _].
  assert (∃ st1, program_header payload h st i = Ok st1 ∧ l_dynamic st1 = None ∧ l_interpreter st1 = None) as (st1 & -> & ? & ?).
  { unfold program_header. destruct st as [loads dyn interp]. cbn in Hd, Hi. subst. cbn zeta in *.
    remember (read_phdr payload (LauncherTemplate.phoff h + i * LauncherTemplate.phsize h)) as p eqn:Hp. clear Hp.
    rewrite (bool_decide_false (_ > LauncherTemplate.p_memsz p)) by lia. cbn [raise_if mbind res_bind].
    assert (∀ off size, 0 <= off → 0 <= size → off + size <= zlen payload → check_range payload off size = Ok tt) as Hc.
    { intros. by apply elf_range_Ok. }
    rewrite Hc by done. cbn [mbind res_bind].
    rewrite (bool_decide_false (_ = 2)), (bool_decide_false (_ = 3)) by done. case_bool_decide; eauto. }
  by apply IH.
Qed.

Lemma template_static_metadata payload target u :
  LauncherTemplate.validate_template payload target = Ok u → memory_ok payload →
  elf_metadata payload (VInt MAX_FILE) =
  Ok (ElfInfo [] [] None (LauncherTemplate.machine (read_ehdr payload))).
Proof.
  intros Hv Hm. pose proof (LauncherTemplate.template_facts _ _ _ Hv) as (Hmach & Hk & Hok & _).
  unfold LauncherTemplate.validate_template in Hv. rewrite Hmach in Hv.
  apply bind_Ok in Hv as (? & Hsize%raise_if_Ok & Hv). apply bind_Ok in Hv as (? & _ & Hv).
  apply bind_Ok in Hv as (? & Hhead%raise_if_Ok & Hv). apply bind_Ok in Hv as (? & Hph%raise_if_Ok & Hv).
  apply bind_Ok in Hv as (? & Hr%LauncherTemplate.range_Ok & _). ok_inv.
  unfold elf_metadata. change (file_limit (VInt MAX_FILE)) with (Ok MAX_FILE). cbn [mbind res_bind].
  match goal with H : ¬ (take 7 payload ≠ _) |- _ => apply dec_stable in H; rename H into Hmagic end.
  assert (take 4 payload = [x7f; x45; x4c; x46]) as ->.
  { change 4%nat with (4 `min` 7)%nat. rewrite <-take_take. by rewrite Hmagic. }
  assert (slice 4 3 payload = [x02; x01; x01]) as ->.
  { unfold slice. change (Z.to_nat 3) with (7 - 4)%nat. change (Z.to_nat 4) with 4%nat.
    rewrite <-skipn_firstn_comm. by rewrite Hmagic. }
  repeat match goal with H : ¬ (_ ≠ _) |- _ => apply dec_stable in H end.
  assert (LauncherTemplate.machine (read_ehdr payload) ∈ MACHINE_VALUES) as Hmv.
  { unfold MACHINES in Hmach. repeat case_bool_decide; simplify_eq; set_solver. }
  unfold LauncherTemplate.MAX_FILE, LauncherTemplate.MAX_HEADERS, MAX_FILE, MAX_HEADERS, slice_ in *.
  assert (∀ off size, 0 <= off → 0 <= size → off + size <= zlen payload → check_range payload off size = Ok tt) as Hc.
  { intros. by apply elf_range_Ok. }
  destruct (static_loop payload (read_ehdr payload) (seqZ 0 (LauncherTemplate.phnum (read_ehdr payload))) (LState [] None None))
    as (st & Hst & Hd & Hi); [|done..|].
  { unfold memory_ok, LauncherTemplate.phdrs in *. rewrite Forall_fmap in Hm, Hok. rewrite Forall_forall in *.
    intros i Hin. split; [by apply Hok|by apply Hm]. }
  pass_guard ltac:(lia || congruence). pass_guard ltac:(congruence).
  pass_guard ltac:(done || (rewrite Hk; set_solver) || lia). pass_guard ltac:(lia).
  rewrite Hc by lia. cbn [mbind res_bind]. rewrite Hst. cbn [mbind res_bind]. by rewrite Hd, Hi.
Qed.
End Elf.
