(* ===== verification/Launcher.v ===== *)
(** * delivery/portable.py: the static launcher

    [linux_launcher] appends a 256-byte record to the trusted template.  The
    module [portable_launcher_template] is generated by the build and is not
    part of the sources: its four constants are the parameter [module]. *)
From S2P Require Import Prelude PyBytes PyString PyValue Sha256 LauncherTemplate Elf.
From Stdlib Require Import Ascii.
Import LauncherTemplate (MACHINES).
Local Open Scope Z_scope.

Module Launcher.

(** The generated module; [TEMPLATE] is [None] when it is not a [bytes]. *)
Record module := Module_ { ABI : value; TARGET : value; TEMPLATE : option bytes; SHA256 : value }.

(** [re.fullmatch(r"[A-Za-z0-9_][A-Za-z0-9_.+-]{0,127}", value)] *)
Definition name_start (c : ascii) : bool := is_alnum c || bool_decide (c = "_"%char).
Definition name_char (c : ascii) : bool := is_alnum c || chr_of "_.+-" c.
Definition name_fullmatch (s : string) : bool :=
  match s with
  | EmptyString => false
  | String c r => name_start c && str_all name_char r && bool_decide (Z.of_nat (String.length r) <= 127)
  end.

(** [name.rsplit("/", 1)[-1]] *)
Definition after_slash (name : string) : string := default "" (last (str_split "/" name)).

Definition basename (name : string) : res string :=
  let value := after_slash name in
  if name_fullmatch value then Ok value else Err (ValueError "unsafe runtime dependency basename").

(** [channel in {"development", "release"}] hashes its operand. *)
Definition channel_instance (channel : value) : res value :=
  match channel with
  | VNone => Ok VNone
  | VStr s => if bool_decide (s ∈ ["development"; "release"])
              then Ok (VStr (if bool_decide (s = "development") then "dev" else "default"))
              else Err (ValueError "unsupported artifact channel")
  | v => if hashable v then Err (ValueError "unsupported artifact channel") else Err TypeError
  end.

Section WithModule.
Context (T : module).

Definition trusted_launcher (target : value) : res (string * bytes * string) :=
  let native_target := TARGET T in
  let selected := match target with VNone => native_target | _ => target end in
  match ABI T, native_target, selected with
  | VInt 1, VStr native, VStr sel =>
      match MACHINES native with
      | Some _ =>
          if bool_decide (sel ≠ native)
          then Err (ValueError "declared static launcher is unavailable for the requested target") else
          match TEMPLATE T, SHA256 T with
          | Some template, VStr digest =>
              if bool_decide (0 < zlen template <= Elf.MAX_FILE) && is_sha256_hex digest
                 && bool_decide (Sha256.hexdigest template = digest) then
                metadata ← Elf.elf_metadata template (VInt Elf.MAX_FILE);
                _ ← raise_if (negb (bool_decide (MACHINES sel = Some (Elf.machine metadata)))
                              || bool_decide (is_Some (Elf.interpreter metadata))
                              || bool_decide (Elf.needed metadata ≠ []) || bool_decide (Elf.rpath metadata ≠ []))
                      (ValueError "declared launcher does not have its native static ELF boundary");
                Ok (sel, template, digest)
              else Err (ValueError "declared static launcher template is invalid")
          | _, _ => Err (ValueError "declared static launcher template is invalid")
          end
      | None => Err (ValueError "declared static launcher is unavailable for the requested target")
      end
  | _, _, _ => Err (ValueError "declared static launcher is unavailable for the requested target")
  end.

Definition launcher_metadata (target : value) : res value :=
  '(selected, _, digest) ← trusted_launcher target;
  Ok (VDict [("abi", VInt 1); ("target", VStr selected); ("templateSha256", VStr digest)]).

Definition roles (backend : string) : option Z :=
  if bool_decide (backend = "omux.bin") then Some 1
  else if bool_decide (backend = "omuxd.bin") then Some 2
  else if bool_decide (backend = "omux-control.bin") then Some 3 else None.

Definition channel_code (channel : value) : option Z :=
  match channel with
  | VNone => Some 0
  | VStr s => if bool_decide (s = "development") then Some 1 else if bool_decide (s = "release") then Some 2 else None
  | _ => None
  end.

(** [record[off:off + len(b)] = b] inside the array *)
Definition store (off : Z) (b : bytes) (record : bytes) : bytes :=
  take (Z.to_nat off) record ++ b ++ drop (Z.to_nat off + length b) record.

Definition launcher_record (role channel machine : Z) (loader : string) : bytes :=
  let record := replicate 256 x00 in
  let record := store 0 LauncherTemplate.MAGIC record in
  let record := store 16 [Z_byte 1] record in
  let record := store 17 [Z_byte role] record in
  let record := store 18 [Z_byte channel] record in
  let record := store 20 (encode LE 2 machine) record in
  store 32 (fsencode loader) record.

Definition linux_launcher (loader backend : string) (channel target : value) : res bytes :=
  loader ← basename loader;
  match roles backend with
  | None => Err (ValueError "unsupported backend executable")
  | Some role =>
      _ ← channel_instance channel;
      '(selected, template, _) ← trusted_launcher target;
      match channel_code channel, MACHINES selected with
      | Some code, Some machine => Ok (template ++ launcher_record role code machine loader)
      | _, _ => Err KeyError
      end
  end.
End WithModule.

(** ** The record *)
Lemma store_app l r b record off :
  record = l ++ r → off = zlen l → store off b record = l ++ b ++ drop (length b) r.
Proof.
  intros -> ->. unfold store, zlen. rewrite Nat2Z.id, take_app_length. f_equal. f_equal.
  by rewrite <-drop_drop, drop_app_length.
Qed.

(** The fields in order: magic, ABI, role, channel, a reserved byte, the
    machine, reserved bytes, the loader's name and zeros up to 256 bytes. *)
Lemma launcher_record_layout role channel machine loader :
  (String.length loader <= 128)%nat →
  launcher_record role channel machine loader =
  LauncherTemplate.MAGIC ++ [Z_byte 1; Z_byte role; Z_byte channel; x00] ++ encode LE 2 machine
  ++ replicate 10 x00 ++ fsencode loader ++ replicate (224 - String.length loader) x00.
Proof.
  intros Hl. unfold launcher_record. rewrite <-length_fsencode in *. set (b := fsencode loader) in *. clearbody b.
  destruct (encode LE 2 machine) as [|e0 [|e1 [|]]] eqn:He; try (apply (f_equal length) in He; by rewrite length_encode in He).
  set (r := Z_byte role). set (c := Z_byte channel). set (a := Z_byte 1). clearbody r c a.
  rewrite (store_app (LauncherTemplate.MAGIC ++ [a; r; c; x00; e0; e1] ++ replicate 10 x00) (replicate 224 x00) b);
    [|reflexivity|reflexivity].
  by rewrite drop_replicate, <-!(assoc_L (++)).
Qed.

Lemma zlen_launcher_record role channel machine loader :
  (String.length loader <= 128)%nat → zlen (launcher_record role channel machine loader) = 256.
Proof.
  intros Hl. rewrite launcher_record_layout by done. rewrite !zlen_app, zlen_encode, !zlen_replicate.
  unfold zlen. rewrite length_fsencode. simpl. lia.
Qed.

Lemma basename_Ok name value :
  basename name = Ok value → name_fullmatch value = true ∧ (String.length value <= 128)%nat ∧ value = after_slash name.
Proof.
  unfold basename. destruct (name_fullmatch (after_slash name)) eqn:Hm; [|done]. intros [= <-].
  split_and!; [done| |done]. destruct (after_slash name); [done|]. simpl in *. ok_inv. lia.
Qed.

Lemma name_char_code c : name_char c = true → byte_of_ascii c ≠ x00.
Proof. by destruct c as [[] [] [] [] [] [] [] []]. Qed.

Lemma name_no_nul s : name_fullmatch s = true → x00 ∉ fsencode s.
Proof.
  assert (∀ s, str_all name_char s = true → x00 ∉ fsencode s) as Hall.
  { clear s. intros s. unfold fsencode, String.list_byte_of_string.
    induction s as [|c s IH]; intros Hs; [by intros ?%elem_of_nil|].
    simpl in Hs. ok_inv. cbn. intros [Hc|Hc]%elem_of_cons; [|by apply IH]. by apply (name_char_code c). }
  intros H. apply Hall. destruct s as [|c s]; [done|]. simpl in *. ok_inv.
  apply andb_true_intro. split; [|done]. unfold name_start, name_char in *. apply orb_true_iff.
  match goal with H : _ || _ = true |- _ => apply orb_true_iff in H as [H|H] end; [by left|right].
  apply bool_decide_eq_true in H. by subst.
Qed.

Lemma zero_padded_inj (a b : bytes) n m :
  x00 ∉ a → x00 ∉ b → a ++ replicate (S n) x00 = b ++ replicate (S m) x00 → a = b.
Proof.
  intros Ha Hb H. pose proof H as Hz. apply (f_equal find_zero) in Hz. cbn [replicate] in Hz.
  rewrite !find_zero_app in Hz by done. injection Hz as Hz. by apply app_inj_1 in H as [-> _].
Qed.

Lemma roles_inj b1 b2 r : roles b1 = Some r → roles b2 = Some r → b1 = b2.
Proof. unfold roles. repeat case_bool_decide; intros; simplify_eq; done. Qed.

Lemma channel_code_inj c1 c2 n : channel_code c1 = Some n → channel_code c2 = Some n → c1 = c2.
Proof.
  destruct c1 as [| | | |s1| |], c2 as [| | | |s2| |]; cbn; repeat case_bool_decide; intros; simplify_eq; done.
Qed.

Lemma channel_code_instance c n : channel_code c = Some n → ∃ v, channel_instance c = Ok v.
Proof.
  destruct c as [| | | |s| |]; cbn; intros H; try done; [eauto|].
  rewrite bool_decide_true; [by eexists|]. repeat case_bool_decide; simplify_eq; subst; set_solver.
Qed.

Lemma role_channel_range b c r n : roles b = Some r → channel_code c = Some n → 0 <= r < 256 ∧ 0 <= n < 256.
Proof.
  unfold roles. destruct c as [| | | |s| |]; cbn; repeat case_bool_decide; intros; simplify_eq; lia.
Qed.

Lemma Z_byte_inj a b : 0 <= a < 256 → 0 <= b < 256 → Z_byte a = Z_byte b → a = b.
Proof. intros Ha Hb H. apply (f_equal byte_Z) in H. rewrite !byte_Z_Z_byte in H. by rewrite !Z.mod_small in H. Qed.

Section Facts.
Context (T : module).

Lemma trusted_launcher_Ok target sel template digest :
  trusted_launcher T target = Ok (sel, template, digest) →
  TARGET T = VStr sel ∧ TEMPLATE T = Some template ∧ digest = Sha256.hexdigest template ∧
  (target = VNone ∨ target = VStr sel) ∧
  ∃ info, Elf.elf_metadata template (VInt Elf.MAX_FILE) = Ok info ∧ MACHINES sel = Some (Elf.machine info) ∧
    Elf.interpreter info = None ∧ Elf.needed info = [] ∧ Elf.rpath info = [].
Proof.
  unfold trusted_launcher. intros H.
  destruct (ABI T) as [| |[|[]|]| | | |]; try done. destruct (TARGET T) as [| | | |native| |] eqn:HT; try done.
  assert (∃ s, match target with VNone => VStr native | _ => target end = VStr s ∧
            (target = VNone ∨ target = VStr s)) as (s & Hs & Htar).
  { destruct target; try done; eauto. }
  rewrite Hs in H. destruct (MACHINES native) as [m|] eqn:Hm; [|done].
  destruct (bool_decide_reflect (s ≠ native)) as [|Hsn]; [done|]. apply dec_stable in Hsn as ->.
  destruct (TEMPLATE T) as [tpl|]; [|done]. destruct (SHA256 T); try done.
  destruct (_ && _ && _) eqn:Hc; [|done]. ok_inv. simplify_eq.
  split_and!; try done. eexists. split_and!; [done|done|..]; try (by apply dec_stable).
  apply eq_None_not_Some. done.
Qed.

Lemma linux_launcher_Ok loader backend channel target b :
  linux_launcher T loader backend channel target = Ok b →
  ∃ role code template sel m, roles backend = Some role ∧ channel_code channel = Some code ∧
    name_fullmatch (after_slash loader) = true ∧ (String.length (after_slash loader) <= 128)%nat ∧
    TEMPLATE T = Some template ∧ TARGET T = VStr sel ∧ MACHINES sel = Some m ∧
    b = template ++ launcher_record role code m (after_slash loader).
Proof.
  unfold linux_launcher. intros (n & (Hn1 & Hn2 & ->)%basename_Ok & H)%bind_Ok.
  destruct (roles backend) as [role|]; [|done]. apply bind_Ok in H as (? & _ & H).
  apply bind_Ok in H as ([[sel template] digest] & (Hsel & Htpl & _ & _ & info & _ & Hm & _)%trusted_launcher_Ok & H).
  destruct (channel_code channel) as [code|]; [|done]. rewrite Hm in H. injection H as <-.
  exists role, code, template, sel, (Elf.machine info). done.
Qed.
End Facts.

(** C15: a launcher is the trusted template followed by one 256-byte record,
    and the bytes determine the configuration: launchers made by the same
    build for different loaders, backends or channels differ. *)
Theorem launcher_determines_configuration T loader1 loader2 backend1 backend2 channel1 channel2 target1 target2 b
    (H1 : linux_launcher T loader1 backend1 channel1 target1 = Ok b)
    (H2 : linux_launcher T loader2 backend2 channel2 target2 = Ok b) :
  (∃ template, TEMPLATE T = Some template ∧ zlen b = zlen template + 256) ∧
  basename loader1 = basename loader2 ∧ backend1 = backend2 ∧ channel1 = channel2.
Proof.
  apply linux_launcher_Ok in H1 as (r1 & c1 & t & sel & m & Hr1 & Hc1 & Hn1 & Hl1 & Ht & Hs & Hm & Hb).
  apply linux_launcher_Ok in H2 as (r2 & c2 & t2 & sel2 & m2 & Hr2 & Hc2 & Hn2 & Hl2 & Ht2 & Hs2 & Hm2 & Hb2).
  rewrite Ht in Ht2. injection Ht2 as <-. rewrite Hs in Hs2. injection Hs2 as <-. rewrite Hm in Hm2. injection Hm2 as <-.
  subst b. rewrite !launcher_record_layout in Hb2 by done.
  destruct (role_channel_range _ _ _ _ Hr1 Hc1), (role_channel_range _ _ _ _ Hr2 Hc2).
  repeat apply app_inv_head in Hb2. cbn [app] in Hb2. injection Hb2 as Er Ec Hb2.
  apply Z_byte_inj in Er, Ec; [|lia..]. subst. repeat apply app_inv_head in Hb2.
  assert (after_slash loader1 = after_slash loader2) as He.
  { destruct (224 - String.length (after_slash loader1))%nat as [|n1] eqn:E1; [lia|].
    destruct (224 - String.length (after_slash loader2))%nat as [|n2] eqn:E2; [lia|].
    apply fsencode_inj. by eapply zero_padded_inj; [apply name_no_nul..|]. }
  split_and!.
  - exists t. rewrite zlen_app, zlen_launcher_record by done. done.
  - unfold basename. by rewrite He.
  - by eapply roles_inj.
  - by eapply channel_code_inj.
Qed.

(** The module the generator renders for a template *)
Definition rendered (template : bytes) (target : string) : module :=
  Module_ (VInt 1) (VStr target) (Some template) (VStr (Sha256.hexdigest template)).

Definition ex_module : module := rendered LauncherTemplate.ex_template "x86_64-linux".
Definition launcher_of (T : module) (loader backend : string) (channel : value) : bytes :=
  match linux_launcher T loader backend channel VNone with Ok b => b | Err _ => [] end.

Lemma launcher_determines_configuration_witness :
  basename "/lib64/ld-linux-x86-64.so.2" = basename "ld-linux-x86-64.so.2".
Proof.
  apply (launcher_determines_configuration ex_module _ _ "omuxd.bin" "omuxd.bin" (VStr "release") (VStr "release")
           VNone (VStr "x86_64-linux") (launcher_of ex_module "ld-linux-x86-64.so.2" "omuxd.bin" (VStr "release")));
    vm_compute; done.
Defined.


End Launcher.
