(* ===== verification/PortableRuntime.v ===== *)
(** * delivery/portable.py: verification of a packaged runtime

    [verify_linux_runtime] decides whether the files of an archive are exactly
    a confined runtime: declared file set, per-process dependency closure,
    confined interpreters and lookup paths, canonical resolution witness,
    public certificates only, and launchers rebuilt from the trusted template. *)
From S2P Require Import Prelude PyBytes PyString PyValue Sha256 LauncherTemplate Elf Launcher.
From Stdlib Require Import Ascii.
Import LauncherTemplate (MACHINES).
Import Launcher (module, basename, channel_instance, launcher_metadata, linux_launcher).
Local Open Scope Z_scope.

Module PortableRuntime.

Definition BACKEND_INTERPRETER : string := "/omux/launch-via-bin-wrapper".
Definition RUNTIME : string := "lib/omux".
Definition CA_BUNDLE : string := "lib/omux/share/ca-bundle.crt".
Definition QT_RUNTIME : string := "lib/omux/qt".
Definition QT_CONTROL : string := "lib/omux/qt/libexec/omux-control.bin".
Definition QT_CONFIG : string := "lib/omux/qt/libexec/qt.conf".
Definition QT_PREFIX : string := "lib/omux/qt/plugins/platforms/".
Definition QT_PLUGIN_RPATH : string := "$ORIGIN/../../lib".
Definition newline : string := String "010"%char EmptyString.
Definition QT_CONFIG_BYTES : bytes :=
  fsencode (str_join newline
    ["[Paths]"; "Prefix=.."; "Plugins=plugins"; "Libraries=lib"; "LibraryExecutables=libexec"; "Data=share"; ""]).
Definition WITNESS_SCOPE : string := "native-qt-offscreen-startup-only".
Definition ALIASES : list string := ["omux"; "oauth-mux"; "omux-native-host"; "git-credential-omux"].

(** ** Certificate bundles

    The regular expressions run over the encoded text: every character class
    they use is ASCII, apart from [[^-\r\n]], which no continuation byte
    leaves. *)
Fixpoint strip (p l : bytes) : option bytes :=
  match p, l with
  | [], _ => Some l
  | a :: p, b :: l => if bool_decide (a = b) then strip p l else None
  | _ :: _, [] => None
  end.

Fixpoint span (f : byte → bool) (l : bytes) : bytes * bytes :=
  match l with
  | [] => ([], [])
  | b :: r => if f b then let '(x, y) := span f r in (b :: x, y) else ([], l)
  end.

(** [re.findall]: leftmost matches that do not overlap; [m] tries to match at a
    position and returns the group and the number of bytes matched. *)
Fixpoint findall {A} (m : bytes → option (A * nat)) (skip : nat) (l : bytes) : list A :=
  match l with
  | [] => []
  | _ :: r =>
      match skip with
      | S k => findall m k r
      | O => match m l with
             | Some (a, n) => a :: findall m (n - 1) r
             | None => findall m 0 r
             end
      end
  end.

Definition DASHES : bytes := fsencode "-----".
Definition label_char (b : byte) : bool := negb (bool_decide (b ∈ [x2d; x0d; x0a])).

(** [-----((?:BEGIN|END) [^-\r\n]+)-----] *)
Definition label_at (l : bytes) : option (bytes * nat) :=
  let try_word (word : bytes) :=
    r ← strip (DASHES ++ word) l;
    let '(run, r') := span label_char r in
    if bool_decide (run = []) then None else
    _ ← strip DASHES r';
    Some (word ++ run, length DASHES + length word + length run + length DASHES)%nat in
  match try_word (fsencode "BEGIN ") with Some x => Some x | None => try_word (fsencode "END ") end.

Definition blank (b : byte) : bool := bool_decide (b ∈ [x20; x09; x0d; x0a]).
Definition block_char (b : byte) : bool :=
  let c := ascii_of_byte b in is_alnum c || chr_of "+/=" c || blank b.

(** A certificate block; its group is returned without its blanks. *)
Definition block_at (l : bytes) : option (bytes * nat) :=
  let try_kind (kind : bytes) :=
    r ← strip (fsencode "-----BEGIN " ++ kind ++ DASHES) l;
    let '(run, r') := span block_char r in
    if bool_decide (run = []) then None else
    _ ← strip (fsencode "-----END " ++ kind ++ DASHES) r';
    Some (List.filter (λ b, negb (blank b)) run, length l - length r' + length (fsencode "-----END " ++ kind ++ DASHES))%nat in
  match try_kind (fsencode "CERTIFICATE") with Some x => Some x | None => try_kind (fsencode "TRUSTED CERTIFICATE") end.

Definition b64_digit (b : byte) : option Z :=
  let c := ascii_of_byte b in
  if is_upper c then Some (byte_Z b - 65) else if is_lower c then Some (byte_Z b - 71)
  else if is_digit c then Some (byte_Z b + 4) else if bool_decide (c = "+"%char) then Some 62
  else if bool_decide (c = "/"%char) then Some 63 else None.

(** [base64.b64decode(s, validate=True)] *)
Fixpoint b64decode (l : bytes) : option bytes :=
  match l with
  | [] => Some []
  | a :: b :: c :: d :: r =>
      x ← b64_digit a; y ← b64_digit b;
      if bool_decide (c = x3d ∧ d = x3d ∧ r = []) then Some [Z_byte (x * 4 + y / 16)] else
      z ← b64_digit c;
      if bool_decide (d = x3d ∧ r = []) then Some [Z_byte (x * 4 + y / 16); Z_byte (y * 16 + z / 4)] else
      w ← b64_digit d; rest ← b64decode r;
      Some (Z_byte (x * 4 + y / 16) :: Z_byte (y * 16 + z / 4) :: Z_byte (z * 64 + w) :: rest)
  | _ => None
  end.

Definition check_certificate (u : unit) (block : bytes) : res unit :=
  match b64decode block with
  | None => Err (ValueError "CA bundle certificate payload is malformed")
  | Some certificate =>
      raise_if (bool_decide (certificate = []) || bool_decide (zlen certificate > 64 * 1024))
        (ValueError "CA bundle certificate payload is empty or oversized")
  end.

Definition allowed_labels : list bytes :=
  fsencode <$> ["BEGIN CERTIFICATE"; "BEGIN TRUSTED CERTIFICATE"; "END CERTIFICATE"; "END TRUSTED CERTIFICATE"].

Definition verify_ca_bundle (payload : bytes) : res unit :=
  _ ← raise_if (bool_decide (payload = []) || bool_decide (zlen payload > 16 * 1024 * 1024))
        (ValueError "public CA bundle must be nonempty and bounded");
  _ ← ensure (utf8_valid payload) (ValueError "public CA bundle must use valid UTF-8 text");
  let labels := findall label_at 0 payload in
  _ ← raise_if (bool_decide (labels = []) || existsb (λ l, negb (bool_decide (l ∈ allowed_labels))) labels)
        (ValueError "CA bundle may contain public certificate PEM blocks only");
  let blocks := findall block_at 0 payload in
  _ ← raise_if (bool_decide (zlen labels ≠ 2 * zlen blocks) || bool_decide (blocks = []))
        (ValueError "CA bundle contains malformed certificate boundaries");
  forM check_certificate blocks tt.

(** ** Resolution witnesses *)
Definition strings_of (l : list value) : option (list string) :=
  mapM (λ v, match v with VStr s => Some s | _ => None end) l.

Record library := Library { soname : string; sha256 : string; variants : list string }.

Definition library_value (l : library) : value :=
  VDict [("soname", VStr (soname l)); ("sha256", VStr (sha256 l)); ("variants", VList (VStr <$> variants l))].

Definition check_library (checked : list library) (v : value) : res (list library) :=
  _ ← ensure (match v with VDict d => keys_are ["soname"; "sha256"; "variants"] d | _ => false end)
        (ValueError "invalid canonical library witness");
  sv ← getitem v "soname"; dv ← getitem v "sha256";
  match sv with
  | VStr so =>
      b ← basename so;
      match dv with
      | VStr digest =>
          _ ← raise_if (bool_decide (b ≠ so) || bool_decide (so ∈ soname <$> checked) || bool_decide (so = "libc.so.6")
                        || startswith "ld-" so || negb (is_sha256_hex digest))
                (ValueError "invalid or forbidden canonical library witness");
          vv ← getitem v "variants";
          match vv with
          | VList l =>
              match strings_of l with
              | Some vs =>
                  _ ← raise_if (negb (bool_decide (0 < zlen l <= 128)) || negb (forallb is_sha256_hex vs)
                                || bool_decide (vs ≠ sorted_set vs) || negb (bool_decide (digest ∈ vs)))
                        (ValueError "invalid canonical library variant custody");
                  Ok (checked ++ [Library so digest vs])
              | None => Err (ValueError "invalid canonical library variant custody")
              end
          | _ => Err (ValueError "invalid canonical library variant custody")
          end
      | _ => Err (ValueError "invalid or forbidden canonical library witness")
      end
  | _ => Err (ValueError "invalid or forbidden canonical library witness")
  end.

Definition soname_le (a b : library) : Prop := String.le (soname a) (soname b).
#[export] Instance soname_le_dec : RelDecision soname_le := λ a b, String.le_dec (soname a) (soname b).

Definition witness_value (target control : string) (libraries : list library) : value :=
  VDict [("schemaVersion", VInt 1); ("scope", VStr WITNESS_SCOPE); ("target", VStr target);
         ("controlSha256", VStr control); ("libraries", VList (library_value <$> libraries))].

Definition validate_resolution_witness (v : value) (target : string) : res value :=
  _ ← ensure (match v with
              | VDict d => keys_are ["schemaVersion"; "scope"; "target"; "controlSha256"; "libraries"] d
              | _ => false end) (ValueError "invalid native Qt resolution witness");
  schema ← getitem v "schemaVersion"; scope ← getitem v "scope"; tv ← getitem v "target"; cv ← getitem v "controlSha256";
  control ← match cv with
            | VStr c => if is_int schema && py_eq schema (VInt 1) && py_eq scope (VStr WITNESS_SCOPE)
                           && py_eq tv (VStr target) && is_sha256_hex c
                        then Ok c else Err (ValueError "invalid native Qt resolution witness")
            | _ => Err (ValueError "invalid native Qt resolution witness")
            end;
  lv ← getitem v "libraries";
  match lv with
  | VList libraries =>
      _ ← ensure (bool_decide (0 < zlen libraries <= 128))
            (ValueError "native Qt witness requires bounded canonical libraries");
      checked ← forM check_library libraries [];
      Ok (witness_value target control (merge_sort soname_le checked))
  | _ => Err (ValueError "native Qt witness requires bounded canonical libraries")
  end.

(** ** The runtime *)
Abbreviation archive := (list (string * bytes)).

Definition file (files : archive) (name : string) : res bytes :=
  match dget name files with Some b => Ok b | None => Err KeyError end.

(** [target in _MACHINES] hashes its operand. *)
Definition target_machine (target : value) : res (string * Z) :=
  match target with
  | VStr s => match MACHINES s with
              | Some m => Ok (s, m)
              | None => Err (ValueError "portable runtime requires a Linux target and runtime metadata")
              end
  | v => if hashable v then Err (ValueError "portable runtime requires a Linux target and runtime metadata")
         else Err TypeError
  end.

(** A non-empty, bounded, strictly sorted list of names that has [loader] *)
Definition dependency_list (v loader : value) : option (list string) :=
  match v with
  | VList l =>
      match strings_of l with
      | Some names => if bool_decide (0 < zlen l <= Elf.MAX_HEADERS) && bool_decide (names = sorted_set names)
                         && existsb (py_eq loader) l then Some names else None
      | None => None
      end
  | _ => None
  end.

(** [for name in names: if name != prefix + _basename(name): raise] *)
Definition confined (prefix message : string) (u : unit) (name : string) : res unit :=
  b ← basename name;
  raise_if (bool_decide (name ≠ prefix +:+ b)) (ValueError message).

Record qt_runtime := Qt {
  qt_value : value;
  qt_loader : value;
  qt_dependencies : list string;
  qt_plugins : list string;
}.

Definition confined_plugin (u : unit) (name : string) : res unit :=
  b ← basename name;
  raise_if (bool_decide (name ≠ QT_PREFIX +:+ b) || negb (endswith ".so" name))
    (ValueError "Qt platform plugin escapes the isolated runtime").

Definition check_qt (qt : value) : res (option qt_runtime) :=
  match qt with
  | VNone => Ok None
  | VDict d =>
      _ ← ensure (keys_are ["loader"; "dependencies"; "control"; "config"; "plugins"] d
                  || keys_are ["loader"; "dependencies"; "control"; "config"; "plugins"; "resolutionWitness"] d)
            (ValueError "invalid Qt runtime metadata");
      dv ← getitem qt "dependencies"; loader ← getitem qt "loader";
      match dependency_list dv loader with
      | None => Err (ValueError "invalid isolated Qt dependency metadata")
      | Some deps =>
          _ ← forM (confined (QT_RUNTIME +:+ "/lib/") "Qt dependency is outside its isolated library directory") deps tt;
          pv ← getitem qt "plugins"; control ← getitem qt "control"; config ← getitem qt "config";
          match pv with
          | VList l =>
              match strings_of l with
              | Some plugins =>
                  _ ← ensure (py_eq control (VStr QT_CONTROL) && py_eq config (VStr QT_CONFIG)
                              && bool_decide (0 < zlen l <= 128) && bool_decide (plugins = sorted_set plugins))
                        (ValueError "invalid Qt control or platform-plugin metadata");
                  _ ← forM confined_plugin plugins tt;
                  Ok (Some (Qt qt loader deps plugins))
              | None => Err (ValueError "invalid Qt control or platform-plugin metadata")
              end
          | _ => Err (ValueError "invalid Qt control or platform-plugin metadata")
          end
      end
  | _ => Err (ValueError "invalid Qt runtime metadata")
  end.

Definition artifact (path : string) (payload : bytes) : value :=
  VDict [("path", VStr path); ("sha256", VStr (Sha256.hexdigest payload))].

Definition raw_library (raw : list value) (v : value) : res (list value) :=
  _ ← ensure (match v with VDict d => keys_are ["soname"; "sha256"; "variants"; "artifact"] d | _ => false end)
        (ValueError "invalid archived canonical library witness");
  so ← getitem v "soname"; sh ← getitem v "sha256"; va ← getitem v "variants";
  Ok (raw ++ [VDict [("soname", so); ("sha256", sh); ("variants", va)]]).

Definition bound_library (files : archive) (deps : list string) (u : unit) (v : value) : res unit :=
  so ← getitem v "soname";
  match so with
  | VStr so =>
      let path := QT_RUNTIME +:+ "/lib/" +:+ so in
      bound ← (if bool_decide (path ∈ deps) then
                 av ← getitem v "artifact"; payload ← file files path; Ok (py_eq av (artifact path payload))
               else Ok false);
      ensure bound (ValueError "Qt resolution witness does not bind its packaged canonical library")
  | _ => Err TypeError
  end.

Definition check_archived_witness (files : archive) (deps : list string) (target : string) (archived : value) : res unit :=
  match archived with
  | VDict d =>
      _ ← ensure (keys_are ["schemaVersion"; "scope"; "target"; "controlSha256"; "libraries"; "controlArtifact"] d)
            (ValueError "invalid archived Qt resolution witness");
      lv ← getitem archived "libraries";
      match lv with
      | VList libraries =>
          raw_libraries ← forM raw_library libraries [];
          let raw := VDict (List.filter (λ kv, negb (bool_decide (kv.1 ∈ ["controlArtifact"; "libraries"]))) d
                            ++ [("libraries", VList raw_libraries)]) in
          w ← validate_resolution_witness raw target;
          _ ← ensure (py_eq raw w) (ValueError "archived Qt resolution witness is not canonical");
          control ← file files QT_CONTROL;
          ca ← getitem archived "controlArtifact";
          _ ← ensure (py_eq ca (artifact QT_CONTROL control))
                (ValueError "Qt resolution witness does not bind its packaged control");
          forM (bound_library files deps) libraries tt
      | _ => Err (ValueError "invalid archived Qt resolution witness")
      end
  | _ => Err (ValueError "invalid archived Qt resolution witness")
  end.

(** A process namespace: its executables, its libraries and its plugins *)
Record graph := Graph { g_backends : list string; g_dependencies : list string; g_plugins : list string }.

Definition g_names (g : graph) : list string := sorted_set (g_backends g ++ g_dependencies g ++ g_plugins g).

Definition check_elf (files : archive) (machine : Z) (g : graph) (names : list string) (u : unit) (name : string) : res unit :=
  payload ← file files name;
  metadata ← Elf.elf_metadata payload (VInt Elf.MAX_FILE);
  _ ← raise_if (bool_decide (Elf.machine metadata ≠ machine))
        (ValueError "portable runtime ELF machine disagrees with its target");
  _ ← raise_if (existsb (λ n, str_mem "/" n || negb (bool_decide (n ∈ names))) (Elf.needed metadata))
        (ValueError "portable ELF dependency is outside its process closure");
  if bool_decide (name ∈ g_backends g) then
    raise_if (bool_decide (Elf.interpreter metadata ≠ Some BACKEND_INTERPRETER)
              || bool_decide (Elf.rpath metadata ≠ ["$ORIGIN/../lib"]))
      (ValueError "portable backend has an external runtime lookup")
  else
    raise_if (negb (bool_decide (Elf.interpreter metadata ∈ [None; Some BACKEND_INTERPRETER]))
              || existsb (λ p, bool_decide (p ≠ if bool_decide (name ∈ g_plugins g) then QT_PLUGIN_RPATH else "$ORIGIN"))
                   (Elf.rpath metadata))
      (ValueError "portable library has an external runtime lookup").

Definition check_graph (files : archive) (machine : Z) (u : unit) (g : graph) : res unit :=
  names ← mapM_res basename (g_dependencies g);
  forM (check_elf files machine g names) (g_names g) tt.

Definition CORE : list string := (λ n, "bin/" +:+ n) <$> (ALIASES ++ ["omuxd"]).
Definition BACKENDS : list string := [RUNTIME +:+ "/libexec/omux.bin"; RUNTIME +:+ "/libexec/omuxd.bin"].
Definition qt_names (q : qt_runtime) : list string :=
  ["bin/omux-control"; QT_CONTROL; QT_CONFIG] ++ qt_plugins q ++ qt_dependencies q.

Definition check_qt_files (T : module) (files : archive) (channel : value) (target : string) (q : qt_runtime) : res unit :=
  config ← file files QT_CONFIG;
  same ← (if bool_decide (config ≠ QT_CONFIG_BYTES) then Ok false else
          control ← file files "bin/omux-control";
          loader ← match qt_loader q with VStr s => basename s | _ => Err AttributeError end;
          expected ← linux_launcher T loader "omux-control.bin" channel (VStr target);
          Ok (bool_decide (control = expected)));
  _ ← ensure same (ValueError "Qt control has an external plugin or configuration lookup");
  match qt_value q with
  | VDict d => match dget "resolutionWitness" d with
               | Some archived => check_archived_witness files (qt_dependencies q) target archived
               | None => Ok tt
               end
  | _ => Ok tt
  end.

Definition verify_linux_runtime (T : module) (files : archive) (manifest : value) : res unit :=
  tv ← get manifest "target"; runtime ← get manifest "runtime"; channel ← get manifest "channel";
  _ ← channel_instance channel;
  '(target, machine) ← target_machine tv;
  _ ← ensure (is_dict runtime) (ValueError "portable runtime requires a Linux target and runtime metadata");
  launcher ← get runtime "launcher";
  ok ← match launcher with
       | VDict d =>
           if keys_are ["abi"; "target"; "templateSha256"] d
              && match dget "abi" d with Some v => is_int v | None => false end
              && match dget "target" d with Some v => is_str v | None => false end
              && match dget "templateSha256" d with Some v => is_str v | None => false end
           then w ← launcher_metadata T (VStr target); Ok (py_eq launcher w) else Ok false
       | _ => Ok false
       end;
  _ ← ensure ok (ValueError "portable runtime launcher ABI disagrees with the declared native template");
  dv ← get runtime "dependencies"; lv ← get runtime "loader";
  bi ← get runtime "backendInterpreter"; ca ← get runtime "caBundle";
  match dependency_list dv lv, lv with
  | Some dependencies, VStr loader =>
      _ ← ensure (py_eq bi (VStr BACKEND_INTERPRETER) && py_eq ca (VStr CA_BUNDLE))
            (ValueError "invalid portable runtime dependency metadata");
      _ ← forM (confined (RUNTIME +:+ "/lib/") "portable dependency is outside the isolated library directory") dependencies tt;
      qv ← get runtime "qt";
      qt ← check_qt qv;
      let declared := CORE ++ BACKENDS ++ dependencies ++ [CA_BUNDLE] ++ match qt with Some q => qt_names q | None => [] end in
      _ ← ensure (keys_are declared files) (ValueError "archive has missing or undeclared portable runtime files");
      _ ← match qt with Some q => check_qt_files T files channel target q | None => Ok tt end;
      ca_payload ← file files CA_BUNDLE;
      _ ← verify_ca_bundle ca_payload;
      let graphs := Graph BACKENDS dependencies []
                    :: match qt with Some q => [Graph [QT_CONTROL] (qt_dependencies q) (qt_plugins q)] | None => [] end in
      _ ← forM (check_graph files machine) graphs tt;
      loader ← basename loader;
      cli ← linux_launcher T loader "omux.bin" channel (VStr target);
      bad ← anyM (λ name, payload ← file files ("bin/" +:+ name); Ok (bool_decide (payload ≠ cli))) ALIASES;
      _ ← raise_if bad (ValueError "portable CLI aliases do not match the confined launcher");
      omuxd ← file files "bin/omuxd";
      daemon ← linux_launcher T loader "omuxd.bin" channel (VStr target);
      raise_if (bool_decide (omuxd ≠ daemon)) (ValueError "portable daemon does not match the confined launcher")
  | _, _ => Err (ValueError "invalid portable runtime dependency metadata")
  end.

Definition DOCUMENTS : list string :=
  ["share/omux/reference.json"; "share/omux/services/omux.service.in"; "share/omux/services/dev.xoxd.omux.plist.in";
   "release-manifest.json"; "SHA256SUMS"].

Definition verify_linux (T : module) (files : archive) (manifest : value) : res unit :=
  _ ← ensure (forallb (λ n, bool_decide (n ∈ dkeys files)) DOCUMENTS)
        (ValueError "archive has missing or undeclared portable runtime files");
  verify_linux_runtime T (List.filter (λ f, negb (bool_decide (f.1 ∈ DOCUMENTS))) files) manifest.

(** ** What verification establishes *)
Definition confined_elf (files : archive) (machine : Z) (lib : string) (g : graph) (name : string) : Prop :=
  ∃ payload info, dget name files = Some payload ∧ Elf.elf_metadata payload (VInt Elf.MAX_FILE) = Ok info ∧
    Elf.machine info = machine ∧
    (∀ n, n ∈ Elf.needed info → str_mem "/" n = false ∧ is_Some (dget (lib +:+ n) files)) ∧
    (if bool_decide (name ∈ g_backends g)
     then Elf.interpreter info = Some BACKEND_INTERPRETER ∧ Elf.rpath info = ["$ORIGIN/../lib"]
     else (Elf.interpreter info = None ∨ Elf.interpreter info = Some BACKEND_INTERPRETER) ∧
       ∀ r, r ∈ Elf.rpath info → r = if bool_decide (name ∈ g_plugins g) then QT_PLUGIN_RPATH else "$ORIGIN").

Lemma file_Ok files name b : file files name = Ok b ↔ dget name files = Some b.
Proof. unfold file. destruct (dget name files); naive_solver. Qed.

Lemma confined_Ok prefix message name u : confined prefix message u name = Ok tt → ∃ b, basename name = Ok b ∧ name = prefix +:+ b.
Proof. unfold confined. intros (b & Hb & H%raise_if_Ok)%bind_Ok. ok_inv. exists b. split; [done|]. by apply dec_stable. Qed.

Lemma check_elf_Ok files machine g names lib name u :
  check_elf files machine g names u name = Ok tt →
  (∀ n, n ∈ names → is_Some (dget (lib +:+ n) files)) → confined_elf files machine lib g name.
Proof.
  unfold check_elf. intros H Hnames. apply bind_Ok in H as (payload & Hp%file_Ok & H).
  apply bind_Ok in H as (info & Hinfo & H). apply bind_Ok in H as (? & Hm%raise_if_Ok & H).
  apply bind_Ok in H as (? & Hn%raise_if_Ok & H). exists payload, info. apply bool_decide_eq_false, dec_stable in Hm.
  rewrite existsb_false in Hn. split_and!; [done|done|done| |].
  - intros n Hin. specialize (Hn n Hin). ok_inv. split; [done|]. by apply Hnames.
  - destruct (bool_decide (name ∈ g_backends g)); apply raise_if_Ok in H; apply orb_false_iff in H as [H1 H2].
    + ok_inv. split; by apply dec_stable.
    + rewrite existsb_false in H2. ok_inv. split; [set_solver|]. intros r Hr. specialize (H2 r Hr).
      by apply bool_decide_eq_false, dec_stable in H2.
Qed.

Lemma check_graph_Ok files machine g lib message u :
  check_graph files machine u g = Ok tt →
  forM (confined lib message) (g_dependencies g) tt = Ok tt →
  (∀ d, d ∈ g_dependencies g → is_Some (dget d files)) →
  ∀ name, name ∈ g_backends g ++ g_dependencies g ++ g_plugins g → confined_elf files machine lib g name.
Proof.
  unfold check_graph. intros (names & Hnames%mapM_res_Ok & Hall)%bind_Ok Hconf Hfiles name Hname.
  eapply check_elf_Ok; [eapply forM_unit; [exact Hall|]; by apply elem_of_sorted_set|].
  intros n Hn.
  apply list_elem_of_lookup in Hn as [i Hi]. destruct (Forall2_lookup_r _ _ _ _ _ Hnames Hi) as (d & Hd & Hb).
  apply list_elem_of_lookup_2 in Hd. destruct (confined_Ok _ _ _ _ (forM_unit _ _ _ Hconf d Hd)) as (b & Hb' & ->).
  rewrite Hb in Hb'. injection Hb' as <-. by apply Hfiles.
Qed.

Lemma check_qt_Ok v q :
  check_qt v = Ok (Some q) →
  qt_value q = v ∧ ∃ message, forM (confined (QT_RUNTIME +:+ "/lib/") message) (qt_dependencies q) tt = Ok tt.
Proof.
  unfold check_qt. destruct v as [| | | | | |d]; try done. intros (? & _ & H)%bind_Ok.
  apply bind_Ok in H as (dv & _ & H). apply bind_Ok in H as (lv & _ & H).
  destruct (dependency_list dv lv) as [deps|]; [|done]. apply bind_Ok in H as ([] & Hc & H). skip_steps 1 in H.
  repeat (apply bind_Ok in H as (? & _ & H)). match type of H with match ?x with _ => _ end = _ => destruct x; try done end.
  destruct (strings_of _) as [plugins|]; [|done]. skip_steps 2 in H. injection H as <-. eauto.
Qed.

(** The process namespaces of a runtime, each with its library directory *)
Definition namespaces (deps : list string) (qt : option qt_runtime) : list (string * graph) :=
  (RUNTIME +:+ "/lib/", Graph BACKENDS deps []) ::
  match qt with Some q => [(QT_RUNTIME +:+ "/lib/", Graph [QT_CONTROL] (qt_dependencies q) (qt_plugins q))] | None => [] end.

Definition declared_files (deps : list string) (qt : option qt_runtime) : list string :=
  CORE ++ BACKENDS ++ deps ++ [CA_BUNDLE] ++ match qt with Some q => qt_names q | None => [] end.

(** A small accepted runtime: two backends that need one library, and their
    loader *)
Definition ex_backend : bytes :=
  [x7f; x45; x4c; x46; x02; x01; x01] ++ replicate 9 x00
  ++ pack LE [2;2;4;8;8;8;4;2;2;2;2;2;2]%nat [3; 62; 1; 0; 64; 0; 0; 64; 56; 3; 0; 0; 0]
  ++ pack LE [4;4;8;8;8;8;8;8]%nat [1; 4; 0; 0; 0; 370; 370; 4096]
  ++ pack LE [4;4;8;8;8;8;8;8]%nat [3; 4; 232; 232; 232; 29; 29; 1]
  ++ pack LE [4;4;8;8;8;8;8;8]%nat [2; 6; 264; 264; 264; 80; 80; 8]
  ++ fsencode BACKEND_INTERPRETER ++ replicate 4 x00
  ++ pack LE [8;8;8;8;8;8;8;8;8;8]%nat [1; 1; 29; 11; 5; 344; 10; 26; 0; 0] ++ Elf.ex_strings.
Definition ex_T : module := Launcher.ex_module.
Definition ex_ca : bytes :=
  fsencode (str_join newline ["-----BEGIN CERTIFICATE-----"; "MIIB"; "-----END CERTIFICATE-----"; ""]).
Definition ex_files : archive :=
  ((λ a, ("bin/" +:+ a, Launcher.launcher_of ex_T "ld.so.2" "omux.bin" (VStr "release"))) <$> ALIASES)
  ++ [("bin/omuxd", Launcher.launcher_of ex_T "ld.so.2" "omuxd.bin" (VStr "release"));
      ("lib/omux/libexec/omux.bin", ex_backend); ("lib/omux/libexec/omuxd.bin", ex_backend);
      ("lib/omux/lib/ld.so.2", LauncherTemplate.ex_template); ("lib/omux/lib/libc.so.6", LauncherTemplate.ex_template);
      (CA_BUNDLE, ex_ca)].
Definition ex_manifest : value :=
  VDict [("target", VStr "x86_64-linux"); ("channel", VStr "release");
    ("runtime", VDict [("loader", VStr "lib/omux/lib/ld.so.2");
       ("dependencies", VList [VStr "lib/omux/lib/ld.so.2"; VStr "lib/omux/lib/libc.so.6"]);
       ("backendInterpreter", VStr BACKEND_INTERPRETER); ("caBundle", VStr CA_BUNDLE);
       ("launcher", VDict [("abi", VInt 1); ("target", VStr "x86_64-linux"); ("templateSha256", Launcher.SHA256 ex_T)])])].



(** ** Canonical witnesses *)
Record library_ok (l : library) : Prop := {
  lo_name : basename (soname l) = Ok (soname l);
  lo_allowed : soname l ≠ "libc.so.6" ∧ startswith "ld-" (soname l) = false;
  lo_digest : is_sha256_hex (sha256 l) = true;
  lo_variants : 0 < zlen (variants l) <= 128 ∧ forallb is_sha256_hex (variants l) = true ∧
    variants l = sorted_set (variants l) ∧ sha256 l ∈ variants l;
}.

Lemma strings_of_Some l ss : strings_of l = Some ss → l = VStr <$> ss.
Proof.
  unfold strings_of. intros H%mapM_Some_1. induction H as [|v s l ss Hv _ IH]; [done|].
  destruct v; try done. injection Hv as <-. by rewrite IH.
Qed.

Lemma strings_of_str ss : strings_of (VStr <$> ss) = Some ss.
Proof. unfold strings_of. apply mapM_Some_2. induction ss; constructor; done. Qed.

Lemma check_library_Ok checked v checked' :
  check_library checked v = Ok checked' → ∃ l, checked' = checked ++ [l] ∧ library_ok l ∧ soname l ∉ soname <$> checked.
Proof.
  unfold check_library. intros H. apply bind_Ok in H as (? & _ & H).
  apply bind_Ok in H as (sv & _ & H). apply bind_Ok in H as (dv & _ & H).
  destruct sv as [| | | |so| |]; try done. apply bind_Ok in H as (b & Hb & H).
  destruct dv as [| | | |digest| |]; try done. apply bind_Ok in H as (? & H1%raise_if_Ok & H).
  apply bind_Ok in H as (vv & _ & H). destruct vv as [| | | | |l|]; try done.
  destruct (strings_of l) as [vs|] eqn:Hvs; [|done]. apply bind_Ok in H as (? & H2%raise_if_Ok & [= <-]).
  apply strings_of_Some in Hvs as ->. exists (Library so digest vs). rewrite zlen_fmap in H2. ok_inv.
  match goal with H : ¬ b ≠ so |- _ => apply dec_stable in H as -> end.
  match goal with H : ¬ vs ≠ _ |- _ => apply dec_stable in H end.
  split; [done|]. split; [|done]. by split.
Qed.

Lemma check_library_value checked l :
  library_ok l → soname l ∉ soname <$> checked → check_library checked (library_value l) = Ok (checked ++ [l]).
Proof.
  intros [Hn [Ha1 Ha2] Hd (Hv1 & Hv2 & Hv3 & Hv4)] Hnew. destruct l as [so digest vs]. cbn in *.
  set (v := library_value _). unfold check_library.
  change (ensure (match v with VDict d => keys_are _ d | _ => false end) _) with (Ok tt).
  change (getitem v "soname") with (Ok (VStr so)). change (getitem v "sha256") with (Ok (VStr digest)).
  change (getitem v "variants") with (Ok (VList (VStr <$> vs))). cbn [mbind res_bind]. rewrite Hn. cbn [mbind res_bind].
  pass_guard ltac:(first [done | by intros []]). cbn [mbind res_bind]. rewrite strings_of_str.
  pass_guard ltac:(rewrite ?zlen_fmap; first [done | lia | by intros []]). done.
Qed.

Lemma check_libraries_Ok l checked r :
  forM check_library l checked = Ok r → Forall library_ok checked → NoDup (soname <$> checked) →
  Forall library_ok r ∧ NoDup (soname <$> r) ∧ length r = (length checked + length l)%nat.
Proof.
  revert checked. induction l as [|v l IH]; intros checked H Hok Hnd; cbn [forM] in H.
  { injection H as <-. simpl. split_and!; [done|done|lia]. }
  apply bind_Ok in H as (c & (x & -> & Hx & Hnew)%check_library_Ok & H).
  apply IH in H as (? & ? & ->).
  - rewrite length_app. simpl. split_and!; [done|done|lia].
  - apply Forall_app. by rewrite Forall_singleton.
  - rewrite fmap_app. apply NoDup_app. split_and!; [done|set_solver|apply NoDup_singleton].
Qed.

Lemma check_libraries_values l checked :
  Forall library_ok l → NoDup (soname <$> checked ++ l) →
  forM check_library (library_value <$> l) checked = Ok (checked ++ l).
Proof.
  revert checked. induction l as [|x l IH]; intros checked Hok Hnd; cbn [forM fmap list_fmap].
  { by rewrite app_nil_r. }
  apply Forall_cons in Hok as [Hx Hok]. rewrite check_library_value; [|done|].
  - cbn [mbind res_bind]. rewrite (IH (checked ++ [x])); [by rewrite <-(assoc_L (++))|done|].
    by rewrite <-(assoc_L (++)).
  - rewrite fmap_app, fmap_cons in Hnd. apply NoDup_app in Hnd as (_ & Hd & _). set_solver.
Qed.

Lemma sort_sorted (l : list library) :
  NoDup (soname <$> l) → merge_sort soname_le (merge_sort soname_le l) = merge_sort soname_le l.
Proof.
  intros Hnd. assert (Transitive soname_le) by (intros a b c; unfold soname_le; apply transitivity).
  assert (Total soname_le) by (intros a b; apply String.le_total).
  apply (Sorted_unique_strong soname_le); [|by apply Sorted_merge_sort..|by rewrite merge_sort_Permutation].
  intros x1 x2 H1 H2 Hle1 Hle2. rewrite !merge_sort_Permutation in H1. rewrite merge_sort_Permutation in H2.
  assert (soname x1 = soname x2) as He by (by apply (anti_symm String.le)).
  apply list_elem_of_lookup in H1 as [i1 Hi1], H2 as [i2 Hi2].
  assert (i1 = i2) as ->; [|congruence]. eapply NoDup_lookup; [exact Hnd|by rewrite list_lookup_fmap, Hi1|].
  by rewrite list_lookup_fmap, Hi2, He.
Qed.

Lemma validate_witness_Ok v target w :
  validate_resolution_witness v target = Ok w →
  ∃ control libs, w = witness_value target control (merge_sort soname_le libs) ∧ is_sha256_hex control = true ∧
    Forall library_ok libs ∧ NoDup (soname <$> libs) ∧ 0 < zlen libs <= 128.
Proof.
  unfold validate_resolution_witness. intros H. skip_steps 4 in H. apply bind_Ok in H as (cv & _ & H).
  apply bind_Ok in H as (control & Hc & H). apply bind_Ok in H as (lv & _ & H). destruct lv as [| | | | |l|]; try done.
  apply bind_Ok in H as (? & Hl%ensure_Ok & H). apply bind_Ok in H as (checked & Hch & [= <-]).
  apply check_libraries_Ok in Hch as (? & ? & Hlen); [|constructor..]. apply bool_decide_eq_true in Hl.
  exists control, checked. split_and!; [done| |done|done|unfold zlen in *; simpl in *; lia..].
  destruct cv; try done. destruct (_ && _) eqn:E; [|done]. injection Hc as <-. ok_inv. done.
Qed.

(** C18: validation puts a resolution witness in canonical form: the result has
    its libraries in strictly increasing order of name, none of them the C
    library or a loader, each with the digest among its sorted variants; and
    validating the result again changes nothing. *)
Theorem witness_canonical v target w (Hrun : validate_resolution_witness v target = Ok w) :
  validate_resolution_witness w target = Ok w ∧
  ∃ control libs, w = witness_value target control libs ∧ is_sha256_hex control = true ∧
    Sorted soname_le libs ∧ NoDup (soname <$> libs) ∧ Forall library_ok libs.
Proof.
  apply validate_witness_Ok in Hrun as (control & libs & -> & Hc & Hok & Hnd & Hlen).
  assert (Forall library_ok (merge_sort soname_le libs)) as Hok' by (by rewrite merge_sort_Permutation).
  assert (NoDup (soname <$> merge_sort soname_le libs)) as Hnd' by (by rewrite merge_sort_Permutation).
  split.
  - set (v' := witness_value _ _ _). unfold validate_resolution_witness.
    change (ensure (match v' with VDict d => keys_are _ d | _ => false end) _) with (Ok tt).
    change (getitem v' "schemaVersion") with (Ok (VInt 1)). change (getitem v' "scope") with (Ok (VStr WITNESS_SCOPE)).
    change (getitem v' "target") with (Ok (VStr target)). change (getitem v' "controlSha256") with (Ok (VStr control)).
    change (getitem v' "libraries") with (Ok (VList (library_value <$> merge_sort soname_le libs))).
    cbn [mbind res_bind]. rewrite Hc. change (is_int (VInt 1)) with true.
    rewrite (proj2 (py_eq_str (VStr WITNESS_SCOPE) _)), (proj2 (py_eq_str (VStr target) _)) by done.
    change (py_eq (VInt 1) (VInt 1)) with true. cbn [andb mbind res_bind].
    rewrite bool_decide_true; [|by rewrite zlen_fmap; unfold zlen in *; rewrite merge_sort_Permutation].
    cbn [ensure mbind res_bind]. rewrite (check_libraries_values _ []) by done. cbn [mbind res_bind app].
    by rewrite sort_sorted.
  - exists control, (merge_sort soname_le libs). split_and!; [done|done| |done|done].
    apply Sorted_merge_sort. intros a b. apply String.le_total.
Qed.

Definition ex_hex (c : ascii) : string := String.string_of_list_ascii (replicate 64 c).
Definition ex_library : library := Library "libQt6Core.so.6" (ex_hex "b") [ex_hex "a"; ex_hex "b"].

Lemma witness_canonical_witness :
  validate_resolution_witness (witness_value "x86_64-linux" (ex_hex "0") [ex_library]) "x86_64-linux" =
  Ok (witness_value "x86_64-linux" (ex_hex "0") [ex_library]).
Proof.
  apply (witness_canonical (witness_value "x86_64-linux" (ex_hex "0") [ex_library])). vm_compute. done.
Defined.
End PortableRuntime.
