(* ===== verification/Effect.v ===== *)
(** * Effectful code: a state and exception monad with a trace

    The supervision code calls functions it is given: a clock, a sleep, a
    readback, a stop.  A computation [M W E A] runs in a world [W] that those
    functions act on, may raise, and logs the calls that matter as events [E].
    [hoare] is the program logic of the monad: its assertions speak of the
    state of a monitor, an automaton that reads the trace and refuses a trace
    that breaks the protocol it encodes. *)
From S2P Require Import Prelude.

Record world (W E : Type) := World { env : W; trace : list E }.
Arguments World {W E} env trace.
Arguments env {W E} _.
Arguments trace {W E} _.

Definition M (W E A : Type) : Type := world W E → res A * world W E.

#[export] Instance M_ret {W E} : MRet (M W E) := λ A a st, (Ok a, st).
#[export] Instance M_bind {W E} : MBind (M W E) := λ A B k m st,
  match m st with (Ok a, st) => k a st | (Err e, st) => (Err e, st) end.

Definition throw {W E A} (e : exn) : M W E A := λ st, (Err e, st).

Lemma run_bind {W E A B} (m : M W E A) (k : A → M W E B) st a st' : m st = (Ok a, st') → (m ≫= k) st = k a st'.
Proof. unfold mbind, M_bind. by intros ->. Qed.

(** A computation without effects *)
Definition embed {W E A} (r : res A) : M W E A := λ st, (r, st).

(** [try: m except (...): h], [caught] deciding which exceptions are caught *)
Definition try_except {W E A} (caught : exn → bool) (m : M W E A) (h : M W E A) : M W E A := λ st,
  match m st with
  | (Err e, st) => if caught e then h st else (Err e, st)
  | r => r
  end.

(** [try: a = m except (...): ...] where the two ways continue differently *)
Definition attempt {W E A} (caught : exn → bool) (m : M W E A) : M W E (option A) :=
  try_except caught (a ← m; mret (Some a)) (mret None).

(** [try: m except caught as e: h(e)] *)
Definition catching {W E A} (caught : exn → bool) (m : M W E A) (h : exn → M W E A) : M W E A := λ st,
  match m st with
  | (Err e, st) => if caught e then h e st else (Err e, st)
  | r => r
  end.

(** [try: m finally: f] where [f] returns nothing *)
Definition finally {W E A} (m : M W E A) (f : M W E unit) : M W E A := λ st,
  let '(r, st) := m st in match f st with (Ok _, st) => (r, st) | (Err e, st) => (Err e, st) end.

(** A call of a given function; [log] records it with its outcome. *)
Definition call {W E A} (f : W → res A * W) (log : res A → list E) : M W E A := λ st,
  let '(r, w) := f (env st) in (r, World w (trace st ++ log r)).

Section Logic.
Context {W E S : Type} (mstep : S → E → option S) (minit : S).

(** The state of the monitor after a trace; [None] once it has refused it. *)
Definition steps (s : S) (tr : list E) : option S := foldl (λ o e, o ≫= λ s, mstep s e) (Some s) tr.

Lemma steps_nil s : steps s [] = Some s.
Proof. done. Qed.

Lemma steps_app s tr1 tr2 : steps s (tr1 ++ tr2) = steps s tr1 ≫= λ s, steps s tr2.
Proof.
  unfold steps. rewrite foldl_app. destruct (foldl _ (Some s) tr1) as [s'|]; [done|]. simpl.
  induction tr2; [done|]. simpl. done.
Qed.

(** From a state where [P] holds of the monitor and the environment, a run of
    [m] keeps the monitor alive and ends in [Q]. *)
Definition hoare {A} (P : S → W → Prop) (m : M W E A) (Q : res A → S → W → Prop) : Prop :=
  ∀ st s, steps minit (trace st) = Some s → P s (env st) →
  ∀ r st', m st = (r, st') → ∃ s', steps minit (trace st') = Some s' ∧ Q r s' (env st').

Lemma hoare_ret {A} (a : A) (P : S → W → Prop) (Q : res A → S → W → Prop) :
  (∀ s w, P s w → Q (Ok a) s w) → hoare P (mret a) Q.
Proof. intros H st s Hs HP r st' [= <- <-]. eauto. Qed.

Lemma hoare_throw {A} e (P : S → W → Prop) (Q : res A → S → W → Prop) :
  (∀ s w, P s w → Q (Err e) s w) → hoare P (throw e) Q.
Proof. intros H st s Hs HP r st' [= <- <-]. eauto. Qed.

Lemma hoare_bind {A B} (m : M W E A) (k : A → M W E B) P (R : A → S → W → Prop) (Q : res B → S → W → Prop) :
  hoare P m (λ r s w, match r with Ok a => R a s w | Err e => Q (Err e) s w end) →
  (∀ a, hoare (R a) (k a) Q) → hoare P (m ≫= k) Q.
Proof.
  intros Hm Hk st s Hs HP r st' Hr. unfold mbind, M_bind in Hr. destruct (m st) as [[a|e] st1] eqn:E1.
  - destruct (Hm _ _ Hs HP _ _ E1) as (s1 & Hs1 & HR). by eapply Hk.
  - injection Hr as <- <-. apply (Hm _ _ Hs HP _ _ E1).
Qed.

Lemma hoare_try {A} (caught : exn → bool) (m h : M W E A) P (R : S → W → Prop) (Q : res A → S → W → Prop) :
  hoare P m (λ r s w, match r with
    | Err e => if caught e then R s w else Q (Err e) s w
    | Ok a => Q (Ok a) s w end) →
  hoare R h Q → hoare P (try_except caught m h) Q.
Proof.
  intros Hm Hh st s Hs HP r st' Hr. unfold try_except in Hr. destruct (m st) as [[a|e] st1] eqn:E1.
  - injection Hr as <- <-. apply (Hm _ _ Hs HP _ _ E1).
  - destruct (Hm _ _ Hs HP _ _ E1) as (s1 & Hs1 & HR). destruct (caught e); [by eapply Hh|].
    injection Hr as <- <-. eauto.
Qed.

Lemma hoare_call {A} (f : W → res A * W) log P (Q : res A → S → W → Prop) :
  (∀ s w r w', P s w → f w = (r, w') → ∃ s', steps s (log r) = Some s' ∧ Q r s' w') → hoare P (call f log) Q.
Proof.
  intros H st s Hs HP r st' Hr. unfold call in Hr. destruct (f (env st)) as [r1 w1] eqn:Ef. injection Hr as <- <-.
  destruct (H _ _ _ _ HP Ef) as (s' & Hs' & HQ). exists s'. cbn [trace env]. rewrite steps_app, Hs. done.
Qed.

Lemma hoare_conseq {A} (m : M W E A) (P P' : S → W → Prop) (Q Q' : res A → S → W → Prop) :
  hoare P' m Q' → (∀ s w, P s w → P' s w) → (∀ r s w, Q' r s w → Q r s w) → hoare P m Q.
Proof. intros Hm HP HQ st s Hs Hp r st' Hr. destruct (Hm _ _ Hs (HP _ _ Hp) _ _ Hr) as (s' & ? & ?). eauto. Qed.

Lemma hoare_pure {A} (m : M W E A) (φ : Prop) (P : S → W → Prop) (Q : res A → S → W → Prop) :
  (φ → hoare P m Q) → hoare (λ s w, φ ∧ P s w) m Q.
Proof. intros H st s Hs [Hφ HP]. exact (H Hφ st s Hs HP). Qed.

Lemma hoare_attempt {A} (caught : exn → bool) (m : M W E A) P (Q : res (option A) → S → W → Prop) :
  hoare P m (λ r s w, match r with
    | Err e => if caught e then Q (Ok None) s w else Q (Err e) s w
    | Ok a => Q (Ok (Some a)) s w end) →
  hoare P (attempt caught m) Q.
Proof.
  intros Hm. unfold attempt. apply (hoare_try _ _ _ _ (Q (Ok None))); [|by apply hoare_ret].
  eapply (hoare_bind _ _ _ (λ a, Q (Ok (Some a)))); [|by intros a; apply hoare_ret].
  eapply hoare_conseq; [exact Hm|done|]. intros [a|e] s w; [done|]. by destruct (caught e).
Qed.
End Logic.

(** ** Invariants of the world and the trace together *)
Section Keeps.
Context {W E : Type} (I : world W E → Prop).

Definition keeps {A} (m : M W E A) : Prop := ∀ st, I st → I (m st).2.

Lemma keeps_ret {A} (a : A) : keeps (mret a).
Proof. by intros st. Qed.
Lemma keeps_throw {A} e : keeps (throw (A := A) e).
Proof. by intros st. Qed.
Lemma keeps_bind {A B} (m : M W E A) (k : A → M W E B) : keeps m → (∀ a, keeps (k a)) → keeps (m ≫= k).
Proof.
  intros Hm Hk st Hst. specialize (Hm st Hst). unfold mbind, M_bind. destruct (m st) as [[a|e] st1]; [by apply Hk|done].
Qed.
Lemma keeps_try {A} caught (m h : M W E A) : keeps m → keeps h → keeps (try_except caught m h).
Proof.
  intros Hm Hh st Hst. specialize (Hm st Hst). unfold try_except. destruct (m st) as [[a|e] st1]; [done|].
  destruct (caught e); [by apply Hh|done].
Qed.
Lemma keeps_catching {A} caught (m : M W E A) h : keeps m → (∀ e, keeps (h e)) → keeps (catching caught m h).
Proof.
  intros Hm Hh st Hst. specialize (Hm st Hst). unfold catching. destruct (m st) as [[a|e] st1]; [done|].
  destruct (caught e); [by apply Hh|done].
Qed.
Lemma keeps_finally {A} (m : M W E A) f : keeps m → keeps f → keeps (finally m f).
Proof.
  intros Hm Hf st Hst. specialize (Hm st Hst). unfold finally. destruct (m st) as [r st1].
  specialize (Hf st1 Hm). by destruct (f st1) as [[]].
Qed.
Lemma keeps_embed {A} (r : res A) : keeps (embed r).
Proof. by intros st. Qed.
Lemma keeps_attempt {A} caught (m : M W E A) : keeps m → keeps (attempt caught m).
Proof. intros Hm. apply keeps_try; [|apply keeps_ret]. apply keeps_bind; [done|]. intros. apply keeps_ret. Qed.
Lemma keeps_call {A} (f : W → res A * W) log :
  (∀ w tr r w', I (World w tr) → f w = (r, w') → I (World w' (tr ++ log r))) → keeps (call f log).
Proof.
  intros Hf [w tr] Hst. unfold call. cbn. destruct (f w) as [r w'] eqn:E1. cbn. eauto.
Qed.
End Keeps.

Ltac keeps_step :=
  match goal with
  | |- keeps _ (mret _) => apply keeps_ret
  | |- keeps _ (throw _) => apply keeps_throw
  | |- keeps _ (_ ≫= _) => apply keeps_bind; [|intros ?]
  | |- keeps _ (try_except _ _ _) => apply keeps_try
  | |- keeps _ (attempt _ _) => apply keeps_attempt
  | |- keeps _ (catching _ _ _) => apply keeps_catching; [|intros ?]
  | |- keeps _ (finally _ _) => apply keeps_finally
  | |- keeps _ (embed _) => apply keeps_embed
  | |- keeps _ (match ?x with _ => _ end) => destruct x
  | |- keeps _ _ => solve [eauto with omux]
  end.
Ltac solve_keeps := repeat keeps_step.

(** ** Loops, and what every successful or failing run satisfies *)
(** A [for] loop that threads the locals [s] *)
Fixpoint forE {W E A S} (f : S → A → M W E S) (l : list A) (s : S) : M W E S :=
  match l with [] => mret s | x :: l => s' ← f s x; forE f l s' end.

(** [returns m P]: every value [m] returns satisfies [P].
    [throws P m]: every exception [m] raises satisfies [P]. *)
Definition returns {W E A} (m : M W E A) (P : A → Prop) : Prop := ∀ st a st', m st = (Ok a, st') → P a.
Definition throws {W E A} (P : exn → Prop) (m : M W E A) : Prop := ∀ st e st', m st = (Err e, st') → P e.

Section Returns.
Context {W E : Type}.

Lemma returns_ret {A} (a : A) (P : A → Prop) : P a → returns (W := W) (E := E) (mret a) P.
Proof. by intros HP st b st' [= <- <-]. Qed.
Lemma returns_throw {A} e (P : A → Prop) : returns (W := W) (E := E) (throw e) P.
Proof. by intros st a st' [=]. Qed.
Lemma returns_embed {A} (r : res A) (P : A → Prop) : (∀ a, r = Ok a → P a) → returns (W := W) (E := E) (embed r) P.
Proof. intros HP st a st' [= -> _]. by apply HP. Qed.
Lemma returns_bind {A B} (m : M W E A) (k : A → M W E B) P Q :
  returns m P → (∀ a, P a → returns (k a) Q) → returns (m ≫= k) Q.
Proof.
  intros Hm Hk st b st' H. unfold mbind, M_bind in H. destruct (m st) as [[a|e] st1] eqn:E1; [|done].
  by apply (Hk a (Hm _ _ _ E1) st1 b st').
Qed.
Lemma returns_conseq {A} (m : M W E A) (P Q : A → Prop) : returns m P → (∀ a, P a → Q a) → returns m Q.
Proof. intros Hm HPQ st a st' H. eapply HPQ, Hm, H. Qed.
Lemma returns_any {A} (m : M W E A) : returns m (λ _, True).
Proof. by intros st a st' _. Qed.
(** A step whose value does not matter *)
Lemma returns_skip {A B} (m : M W E A) (k : A → M W E B) Q : (∀ a, returns (k a) Q) → returns (m ≫= k) Q.
Proof. intros Hk. eapply returns_bind; [apply returns_any|]. auto. Qed.
Lemma returns_catching {A} caught (m : M W E A) h P : returns m P → (∀ e, returns (h e) P) → returns (catching caught m h) P.
Proof.
  intros Hm Hh st a st' H. unfold catching in H. destruct (m st) as [[b|e] st1] eqn:E1; [eapply Hm; by rewrite E1|].
  destruct (caught e); [by eapply Hh|done].
Qed.
Lemma returns_finally {A} (m : M W E A) f P : returns m P → returns (finally m f) P.
Proof.
  intros Hm st a st' H. unfold finally in H. destruct (m st) as [r st1] eqn:E1. destruct (f st1) as [[] st2]; [|done].
  injection H as -> ->. by eapply Hm.
Qed.
(** The loop rule: [P done s] holds of the elements done so far. *)
Lemma returns_for {A S} (f : S → A → M W E S) (P : list A → S → Prop) l s :
  P [] s → (∀ done x s1, P done s1 → x ∈ l → returns (f s1 x) (P (done ++ [x]))) → returns (forE f l s) (P l).
Proof.
  intros H0 Hstep. assert (∀ d l' s1, P d s1 → d ++ l' = l → returns (forE f l' s1) (P l)) as Hgen; [|by apply (Hgen [])].
  intros d l'. revert d. induction l' as [|x l' IH]; intros d s1 Hd Hl; cbn [forE].
  - apply returns_ret. by rewrite <-Hl, app_nil_r.
  - eapply returns_bind; [apply Hstep; [done|]|].
    { rewrite <-Hl, elem_of_app, elem_of_cons. tauto. }
    intros s2 Hs2. eapply IH; [done|]. by rewrite <-(assoc_L (++)).
Qed.

Context (P : exn → Prop).
Lemma throws_ret {A} (a : A) : throws (W := W) (E := E) P (mret a).
Proof. by intros st e st' [=]. Qed.
Lemma throws_throw {A} e : P e → throws (W := W) (E := E) P (throw (A := A) e).
Proof. by intros HP st e' st' [= <- _]. Qed.
Lemma throws_embed {A} (r : res A) : raises P r → throws (W := W) (E := E) P (embed r).
Proof. intros HP st e st' [= -> _]. by apply HP. Qed.
Lemma throws_bind {A B} (m : M W E A) (k : A → M W E B) : throws P m → (∀ a, throws P (k a)) → throws P (m ≫= k).
Proof.
  intros Hm Hk st e st' H. unfold mbind, M_bind in H. destruct (m st) as [[a|e1] st1] eqn:E1; [by eapply Hk|].
  injection H as <- _. by eapply Hm.
Qed.
(** The continuation may use what the first step returned. *)
Lemma throws_bind_returns {A B} (m : M W E A) (k : A → M W E B) Q :
  throws P m → returns m Q → (∀ a, Q a → throws P (k a)) → throws P (m ≫= k).
Proof.
  intros Hm HQ Hk st e st' H. unfold mbind, M_bind in H. destruct (m st) as [[a|e1] st1] eqn:E1; [by eapply Hk, H; eapply HQ|].
  injection H as <- _. by eapply Hm.
Qed.
Lemma throws_for {A S} (f : S → A → M W E S) l s : (∀ s x, x ∈ l → throws P (f s x)) → throws P (forE f l s).
Proof.
  revert s. induction l as [|x l IH]; intros s Hf; cbn [forE]; [apply throws_ret|].
  apply throws_bind; [apply Hf; constructor|]. intros s'. apply IH. intros s1 y Hy. apply Hf. by constructor.
Qed.
End Returns.

Ltac throws_step :=
  match goal with
  | |- throws _ (mret _) => apply throws_ret
  | |- throws _ (throw _) => apply throws_throw; done
  | |- throws _ (embed _) => apply throws_embed; solve_raises
  | |- throws _ (_ ≫= _) => apply throws_bind; [|intros ?]
  | |- throws _ (forE _ _ _) => apply throws_for; intros ???
  | |- throws _ (match ?x with _ => _ end) => destruct x
  | |- throws _ _ => solve [eauto with omux]
  end.
Ltac solve_throws := repeat throws_step.
