(* ===== verification/Cleanup.v ===== *)
(** * tools/execution_guard.py: owned cleanup

    [cleanup_owned] drives functions it is given: a
    clock, a sleep, a readback, an authorization, a stop and an observation of
    the control group.  Here they are the record [ops] over a world [W] that
    the code cannot see; times are in milliseconds.  Each call of [readback],
    [authorize], [stop] and [observe] is logged. *)
From S2P Require Import Prelude PyBytes PyString Effect.
Local Open Scope Z_scope.

Module Cleanup.

Definition CONTROLLER_TIMEOUT : Z := 15000.
Definition CLEANUP_READ_SECONDS : Z := 2000.

(** [OSError] with its subclass [FileNotFoundError]; [ValueError] with its
    subclass [UnicodeError] *)
Definition is_os (e : exn) : bool := match e with OSError | FileNotFoundError | Errno _ => true | _ => false end.
Definition is_value (e : exn) : bool := match e with ValueError _ | UnicodeError => true | _ => false end.
Definition is_sub (e : exn) : bool := match e with SubprocessError => true | _ => false end.

Record ops (W A : Type) := Ops {
  clock : W → Z * W;
  pause : Z → W → W;
  observe : W → res string * W;
  readback : Z → Z → W → res A * W;
  authorize : A → W → res bool * W;
  stop : Z → Z → W → res unit * W;
}.
Arguments clock {W A} _ _.
Arguments pause {W A} _ _ _.
Arguments observe {W A} _ _.
Arguments readback {W A} _ _ _ _.
Arguments authorize {W A} _ _ _.
Arguments stop {W A} _ _ _ _.

Inductive event (A : Type) :=
  | EObserve (r : res string)
  | EReadback (r : res A)
  | EAuthorize (actual : A) (r : res bool)
  | EStop (r : res unit).
Arguments EObserve {A} r.
Arguments EReadback {A} r.
Arguments EAuthorize {A} actual r.
Arguments EStop {A} r.

Record summary := Summary { s_state : string; s_stop : string; s_ownership : string; s_attempts : nat }.
Definition with_state (x : string) (s : summary) : summary := Summary x (s_stop s) (s_ownership s) (s_attempts s).
Definition with_stop (x : string) (s : summary) : summary := Summary (s_state s) x (s_ownership s) (s_attempts s).
Definition with_ownership (x : string) (s : summary) : summary := Summary (s_state s) (s_stop s) x (s_attempts s).
Definition attempted (s : summary) : summary := Summary (s_state s) (s_stop s) (s_ownership s) (S (s_attempts s)).

(** How the first loop ends: [return summary] or on to the second loop *)
Inductive flow := Return | Break.

Section Program.
Context {W A : Type} (o : ops W A) (deadline : Z).
#[local] Abbreviation prog := (M W (event A)).

Definition do_clock : prog Z := call (λ w, let '(t, w) := clock o w in (Ok t, w)) (λ _, []).
Definition do_pause (d : Z) : prog unit := call (λ w, (Ok tt, pause o d w)) (λ _, []).
Definition do_observe : prog string := call (observe o) (λ r, [EObserve r]).
Definition do_readback (timeout : Z) : prog A := call (readback o timeout deadline) (λ r, [EReadback r]).
Definition do_authorize (actual : A) : prog bool := call (authorize o actual) (λ r, [EAuthorize actual r]).
Definition do_stop (timeout : Z) : prog unit := call (stop o timeout deadline) (λ r, [EStop r]).

Definition observation : prog string := try_except (λ e, is_os e || is_value e) do_observe (mret "unproved").

(** [terminal] sets the state of the summary, a closure variable, when it
    returns true. *)
Definition terminal (s : summary) (state : string) : prog (bool * summary) :=
  t ← do_clock;
  if bool_decide (t >= deadline) then mret (true, with_state "deadline-exhausted" s)
  else if bool_decide (state ∈ ["empty"; "absent"]) then mret (true, with_state "empty" s)
  else if bool_decide (state ∈ ["changed"; "unproved"]) then mret (true, with_state ("original-" +:+ state) s)
  else mret (false, s).

Definition nap : prog unit :=
  t ← do_clock;
  if bool_decide (deadline - t > 0) then do_pause (Z.min 100 (deadline - t)) else mret tt.

(** The stop after an authorization *)
Definition stop_once (s : summary) : prog (flow * summary) :=
  t ← do_clock;
  if bool_decide (t >= deadline) then mret (Break, s) else
  state ← observation;
  '(over, s) ← terminal s state;
  if (over : bool) then mret (Return, s) else
  t ← do_clock;
  let remaining := deadline - t in
  if bool_decide (remaining <= 100) then mret (Break, s) else
  let s := with_stop "unresolved" s in
  r ← attempt (λ e, is_os e || is_value e || is_sub e) (do_stop (Z.min CONTROLLER_TIMEOUT (remaining - 100)));
  match r with
  | Some _ => mret (Break, with_stop "succeeded" s)
  | None => mret (Break, s)
  end.

(** The first loop; [budget] is [8 - readback_attempts], since every iteration
    that comes back to the head of the loop has made an attempt. *)
Fixpoint attempts_loop (budget : nat) (s : summary) : prog (flow * summary) :=
  t ← do_clock;
  if negb (bool_decide (t < deadline)) then mret (Break, s) else
  match budget with
  | O => mret (Break, s)
  | S budget =>
      state ← observation;
      '(over, s) ← terminal s state;
      if (over : bool) then mret (Return, s) else
      t ← do_clock;
      let remaining := deadline - t in
      if bool_decide (remaining <= 0) then mret (Break, s) else
      let s := attempted s in
      r ← attempt (λ e, is_os e || is_sub e) (do_readback (Z.min CLEANUP_READ_SECONDS remaining));
      match r with
      | None => _ ← nap; attempts_loop budget s
      | Some actual =>
          t ← do_clock;
          if bool_decide (t >= deadline) then mret (Break, s) else
          a ← attempt (λ e, is_os e || is_value e) (do_authorize actual);
          match a with
          | None => mret (Break, with_ownership "refused" s)
          | Some false => attempts_loop budget s
          | Some true => stop_once (with_ownership "verified" s)
          end
      end
  end.

(** The second loop *)
Fixpoint settle_loop (fuel : nat) (s : summary) : prog summary :=
  t ← do_clock;
  if negb (bool_decide (t < deadline)) then mret (with_state "deadline-exhausted" s) else
  match fuel with
  | O => throw NoFuel
  | S fuel =>
      state ← observation;
      '(over, s) ← terminal s state;
      if (over : bool) then mret s else
      _ ← nap; settle_loop fuel s
  end.

Definition cleanup_owned (fuel : nat) : prog summary :=
  '(f, s) ← attempts_loop 8 (Summary "unproved" "not-requested" "unproved" 0);
  match f with
  | Return => mret s
  | Break => settle_loop fuel s
  end.
End Program.

(** ** The protocol

    An automaton that reads the log: at most eight readbacks, none after the
    stop; an authorization decides on the latest readback and each readback
    cancels the one before; one stop, and only while authorized. *)
Record mstate (A : Type) := MState {
  m_reads : nat;
  m_fresh : option A;
  m_auth : bool;
  m_stopped : bool;
  m_last : option (res string);
}.
Arguments MState {A} _ _ _ _ _.
Arguments m_reads {A} _.
Arguments m_fresh {A} _.
Arguments m_auth {A} _.
Arguments m_stopped {A} _.
Arguments m_last {A} _.

Definition mstep {A} `{EqDecision A} (s : mstate A) (e : event A) : option (mstate A) :=
  match e with
  | EObserve r => Some (MState (m_reads s) (m_fresh s) (m_auth s) (m_stopped s) (Some r))
  | EReadback r =>
      if bool_decide (m_reads s < 8)%nat && negb (m_stopped s)
      then Some (MState (S (m_reads s)) (match r with Ok a => Some a | Err _ => None end) false false (m_last s))
      else None
  | EAuthorize a r =>
      if bool_decide (m_fresh s = Some a)
      then Some (MState (m_reads s) (m_fresh s) (bool_decide (r = Ok true)) (m_stopped s) (m_last s)) else None
  | EStop _ =>
      if m_auth s && negb (m_stopped s)
      then Some (MState (m_reads s) (m_fresh s) false true (m_last s)) else None
  end.

Definition minit {A} : mstate A := MState 0 None false false None.

Section Protocol.
Context {W A : Type} `{EqDecision A} (o : ops W A) (deadline : Z).
#[local] Abbreviation hoare := (hoare (W := W) (mstep (A := A)) minit).

(** The summary reports the protocol state. *)
Record reports (s : summary) (m : mstate A) : Prop := {
  r_attempts : m_reads m = s_attempts s;
  r_bound : (s_attempts s <= 8)%nat;
  r_stop : s_stop s = "not-requested" ∧ m_stopped m = false ∨
    (s_stop s = "succeeded" ∨ s_stop s = "unresolved") ∧ m_stopped m = true ∧ s_ownership s = "verified";
}.

(** A final state is justified by the last observation. *)
Definition justified (s : summary) (m : mstate A) : Prop :=
  s_state s = "empty" ∧ (m_last m = Some (Ok "empty") ∨ m_last m = Some (Ok "absent")) ∨
  s_state s = "original-changed" ∧ m_last m = Some (Ok "changed") ∨
  s_state s = "original-unproved" ∧ (m_last m = Some (Ok "unproved") ∨ ∃ e, m_last m = Some (Err e)) ∨
  s_state s = "deadline-exhausted".

(** Assertions on the protocol state alone *)
#[local] Abbreviation on P := (λ m (_ : W), P m).

Lemma clock_spec (P : mstate A → Prop) : hoare (on P) (do_clock o) (λ r m _, match r with Ok _ => P m | Err _ => False end).
Proof.
  apply hoare_call. intros m w r w' HP Hc. destruct (clock o w) as [t w1]. injection Hc as <- <-. by exists m.
Qed.

Lemma clock_bind {B} (P : mstate A → Prop) (k : Z → M W (event A) B) Q :
  (∀ t, hoare (on P) (k t) Q) → hoare (on P) (do_clock o ≫= k) Q.
Proof.
  intros Hk. apply (hoare_bind _ _ _ _ _ (λ _, on P)); [|exact Hk].
  eapply hoare_conseq; [apply (clock_spec P)|done|]. by intros [] ??.
Qed.

Lemma nap_bind {B} (P : mstate A → Prop) (k : unit → M W (event A) B) Q :
  hoare (on P) (k tt) Q → hoare (on P) (nap o deadline ≫= k) Q.
Proof.
  intros Hk. apply (hoare_bind _ _ _ _ _ (λ _, on P)); [|by intros []].
  unfold nap. apply clock_bind. intros t. case_bool_decide; [|by apply hoare_ret].
  apply hoare_call. intros m w r w' HP [= <- <-]. by exists m.
Qed.

Definition with_last (m : mstate A) (x : res string) : mstate A :=
  MState (m_reads m) (m_fresh m) (m_auth m) (m_stopped m) (Some x).
Definition observed (x : res string) (state : string) : Prop := x = Ok state ∨ state = "unproved" ∧ ∃ e, x = Err e.

Lemma observation_bind {B} (P : mstate A → Prop) (k : string → M W (event A) B) (Q : res B → mstate A → W → Prop) :
  (∀ state, hoare (on (λ m, ∃ m0 x, P m0 ∧ m = with_last m0 x ∧ observed x state)) (k state) Q) →
  (∀ e m w, Q (Err e) m w) → hoare (on P) (observation o ≫= k) Q.
Proof.
  intros Hk HE. apply (hoare_bind _ _ _ _ _ (λ state, on (λ m, ∃ m0 x, P m0 ∧ m = with_last m0 x ∧ observed x state)));
    [|exact Hk].
  unfold observation. apply (hoare_try _ _ _ _ _ _ (on (λ m, ∃ m0 e, P m0 ∧ m = with_last m0 (Err e)))).
  - apply hoare_call. intros m w r w' HP _. exists (with_last m r). split; [done|]. destruct r as [st|e].
    + exists m, (Ok st). split_and!; [done|done|by left].
    + destruct (_ || _); [by exists m, e|apply HE].
  - apply hoare_ret. intros m w (m0 & e & HP & ->). exists m0, (Err e). split_and!; [done|done|right; eauto].
Qed.

(** The summary after [terminal] returned true *)
Definition settled (s s' : summary) (state : string) : Prop :=
  ∃ y, s' = with_state y s ∧
    (y = "deadline-exhausted" ∨ y = "empty" ∧ (state = "empty" ∨ state = "absent") ∨
     y = "original-changed" ∧ state = "changed" ∨ y = "original-unproved" ∧ state = "unproved").

Lemma terminal_bind {B} (P : mstate A → Prop) s state (k : bool * summary → M W (event A) B) Q :
  (∀ s', settled s s' state → hoare (on P) (k (true, s')) Q) → hoare (on P) (k (false, s)) Q →
  hoare (on P) (terminal o deadline s state ≫= k) Q.
Proof.
  intros Ht Hf. apply (hoare_bind _ _ _ _ _ (λ p, on (λ m, P m ∧ (p.1 = true ∧ settled s p.2 state ∨ p = (false, s))))).
  - unfold terminal. apply clock_bind. intros t.
    destruct (bool_decide (t >= deadline)); [apply hoare_ret; intros m w HP; split; [done|left; split; [done|]]; eexists; eauto|].
    case_bool_decide as H1; [apply hoare_ret; intros m w HP; split; [done|left; split; [done|]]; eexists; split; [done|set_solver]|].
    case_bool_decide as H2.
    + apply hoare_ret. intros m w HP. split; [done|]. left. split; [done|]. eexists. split; [done|].
      apply elem_of_cons in H2 as [->|H2]; [tauto|]. apply list_elem_of_singleton in H2 as ->. tauto.
    + apply hoare_ret. intros m w HP. split; [done|by right].
  - intros [b s']. intros st m Hst (HP & [[Hb Hs]|[= -> ->]]) r st' Hr; [|by eapply Hf].
    cbn in Hb, Hs. subst b. by eapply Ht.
Qed.

Lemma justify s s' state m0 x : settled s s' state → observed x state → justified s' (with_last m0 x).
Proof.
  unfold settled, observed, justified, with_last. cbn.
  intros (y & -> & [->|[(-> & [->| ->])|[(-> & ->)|(-> & ->)]]]) [->|[? [e ->]]]; simplify_eq/=; eauto 10.
Qed.

Lemma reports_state s y m : reports s m → reports (with_state y s) m.
Proof. intros [H1 H2 H3]. by split. Qed.

Lemma reports_last s m x : reports s m → reports s (with_last m x).
Proof. intros [H1 H2 H3]. by split. Qed.

Lemma reports_settled s s' state m0 x :
  reports s m0 → settled s s' state → reports s' (with_last m0 x).
Proof. intros H (y & -> & _). by apply reports_last, reports_state. Qed.

(** Before the stop: the summary reports the protocol and no stop was made. *)
Definition pending (s : summary) (m : mstate A) : Prop := reports s m ∧ s_stop s = "not-requested" ∧ m_stopped m = false.

Definition loop_post (r : res (flow * summary)) (m : mstate A) (w : W) : Prop :=
  match r with Ok (f, s) => reports s m ∧ (f = Return → justified s m) | Err _ => True end.

Lemma pending_last s m x : pending s m → pending s (with_last m x).
Proof. intros (? & ? & ?). split; [by apply reports_last|done]. Qed.

Lemma stop_once_spec s :
  s_ownership s = "verified" → hoare (on (λ m, pending s m ∧ m_auth m = true)) (stop_once o deadline s) loop_post.
Proof.
  intros Hown. unfold stop_once. apply clock_bind. intros t.
  destruct (bool_decide _); [apply hoare_ret; intros m w ((Hr & _) & _); by split|].
  apply observation_bind; [|done]. intros state. apply terminal_bind.
  { intros s' Hs. apply hoare_ret. intros m w (m0 & x & ((Hr & _) & _) & -> & Hx).
    split; [by eapply reports_settled|]. intros _. by eapply justify. }
  apply clock_bind. intros t2. destruct (bool_decide _).
  { apply hoare_ret. intros m w (m0 & x & ((Hr & _) & _) & -> & _). split; [by apply reports_last|done]. }
  apply (hoare_bind _ _ _ _ _ (λ r m _, reports (with_stop (match r with Some _ => "succeeded" | None => "unresolved" end) s) m)).
  - apply hoare_attempt. apply hoare_call. intros m w r w' (m0 & x & ((Hr & Hs & Hns) & Ha) & -> & _) _.
    cbn. rewrite Ha, Hns. eexists. split; [done|]. destruct Hr as [R1 R2 R3].
    destruct r; [|case_match; [|done]]; split; cbn; auto.
  - intros [[]|]; apply hoare_ret; intros m w Hr; split; done.
Qed.

Lemma attempts_loop_spec budget s :
  (s_attempts s + budget = 8)%nat → hoare (on (pending s)) (attempts_loop o deadline budget s) loop_post.
Proof.
  revert s. induction budget as [|budget IH]; intros s Hb; cbn [attempts_loop]; apply clock_bind; intros t.
  { destruct (negb _); apply hoare_ret; intros m w (Hr & _); split; done. }
  destruct (negb _); [apply hoare_ret; intros m w (Hr & _); by split|].
  apply observation_bind; [|done]. intros state. apply terminal_bind.
  { intros s' Hs. apply hoare_ret. intros m w (m0 & x & (Hr & _) & -> & Hx).
    split; [by eapply reports_settled|]. intros _. by eapply justify. }
  apply clock_bind. intros t2. destruct (bool_decide _).
  { apply hoare_ret. intros m w (m0 & x & (Hr & _) & -> & _). split; [by apply reports_last|done]. }
  apply (hoare_bind _ _ _ _ _ (λ r m _, pending (attempted s) m ∧ match r with Some a => m_fresh m = Some a | None => True end)).
  { apply hoare_attempt. apply hoare_call. intros m w r w' (m0 & x & (Hr & Hs & Hns) & -> & _) _.
    cbn. rewrite Hns. destruct Hr as [R1 R2 R3]. rewrite bool_decide_true by lia. eexists. split; [done|].
    destruct r; [|case_match; [|done]]; (split; [|done]); (split; [split; cbn; [lia|lia|auto]|done]). }
  intros [actual|].
  - apply clock_bind. intros t3. destruct (bool_decide _); [apply hoare_ret; intros m w ((Hr & _) & _); by split|].
    apply (hoare_bind _ _ _ _ _ (λ r m _, pending (attempted s) m ∧ (r = Some true → m_auth m = true))).
    { apply hoare_attempt. apply hoare_call. intros m w r w' ((Hr & Hs & Hns) & Hf) _.
      cbn. rewrite bool_decide_true by done. eexists. split; [done|]. destruct Hr as [R1 R2 R3].
      destruct r as [b|]; [|case_match; [|done]]; (split; [by split|]); cbn; [|done].
      intros [= ->]. by apply bool_decide_eq_true. }
    intros [[]|].
    + eapply hoare_conseq; [apply (stop_once_spec (with_ownership "verified" (attempted s))); done| |done].
      intros m w ((Hr & Hs & Hns) & Ha). split; [|by apply Ha]. destruct Hr as [R1 R2 R3].
      split; [split; cbn in *; [done|done|auto]|done].
    + eapply hoare_conseq; [apply IH; cbn; lia|by intros m w [? _]|done].
    + apply hoare_ret. intros m w ((Hr & Hs & Hns) & _). split; [|done]. destruct Hr as [R1 R2 R3]. split; cbn in *; auto.
  - apply nap_bind. eapply hoare_conseq; [apply IH; cbn; lia|by intros m w [? _]|done].
Qed.

Lemma settle_loop_spec fuel s :
  hoare (on (reports s)) (settle_loop o deadline fuel s)
    (λ r m _, match r with Ok s' => reports s' m ∧ justified s' m | Err _ => True end).
Proof.
  induction fuel as [|fuel IH]; cbn [settle_loop]; apply clock_bind; intros t.
  { destruct (negb _); [apply hoare_ret; intros m w Hr|by apply hoare_throw].
    split; [by apply reports_state|]. unfold justified. cbn. auto. }
  destruct (negb _).
  { apply hoare_ret. intros m w Hr. split; [by apply reports_state|]. unfold justified. cbn. auto. }
  apply observation_bind; [|done]. intros state. apply terminal_bind.
  - intros s' Hs. apply hoare_ret. intros m w (m0 & x & Hr & -> & Hx).
    split; [by eapply reports_settled|by eapply justify].
  - apply nap_bind. eapply hoare_conseq; [exact IH| |done]. intros m w (m0 & x & Hr & -> & _). by apply reports_last.
Qed.

Lemma cleanup_owned_spec fuel :
  hoare (on (λ m, m = minit)) (cleanup_owned o deadline fuel)
    (λ r m _, match r with Ok s => reports s m ∧ justified s m | Err _ => True end).
Proof.
  unfold cleanup_owned. apply (hoare_bind _ _ _ _ _ (λ p m _, reports p.2 m ∧ (p.1 = Return → justified p.2 m))).
  - eapply hoare_conseq; [apply attempts_loop_spec; done| |by intros [[]|]].
    intros m w ->. split; [|done]. split; cbn; [done|lia|auto].
  - intros [[] s]; cbn [fst snd].
    + apply hoare_ret. intros m w [? ?]. auto.
    + eapply hoare_conseq; [apply settle_loop_spec|by intros m w [? _]|done].
Qed.
End Protocol.

Definition is_stop {A} (e : event A) : bool := match e with EStop _ => true | _ => false end.
Definition is_readback {A} (e : event A) : bool := match e with EReadback _ => true | _ => false end.

Lemma protocol_counts {A} `{EqDecision A} tr (m m' : mstate A) :
  steps mstep m tr = Some m' →
  (length (List.filter is_stop tr) + (if m_stopped m then 1 else 0) = if m_stopped m' then 1 else 0)%nat ∧
  (length (List.filter is_readback tr) + m_reads m = m_reads m')%nat ∧ (m_reads m <= 8 → m_reads m' <= 8)%nat.
Proof.
  revert m. induction tr as [|e tr IH]; intros m; [by intros [= <-]|].
  change (e :: tr) with ([e] ++ tr). rewrite steps_app. intros (m1 & He & Ht)%bind_Some. apply IH in Ht as (H1 & H2 & H3).
  destruct m as [reads fresh auth stopped lst]. cbn in He. destruct e; cbn in *;
    repeat (case_match; simplify_eq/=; try done); cbn in *; try lia; ok_inv; cbn in *; subst; cbn in *; lia.
Qed.

(** *** What the monitor has seen *)
Definition no_read {A} (ev : event A) : Prop := is_readback ev = false.

Lemma last_readback {A} `{EqDecision A} tr (m : mstate A) a :
  steps mstep minit tr = Some m → m_fresh m = Some a → ∃ p1 p2, tr = p1 ++ EReadback (Ok a) :: p2 ∧ Forall no_read p2.
Proof.
  revert m. induction tr as [|ev tr IH] using rev_ind; intros m; [by intros [= <-]|].
  rewrite steps_app. intros (m1 & H1 & Hev)%bind_Some Hf. cbn in Hev.
  assert (no_read ev → m_fresh m1 = Some a → ∃ p1 p2, tr ++ [ev] = p1 ++ EReadback (Ok a) :: p2 ∧ Forall no_read p2) as Hkeep.
  { intros Hn Hf1. destruct (IH _ H1 Hf1) as (p1 & p2 & -> & Hp). exists p1, (p2 ++ [ev]).
    split; [by rewrite <-(assoc_L (++)), app_comm_cons|]. apply Forall_app. auto. }
  destruct ev; cbn in Hev; repeat (case_match; simplify_eq/=); simplify_eq/=; try (apply Hkeep; done).
  exists tr, []. split; [done|constructor].
Qed.

Lemma last_authorized {A} `{EqDecision A} tr (m : mstate A) :
  steps mstep minit tr = Some m → m_auth m = true →
  ∃ a p1 p2 p3, tr = p1 ++ EReadback (Ok a) :: p2 ++ EAuthorize a (Ok true) :: p3 ∧ Forall no_read (p2 ++ p3).
Proof.
  revert m. induction tr as [|ev tr IH] using rev_ind; intros m; [by intros [= <-]|].
  rewrite steps_app. intros (m1 & H1 & Hev)%bind_Some Ha. cbn in Hev.
  destruct ev as [r|r|x r|r]; cbn in Hev; repeat (case_match; simplify_eq/=); simplify_eq/=.
  - destruct (IH _ H1 Ha) as (a & p1 & p2 & p3 & -> & Hp). exists a, p1, p2, (p3 ++ [EObserve r]).
    split; [by rewrite <-(assoc_L (++)), app_comm_cons, <-(assoc_L (++))|].
    rewrite (assoc_L (++)). apply Forall_app. split; [done|]. by repeat constructor.
  - apply bool_decide_eq_true in Ha as ->.
    match goal with H : bool_decide _ = true |- _ => apply bool_decide_eq_true in H; destruct (last_readback _ _ _ H1 H) as (p1 & p2 & -> & Hp) end.
    exists x, p1, p2, []. split; [by rewrite <-(assoc_L (++))|]. by rewrite app_nil_r.
Qed.

Lemma steps_prefix {A} `{EqDecision A} pre ev post (m : mstate A) :
  steps mstep minit (pre ++ ev :: post) = Some m → ∃ m1, steps mstep minit pre = Some m1 ∧ is_Some (mstep m1 ev).
Proof.
  rewrite steps_app. intros (m1 & H1 & H)%bind_Some. exists m1. split; [done|].
  change (ev :: post) with ([ev] ++ post) in H. rewrite steps_app in H. apply bind_Some in H as (m2 & H2 & _). by exists m2.
Qed.

(** An invariant that every call keeps holds after the cleanup. *)
Section Invariant.
Context {W A : Type} (o : ops W A) (deadline : Z) (I : world W (event A) → Prop).
Context (Hclock : keeps I (do_clock o)) (Hpause : ∀ d, keeps I (do_pause o d)) (Hobserve : keeps I (do_observe o)).
Context (Hreadback : ∀ t, keeps I (do_readback o deadline t)) (Hauthorize : ∀ a, keeps I (do_authorize o a)).
Context (Hstop : ∀ t, keeps I (do_stop o deadline t)).

Lemma keeps_observation : keeps I (observation o).
Proof. unfold observation. solve_keeps. Qed.
Lemma keeps_terminal s x : keeps I (terminal o deadline s x).
Proof. unfold terminal. solve_keeps. Qed.
Lemma keeps_nap : keeps I (nap o deadline).
Proof. unfold nap. solve_keeps. Qed.
#[local] Hint Resolve keeps_observation keeps_terminal keeps_nap : omux.
Lemma keeps_attempts budget s : keeps I (attempts_loop o deadline budget s).
Proof. revert s. induction budget as [|budget IH]; intros s; cbn [attempts_loop]; unfold stop_once; solve_keeps. Qed.
Lemma keeps_settle fuel s : keeps I (settle_loop o deadline fuel s).
Proof. revert s. induction fuel as [|fuel IH]; intros s; cbn [settle_loop]; solve_keeps. Qed.
Lemma keeps_cleanup fuel : keeps I (cleanup_owned o deadline fuel).
Proof.
  unfold cleanup_owned. apply keeps_bind; [apply keeps_attempts|]. intros [[] s]; [apply keeps_ret|apply keeps_settle].
Qed.
End Invariant.

(** ** Time

    What the loops rely on: the clock does not run backwards, a pause lasts as
    long as asked, and the functions called raise Python exceptions only. *)
Class TimedOps {W A} (o : ops W A) (now : W → Z) : Prop := {
  timed_clock w t w' : clock o w = (t, w') → t = now w ∧ now w <= now w';
  timed_pause d w : 0 <= d → now w + d <= now (pause o d w);
  timed_observe w r w' : observe o w = (r, w') → r ≠ Err NoFuel ∧ now w <= now w';
  timed_readback t d w r w' : readback o t d w = (r, w') → r ≠ Err NoFuel ∧ now w <= now w';
  timed_authorize a w r w' : authorize o a w = (r, w') → r ≠ Err NoFuel ∧ now w <= now w';
  timed_stop t d w r w' : stop o t d w = (r, w') → r ≠ Err NoFuel ∧ now w <= now w';
}.

Section Time.
Context {W A : Type} (o : ops W A) (now : W → Z) `{!TimedOps o now} (deadline : Z).
#[local] Abbreviation prog := (M W (event A)).
(** The monitor that accepts every trace *)
#[local] Abbreviation hoare := (hoare (W := W) (λ (u : unit) (_ : event A), Some u) tt).

(** Whatever time it was before, it is not earlier after [m]. *)
Definition steady {B} (m : prog B) : Prop :=
  ∀ c, hoare (λ _ w, c <= now w) m (λ r _ w, r ≠ Err NoFuel ∧ c <= now w).

Lemma any_steps (tr : list (event A)) : steps (λ (u : unit) (_ : event A), Some u) tt tr = Some tt.
Proof. induction tr as [|e tr IH]; [done|]. change (e :: tr) with ([e] ++ tr). by rewrite steps_app. Qed.

Lemma steady_ret {B} (b : B) : steady (mret b).
Proof. intros c. apply hoare_ret. auto. Qed.
Lemma steady_bind {B C} (m : prog B) (k : B → prog C) : steady m → (∀ b, steady (k b)) → steady (m ≫= k).
Proof.
  intros Hm Hk c. apply (hoare_bind _ _ _ _ _ (λ _ _ w, c <= now w)); [|intros b; apply Hk].
  eapply hoare_conseq; [apply (Hm c)|done|]. intros [b|e] [] w [Hr Hc]; [done|]. split; [congruence|done].
Qed.
Lemma steady_try {B} caught (m h : prog B) : steady m → steady h → steady (try_except caught m h).
Proof.
  intros Hm Hh c. apply (hoare_try _ _ _ _ _ _ (λ _ w, c <= now w)); [|apply Hh].
  eapply hoare_conseq; [apply (Hm c)|done|]. intros [b|e] [] w [Hr Hc]; [done|]. by destruct (caught e).
Qed.
Lemma steady_attempt {B} caught (m : prog B) : steady m → steady (attempt caught m).
Proof.
  intros Hm. apply steady_try; [|apply steady_ret]. apply steady_bind; [done|]. intros. apply steady_ret.
Qed.
Lemma steady_call {B} (f : W → res B * W) log :
  (∀ w r w', f w = (r, w') → r ≠ Err NoFuel ∧ now w <= now w') → steady (call f log).
Proof.
  intros Hf c. apply hoare_call. intros [] w r w' Hc Hr. exists tt. split; [apply any_steps|].
  destruct (Hf _ _ _ Hr). split; [done|lia].
Qed.

Lemma steady_clock : steady (do_clock o).
Proof.
  apply steady_call. intros w r w' H. destruct (clock o w) as [t w1] eqn:Hc. injection H as <- <-.
  apply timed_clock in Hc as [_ ?]. done.
Qed.
Lemma steady_pause d : 0 <= d → steady (do_pause o d).
Proof. intros Hd. apply steady_call. intros w r w' [= <- <-]. pose proof (timed_pause d w Hd). split; [done|lia]. Qed.

Ltac steady :=
  repeat match goal with
  | |- steady (mret _) => apply steady_ret
  | |- steady (_ ≫= _) => apply steady_bind; [|intros ?]
  | |- steady (do_clock _) => apply steady_clock
  | |- steady (do_pause _ _) => apply steady_pause; lia
  | |- steady (do_observe _) => apply steady_call, timed_observe
  | |- steady (do_readback _ _ _) => apply steady_call, timed_readback
  | |- steady (do_authorize _ _) => apply steady_call, timed_authorize
  | |- steady (do_stop _ _ _) => apply steady_call, timed_stop
  | |- steady (try_except _ _ _) => apply steady_try
  | |- steady (attempt _ _) => apply steady_attempt
  | |- steady (if bool_decide ?P then _ else _) => destruct (bool_decide_reflect P)
  | |- steady (match ?x with _ => _ end) => destruct x
  | |- _ => solve [auto]
  end.

Lemma steady_observation : steady (observation o).
Proof. unfold observation. steady. Qed.
Lemma steady_terminal s state : steady (terminal o deadline s state).
Proof. unfold terminal. steady. Qed.
Lemma steady_nap : steady (nap o deadline).
Proof. unfold nap. steady. Qed.
#[local] Hint Resolve steady_observation steady_terminal steady_nap : core.

Lemma steady_attempts budget s : steady (attempts_loop o deadline budget s).
Proof. revert s. induction budget as [|budget IH]; intros s; cbn [attempts_loop]; unfold stop_once; steady. Qed.

(** A nap moves the time to the deadline or a tenth of a second on. *)
Lemma nap_progress c : c < deadline →
  hoare (λ _ w, c <= now w) (nap o deadline) (λ r _ w, r ≠ Err NoFuel ∧ Z.min deadline (c + 100) <= now w).
Proof.
  intros Hcd. unfold nap. apply (hoare_bind _ _ _ _ _ (λ t _ w, c <= t ∧ t <= now w)).
  - apply hoare_call. intros [] w r w' Hc H. exists tt. split; [apply any_steps|].
    destruct (clock o w) as [t w1] eqn:Hcl. injection H as <- <-. apply timed_clock in Hcl. lia.
  - intros t. destruct (bool_decide_reflect (deadline - t > 0)).
    + apply hoare_call. intros [] w r w' [Hc Ht] [= <- <-]. exists tt. split; [apply any_steps|].
      pose proof (timed_pause (Z.min 100 (deadline - t)) w). split; [done|lia].
    + apply hoare_ret. intros [] w [Hc Ht]. split; [done|lia].
Qed.

Lemma settle_terminates fuel s c : deadline <= c + 100 * Z.of_nat fuel →
  hoare (λ _ w, c <= now w) (settle_loop o deadline fuel s) (λ r _ _, r ≠ Err NoFuel).
Proof.
  revert s c. induction fuel as [|fuel IH]; intros s c Hc; cbn [settle_loop];
    apply (hoare_bind _ _ _ _ _ (λ t _ w, c <= t ∧ t <= now w)).
  1,3: apply hoare_call; intros [] w r w' Hw H; exists tt; (split; [apply any_steps|]);
    destruct (clock o w) as [t w1] eqn:Hcl; injection H as <- <-; apply timed_clock in Hcl; lia.
  all: intros t; apply hoare_pure; intros Hct.
  - destruct (bool_decide_reflect (t < deadline)); cbn [negb]; [lia|by apply hoare_ret].
  - destruct (bool_decide_reflect (t < deadline)) as [Ht|]; cbn [negb]; [|by apply hoare_ret].
    apply (hoare_bind _ _ _ _ _ (λ _ _ w, t <= now w)).
    { eapply hoare_conseq; [apply (steady_observation t)|done|]. intros [b|e] [] w [Hr Hn]; [done|congruence]. }
    intros state. apply (hoare_bind _ _ _ _ _ (λ _ _ w, t <= now w)).
    { eapply hoare_conseq; [apply (steady_terminal _ _ t)|done|]. intros [b|e] [] w [Hr Hn]; [done|congruence]. }
    intros [[] s']; [by apply hoare_ret|].
    apply (hoare_bind _ _ _ _ _ (λ _ _ w, Z.min deadline (t + 100) <= now w)).
    { eapply hoare_conseq; [apply (nap_progress t Ht)|done|]. intros [b|e] [] w [Hr Hn]; [done|congruence]. }
    intros _. apply IH. lia.
Qed.

Lemma cleanup_terminates fuel w tr : deadline <= now w + 100 * Z.of_nat fuel →
  (cleanup_owned o deadline fuel (World w tr)).1 ≠ Err NoFuel.
Proof.
  intros Hf. assert (hoare (λ _ w', now w <= now w') (cleanup_owned o deadline fuel) (λ r _ _, r ≠ Err NoFuel)) as H.
  { unfold cleanup_owned. apply (hoare_bind _ _ _ _ _ (λ _ _ w', now w <= now w')).
    - eapply hoare_conseq; [apply (steady_attempts _ _ (now w))|done|]. intros [b|e] [] w' [Hr Hn]; [done|congruence].
    - intros [[] s]; [by apply hoare_ret|]. by apply settle_terminates. }
  destruct (cleanup_owned o deadline fuel (World w tr)) as [r st'] eqn:Hr.
  destruct (H (World w tr) tt (any_steps tr) (Z.le_refl _) _ _ Hr) as (? & _ & ?). done.
Qed.
End Time.

(** ** The properties of the component *)

(** C19: whatever the clock, the callbacks and their failures do, the calls
    that [cleanup_owned] makes follow the protocol: at most eight readbacks, at
    most one stop, and that stop while the latest readback is the one that was
    authorized; the summary reports those calls, and a summary that says
    "empty" rests on a last observation that found the original group empty or
    gone. *)
Theorem cleanup_protocol {W A} `{EqDecision A} (o : ops W A) deadline fuel w :
  let '(r, st) := cleanup_owned o deadline fuel (World w []) in
  (length (List.filter is_stop (trace st)) <= 1)%nat ∧ (length (List.filter is_readback (trace st)) <= 8)%nat ∧
  ∃ m, steps mstep minit (trace st) = Some m ∧ match r with Ok s => reports s m ∧ justified s m | Err _ => True end.
Proof.
  destruct (cleanup_owned o deadline fuel (World w [])) as [r st] eqn:Hr.
  destruct (cleanup_owned_spec o deadline fuel (World w []) minit eq_refl eq_refl _ _ Hr) as (m & Hm & HQ).
  destruct (protocol_counts _ _ _ Hm) as (H1 & H2 & H3). cbn in H1, H2, H3.
  split_and!; [destruct (m_stopped m); lia|lia|by exists m].
Qed.


(** A world for the examples: the time, and how often the group was observed;
    the unit goes away with the stop. *)
Definition ex_ops : ops (Z * bool) Z := {|
  clock := λ w, (w.1, (w.1 + 1, w.2));
  pause := λ d w, (w.1 + d, w.2);
  observe := λ w, (Ok (if (w.2 : bool) then "empty" else "populated"), w);
  readback := λ _ _ w, (Ok 7, (w.1 + 5, w.2));
  authorize := λ a w, (Ok true, w);
  stop := λ _ _ w, (Ok tt, (w.1 + 50, true));
|}.

Lemma ex_timed : TimedOps ex_ops fst.
Proof. split; cbn; intros; simplify_eq; cbn; split_and?; first [done|lia]. Qed.


(** In that world the stop succeeds and the group is then seen empty. *)
Example cleanup_run :
  (cleanup_owned ex_ops 15000 150 (World (0, false) [])).1 = Ok (Summary "empty" "succeeded" "verified" 1).
Proof. vm_compute. done. Qed.
End Cleanup.
