(* ===== verification/Pids.v ===== *)
(** * tools/execution_guard.py: sampled task counts

    [parse_pids_metadata] reads a kernel interface file; [PidsObservation]
    keeps bounded statistics of the samples.  A row of the Python code is a
    dictionary that [sample] may still change after it was stored; here the
    stored row and the row the statistics read are one value, computed after
    that change, as both names denote the same object. *)
From S2P Require Import Prelude PyBytes PyString Cleanup.
From Stdlib Require Import Ascii.
Local Open Scope Z_scope.

Module Pids.

(** A field of a snapshot: [None], an [int] or the string "max" *)
Inductive field := FNone | FInt (z : Z) | FMax.

#[export] Instance field_eq_dec : EqDecision field.
Proof. solve_decision. Defined.

Definition newline : ascii := "010".

(** The text without one final newline *)
Fixpoint chomp (s : string) : string :=
  match s with
  | EmptyString => EmptyString
  | String c EmptyString => if bool_decide (c = newline) then EmptyString else s
  | String c s => String c (chomp s)
  end.

(** [0|[1-9][0-9]{0,19}] *)
Definition canonical_digits (s : string) : bool :=
  match s with
  | EmptyString => false
  | String c r =>
      bool_decide (s = "0") ||
      (chr_in "1" "9" c && str_all is_digit r && bool_decide (String.length r <= 19)%nat)
  end.

Definition parse_pids_metadata (data : bytes) (name : string) : res field :=
  _ ← raise_if (bool_decide (data = []) || bool_decide (zlen data > 4096)) (ValueError "pids-metadata-bound");
  text ← decode_ascii data;
  if bool_decide (name = "pids.max") && bool_decide (text ∈ ["max"; "max" +:+ String newline EmptyString]) then Ok FMax else
  _ ← raise_if (negb (bool_decide (name ∈ ["pids.current"; "pids.max"; "pids.events"]))) (ValueError "pids-interface-name");
  let prefix := if bool_decide (name = "pids.events") then "max " else "" in
  let body := chomp text in
  let digits := str_drop (String.length prefix) body in
  _ ← ensure (startswith prefix body && canonical_digits digits) (ValueError "pids-metadata-shape");
  let value := dec_value digits in
  _ ← raise_if (bool_decide (value > 2 ^ 64 - 1)) (ValueError "pids-metadata-range");
  Ok (FInt value).

(** ** Observations *)
Record snapshot := Snapshot { custody : string; current : field; limit : field; max_events : field }.
Definition unknown_pids_snapshot (custody : string) : snapshot := Snapshot custody FNone FNone FNone.

Inductive timing := Baseline | Monitor | PreCleanup.

Record row := Row {
  snap : snapshot;
  sample_timing : timing;
  pids_limit : string;
  pids_sample : string;
  max_event_delta : option Z;
  pids_max_event_delta : string;
}.

Record observation := Observation {
  baseline : row;
  last_monitor : row;
  pre_cleanup : row;
  monitor_samples : Z;
  sample_count_saturated : bool;
  sampled_peak_current : option Z;
  observed_at_or_over_verified_limit : bool;
  observed_max_event_increase : bool;
  observed_max_event_decrease : bool;
  observed_unknown : bool;
  finished : bool;
  pre_cleanup_control_flow_deferred : bool;
}.

(** [classify]; [base] is the [max_events] of the baseline row so far *)
Definition classify (base : field) (s : snapshot) (t : timing) : row :=
  let delta := match max_events s, base with FInt e, FInt b => Some (e - b) | _, _ => None end in
  let relation :=
    match current s, limit s with
    | FInt c, FInt l => if bool_decide (c < l) then "below" else if bool_decide (c = l) then "at" else "over"
    | _, _ => "unavailable"
    end in
  Row s t
    (match limit s with FNone => "unavailable" | l => if bool_decide (l = FInt 512) then "verified512" else "changed" end)
    relation delta
    (match delta with
     | None => "unavailable"
     | Some d => if bool_decide (d = 0) then "unchanged" else if bool_decide (d > 0) then "increased" else "decreased"
     end).

Definition unknown_row (t : timing) : row := classify FNone (unknown_pids_snapshot "unavailable") t.

Definition init : observation :=
  Observation (unknown_row Baseline) (unknown_row Monitor) (unknown_row PreCleanup)
    0 false None false false false false false false.

Definition int_field (f : field) : option Z := match f with FInt z => Some z | _ => None end.

(** The row a sample stores: [None] stands for a snapshot that raised *)
Definition sample_row (ob : observation) (s : option snapshot) (t : timing) : row :=
  let r := match s with
           | Some s => classify (max_events (snap (baseline ob))) s t
           | None => unknown_row t
           end in
  match t, max_events (snap r) with
  | Baseline, FInt _ =>
      Row (snap r) (sample_timing r) (pids_limit r) (pids_sample r) (Some 0) "unchanged"
  | _, _ => r
  end.

Definition at_or_over (r : row) : bool :=
  bool_decide (limit (snap r) = FInt 512) && bool_decide (pids_sample r ∈ ["at"; "over"]).
Definition row_unknown (r : row) : bool :=
  bool_decide (custody (snap r) ≠ "same") || bool_decide (current (snap r) = FNone)
  || bool_decide (limit (snap r) = FNone) || bool_decide (max_events (snap r) = FNone).

Definition sample (ob : observation) (s : option snapshot) (t : timing) : observation :=
  let r := sample_row ob s t in
  Observation
    (match t with Baseline => r | _ => baseline ob end)
    (match t with Monitor => r | _ => last_monitor ob end)
    (match t with PreCleanup => r | _ => pre_cleanup ob end)
    (match t with Monitor => if bool_decide (monitor_samples ob < 4096) then monitor_samples ob + 1 else monitor_samples ob
     | _ => monitor_samples ob end)
    (match t with Monitor => if bool_decide (monitor_samples ob < 4096) then sample_count_saturated ob else true
     | _ => sample_count_saturated ob end)
    (match int_field (current (snap r)) with
     | Some c => Some (Z.max (default 0 (sampled_peak_current ob)) c)
     | None => sampled_peak_current ob
     end)
    (observed_at_or_over_verified_limit ob || at_or_over r)
    (observed_max_event_increase ob || bool_decide (pids_max_event_delta r = "increased"))
    (observed_max_event_decrease ob || bool_decide (pids_max_event_delta r = "decreased"))
    (observed_unknown ob || row_unknown r)
    (finished ob) (pre_cleanup_control_flow_deferred ob).

Definition set_finished (ob : observation) : observation :=
  Observation (baseline ob) (last_monitor ob) (pre_cleanup ob) (monitor_samples ob) (sample_count_saturated ob)
    (sampled_peak_current ob) (observed_at_or_over_verified_limit ob) (observed_max_event_increase ob)
    (observed_max_event_decrease ob) (observed_unknown ob) true (pre_cleanup_control_flow_deferred ob).

Definition finish (ob : observation) (s : option snapshot) : observation :=
  if finished ob then ob else sample (set_finished ob) s PreCleanup.

(** ** Statistics of a history of samples *)
Definition samples (ob : observation) (l : list (option snapshot * timing)) : observation :=
  foldl (λ ob x, sample ob x.1 x.2) ob l.

(** The rows of the samples, in order *)
Fixpoint rows (ob : observation) (l : list (option snapshot * timing)) : list row :=
  match l with [] => [] | x :: l => sample_row ob x.1 x.2 :: rows (sample ob x.1 x.2) l end.

Definition is_monitor (x : option snapshot * timing) : bool := match x.2 with Monitor => true | _ => false end.
Definition currents (l : list row) : list Z := omap (λ r, int_field (current (snap r))) l.
Definition peak (start : option Z) (l : list Z) : option Z :=
  match l with [] => start | _ => Some (foldl Z.max (default 0 start) l) end.

Lemma peak_cons start c l : peak start (c :: l) = peak (Some (Z.max (default 0 start) c)) l.
Proof. by destruct l. Qed.

Lemma samples_statistics l ob :
  monitor_samples ob <= 4096 → (sample_count_saturated ob = true → monitor_samples ob = 4096) →
  let n := monitor_samples ob + zlen (List.filter is_monitor l) in
  monitor_samples (samples ob l) = Z.min 4096 n ∧
  sample_count_saturated (samples ob l) = sample_count_saturated ob || bool_decide (4096 < n) ∧
  sampled_peak_current (samples ob l) = peak (sampled_peak_current ob) (currents (rows ob l)) ∧
  observed_at_or_over_verified_limit (samples ob l) =
    observed_at_or_over_verified_limit ob || existsb at_or_over (rows ob l) ∧
  observed_max_event_increase (samples ob l) =
    observed_max_event_increase ob || existsb (λ r, bool_decide (pids_max_event_delta r = "increased")) (rows ob l) ∧
  observed_max_event_decrease (samples ob l) =
    observed_max_event_decrease ob || existsb (λ r, bool_decide (pids_max_event_delta r = "decreased")) (rows ob l) ∧
  observed_unknown (samples ob l) = observed_unknown ob || existsb row_unknown (rows ob l).
Proof.
  revert ob. induction l as [|[s t] l IH]; intros ob Hn Hsat n.
  { subst n. cbn [samples foldl rows List.filter length existsb]. rewrite zlen_nil, Z.add_0_r.
    rewrite (bool_decide_false (4096 < _)) by lia. rewrite !orb_false_r. split_and!; try done. lia. }
  change (samples ob ((s, t) :: l)) with (samples (sample ob s t) l).
  assert (monitor_samples (sample ob s t) <= 4096) as Hn'.
  { cbn. destruct t; try done. case_bool_decide; lia. }
  assert (sample_count_saturated (sample ob s t) = true → monitor_samples (sample ob s t) = 4096) as Hsat'.
  { cbn. destruct t; try done. case_bool_decide; [intros ?%Hsat|intros _]; lia. }
  destruct (IH (sample ob s t) Hn' Hsat') as (-> & -> & -> & -> & -> & -> & ->). clear IH.
  cbn [rows existsb fst snd]. subst n. pose proof (zlen_nonneg (List.filter is_monitor l)).
  split_and!.
  - destruct t; cbn [sample monitor_samples List.filter is_monitor length snd]; [lia| |lia].
    destruct (bool_decide_reflect (monitor_samples ob < 4096)); rewrite ?zlen_cons; lia.
  - destruct t; cbn [sample monitor_samples sample_count_saturated List.filter is_monitor length snd]; [done| |done].
    destruct (bool_decide_reflect (monitor_samples ob < 4096)); cbn [orb].
    + f_equal. apply bool_decide_ext. rewrite zlen_cons. lia.
    + rewrite zlen_cons, (bool_decide_true (4096 < _ + _)) by lia. by rewrite orb_true_r.
  - unfold currents. cbn [omap list_omap fst snd]. destruct (int_field (current (snap (sample_row ob s t)))) as [c|] eqn:E;
      [rewrite peak_cons|]; cbn; by rewrite E.
  - cbn. by rewrite orb_assoc.
  - cbn. by rewrite orb_assoc.
  - cbn. by rewrite orb_assoc.
  - cbn. by rewrite orb_assoc.
Qed.

(** The statistics summarize exactly the samples taken: the count of
    monitor samples saturates at 4096 and says so, the peak is the largest
    current seen, and each flag is set exactly when some sampled row had its
    condition. *)
Theorem pids_statistics l :
  let ob := samples init l in let h := rows init l in let n := zlen (List.filter is_monitor l) in
  monitor_samples ob = Z.min 4096 n ∧ sample_count_saturated ob = bool_decide (4096 < n) ∧
  sampled_peak_current ob = peak None (currents h) ∧
  observed_at_or_over_verified_limit ob = existsb at_or_over h ∧
  observed_max_event_increase ob = existsb (λ r, bool_decide (pids_max_event_delta r = "increased")) h ∧
  observed_max_event_decrease ob = existsb (λ r, bool_decide (pids_max_event_delta r = "decreased")) h ∧
  observed_unknown ob = existsb row_unknown h.
Proof. apply (samples_statistics l init); [cbn; lia|done]. Qed.

(** ** Interface files *)
Lemma chomp_clean s : str_mem newline s = false → chomp s = s ∧ chomp (s +:+ String newline EmptyString) = s.
Proof.
  induction s as [|c s IH]; [done|]. unfold str_mem. cbn [str_any]. intros [Hc Hs]%orb_false_iff.
  destruct (IH Hs) as [IH1 IH2]. rewrite str_append_cons. split.
  - destruct s as [|a s]; [cbn [chomp]; by rewrite Hc|].
    change (String c (chomp (String a s)) = String c (String a s)). by rewrite IH1.
  - destruct s as [|a s]; [done|]. rewrite str_append_cons in IH2 |- *.
    change (String c (chomp (String a (s +:+ String newline EmptyString))) = String c (String a s)). by rewrite IH2.
Qed.

Definition is_ascii (c : ascii) : bool := in_range 0 127 (byte_of_ascii c).

Lemma decode_ascii_fsencode s : str_all is_ascii s = true → decode_ascii (fsencode s) = Ok s.
Proof.
  intros Hs. unfold decode_ascii. rewrite fsdecode_fsencode.
  assert (forallb (in_range 0 127) (fsencode s) = true) as ->; [|done].
  unfold fsencode, String.list_byte_of_string. induction s as [|c s IH]; [done|]. cbn in *. ok_inv.
  apply andb_true_intro. split; [done|by apply IH].
Qed.

Lemma digit_facts c : is_digit c = true → is_ascii c = true ∧ bool_decide (c = newline) = false.
Proof. by destruct c as [[] [] [] [] [] [] [] []]. Qed.

Lemma digits_facts s : str_all is_digit s = true → str_all is_ascii s = true ∧ str_mem newline s = false.
Proof.
  induction s as [|c s IH]; [done|]. cbn. intros [Hc Hs]%andb_true_iff. destruct (digit_facts c Hc) as [-> Hn].
  destruct (IH Hs) as [-> Hm]. split; [done|]. unfold str_mem in *. cbn. by rewrite Hn, Hm.
Qed.

Lemma digit_chr_first d : 1 <= d <= 9 → chr_in "1" "9" (digit_chr d) = true.
Proof.
  intros. assert (d = 1 ∨ d = 2 ∨ d = 3 ∨ d = 4 ∨ d = 5 ∨ d = 6 ∨ d = 7 ∨ d = 8 ∨ d = 9) as Hd by lia.
  by repeat destruct Hd as [->|Hd]; subst.
Qed.

Lemma canonical_print v : 0 <= v < 2 ^ 64 → canonical_digits (dec_print v) = true.
Proof.
  intros Hv. pose proof (dec_print_digits v ltac:(lia)) as Hd.
  assert (String.length (dec_print v) <= 20)%nat as Hl.
  { apply (dec_print_length v 19). change (10 ^ Z.of_nat 20) with 100000000000000000000. lia. }
  destruct (decide (v = 0)) as [->|]; [done|]. destruct (dec_print_head v) as (d & r & Hdr & Hp); [lia|].
  rewrite Hp in *. cbn [canonical_digits]. cbn in Hd, Hl. ok_inv. rewrite digit_chr_first by done.
  rewrite (bool_decide_true (_ <= 19)%nat) by lia. apply orb_true_iff. right. cbn [andb].
  match goal with H : str_all is_digit r = true |- _ => by rewrite H end.
Qed.

Definition interface_prefix (name : string) : string := if bool_decide (name = "pids.events") then "max " else "".

Lemma canonical_value_nonneg s : canonical_digits s = true → 0 <= dec_value s.
Proof.
  assert (∀ s acc, str_all is_digit s = true → 0 <= acc → 0 <= dec_acc acc s) as Hd.
  { clear s. induction s as [|c s IH]; intros acc Hs Ha; [done|]. cbn in *. ok_inv. apply IH; [done|].
    assert (0 <= digit_val c); [|lia]. destruct c as [[] [] [] [] [] [] [] []]; try done. }
  destruct s as [|c r]; [done|]. unfold canonical_digits. intros [H|H]%orb_true_iff.
  - apply bool_decide_eq_true in H. by rewrite H.
  - ok_inv. unfold dec_value. cbn [dec_acc]. apply Hd; [done|].
    destruct c as [[] [] [] [] [] [] [] []]; try done.
Qed.

(** The interface files are read exactly: a count below 2^64, printed as
    the kernel prints it with or without its newline, is read back, and
    whatever number is accepted lies in that range. *)
Theorem pids_metadata_roundtrip :
  (∀ name v nl, name ∈ ["pids.current"; "pids.max"; "pids.events"] → 0 <= v < 2 ^ 64 →
     nl ∈ [""; String newline EmptyString] →
     parse_pids_metadata (fsencode (interface_prefix name +:+ dec_print v +:+ nl)) name = Ok (FInt v)) ∧
  ∀ data name v, parse_pids_metadata data name = Ok (FInt v) → 0 <= v < 2 ^ 64.
Proof.
  split.
  - intros name v nl Hname Hv Hnl. unfold parse_pids_metadata.
    pose proof (canonical_print v Hv) as Hcan. pose proof (dec_print_digits v ltac:(lia)) as Hd.
    destruct (digits_facts _ Hd) as [Hasc Hmem].
    set (body := interface_prefix name +:+ dec_print v).
    assert (str_all is_ascii body = true ∧ str_mem newline body = false) as [Hb1 Hb2].
    { unfold body, interface_prefix. rewrite str_all_app, str_mem_app, Hasc, Hmem. by case_bool_decide. }
    rewrite <-str_append_assoc. fold body.
    assert (chomp (body +:+ nl) = body) as Hchomp.
    { destruct (chomp_clean _ Hb2) as [H1 H2]. apply elem_of_cons in Hnl as [->|Hnl]; [by rewrite str_append_nil|].
      by apply list_elem_of_singleton in Hnl as ->. }
    assert (str_all is_ascii nl = true ∧ (String.length nl <= 1)%nat) as [Hnl1 Hnl2].
    { apply elem_of_cons in Hnl as [->|Hnl]; [split; [done|simpl; lia]|].
      apply list_elem_of_singleton in Hnl as ->. split; [done|simpl; lia]. }
    assert (∃ c r, dec_print v = String c r ∧ is_digit c = true) as (c & r & Hcr & Hc).
    { destruct (dec_print v) as [|c r]; [done|]. cbn in Hd. ok_inv. eauto. }
    assert (0 < zlen (fsencode (body +:+ nl)) <= 25) as Hlen.
    { unfold zlen. rewrite length_fsencode, str_length_app. unfold body. rewrite str_length_app.
      assert (String.length (dec_print v) <= 20)%nat.
      { apply (dec_print_length v 19). change (10 ^ Z.of_nat 20) with 100000000000000000000. lia. }
      unfold interface_prefix. case_bool_decide; rewrite Hcr in *; simpl in *; lia. }
    pass_guard ltac:(idtac).
    2:{ intros E. rewrite E in Hlen. destruct Hlen as [Hlen _]. by apply (Z.lt_irrefl 0). }
    2:{ lia. }
    rewrite decode_ascii_fsencode by (by rewrite str_all_app, Hb1, Hnl1). cbn [mbind res_bind].
    rewrite (bool_decide_false (body +:+ nl ∈ _)), andb_false_r.
    2:{ unfold body, interface_prefix. rewrite Hcr. intros Hin.
        case_bool_decide; rewrite ?str_append_nil_l, !str_append_cons in Hin;
          (apply elem_of_cons in Hin as [Hin|Hin]; [|apply list_elem_of_singleton in Hin; rewrite ?str_append_cons in Hin]);
          simplify_eq; done. }
    pass_guard ltac:(done). fold (interface_prefix name). rewrite Hchomp.
    assert (startswith (interface_prefix name) body = true) as -> by (apply startswith_spec; by exists (dec_print v)).
    unfold body. rewrite str_drop_app, Hcan. cbn [andb ensure mbind res_bind].
    rewrite dec_value_print by lia. pass_guard ltac:(lia). done.
  - intros data name v H. unfold parse_pids_metadata in H. ok_inv. destruct (_ && _); [done|]. ok_inv.
    simplify_eq. match goal with H : canonical_digits _ = true |- _ => apply canonical_value_nonneg in H end. lia.
Qed.

Lemma pids_metadata_roundtrip_witness :
  parse_pids_metadata (fsencode ("max 12" +:+ String newline EmptyString)) "pids.events" = Ok (FInt 12).
Proof.
  refine (proj1 pids_metadata_roundtrip "pids.events" 12 (String newline EmptyString) _ _ _); [set_solver|lia|set_solver].
Defined.
End Pids.
