(* ===== verification/Guard.v ===== *)
(** * tools/execution_guard.py: the owned unit

    The readback of a unit, the identity of the unit this run started, the
    pinned control group, and the authorization that the cleanup asks before
    it stops the unit.  What the kernel and the service manager answer is the
    record [system] of functions on a world that the guard cannot see; a call
    may raise and may change that world. *)
From S2P Require Import Prelude PyBytes PyString PyValue PyText Effect Cleanup.
From Stdlib Require Import Ascii.
Import Cleanup.
Local Open Scope Z_scope.

Module Guard.

(** Computations that act on the world and may raise *)
Definition io (K A : Type) : Type := K → res A * K.
#[local] Instance io_ret {K} : MRet (io K) := λ A a k, (Ok a, k).
#[local] Instance io_bind {K} : MBind (io K) := λ A B f m k,
  match m k with (Ok a, k) => f a k | (Err e, k) => (Err e, k) end.
Definition lift {K A} (r : res A) : io K A := λ k, (r, k).

(** ** Readback *)
Abbreviation unit_properties := (list (string * string)).

Definition properties (text : string) : unit_properties :=
  foldl (λ d line, match split_once "=" line with Some (k, v) => dset k v d | None => d end) [] (splitlines text).

(** ** Identity of the owned unit *)
Record epoch := Epoch {
  unit_name : string; manager : string; run : string; python : string; worker : string;
  uid : Z; gid : Z }.

Definition unit_epoch_identity (actual : unit_properties) (e : epoch) : res unit :=
  _ ← raise_if (bool_decide (dget "Id" actual ≠ Some (unit_name e))
        || (bool_decide (manager e = "system") &&
            (bool_decide (dget "User" actual ≠ Some (dec_print (uid e)))
             || bool_decide (dget "Group" actual ≠ Some (dec_print (gid e)))))
        || negb (bool_decide ("OMUX_EXECUTION_GUARD=" +:+ run e ∈ words (default "" (dget "Environment" actual)))))
      (ValueError "owned unit identity changed before cleanup");
  let execution := default "" (dget "ExecStart" actual) in
  raise_if (negb (contains ("path=" +:+ python e) execution)
            || negb (contains (worker e +:+ " --worker " +:+ run e +:+ " --") execution))
    (ValueError "owned unit executable changed before cleanup").

(** ** The system *)
Abbreviation ident := (Z * Z)%type.
Record system (K : Type) := System {
  sys_clock : K → Z * K;
  sys_pause : Z → K → K;
  (** the text of [systemctl show] for the unit, and [systemctl stop] *)
  sys_show : Z → Z → io K string;
  sys_stop : Z → Z → io K unit;
  (** [/proc/<pid>]: the owner, [stat] and [cgroup] *)
  proc_owner : Z → io K Z;
  proc_stat : Z → io K string;
  proc_cgroup : string → io K string;
  (** device and inode of a path, without following links; of a directory
      opened at it; and at most 4097 bytes of its [cgroup.events] *)
  path_ident : string → io K ident;
  open_ident : string → io K ident;
  read_events : string → io K bytes;
}.
Arguments sys_clock {K} _ _.
Arguments sys_pause {K} _ _ _.
Arguments sys_show {K} _ _ _ _.
Arguments sys_stop {K} _ _ _ _.
Arguments proc_owner {K} _ _ _.
Arguments proc_stat {K} _ _ _.
Arguments proc_cgroup {K} _ _ _.
Arguments path_ident {K} _ _ _.
Arguments open_ident {K} _ _ _.
Arguments read_events {K} _ _ _.

Section Guard.
Context {K : Type} (sys : system K) (e : epoch).

(** [text[text.rindex(')') + 2:]] by characters *)
Fixpoint after_last (c : string) (l : list string) : option (list string) :=
  match l with
  | [] => None
  | x :: l => match after_last c l with Some r => Some r | None => if bool_decide (x = c) then Some l else None end
  end.
Definition stat_ticks (text : string) : res string :=
  match after_last ")" (str_chars text) with
  | None => Err (ValueError "substring not found")
  | Some r => match words (unchars (drop 1 r)) !! 19%nat with Some t => Ok t | None => Err IndexError end
  end.

Definition process_start_ticks (pid : Z) : io K string :=
  if bool_decide (pid <= 0) then lift (Err (ValueError "owned workload process unavailable")) else
  owner ← proc_owner sys pid;
  if bool_decide (owner ≠ uid e) then lift (Err (ValueError "owned workload process unavailable")) else
  text ← proc_stat sys pid;
  lift (stat_ticks text).

(** ** The pinned control group *)
Record pin := Pin { pin_path : string; pin_identity : ident }.

Definition open_pin (path : string) : io K pin := i ← open_ident sys path; mret (Pin path i).

(** What the events file says *)
Definition populated_state (data : bytes) : res string :=
  text ← decode_ascii data;
  let populated := List.filter (startswith "populated ") (splitlines text) in
  Ok (if bool_decide (zlen data > 4096) then "unproved"
      else if bool_decide (populated = ["populated 0"]) then "empty"
      else if bool_decide (populated = ["populated 1"]) then "populated"
      else "unproved").

Definition observe_pin (q : pin) : io K string := λ k,
  match path_ident sys (pin_path q) k with
  | (Err FileNotFoundError, k) => (Ok "absent", k)
  | (Err x, k) => (Err x, k)
  | (Ok i, k) =>
      (if bool_decide (i ≠ pin_identity q) then mret "changed" else
       i ← open_ident sys (pin_path q);
       if bool_decide (i ≠ pin_identity q) then mret "changed" else
       data ← read_events sys (pin_path q);
       i ← path_ident sys (pin_path q);
       if bool_decide (i ≠ pin_identity q) then mret "changed" else
       lift (populated_state data)) k
  end.

(** ** Authorization *)
Definition CGROUP_ROOT : string := "/sys/fs/cgroup".

(** [str(Path('/sys/fs/cgroup') / name.lstrip('/'))] *)
Definition cgroup_path (name : string) : string := str_join "/" (CGROUP_ROOT :: path_parts name).

(** [str(cgroup.relative_to('/sys/fs/cgroup'))] *)
Definition relative_cgroup (cgroup : string) : res string :=
  if bool_decide (cgroup = CGROUP_ROOT) then Ok "."
  else if startswith (CGROUP_ROOT +:+ "/") cgroup then Ok (str_drop (String.length CGROUP_ROOT + 1) cgroup)
  else Err (ValueError "not in the subpath").

Record original := Original {
  cgroup_pin : option pin; cgroup : option string; original_pid : option Z; original_ticks : option string }.
Definition pid_text (pid : option Z) : string := match pid with Some p => dec_print p | None => "None" end.

Definition capture_cleanup_pin (actual : unit_properties) : io K (pin * Z * string) :=
  _ ← lift (unit_epoch_identity actual e);
  let name := default "" (dget "ControlGroup" actual) in
  _ ← lift (raise_if (negb (startswith "/" name) || bool_decide (".." ∈ path_parts name)
                      || bool_decide (path_name name ≠ unit_name e)) (ValueError "uncertain dispatch has no exact owned cgroup"));
  let pid_text := default "" (dget "MainPID" actual) in
  _ ← lift (ensure (positive_decimal pid_text) (ValueError "uncertain dispatch has no live owned worker"));
  let pid := dec_value pid_text in
  ticks ← process_start_ticks pid;
  text ← proc_cgroup sys pid_text;
  _ ← lift (raise_if (bool_decide (splitlines text ≠ ["0::" +:+ name])) (ValueError "uncertain dispatch worker belongs to another cgroup"));
  q ← open_pin (cgroup_path name);
  now ← process_start_ticks pid;
  _ ← lift (raise_if (bool_decide (now ≠ ticks)) (ValueError "uncertain dispatch changed during capture"));
  state ← observe_pin q;
  _ ← lift (raise_if (bool_decide (state ≠ "populated")) (ValueError "uncertain dispatch changed during capture"));
  mret (q, pid, ticks).

Definition authorize_cleanup (actual : unit_properties) (g : original) : io K unit :=
  _ ← lift (unit_epoch_identity actual e);
  same ← match cgroup g with
         | None => mret false
         | Some c => rel ← lift (relative_cgroup c); mret (bool_decide (dget "ControlGroup" actual = Some ("/" +:+ rel)))
         end;
  _ ← lift (ensure same (ValueError "owned unit cgroup changed before cleanup"));
  let pid := dget "MainPID" actual in
  changed ← (if bool_decide (pid = Some "0") then mret false
             else if bool_decide (pid ≠ Some (pid_text (original_pid g))) then mret true
             else match original_pid g, original_ticks g with
                  | Some p, Some ticks => now ← process_start_ticks p; mret (bool_decide (now ≠ ticks))
                  | _, _ => mret true
                  end);
  lift (raise_if changed (ValueError "owned workload process changed before cleanup")).

(** The closure [authorize] of [_main], for a profile without a display
    session: it captures the pin when there is none and then asks for another
    readback by returning [False]. *)
Definition authorize_owned (actual : unit_properties) : io (original * K) bool := λ '(g, k),
  match cgroup_pin g with
  | None =>
      match capture_cleanup_pin actual k with
      | (Ok (q, pid, ticks), k) => (Ok false, (Original (Some q) (Some (pin_path q)) (Some pid) (Some ticks), k))
      | (Err x, k) => (Err x, (g, k))
      end
  | Some _ =>
      match authorize_cleanup actual g k with
      | (Ok _, k) => (Ok true, (g, k))
      | (Err x, k) => (Err x, (g, k))
      end
  end.

Definition on_system {A} (m : io K A) : io (original * K) A := λ '(g, k), let '(r, k) := m k in (r, (g, k)).

(** The functions that [_main] passes to [cleanup_owned] *)
Definition owned_ops : ops (original * K) unit_properties := {|
  clock := λ '(g, k), let '(t, k) := sys_clock sys k in (t, (g, k));
  pause := λ d '(g, k), (g, sys_pause sys d k);
  observe := λ '(g, k), match cgroup_pin g with
    | Some q => on_system (observe_pin q) (g, k)
    | None => (Ok "uncaptured", (g, k))
    end;
  readback := λ timeout deadline, on_system (text ← sys_show sys timeout deadline; mret (properties text));
  authorize := authorize_owned;
  stop := λ timeout deadline, on_system (sys_stop sys timeout deadline);
|}.

(** ** Only the owned unit is stopped *)
Lemma io_bind_Ok {A B} (m : io K A) (f : A → io K B) k b k' :
  (m ≫= f) k = (Ok b, k') → ∃ a k1, m k = (Ok a, k1) ∧ f a k1 = (Ok b, k').
Proof. unfold mbind, io_bind. destruct (m k) as [[a|x] k1]; [eauto|done]. Qed.
Lemma lift_Ok {A} (r : res A) (k : K) a k' : lift r k = (Ok a, k') → r = Ok a ∧ k' = k.
Proof. unfold lift. intros [= -> ->]. done. Qed.

Lemma relative_cgroup_path name :
  path_parts name ≠ [] → relative_cgroup (cgroup_path name) = Ok (str_join "/" (path_parts name)).
Proof.
  intros Hn. unfold cgroup_path. rewrite str_join_cons by done. rewrite <-str_append_assoc.
  set (j := str_join "/" (path_parts name)). unfold relative_cgroup.
  rewrite bool_decide_false.
  2:{ intros Hl. apply (f_equal String.length) in Hl. rewrite !str_length_app in Hl. simpl in Hl. lia. }
  assert (startswith (CGROUP_ROOT +:+ "/") ((CGROUP_ROOT +:+ "/") +:+ j) = true) as -> by (apply startswith_spec; by exists j).
  reflexivity.
Qed.

(** The pin, the process and its ticks were taken from the readback [a0]. *)
Record captured (g : original) (a0 : unit_properties) (name : string) : Prop := {
  cap_identity : unit_epoch_identity a0 e = Ok tt;
  cap_name : default "" (dget "ControlGroup" a0) = name;
  cap_exact : path_name name = unit_name e ∧ ".." ∉ path_parts name;
  cap_path : cgroup g = Some (cgroup_path name) ∧ is_Some (cgroup_pin g);
  cap_pid : original_pid g = Some (dec_value (default "" (dget "MainPID" a0)));
}.

Lemma capture_spec a0 k q pid ticks k' :
  capture_cleanup_pin a0 k = (Ok (q, pid, ticks), k') →
  captured (Original (Some q) (Some (pin_path q)) (Some pid) (Some ticks)) a0 (default "" (dget "ControlGroup" a0)).
Proof.
  unfold capture_cleanup_pin. intros (u & k1 & [Hid ->]%lift_Ok & H)%io_bind_Ok. destruct u.
  apply io_bind_Ok in H as (u & k1 & [Hn ->]%lift_Ok & H). apply raise_if_Ok in Hn. ok_inv.
  apply io_bind_Ok in H as (? & k1 & [_ ->]%lift_Ok & H). apply io_bind_Ok in H as (? & k1 & _ & H).
  apply io_bind_Ok in H as (? & k2 & _ & H). apply io_bind_Ok in H as (? & k3 & _ & H).
  apply io_bind_Ok in H as (q' & k4 & Hq & H). apply io_bind_Ok in H as (? & k5 & _ & H).
  apply io_bind_Ok in H as (? & k6 & _ & H). apply io_bind_Ok in H as (? & k7 & _ & H).
  apply io_bind_Ok in H as (? & k8 & _ & H). injection H as <- <- <- _.
  apply io_bind_Ok in Hq as (i & k9 & _ & Hq). injection Hq as <- _.
  split; cbn; [done|done| |split; [done|by eexists]|done]. split; [|done]. by apply dec_stable.
Qed.

(** [a] is a readback of the unit that [a0] was a readback of. *)
Record same_unit (a0 a : unit_properties) : Prop := {
  same_identity : unit_epoch_identity a0 e = Ok tt ∧ unit_epoch_identity a e = Ok tt;
  same_exact : path_name (default "" (dget "ControlGroup" a0)) = unit_name e;
  same_cgroup : dget "ControlGroup" a = Some ("/" +:+ str_join "/" (path_parts (default "" (dget "ControlGroup" a0))));
  same_process : dget "MainPID" a = Some "0" ∨ dget "MainPID" a = Some (dec_print (dec_value (default "" (dget "MainPID" a0))));
}.

Lemma authorize_spec g a0 name a k u k' :
  unit_name e ≠ "" → captured g a0 name → authorize_cleanup a g k = (Ok u, k') → same_unit a0 a.
Proof.
  intros Hu [Hid0 Hname [Hx _] [Hc _] Hp]. unfold authorize_cleanup. rewrite Hc, Hp.
  intros (u' & k1 & [Hid ->]%lift_Ok & H)%io_bind_Ok. destruct u'. subst name.
  apply io_bind_Ok in H as (same & k1 & Hs & H). apply io_bind_Ok in Hs as (rel & k2 & [Hr ->]%lift_Ok & Hs). injection Hs as <- <-.
  apply io_bind_Ok in H as (? & k2 & [Hsame%ensure_Ok%bool_decide_eq_true ->]%lift_Ok & H).
  apply io_bind_Ok in H as (changed & k2 & Hch & H). apply lift_Ok in H as [->%raise_if_Ok _].
  rewrite relative_cgroup_path in Hr; [|intros Hn; apply Hu; rewrite <-Hx; unfold path_name; by rewrite Hn]. injection Hr as <-.
  split; [done|done|done|]. decide_in Hch; [by left|]. decide_in Hch; [by injection Hch|]. right. by apply dec_stable.
Qed.

#[local] Abbreviation log := (list (event unit_properties)).

(** No stop is authorized before the pin; every later authorization is for a
    readback of the unit the pin was captured from. *)
Definition pinned (st : world (original * K) (event unit_properties)) : Prop :=
  let g := (env st).1 in
  (cgroup_pin g = None ∧ ∀ a, EAuthorize a (Ok true) ∉ trace st) ∨
  ∃ a0 name, captured g a0 name ∧
    (∀ pre a post, trace st = pre ++ EAuthorize a (Ok true) :: post → EAuthorize a0 (Ok false) ∈ pre ∧ same_unit a0 a) ∧
    EAuthorize a0 (Ok false) ∈ trace st.

Lemma snoc_split {A} (l pre post : list A) x y :
  l ++ [x] = pre ++ y :: post → (post = [] ∧ l = pre ∧ x = y) ∨ ∃ post', post = post' ++ [x] ∧ l = pre ++ y :: post'.
Proof.
  destruct post as [|z post _] using rev_ind; intros H.
  - apply app_inj_tail in H as [-> ->]. by left.
  - rewrite app_comm_cons, (assoc_L (++)) in H. apply app_inj_tail in H as [-> ->]. right. eauto.
Qed.

Lemma pinned_same g k k' (tr : log) evs :
  (∀ a, EAuthorize a (Ok true) ∉ evs) → (length evs <= 1)%nat → pinned (World (g, k) tr) → pinned (World (g, k') (tr ++ evs)).
Proof.
  intros Hev Hl [[Hg Hn]|(a0 & name & Hc & Hs & Ha)]; [left|right]; cbn in *.
  - split; [done|]. intros a. rewrite elem_of_app. intros [?|?]; [by eapply Hn|by eapply Hev].
  - exists a0, name. split_and!; [done| |set_solver]. intros pre a post Htr.
    destruct evs as [|ev [|]]; [rewrite app_nil_r in Htr; by eapply Hs| |cbn in Hl; lia].
    apply snoc_split in Htr as [(_ & _ & ->)|(post' & -> & Htr)]; [|by eapply Hs]. by destruct (Hev a); apply elem_of_cons; left.
Qed.

Lemma pinned_authorize (Hu : unit_name e ≠ "") a : keeps pinned (do_authorize owned_ops a).
Proof.
  apply keeps_call. intros [g k] tr r [g' k'] HI H. cbn in H. unfold authorize_owned in H.
  destruct (cgroup_pin g) as [q|] eqn:Hg.
  - destruct HI as [[Hn _]|(a0 & name & Hc & Hs & Ha)]; cbn in *; [congruence|].
    destruct (authorize_cleanup a g k) as [[u|x] k1] eqn:Hau; injection H as <- <- <-; right; exists a0, name; cbn.
    + split_and!; [done| |set_solver]. intros pre b post [(_ & <- & [= ->])|(post' & -> & Htr)]%snoc_split; [|by eapply Hs].
      split; [done|by eapply authorize_spec].
    + split_and!; [done| |set_solver]. intros pre b post [(_ & _ & [=])|(post' & -> & Htr)]%snoc_split. by eapply Hs.
  - destruct HI as [[_ Hn]|(a0 & name & Hc & _)]; cbn in *; [|destruct (cap_path _ _ _ Hc) as [_ [? ?]]; congruence].
    destruct (capture_cleanup_pin a k) as [[[[q pid] ticks]|x] k1] eqn:Hcap; injection H as <- <- <-.
    + right. exists a, (default "" (dget "ControlGroup" a)). cbn. split_and!; [by eapply capture_spec| |set_solver].
      intros pre b post [(_ & _ & [=])|(post' & -> & Htr)]%snoc_split. exfalso. apply (Hn b). rewrite Htr. set_solver.
    + left. cbn. split; [done|]. intros b. rewrite elem_of_app, list_elem_of_singleton. intros [?|[=]]. by eapply Hn.
Qed.

Lemma pinned_on_system {B} (m : io K B) (log : res B → list (event unit_properties)) :
  (∀ r a, EAuthorize a (Ok true) ∉ log r) → (∀ r, length (log r) <= 1)%nat → keeps pinned (call (on_system m) log).
Proof.
  intros Hl Hn. apply keeps_call. intros [g k] tr r [g' k'] HI H. cbn in H. destruct (m k) as [r1 k1]. injection H as <- <- <-.
  by eapply pinned_same.
Qed.

Lemma pinned_cleanup (Hu : unit_name e ≠ "") deadline fuel : keeps pinned (cleanup_owned owned_ops deadline fuel).
Proof.
  apply keeps_cleanup.
  - apply keeps_call. intros [g k] tr r w' HI H. cbn in H. destruct (sys_clock sys k) as [t k1]. injection H as <- <-.
    by apply (pinned_same g k); [set_solver|cbn; lia|].
  - intros d. apply keeps_call. intros [g k] tr r w' HI H. cbn in H. injection H as <- <-. by apply (pinned_same g k); [set_solver|cbn; lia|].
  - apply keeps_call. intros [g k] tr r w' HI H. cbn in H. destruct (cgroup_pin g) as [q|].
    + destruct (observe_pin q k) as [r1 k1]. injection H as <- <-. by apply (pinned_same g k); [set_solver|cbn; lia|].
    + injection H as <- <-. by apply (pinned_same g k); [set_solver|cbn; lia|].
  - intros t. apply pinned_on_system; [set_solver|done].
  - intros a. by apply pinned_authorize.
  - intros t. apply pinned_on_system; [set_solver|done].
Qed.
End Guard.

(** C27: the cleanup of an uncertain dispatch stops only the unit it started:
    before any stop there is a readback that was still the unit of this run,
    from which the control group and the process were pinned, and a later,
    latest readback of that same unit, group and process, which was
    authorized. *)
Theorem cleanup_stops_owned {K} (sys : system K) (e : epoch) deadline fuel g k pre r post
    (Hunit : unit_name e ≠ "") (Hpin : cgroup_pin g = None)
    (Hstop : trace (cleanup_owned (owned_ops sys e) deadline fuel (World (g, k) [])).2 = pre ++ EStop r :: post) :
  ∃ a0 a1 p1 p2 p3, pre = p1 ++ EReadback (Ok a1) :: p2 ++ EAuthorize a1 (Ok true) :: p3 ∧ Forall no_read (p2 ++ p3) ∧
    EAuthorize a0 (Ok false) ∈ p1 ++ EReadback (Ok a1) :: p2 ∧ same_unit e a0 a1.
Proof.
  destruct (cleanup_owned (owned_ops sys e) deadline fuel (World (g, k) [])) as [res st] eqn:Hrun. cbn in Hstop.
  destruct (cleanup_owned_spec (owned_ops sys e) deadline fuel (World (g, k) []) minit eq_refl eq_refl _ _ Hrun) as (m & Hm & _).
  rewrite Hstop in Hm. apply steps_prefix in Hm as (m1 & Hm1 & [m2 Hm2]). cbn in Hm2.
  destruct (m_auth m1) eqn:Ha; [|done]. destruct (last_authorized _ _ Hm1 Ha) as (a1 & p1 & p2 & p3 & -> & Hp).
  pose proof (pinned_cleanup sys e Hunit deadline fuel (World (g, k) [])) as Hpinned. rewrite Hrun in Hpinned.
  destruct Hpinned as [[_ Hn]|(a0 & name & Hc & Hs & _)].
  - left. split; [done|]. set_solver.
  - destruct (Hn a1). cbn. rewrite Hstop. set_solver.
  - destruct (Hs (p1 ++ EReadback (Ok a1) :: p2) a1 (p3 ++ EStop r :: post)) as [Hin Hsame].
    + cbn. rewrite Hstop. rewrite <-!(assoc_L (++)). cbn. by rewrite <-!(assoc_L (++)).
    + by exists a0, a1, p1, p2, p3.
Qed.

(** *** A run *)
Definition ex_epoch : epoch := Epoch "omux-guard.service" "user" "/run/omux/1" "/nix/python" "/guard.py" 1000 100.
Definition nl : string := String "010" EmptyString.
Definition ex_show : string :=
  "Id=omux-guard.service" +:+ nl +:+ "Environment=A=b OMUX_EXECUTION_GUARD=/run/omux/1" +:+ nl +:+
  "ExecStart={ path=/nix/python ; argv[]=/guard.py --worker /run/omux/1 -- x }" +:+ nl +:+
  "ControlGroup=/user.slice/omux-guard.service" +:+ nl +:+ "MainPID=42" +:+ nl.
Definition ex_stat : string := "42 (a) b) S 1 2 3 4 5 6 7 8 9 10 11 12 13 14 15 16 17 18 777 20 21".
Definition ex_system : system (Z * bool) := {|
  sys_clock := λ k, (k.1, (k.1 + 1, k.2));
  sys_pause := λ d k, (k.1 + d, k.2);
  sys_show := λ _ _ k, (Ok ex_show, k);
  sys_stop := λ _ _ k, (Ok tt, (k.1, true));
  proc_owner := λ _ k, (Ok 1000, k);
  proc_stat := λ _ k, (Ok ex_stat, k);
  proc_cgroup := λ _ k, (Ok ("0::/user.slice/omux-guard.service" +:+ nl), k);
  path_ident := λ _ k, (Ok (1, 2), k);
  open_ident := λ _ k, (Ok (1, 2), k);
  read_events := λ _ k, (Ok (fsencode (if k.2 then "populated 0" else "populated 1")), k);
|}.
Definition ex_world : world (original * (Z * bool)) (event unit_properties) := World (Original None None None None, (0, false)) [].

(** The first readback pins the unit, the second is authorized, and after the
    stop the pinned group is seen empty. *)
Example owned_run :
  (cleanup_owned (owned_ops ex_system ex_epoch) 15000 150 ex_world).1 = Ok (Summary "empty" "succeeded" "verified" 2).
Proof. vm_compute. reflexivity. Qed.

Lemma cleanup_stops_owned_witness : ∃ a0 a1, same_unit ex_epoch a0 a1.
Proof.
  destruct (cleanup_stops_owned ex_system ex_epoch 15000 150 (Original None None None None) (0, false)
    (take 7 (trace (cleanup_owned (owned_ops ex_system ex_epoch) 15000 150 ex_world).2)) (Ok tt)
    (drop 8 (trace (cleanup_owned (owned_ops ex_system ex_epoch) 15000 150 ex_world).2))
    ltac:(discriminate) eq_refl ltac:(vm_compute; reflexivity)) as (a0 & a1 & _ & _ & _ & _ & _ & _ & H).
  exists a0, a1. exact H.
Defined.
End Guard.
