(* ===== verification/Supervise.v ===== *)
(** * tools/execution_guard.py: waiting for a unit

    [await_startup] and [monitor_workload] poll a unit through functions they
    are given, [controller_run] calls the service manager within a budget, and
    diagnostics reduce what went wrong to finite categories.  Times are in
    milliseconds. *)
From S2P Require Import Prelude PyBytes PyString PyValue PyText Effect Cleanup Guard.
Import Cleanup Guard.
Local Open Scope Z_scope.

Module Supervise.

(** ** The functions the loops are given *)
Record polls (W : Type) := Polls {
  p_clock : W → Z * W;
  p_pause : Z → W → W;
  p_read : W → res unit_properties * W;
  p_iteration : W → res unit * W;
}.
Arguments p_clock {W} _ _.
Arguments p_pause {W} _ _ _.
Arguments p_read {W} _ _.
Arguments p_iteration {W} _ _.

Inductive poll := Iteration | Read (actual : unit_properties).

Section Loops.
Context {W : Type} (o : polls W).
#[local] Abbreviation prog := (M W poll).

Definition now : prog Z := call (λ w, let '(t, w) := p_clock o w in (Ok t, w)) (λ _, []).
Definition wait (d : Z) : prog unit := call (λ w, (Ok tt, p_pause o d w)) (λ _, []).
Definition read : prog unit_properties := call (p_read o) (λ r, match r with Ok a => [Read a] | Err _ => [] end).
Definition iteration : prog unit := call (p_iteration o) (λ _, [Iteration]).

(** [actual.get('ActiveState') in ('inactive', 'failed')] *)
Definition ended (actual : unit_properties) : bool :=
  bool_decide (dget "ActiveState" actual = Some "inactive") || bool_decide (dget "ActiveState" actual = Some "failed").

Definition exit_status (actual : unit_properties) : res Z :=
  result ← py_int (default "125" (dget "ExecMainStatus" actual));
  Ok (if bool_decide (dget "Result" actual ≠ Some "success") && bool_decide (result = 0) then 125 else result).

Fixpoint monitor_workload (fuel : nat) (deadline : Z) : prog Z :=
  t ← now;
  if negb (bool_decide (t < deadline)) then mret 124 else
  match fuel with
  | O => throw NoFuel
  | S fuel =>
      _ ← iteration;
      actual ← read;
      if ended actual then embed (exit_status actual) else
      _ ← wait 500;
      monitor_workload fuel deadline
  end.

(** A row of the startup history *)
Definition HISTORY_KEYS : list string :=
  ["ActiveState"; "SubState"; "Result"; "Job"; "MainPID"; "ExecMainPID"; "ControlGroup"].
Definition history_row (actual : unit_properties) : list (string * option string) :=
  (λ k, (k, dget k actual)) <$> HISTORY_KEYS.

(** [state in ('active', 'failed') or state not in ('inactive', 'activating')] *)
Definition settled (actual : unit_properties) : bool :=
  let state := dget "ActiveState" actual in
  bool_decide (state ∈ [Some "active"; Some "failed"]) || negb (bool_decide (state ∈ [Some "inactive"; Some "activating"])).

Fixpoint startup_loop (fuel : nat) (deadline : Z) (actual : unit_properties) (history : list (list (string * option string))) :
    prog (unit_properties * list (list (string * option string))) :=
  let history := history ++ [history_row actual] in
  if settled actual then mret (actual, history) else
  t ← now;
  if bool_decide (t >= deadline) then mret (actual, history) else
  match fuel with
  | O => throw NoFuel
  | S fuel => _ ← wait 100; actual ← read; startup_loop fuel deadline actual history
  end.

Definition await_startup (fuel : nat) (timeout : Z) : prog (unit_properties * list (list (string * option string))) :=
  t ← now;
  actual ← read;
  startup_loop fuel (t + timeout) actual [].

(** ** What the loops report *)
Lemma bind_run {A B} (m : prog A) (k : A → prog B) st r st' :
  (m ≫= k) st = (r, st') → (∃ a st1, m st = (Ok a, st1) ∧ k a st1 = (r, st')) ∨ ∃ e, m st = (Err e, st') ∧ r = Err e.
Proof. unfold mbind, M_bind. destruct (m st) as [[a|x] st1]; intros H; [left; eauto|right; exists x; by simplify_eq]. Qed.
Lemma bind_run_Ok {A B} (m : prog A) (k : A → prog B) st b st' :
  (m ≫= k) st = (Ok b, st') → ∃ a st1, m st = (Ok a, st1) ∧ k a st1 = (Ok b, st').
Proof. intros [H|(e & _ & ?)]%bind_run; [done|congruence]. Qed.

Lemma now_trace st t st' : now st = (t, st') → trace st' = trace st.
Proof. unfold now, call. destruct (p_clock o (env st)). intros [= _ <-]. cbn. by rewrite app_nil_r. Qed.
Lemma wait_trace d st u st' : wait d st = (u, st') → trace st' = trace st.
Proof. unfold wait, call. intros [= _ <-]. cbn. by rewrite app_nil_r. Qed.
Lemma read_trace st a st' : read st = (Ok a, st') → trace st' = trace st ++ [Read a].
Proof. unfold read, call. destruct (p_read o (env st)) as [r w]. intros [= -> <-]. done. Qed.
Lemma iteration_trace st u st' : iteration st = (u, st') → trace st' = trace st ++ [Iteration].
Proof. unfold iteration, call. destruct (p_iteration o (env st)) as [r w]. intros [= _ <-]. done. Qed.

(** The log of a monitor that took these readings *)
Definition rounds (l : list unit_properties) : list poll := mjoin ((λ a, [Iteration; Read a]) <$> l).

Lemma monitor_spec fuel deadline st v st' :
  monitor_workload fuel deadline st = (Ok v, st') →
  ∃ l, Forall (λ a, ended a = false) l ∧
    ((v = 124 ∧ trace st' = trace st ++ rounds l) ∨
     ∃ a, ended a = true ∧ exit_status a = Ok v ∧ trace st' = trace st ++ rounds (l ++ [a])).
Proof.
  revert st. induction fuel as [|fuel IH]; intros st; cbn [monitor_workload];
    intros (t & st1 & H1%now_trace & H)%bind_run_Ok; (destruct (negb _);
      [injection H as <- <-; exists []; split; [constructor|left; by rewrite H1, app_nil_r]|]); [done|].
  apply bind_run_Ok in H as (u & st2 & H2%iteration_trace & H). apply bind_run_Ok in H as (a & st3 & H3%read_trace & H).
  assert (trace st3 = trace st ++ rounds [a]) as Hr by (rewrite H3, H2, H1; by rewrite <-(assoc_L (++))).
  destruct (ended a) eqn:He.
  - injection H as Hx ->. exists []. split; [constructor|]. right. exists a. auto.
  - apply bind_run_Ok in H as (? & st4 & H4%wait_trace & H). apply IH in H as (l & Hl & H). exists (a :: l).
    split; [by constructor|]. change (rounds (a :: l)) with (rounds [a] ++ rounds l).
    destruct H as [[-> Ht]|(b & ? & ? & Ht)]; [left|right; exists b; split_and!; [done|done|]].
    + split; [done|]. by rewrite Ht, H4, Hr, (assoc_L (++)).
    + change (rounds ((a :: l) ++ [b])) with (rounds [a] ++ rounds (l ++ [b])). by rewrite Ht, H4, Hr, (assoc_L (++)).
Qed.

Lemma startup_spec fuel deadline st actual h b h' st' :
  startup_loop fuel deadline actual h st = (Ok (b, h'), st') →
  ∃ l, last (actual :: l) = Some b ∧ h' = h ++ (history_row <$> actual :: l) ∧ Forall (λ a, settled a = false) (removelast (actual :: l)) ∧
    trace st' = trace st ++ (Read <$> l).
Proof.
  revert st actual h. induction fuel as [|fuel IH]; intros st actual h; cbn [startup_loop].
  all: destruct (settled actual) eqn:Hs; [intros [= <- <- <-]; exists []; split_and!; [done|done|by cbn|by rewrite app_nil_r]|].
  all: intros (t & st1 & H1%now_trace & H)%bind_run_Ok; destruct (bool_decide _);
    [injection H as <- <- <-; exists []; split_and!; [done|done|by cbn|by rewrite H1, app_nil_r]|]; try done.
  apply bind_run_Ok in H as (? & st2 & H2%wait_trace & H). apply bind_run_Ok in H as (a & st3 & H3%read_trace & H).
  apply IH in H as (l & Hl & -> & Hf & Ht). exists (a :: l). split_and!.
  - by rewrite last_cons_cons.
  - by rewrite <-(assoc_L (++)).
  - change (removelast (actual :: a :: l)) with (actual :: removelast (a :: l)). by constructor.
  - rewrite Ht, H3, H2, H1, <-(assoc_L (++)). done.
Qed.
End Loops.

(** ** Time *)
Class TimedPolls {W} (o : polls W) (time : W → Z) : Prop := {
  polls_clock w t w' : p_clock o w = (t, w') → t = time w ∧ time w <= time w';
  polls_pause d w : 0 <= d → time w + d <= time (p_pause o d w);
  polls_read w r w' : p_read o w = (r, w') → r ≠ Err NoFuel ∧ time w <= time w';
  polls_iteration w r w' : p_iteration o w = (r, w') → r ≠ Err NoFuel ∧ time w <= time w';
}.

Section Time.
Context {W : Type} (o : polls W) (time : W → Z) `{!TimedPolls o time}.

Lemma now_time st r st' : now o st = (r, st') → r = Ok (time (env st)) ∧ time (env st) <= time (env st').
Proof. unfold now, call. destruct (p_clock o (env st)) as [t w] eqn:E. intros [= <- <-]. cbn. by apply polls_clock in E as [-> ?]. Qed.
Lemma wait_time d st r st' : 0 <= d → wait o d st = (r, st') → r ≠ Err NoFuel ∧ time (env st) + d <= time (env st').
Proof. unfold wait, call. intros Hd [= <- <-]. cbn. split; [done|by apply polls_pause]. Qed.
Lemma read_time st r st' : read o st = (r, st') → r ≠ Err NoFuel ∧ time (env st) <= time (env st').
Proof. unfold read, call. destruct (p_read o (env st)) as [x w] eqn:E. intros [= <- <-]. cbn. by apply polls_read in E. Qed.
Lemma iteration_time st r st' : iteration o st = (r, st') → r ≠ Err NoFuel ∧ time (env st) <= time (env st').
Proof. unfold iteration, call. destruct (p_iteration o (env st)) as [x w] eqn:E. intros [= <- <-]. cbn. by apply polls_iteration in E. Qed.

Lemma exit_status_fuel a : exit_status a ≠ Err NoFuel.
Proof. unfold exit_status, py_int. by repeat case_match. Qed.

Lemma monitor_ends fuel deadline st r st' :
  deadline <= time (env st) + 500 * Z.of_nat fuel → monitor_workload o fuel deadline st = (r, st') → r ≠ Err NoFuel.
Proof.
  revert st. induction fuel as [|fuel IH]; intros st Hd; cbn [monitor_workload];
    intros [(t & st1 & [[= ->] H1]%now_time & H)|(e & [[=] _]%now_time & _)]%bind_run;
    (destruct (bool_decide_reflect (time (env st) < deadline)); cbn [negb] in H; [|by injection H as <- <-]); [lia|].
  apply bind_run in H as [(u & st2 & [_ H2]%iteration_time & H)|(e & [He _]%iteration_time & ->)]; [|congruence].
  apply bind_run in H as [(a & st3 & [_ H3]%read_time & H)|(e & [He _]%read_time & ->)]; [|congruence].
  destruct (ended a); [injection H as <- _; apply exit_status_fuel|].
  apply bind_run in H as [(v & st4 & [_ H4]%wait_time & H)|(e & [He _]%wait_time & ->)]; [|lia|congruence|lia].
  apply IH in H; [done|lia].
Qed.

Lemma startup_ends fuel deadline st a h r st' :
  deadline <= time (env st) + 100 * Z.of_nat fuel → startup_loop o fuel deadline a h st = (r, st') → r ≠ Err NoFuel.
Proof.
  revert st a h. induction fuel as [|fuel IH]; intros st a h Hd; cbn [startup_loop];
    (destruct (settled a); [by intros [= <- <-]|]);
    intros [(t & st1 & [[= ->] H1]%now_time & H)|(e & [[=] _]%now_time & _)]%bind_run;
    (destruct (bool_decide_reflect (time (env st) >= deadline)); [by injection H as <- <-|]); [lia|].
  apply bind_run in H as [(v & st2 & [_ H2]%wait_time & H)|(e & [He _]%wait_time & ->)]; [|lia|congruence|lia].
  apply bind_run in H as [(b & st3 & [_ H3]%read_time & H)|(e & [He _]%read_time & ->)]; [|congruence].
  apply IH in H; [done|lia].
Qed.
End Time.

(** ** The properties of the component *)


(** Both loops end: with a clock that does not run backwards and pauses
    that last, one unit of fuel per pause until the deadline suffices, and
    [await_startup] then returns its last reading with the whole history. *)
Theorem waits_end {W} (o : polls W) (time : W → Z) (Hlaws : TimedPolls o time) fuel deadline w
    (Hfuel : deadline <= time w + 100 * Z.of_nat fuel) :
  (monitor_workload o fuel deadline (World w [])).1 ≠ Err NoFuel ∧
  ∀ timeout, time w + timeout <= deadline →
    match await_startup o fuel timeout (World w []) with
    | (Ok (a, h), st) => ∃ l, last l = Some a ∧ h = history_row <$> l ∧ trace st = Read <$> l
    | (Err x, _) => x ≠ NoFuel
    end.
Proof.
  split.
  - destruct (monitor_workload o fuel deadline (World w [])) as [r st] eqn:H. apply (monitor_ends o time) in H; [done|cbn; lia].
  - intros timeout Ht. destruct (await_startup o fuel timeout (World w [])) as [r st] eqn:H. unfold await_startup in H.
    apply bind_run in H as [(t & st1 & H1 & H)|(e & [[=] _]%(now_time o time) & _)].
    pose proof (now_trace o _ _ _ H1) as T1. apply (now_time o time) in H1 as [[= ->] H1]. cbn in H1, T1.
    apply bind_run in H as [(a & st2 & H2 & H)|(e & [He _]%(read_time o time) & ->)]; [|congruence].
    pose proof (read_trace o _ _ _ H2) as T2. apply (read_time o time) in H2 as [_ H2].
    destruct r as [[b h]|x].
    + apply startup_spec in H as (l & Hl & -> & _ & ->). exists (a :: l). split_and!; [done|done|]. by rewrite T2, T1.
    + apply (startup_ends o time) in H; [congruence|cbn in *; lia].
Qed.

(** A unit that is queued for a while, runs, and ends well *)
Definition ex_reading (state : string) : unit_properties :=
  [("ActiveState", state); ("Result", "success"); ("ExecMainStatus", "0")].
Definition ex_polls : polls Z := {|
  p_clock := λ t, (t, t + 1);
  p_pause := λ d t, t + d;
  p_read := λ t, (Ok (ex_reading (if bool_decide (t < 300) then "inactive" else if bool_decide (t < 2000) then "active" else "inactive")), t);
  p_iteration := λ t, (Ok tt, t);
|}.
#[export] Instance ex_polls_timed : TimedPolls ex_polls id.
Proof. split; cbn; intros; simplify_eq; cbn; split_and?; first [done|lia]. Qed.

Lemma waits_end_witness : (monitor_workload ex_polls 100 10000 (World 0 [])).1 ≠ Err NoFuel.
Proof. destruct (waits_end ex_polls id ex_polls_timed 100 10000 0 ltac:(cbn; lia)) as [H _]. exact H. Defined.

End Supervise.
