(* ===== verification/Command.v ===== *)
(** * Profiles and commands of the execution guard

    tools/execution_guard.py builds the Bazel command of a run;
    tools/guard_dependency_profile.py, tools/guard_yoga_delivery_profile.py and
    tools/guard_owner_runtime_input.py decide which arguments a profile admits
    and which directory holds its lock.  A [Path] is represented by its text,
    [str(path)], so that equal paths are equal strings. *)
From S2P Require Import Prelude PyBytes PyString PyValue PyText.
From Stdlib Require Import Ascii.
Local Open Scope Z_scope.

Module Command.

(** ** tools/guard_yoga_delivery_profile.py *)
Module Delivery.
Definition STATE : string := "/home/jess/.local/state/omux-yoga-delivery-20261006".
Definition COORDINATION : string := "/home/jess/.local/state/omux-execution-20261005".
Definition MODES : list (string * string) :=
  [("//tools:yoga_controller_qualify", "qualify"); ("//tools:yoga_controller_inspect", "inspect"); ("//tools:yoga_controller_verify", "verify")].
Definition LABELS : list string := MODES.*1.

(** The [PrivateNetwork] setting *)
Definition selected (arguments : list string) (site pack recovery : bool) : res string :=
  _ ← raise_if (match arguments with
                | [verb; label] => bool_decide (verb ≠ "run") || negb (bool_decide (label ∈ LABELS))
                | _ => true
                end || site || pack || recovery) (ValueError "exact provider-free Yoga inspect/verify target required");
  Ok "no".

Definition coordination (selected_root : option string) (state_root : string) (arguments : list string) : res string :=
  _ ← selected arguments false false false;
  _ ← raise_if (bool_decide (state_root ≠ STATE) || bool_decide (selected_root ≠ Some COORDINATION))
        (ValueError "fixed Yoga delivery state and existing HOME lock required");
  Ok COORDINATION.

(** [now] is [time.monotonic_ns()] *)
Definition envelope (now deadline_ns : Z) (arguments : list string) (approved_sha256 : option string) : res (list (string * string)) :=
  _ ← selected arguments false false false;
  mode ← match dget (nth 1 arguments "") MODES with Some m => Ok m | None => Err KeyError end;
  _ ← raise_if (negb (bool_decide (30 * 10 ^ 9 < deadline_ns - now <= 1200 * 10 ^ 9))) (ValueError "original enclosing deadline required");
  _ ← raise_if (if bool_decide (mode = "qualify") then bool_decide (approved_sha256 ≠ None)
                else match approved_sha256 with Some s => negb (is_sha256_hex s) | None => true end)
        (ValueError "prior authenticated OS qualification required; no selfapproval");
  let result := [("OMUX_YOGA_DELIVERY_DEADLINE_NS", int_print deadline_ns); ("OMUX_YOGA_DELIVERY_MODE", mode)] in
  Ok (match approved_sha256 with Some s => dset "OMUX_YOGA_DELIVERY_AUTHORITY_SHA256" s result | None => result end).

Definition run_options (values : list (string * string)) : res (list string) :=
  let require_keys := ["OMUX_YOGA_DELIVERY_DEADLINE_NS"; "OMUX_YOGA_DELIVERY_MODE"] in
  _ ← raise_if (negb (forallb (λ k, bool_decide (k ∈ dkeys values)) require_keys)
                || negb (forallb (λ k, bool_decide (k ∈ "OMUX_YOGA_DELIVERY_AUTHORITY_SHA256" :: require_keys)) (dkeys values)))
        (ValueError "fixed delivery envelope keys required");
  Ok ((λ kv, "--run_env=" +:+ kv.1 +:+ "=" +:+ kv.2) <$> merge_sort pair_le values).
End Delivery.

(** ** tools/guard_owner_runtime_input.py *)
Definition VARIABLE : string := "OMUX_CODEX_OWNER_RUNTIME_DIRECTORY".
Definition DIAGNOSTIC : string := "//delivery:installed_legacy_native_fd2_diagnostic_test".
Definition CONSUMERS : list string :=
  [DIAGNOSTIC; "//delivery:installed_native_interop_test"; "//delivery:installed_native_discovery_test";
   "//delivery:installed_legacy_native_tui_test"; "//tools:codex_owner_runtime_input_copy"; "//tools:codex_owner_runtime_input_qualification"].
Definition COMPANIONS : list string :=
  ["//tools:codex_owner_runtime_input_test"; "//tools:guard_owner_runtime_input_test"; "//tools:execution_guard_test";
   "//tools:guard_dependency_profile_test"; "//tools:runtime_source_receipt"; "//:docs_check"].

(** [unrelated]: whether any of the unrelated inputs is given *)
Definition finite (profile : string) (arguments : list string) (unrelated : bool) : res unit :=
  let labels := drop 1 arguments in
  _ ← raise_if (bool_decide (DIAGNOSTIC ∈ arguments) && existsb (λ a, negb (bool_decide (a ∈ DIAGNOSTIC :: COMPANIONS))) labels)
        (ValueError "retained-diagnostic-profile");
  raise_if (bool_decide (profile ≠ "standard") || negb (bool_decide (head arguments ∈ [Some "build"; Some "test"]))
            || bool_decide (length arguments < 2)%nat || negb (bool_decide (NoDup labels))
            || negb (existsb (λ a, bool_decide (a ∈ CONSUMERS)) labels)
            || negb (forallb (λ a, bool_decide (a ∈ CONSUMERS ++ COMPANIONS)) labels) || unrelated)
    (ValueError "retained-input-profile").

(** ** tools/guard_dependency_profile.py *)
Definition FETCH_LABEL : string := "//tools:fetch_codex_archives_bundle".
Definition BUNDLE_FETCH_LABEL : string := "//tools:codex_dependency_bundle_producer".
Definition HOME_MANAGER_FETCH_LABEL : string := "//tools:home_manager_acquisition_producer".
Definition GIT_FETCH_LABEL : string := "//tools:codex_git_input_producer_0".
Definition COORDINATION_DIRECTORY : string := "/home/jess/.local/state/omux-execution-20261005".
Definition HOME_MANAGER_STATE : string := "/home/jess/.local/state/omux-home-manager-prefetch-20261006".
Definition HOME_GIT_STATE : string := "/home/jess/.local/state/omux-codex-git-prefetch-20261006".
Definition HOME_HTTP_STATE : string := "/home/jess/.local/state/omux-codex-http-prefetch-20261006".
Definition RECOVERY_DIRECTORY : string := "/srv/fast-local/jess/state/codex/omux-codex-native-recovery-development-20261004/source".
Definition LANE_LABELS : list string :=
  ["//codex-rs/core:core-unit-tests"; "//codex-rs/app-server:app-server-unit-tests";
   "//codex-rs/app-server-protocol:app-server-protocol-unit-tests"].
Definition FETCH_LABELS : list string := [FETCH_LABEL; BUNDLE_FETCH_LABEL; HOME_MANAGER_FETCH_LABEL; GIT_FETCH_LABEL].

(** [len(arguments) == 2 and arguments[0] == verb and arguments[1] in labels] *)
Definition one_label (verb : string) (labels arguments : list string) : bool :=
  match arguments with [v; l] => bool_decide (v = verb) && bool_decide (l ∈ labels) | _ => false end.

Definition selected_profile (profile : string) (arguments : list string) (site_inputs pack_input recovery_input : bool) : res string :=
  if bool_decide (profile = "yoga-controller-delivery") then Delivery.selected arguments site_inputs pack_input recovery_input else
  _ ← raise_if (negb (bool_decide (profile ∈ ["standard"; "dependency-prefetch"; "installed-browser"; "codex-sdk"; "yoga-toolbar"])))
        (ValueError "unknown execution profile");
  _ ← raise_if (recovery_input && bool_decide (profile ≠ "standard"))
        (ValueError "recovery source is exclusive to the standard producer profile");
  _ ← raise_if (bool_decide (profile = "codex-sdk") && (site_inputs || pack_input || negb (one_label "test" LANE_LABELS arguments)))
        (ValueError "SDK profile requires one fixed lane without unrelated inputs");
  _ ← raise_if (bool_decide (profile = "dependency-prefetch") && (negb (one_label "test" FETCH_LABELS arguments) || site_inputs || pack_input))
        (ValueError "dependency profile permits one exact producer without extra/application/site inputs");
  _ ← raise_if (bool_decide (profile = "installed-browser") &&
                (bool_decide (arguments ≠ ["test"; "//delivery:installed_chromium_test"]) || pack_input))
        (ValueError "installed browser profile permits only its exact test without native pack inputs");
  _ ← raise_if (bool_decide (profile = "yoga-toolbar") &&
                (bool_decide (arguments ≠ ["run"; "//delivery:yoga_toolbar_consent_proof"]) || site_inputs || pack_input || recovery_input))
        (ValueError "Yoga permits one exact local proof without acquisition/SDK/site inputs");
  Ok (if bool_decide (profile = "dependency-prefetch") then "no" else "yes").

(** [validate_private(selected, owner_only=False)] is [validate] *)
Definition recovery_source (path : string) (validate : string → res unit) : res string :=
  _ ← raise_if (bool_decide (path ≠ RECOVERY_DIRECTORY)) (ValueError "only the fixed public recovery source is accepted");
  _ ← validate path;
  Ok path.

Definition FAST : string := "/srv/fast-local/jess/state/".
Definition fixed_lock (profile : string) (arguments : option (list string)) (label : string) (selected : option string) : bool :=
  bool_decide (profile = "dependency-prefetch") && bool_decide (arguments = Some ["test"; label])
  && bool_decide (selected = Some COORDINATION_DIRECTORY).

Definition validate_coordination (profile : string) (selected : option string) (state_root : string) (arguments : option (list string)) : res string :=
  if bool_decide (profile = "yoga-controller-delivery") then
    args ← match arguments with Some l => Ok l | None => Err TypeError end;
    Delivery.coordination selected state_root args
  else
  _ ← raise_if (negb (startswith "/" state_root) || bool_decide (".." ∈ path_parts state_root)) (ValueError "absolute canonical state path required");
  if bool_decide (state_root = HOME_HTTP_STATE) then
    _ ← ensure (fixed_lock profile arguments BUNDLE_FETCH_LABEL selected)
          (ValueError "HTTP HOME state requires its exact bundle producer and fixed controller lock");
    Ok COORDINATION_DIRECTORY
  else if bool_decide (state_root = HOME_GIT_STATE)
       || (bool_decide (profile = "dependency-prefetch") && bool_decide (arguments = Some ["test"; GIT_FETCH_LABEL])) then
    _ ← ensure (fixed_lock profile arguments GIT_FETCH_LABEL selected && bool_decide (state_root = HOME_GIT_STATE))
          (ValueError "Git HOME state requires its exact first producer and fixed controller lock");
    Ok COORDINATION_DIRECTORY
  else if bool_decide (state_root = HOME_MANAGER_STATE) then
    _ ← ensure (fixed_lock profile arguments HOME_MANAGER_FETCH_LABEL selected)
          (ValueError "Home Manager HOME state requires its exact producer and fixed controller lock");
    Ok COORDINATION_DIRECTORY
  else
  let other := match selected with Some s => bool_decide (s ≠ state_root) | None => false end in
  _ ← raise_if (bool_decide (profile = "yoga-toolbar") && (negb (startswith "/srv/" state_root) || other))
        (ValueError "Yoga requires one explicit local /srv state and coordination root");
  _ ← raise_if (bool_decide (profile ∈ ["standard"; "installed-browser"]) && other
                && (bool_decide (selected ≠ Some COORDINATION_DIRECTORY) || negb (startswith FAST state_root)))
        (ValueError "alternate standard coordination requires fixed home lock and fast state");
  _ ← (if bool_decide (profile ∈ ["dependency-prefetch"; "codex-sdk"]) then
         _ ← raise_if (bool_decide (selected ≠ Some COORDINATION_DIRECTORY))
               (ValueError "dependency producer requires the existing controller coordination directory");
         _ ← raise_if (bool_decide (state_root = COORDINATION_DIRECTORY)) (ValueError "dependency output must use its separate fast-storage state");
         ensure (startswith FAST state_root) (ValueError "dependency state must use the explicit fast-storage operator root")
       else Ok tt);
  Ok (default state_root selected).

(** ** tools/execution_guard.py *)
Definition legacy_globbing_threads : Z := 2.
Definition fsvc_threads : Z := 2.

Record inputs := Inputs {
  repository_cache : option string; source_commit : option string; source_dirty : option string; nixpkgs_source : option string;
  output_base : option string; site_source : option string; site_inventory : option string; site_inventory_sha256 : option string;
  site_nixpkgs_source : option string; codex_pack_directory : option string; codex_recovery_source : option string;
  codex_pristine_directory : option string; codex_recovery_delta_directory : option string; codex_owner_runtime_directory : option string }.

Definition path_text (o : option string) : string := default "None" o.
Definition given (o : option string) : bool := bool_decide (o ≠ None).

Definition format_base : list string := ["run"; "//:format"; "--"; "src/main.zig"; "src/setup_collector.zig"; "src/setup_collector_tests.zig"].
Definition FORMATTERS : list (list string) :=
  [format_base; format_base ++ ["src/engine.zig"]; ["run"; "//:format"; "--"; "src"];
   ["run"; "//delivery:linux_launcher_format"; "--"; "delivery/linux_launcher.zig"]].

Definition is_label (arg : string) : bool := startswith "//" arg && negb (existsb is_space (str_chars arg)).

(** [re.fullmatch(r'[0-9a-f]{40}', s)] *)
Definition is_commit (s : string) : bool := bool_decide (String.length s = 40%nat) && str_all is_lower_hex s.

Definition option_arg (prefix : string) (o : option string) : list string :=
  match o with Some p => [prefix +:+ p] | None => [] end.

Section BazelCommand.
(** [store_directory], which resolves a path in the file system *)
Context (store_directory : string → res string).

Definition provenance_args (i : inputs) : res (list string) :=
  if given (source_commit i) || given (source_dirty i) then
    match source_commit i, source_dirty i with
    | Some c, Some d =>
        _ ← ensure (is_commit c && bool_decide (d ∈ ["true"; "false"])) (ValueError "complete explicit source provenance required");
        Ok ["--define=OMUX_SOURCE_COMMIT=" +:+ c; "--define=OMUX_SOURCE_DIRTY=" +:+ d]
    | _, _ => Err (ValueError "complete explicit source provenance required")
    end
  else Ok [].

Definition pack_args (profile : string) (arguments : list string) (i : inputs) : res (list string) :=
  let args := option_arg "--repo_env=OMUX_CODEX_PACK_DIRECTORY=" (codex_pack_directory i) ++
    (if given (codex_pristine_directory i) then
       ["--repo_env=OMUX_CODEX_PRISTINE_DIRECTORY=" +:+ path_text (codex_pristine_directory i);
        "--repo_env=OMUX_CODEX_RECOVERY_DELTA_DIRECTORY=" +:+ path_text (codex_recovery_delta_directory i)] else []) in
  match codex_recovery_source i with
  | None => Ok args
  | Some r =>
      _ ← selected_profile profile arguments false false true;
      r ← recovery_source r (λ _, Ok tt);
      Ok (args ++ ["--repo_env=OMUX_CODEX_RECOVERY_SOURCE=" +:+ r])
  end.

Definition site_args (i : inputs) : res (list string) :=
  let args := option_arg "--repo_env=OMUX_SITE_SOURCE=" (site_source i) in
  args ← match site_nixpkgs_source i with
    | None => Ok args
    | Some n =>
        _ ← ensure (given (site_source i)) (ValueError "site Nixpkgs input requires explicit sibling source");
        n ← store_directory n;
        Ok (args ++ ["--repo_env=OMUX_SITE_NIXPKGS_EVALUATION_SOURCE=" +:+ n])
    end;
  if given (site_inventory i) || given (site_inventory_sha256 i) then
    match site_inventory i, site_inventory_sha256 i with
    | Some s, Some h =>
        _ ← ensure (is_sha256_hex h) (ValueError "complete exact site inventory selection required");
        Ok (args ++ ["--repo_env=OMUX_SITE_INVENTORY=" +:+ s; "--repo_env=OMUX_SITE_INVENTORY_SHA256=" +:+ h])
    | _, _ => Err (ValueError "complete exact site inventory selection required")
    end
  else Ok args.

Definition TEST_ARGS : list string :=
  ["--keep_going"; "--test_output=errors"; "--test_summary=detailed"; "--test_env=TZ=UTC"; "--nocache_test_results";
   "--nozip_undeclared_test_outputs"; "--strategy=TestRunner=processwrapper-sandbox"].
Definition test_args (profile : string) (arguments : list string) (i : inputs) : res (list string) :=
  let args := (if bool_decide (head arguments = Some "test") then TEST_ARGS else []) ++
    (if bool_decide (arguments = ["test"; "//tools:execution_probe_output"]) then ["--experimental_ui_max_stdouterr_bytes=10485760"] else []) in
  if bool_decide (profile = "installed-browser") then
    _ ← selected_profile profile arguments false (given (codex_pack_directory i)) false;
    Ok (args ++ ["--test_env=OMUX_BROWSER_HOST_CONFIGURATION=host-configurations-unavailable"])
  else Ok args.

Definition STARTUP : list string :=
  ["--batch"; "--nosystem_rc"; "--nohome_rc"; "--host_jvm_args=-Xmx1536m"; "--host_jvm_args=-XX:ActiveProcessorCount=2"; "--noworkspace_rc"].
Definition OPTIONS : list string :=
  ["--jobs=2"; "--legacy_globbing_threads=" +:+ int_print legacy_globbing_threads; "--experimental_fsvc_threads=" +:+ int_print fsvc_threads;
   "--spawn_strategy=sandboxed"; "--remote_executor="; "--remote_cache="; "--disk_cache="; "--sandbox_default_allow_network=false";
   "--enable_bzlmod"; "--noenable_workspace"; "--incompatible_strict_action_env";
   "--@rules_zig//zig/settings:use_standalone_translate_c"; "--lockfile_mode=error"].

Definition check_verb (profile : string) (arguments : list string) : res unit :=
  let formatter := bool_decide (profile = "standard") && bool_decide (arguments ∈ FORMATTERS) in
  _ ← ensure (bool_decide (head arguments ∈ [Some "build"; Some "test"]) || (bool_decide (arguments ≠ []) && formatter))
        (ValueError "explicit Bazel verb required");
  raise_if (negb formatter && (bool_decide (length arguments < 2)%nat || existsb (λ a, negb (is_label a)) (drop 1 arguments)))
    (ValueError "only explicit local Bazel labels are accepted").

Definition bazel_command (bazel run : string) (arguments : list string) (profile : string) (i : inputs) : res (list string) :=
  _ ← check_verb profile arguments;
  provenance ← provenance_args i;
  _ ← (if given (codex_owner_runtime_directory i) then
         finite profile arguments (existsb given [nixpkgs_source i; site_source i; site_inventory i; site_nixpkgs_source i;
           codex_pack_directory i; codex_recovery_source i; codex_pristine_directory i; codex_recovery_delta_directory i]
           || bool_decide (default "" (site_inventory_sha256 i) ≠ ""))
       else Ok tt);
  pack ← pack_args profile arguments i;
  site ← site_args i;
  test ← test_args profile arguments i;
  let retained := ["--repo_env=" +:+ VARIABLE +:+ "=" +:+ default "" (codex_owner_runtime_directory i)] in
  Ok ([bazel] ++ STARTUP ++ ["--output_base=" +:+ default (run +:+ "/output-base") (output_base i)] ++ take 1 arguments ++ OPTIONS
      ++ option_arg "--repository_cache=" (repository_cache i)
      ++ option_arg "--repo_env=OMUX_NIXPKGS_EVALUATION_SOURCE=" (nixpkgs_source i)
      ++ site ++ pack ++ retained ++ test ++ provenance ++ drop 1 arguments).
End BazelCommand.

(** [l[l.index(x)] = y] *)
Fixpoint replace_first (x y : string) (l : list string) : res (list string) :=
  match l with
  | [] => Err (ValueError "not in list")
  | z :: l => if bool_decide (z = x) then Ok (y :: l) else l ← replace_first x y l; Ok (z :: l)
  end.

(** [l[-1:-1] = m] *)
Definition insert_before_last (m l : list string) : list string := take (length l - 1) l ++ m ++ drop (length l - 1) l.

Definition no_inputs (source_commit source_dirty : option string) : inputs :=
  Inputs None source_commit source_dirty None None None None None None None None None None None.

Definition yoga_delivery_command (store_directory : string → res string) (now : Z) (bazel run : string) (arguments : list string)
    (deadline_ns : Z) (prior : option (string * string)) (source_commit source_dirty : option string) :
    res (list string * list (string * string)) :=
  _ ← Delivery.selected arguments false false false;
  command ← bazel_command store_directory bazel run ["build"; nth 1 arguments ""] "standard" (no_inputs source_commit source_dirty);
  command ← replace_first "build" "run" command;
  values ← Delivery.envelope now deadline_ns arguments (snd <$> prior);
  options ← Delivery.run_options values;
  let options := options ++ (if bool_decide (prior = None) then ["--run_env=OMUX_YOGA_DELIVERY_AUTHORITY_SHA256="] else [])
    ++ ["--repo_env=OMUX_YOGA_DELIVERY_QUALIFICATION=" +:+ default "" (fst <$> prior); "--symlink_prefix=" +:+ run +:+ "/bazel-"] in
  Ok (insert_before_last options command, values).

Definition sdk_owned_command (argv : list string) (run : string) (output_base : option string) : res (list string) :=
  _ ← raise_if (bool_decide (length (List.filter (startswith "--output_base=") argv) ≠ 1%nat))
        (ValueError "SDK command must have exactly one owned output base");
  let command := (λ part, if startswith "--output_base=" part
                          then "--output_base=" +:+ default (run +:+ "/output-base") output_base else part) <$> argv in
  let command := take 2 command ++ ["--host_jvm_args=-Xmx768m"; "--host_jvm_args=-XX:ActiveProcessorCount=1"] ++ drop 2 command in
  Ok (command ++ ["--nocache_test_results"; "--nozip_undeclared_test_outputs"; "--symlink_prefix=" +:+ run +:+ "/bazel-";
                  "--disk_cache="; "--spawn_strategy=sandboxed"; "--sandbox_default_allow_network=false"]).

(** ** Network *)

(** The network is open only for one declared producer: a profile gets a
    shared network only as the dependency prefetch of one of the four fetch
    labels, or as the Yoga delivery of one of its three labels, without any
    site, pack or recovery input, and as the whole command. *)
Theorem network_only_for_producers profile arguments site pack recovery net
    (H : selected_profile profile arguments site pack recovery = Ok net) :
  net = "yes" ∨
  net = "no" ∧ site = false ∧ pack = false ∧ recovery = false ∧
  ((profile = "dependency-prefetch" ∧ ∃ l, arguments = ["test"; l] ∧ l ∈ FETCH_LABELS) ∨
   (profile = "yoga-controller-delivery" ∧ ∃ l, arguments = ["run"; l] ∧ l ∈ Delivery.LABELS)).
Proof.
  unfold selected_profile in H. destruct (bool_decide_reflect (profile = "yoga-controller-delivery")) as [->|_].
  - unfold Delivery.selected in H. apply bind_Ok in H as (? & Hg%raise_if_Ok & [= <-]). right.
    apply orb_false_iff in Hg as [Hg ->]. apply orb_false_iff in Hg as [Hg ->]. apply orb_false_iff in Hg as [Hg ->].
    destruct arguments as [|v [|l []]]; try done. ok_inv. split_and!; try done. right. split; [done|].
    exists l. split; [|done]. f_equal. by apply dec_stable.
  - apply bind_Ok in H as (? & _ & H). apply bind_Ok in H as (? & Hrec%raise_if_Ok & H). skip_steps 1 in H.
    apply bind_Ok in H as (? & Hdep%raise_if_Ok & H). skip_steps 2 in H. injection H as <-.
    destruct (bool_decide_reflect (profile = "dependency-prefetch")) as [->|_]; [|by left]. right.
    cbn [andb] in Hdep. rewrite bool_decide_true, andb_true_r in Hrec by done. ok_inv.
    split_and!; try done. left. split; [done|].
    destruct arguments as [|v [|l []]]; try done. unfold one_label in *. ok_inv. by exists l.
Qed.

Lemma network_only_for_producers_witness : selected_profile "dependency-prefetch" ["test"; GIT_FETCH_LABEL] false false false = Ok "no".
Proof.
  assert (selected_profile "dependency-prefetch" ["test"; GIT_FETCH_LABEL] false false false = Ok "no") as H by (vm_compute; reflexivity).
  destruct (network_only_for_producers _ _ _ _ _ _ H) as [Hn|_]; [discriminate Hn|exact H].
Defined.

(** The lock of a prefetch or an SDK run is the controller's, and its state is elsewhere. *)
Lemma coordination_fixed profile selected state arguments lock :
  profile ∈ ["dependency-prefetch"; "codex-sdk"] → validate_coordination profile selected state arguments = Ok lock →
  lock = COORDINATION_DIRECTORY ∧ selected = Some COORDINATION_DIRECTORY ∧ state ≠ COORDINATION_DIRECTORY.
Proof.
  intros Hp H. unfold validate_coordination in H.
  destruct (bool_decide_reflect (profile = "yoga-controller-delivery")) as [->|_]; [set_solver|].
  skip_steps 1 in H. unfold fixed_lock in H.
  destruct (bool_decide_reflect (state = HOME_HTTP_STATE)) as [->|_]; [ok_inv; done|].
  destruct (bool_decide_reflect (state = HOME_GIT_STATE)) as [->|_]; cbn [orb] in H; [ok_inv; done|].
  destruct (_ && _); [ok_inv; done|].
  destruct (bool_decide_reflect (state = HOME_MANAGER_STATE)) as [->|_]; [ok_inv; done|].
  skip_steps 2 in H. apply bind_Ok in H as (? & Hl & H). rewrite bool_decide_true in Hl by done. ok_inv.
  assert (selected = Some COORDINATION_DIRECTORY) as -> by by apply dec_stable. done.
Qed.

(** ** The command line *)
Section CommandLine.
Context (store_directory : string → res string).

(** An argument that can neither turn remote execution or a cache on nor
    loosen the sandbox *)
Definition DANGEROUS : list string := ["--remote"; "--disk_cache"; "--spawn"; "--sandbox"; "--config"; "--bazelrc"].
Definition harmless (arg : string) : bool := forallb (λ p, negb (startswith p arg)) DANGEROUS.

Lemma harmless_prefix p s : (12 <= String.length p)%nat → harmless p = true → harmless (p +:+ s) = true.
Proof.
  intros Hl Hp. unfold harmless in *. rewrite forallb_forall in Hp |- *. intros d Hd. specialize (Hp d Hd).
  rewrite negb_true_iff in Hp |- *. assert (String.length d <= String.length p)%nat as Hlen.
  { etrans; [|exact Hl]. cbn in Hd. repeat destruct Hd as [<-|Hd]; cbn; lia. }
  clear -Hp Hlen. revert p Hp Hlen. induction d as [|c d IH]; intros p Hp Hl; [done|]. destruct p as [|a p]; [cbn in Hl; lia|].
  rewrite str_append_cons. cbn in *. destruct (bool_decide (c = a)); [|done]. cbn in *. apply IH; [done|lia].
Qed.

Lemma harmless_label a : is_label a = true → harmless a = true.
Proof.
  unfold is_label. intros [Hs _]%andb_true_iff. apply startswith_spec in Hs as [t ->]. done.
Qed.

Definition safe (l : list string) : Prop := Forall (λ x, harmless x = true) l.
Lemma safe_dec l : forallb harmless l = true → safe l.
Proof. intros H. apply Forall_forall. intros x Hx. rewrite forallb_forall in H. by apply H, list_elem_of_In. Qed.
Lemma safe_option p o : (12 <= String.length p)%nat → harmless p = true → safe (option_arg p o).
Proof. intros. destruct o; repeat constructor. by apply harmless_prefix. Qed.

Lemma provenance_safe i l : provenance_args i = Ok l → safe l.
Proof.
  unfold provenance_args. destruct (_ || _); [|by intros [= <-]; constructor]. destruct (source_commit i), (source_dirty i); try done.
  intros (? & _ & [= <-])%bind_Ok. repeat constructor.
Qed.
Lemma pack_safe profile arguments i l : pack_args profile arguments i = Ok l → safe l.
Proof.
  unfold pack_args. set (a := option_arg _ _ ++ _). assert (safe a) as Ha.
  { apply Forall_app. split; [by apply safe_option; [cbn; lia|]|]. destruct (given _); repeat constructor. }
  destruct (codex_recovery_source i); [|by intros [= <-]]. intros H. skip_steps 1 in H. apply bind_Ok in H as (? & _ & [= <-]).
  apply Forall_app. split; [done|]. repeat constructor.
Qed.
Lemma site_safe i l : site_args store_directory i = Ok l → safe l.
Proof.
  unfold site_args. intros (a & Ha & H)%bind_Ok. assert (safe a) as Hs.
  { destruct (site_nixpkgs_source i); [|injection Ha as <-; by apply safe_option; [cbn; lia|]].
    skip_steps 1 in Ha. apply bind_Ok in Ha as (? & _ & [= <-]). apply Forall_app. split; [by apply safe_option; [cbn; lia|]|]. repeat constructor. }
  destruct (_ || _); [|by injection H as <-]. destruct (site_inventory i), (site_inventory_sha256 i); try done.
  skip_steps 1 in H. injection H as <-. apply Forall_app. split; [done|]. repeat constructor.
Qed.
Lemma test_safe profile arguments i l : test_args profile arguments i = Ok l → safe l.
Proof.
  assert (safe ((if bool_decide (head arguments = Some "test") then TEST_ARGS else []) ++
    (if bool_decide (arguments = ["test"; "//tools:execution_probe_output"]) then ["--experimental_ui_max_stdouterr_bytes=10485760"] else []))) as Ha.
  { apply Forall_app. split; case_match; by apply safe_dec. }
  unfold test_args. destruct (bool_decide (profile = _)); [|by intros [= <-]]. intros H. skip_steps 1 in H. injection H as <-.
  apply Forall_app. split; [done|by apply safe_dec].
Qed.

(** The arguments that decide about remote execution, caches and the sandbox *)
Definition FIXED : list string :=
  ["--spawn_strategy=sandboxed"; "--remote_executor="; "--remote_cache="; "--disk_cache="; "--sandbox_default_allow_network=false"].
Lemma options_fixed x : x ∈ OPTIONS → harmless x = true ∨ x ∈ FIXED.
Proof.
  assert (forallb (λ x, harmless x || bool_decide (x ∈ FIXED)) OPTIONS = true) as H by (vm_compute; reflexivity).
  rewrite forallb_forall in H. intros Hx%list_elem_of_In%H. apply orb_true_iff in Hx as [?|Hx]; [by left|].
  right. by apply bool_decide_eq_true in Hx.
Qed.
Lemma formatters_safe l : l ∈ FORMATTERS → safe l.
Proof.
  assert (forallb (forallb harmless) FORMATTERS = true) as H by (vm_compute; reflexivity).
  rewrite forallb_forall in H. intros Hl%list_elem_of_In%H. by apply safe_dec.
Qed.

End CommandLine.

End Command.
