(* ===== verification/Provenance.v ===== *)
(** * tools/reapi_provenance.py: analysis of the action graph

    The first half of the reconciliation: the lookup tables of an aquery
    graph, the memoised expansion of path fragments and dep sets, the actions
    reachable from the archive and the plan of spawns built from them.  Graph
    and manifest are decoded JSON; Python sets whose order does not matter are
    [gset]s, dictionaries that are iterated are association lists.  The caches
    of [path] and [inputs] are threaded explicitly. *)
From S2P Require Import Prelude PyBytes PyString PyValue PyText Sha256.
From Stdlib Require Import Ascii.
Import Sha256.
Local Open Scope Z_scope.

Module Provenance.

Definition MAX_ITEMS : Z := 1000000.
Definition MAX_ACTIONS : Z := 100000.
Definition MAX_DEPTH : nat := 128.

Definition fail {A} (message : string) : res A := Err (ValueError message).

(** [if v] on a decoded value *)
Definition truthy (v : value) : bool :=
  match v with
  | VNone => false
  | VBool b => b
  | VInt z => bool_decide (z ≠ 0)
  | VFloat (SpecFloat.S754_zero _) => false
  | VFloat _ => true
  | VStr s => bool_decide (s ≠ "")
  | VList l => bool_decide (l ≠ [])
  | VDict d => bool_decide (d ≠ [])
  end.

(** [str(v)] where the result is compared with graph identifiers: a float, a
    list or a dict prints as no identifier, and as nothing that is tested. *)
Definition id_text (v : value) : string :=
  match v with
  | VNone => "None"
  | VBool b => if b then "True" else "False"
  | VInt z => int_print z
  | VStr s => s
  | _ => ""
  end.

(** ** Regular expressions *)
Definition chr_class (p : ascii → bool) (c : string) : bool :=
  match c with String a EmptyString => p a | _ => false end.
Definition lower_alnum : string → bool := chr_class (λ a, is_lower a || is_digit a).

(** The literal [p] at the head of a list of characters *)
Fixpoint eat (p : list string) (l : list string) : option (list string) :=
  match p, l with
  | [], _ => Some l
  | a :: p, b :: l => if bool_decide (a = b) then eat p l else None
  | _, _ => None
  end.

(** The characters of a store root: [/nix/store/], 32 of [a-z0-9], a dash and
    a run of at least one character of [tail] *)
Definition store_match (tail : string → bool) (l : list string) : option (list string * list string) :=
  match eat (str_chars "/nix/store/") l with
  | None => None
  | Some r =>
      let h := take 32 r in
      if bool_decide (length h = 32%nat) && forallb lower_alnum h then
        match drop 32 r with
        | "-" :: r =>
            match span tail r with
            | ([], _) => None
            | (n, r) => Some (str_chars "/nix/store/" ++ h ++ ["-"] ++ n, r)
            end
        | _ => None
        end
      else None
  end.

Definition root_tail (c : string) : bool :=
  negb (is_space c) && negb (chr_class (chr_of ("/'" +:+ quote_mark)) c).
Definition absolute_tail (c : string) : bool :=
  negb (is_space c) && negb (chr_class (chr_of ("':;,(){}[]" +:+ quote_mark)) c).

(** [ROOT.match(s)] and its text; [ROOT.fullmatch(s)] *)
Definition root_match (s : string) : option string := unchars <$> (fst <$> store_match root_tail (str_chars s)).
Definition root_fullmatch (s : string) : bool :=
  match store_match root_tail (str_chars s) with Some (_, []) => true | _ => false end.

Definition absolute_match (l : list string) : option (list string) :=
  match store_match (λ c, absolute_tail c && negb (bool_decide (c = "/"))) l with
  | None => None
  | Some (m, "/" :: r) => Some (m ++ "/" :: (span absolute_tail r).1)
  | Some (m, _) => Some m
  end.

(** [ABSOLUTE_INPUT.finditer(s)]: the matches from left to right; [skip]
    characters are left of the latest one *)
Fixpoint absolute_refs (skip : nat) (l : list string) : list string :=
  match l with
  | [] => []
  | _ :: l' =>
      match skip with
      | S skip => absolute_refs skip l'
      | O =>
          match absolute_match l with
          | Some m => unchars m :: absolute_refs (length m - 1) l'
          | None => absolute_refs 0 l'
          end
      end
  end.

Definition repo_chr (c : string) : bool := chr_class (λ a, is_alnum a || chr_of "_.+-" a) c.

(** [REPOSITORY.match(path)]: the group and the rest *)
Definition repository_match (path : string) : option (string * string) :=
  match eat (str_chars "external/") (str_chars path) with
  | None => None
  | Some r =>
      match span repo_chr r with
      | ([], _) => None
      | (g, "/" :: rest) => Some (unchars g, unchars rest)
      | _ => None
      end
  end.

Definition PLATFORMS : list string :=
  ["@omux_nix//:execution_platform"; "@@omux_nix//:execution_platform";
   "@+omux_nix_repository+omux_nix//:execution_platform"; "@@+omux_nix_repository+omux_nix//:execution_platform"].
Definition NIX_REPOSITORIES : list string := ["omux_nix"; "+omux_nix_repository+omux_nix"].
Definition REQUIRED : list string := ["OmuxSwiftUI"; "OmuxMacOSBundle"; "OmuxMacOSArchive"; "ZigBuildExe"].
Definition REQUIRED_TARGETS : list (string * string) :=
  [("//clients/macos:control", "OmuxSwiftUI"); ("//clients/macos:Omux", "OmuxMacOSBundle");
   ("//clients/macos:archive", "OmuxMacOSArchive"); ("//:omux", "ZigBuildExe"); ("//:omuxd", "ZigBuildExe")].
Definition NON_SPAWN : list string :=
  ["FileWrite"; "FileWriteAction"; "ParameterFileWrite"; "ExecutableSymlink"; "RepoMappingManifest"; "SourceSymlinkManifest";
   "SymlinkTree"; "RunfilesTree"; "Symlink"; "UnresolvedSymlink"; "SolibSymlink"; "TemplateExpand"; "Middleman"].

(** ** Shapes *)
Definition array_bound (v : value) (bound : Z) : res (list value) :=
  match v with
  | VList l => if bool_decide (zlen l > bound) then fail "array shape or bound rejected" else Ok l
  | _ => fail "array shape or bound rejected"
  end.
Definition array (v : value) : res (list value) := array_bound v MAX_ITEMS.

Definition as_str (v : value) : option string := match v with VStr s => Some s | _ => None end.

Definition pairs (v : value) (key : string) (proto_defaults : bool) : res (list (string * string)) :=
  l ← array v;
  forM (λ result item,
    name ← getitem item key;
    content ← (if proto_defaults then get_or item "value" (VStr "") else getitem item "value");
    match as_str name, as_str content with
    | Some n, Some c =>
        if bool_decide (n ∈ dkeys result) then fail "metadata pairs rejected" else Ok (dset n c result)
    | _, _ => fail "metadata pairs rejected"
    end) l [].

Definition identifier : string → bool := positive_decimal.

Definition table (v : value) : res (list (string * value)) :=
  l ← array v;
  forM (λ result item,
    i ← getitem item "id";
    let k := id_text i in
    if negb (identifier k) || bool_decide (k ∈ dkeys result)
    then fail "duplicate or invalid graph identifier" else Ok (dset k item result)) l [].

Definition path_ok (s : string) : bool :=
  bool_decide (s ≠ "") && negb (startswith "/" s) && negb (str_mem "\" s)
  && forallb (λ p, negb (bool_decide (p ∈ [""; "."; ".."]))) (str_split "/" s).
Definition safe_path (v : value) : res string :=
  match v with
  | VStr s => if path_ok s then Ok s else fail "execution path rejected"
  | _ => fail "execution path rejected"
  end.

(** [re.fullmatch(r"(?:@@?[a-zA-Z0-9_.+-]+)?//[^\s]+", s)] *)
Definition label_ok (s : string) : bool :=
  let l := str_chars s in
  let body (l : list string) := match l with "/" :: "/" :: (_ :: _ as r) => forallb (λ c, negb (is_space c)) r | _ => false end in
  body l ||
  match l with
  | "@" :: r =>
      let r := match r with "@" :: r => r | _ => r end in
      match span repo_chr r with ([], _) => false | (_, r) => body r end
  | _ => false
  end.

(** [re.fullmatch(r"[A-Za-z][A-Za-z0-9_]{0,127}", s)] *)
Definition mnemonic_ok (s : string) : bool :=
  match s with
  | EmptyString => false
  | String a r =>
      (is_lower a || is_upper a) && str_all (λ c, is_alnum c || bool_decide (c = "_"%char)) r
      && bool_decide (String.length r <= 127)%nat
  end.

Definition env_item (kv : string * string) : value := VList [VStr kv.1; VStr kv.2].

(** The actions that own each output path *)
Abbreviation owners := (list (string * list nat)).

Section Digest.
(** [float.__repr__], which the canonical text of an arbitrary graph needs *)
Context (float_repr : SpecFloat.spec_float → string).

Definition digest (v : value) : string := hexdigest (fsencode (json_dumps float_repr v)).

Definition identity (label mnemonic arguments : value) (environment : list (string * string)) (outputs : value) : res string :=
  _ ← ensure (match label with VStr s => label_ok s | _ => false end) (ValueError "target label rejected");
  _ ← ensure (match mnemonic with VStr s => mnemonic_ok s | _ => false end) (ValueError "action mnemonic rejected");
  args ← array arguments;
  _ ← raise_if (bool_decide (args = []) || negb (forallb is_str args)) (ValueError "command identity missing");
  outs ← array outputs;
  paths ← mapM_res safe_path outs;
  let output_set := sorted_set paths in
  _ ← raise_if (bool_decide (output_set = []) || bool_decide (length output_set ≠ length outs))
        (ValueError "action outputs missing or duplicated");
  Ok (digest (VList [label; mnemonic; VList args; VList (env_item <$> merge_sort pair_le environment);
                     VList (VStr <$> output_set)])).

(** ** Declared inputs *)
Definition alias_name_ok (name : string) : bool :=
  bool_decide (name ≠ "") && forallb repo_chr (str_chars name) && negb (bool_decide (name ∈ ["."; ".."])).

Definition package_aliases (manifest : value) (roots : gset string) : res (list (string * string)) :=
  packages ← get_or manifest "packages" (VDict []);
  match packages with
  | VDict d =>
      _ ← raise_if (bool_decide (zlen d > MAX_ITEMS)) (ValueError "package alias manifest rejected");
      forM (λ aliases '(name, package),
        match package with
        | VDict p =>
            _ ← ensure (alias_name_ok name) (ValueError "package alias manifest rejected");
            forM (λ aliases output,
              match dget output p with
              | None => Ok aliases
              | Some (VStr root) =>
                  if root_fullmatch root && bool_decide (root ∈ roots)
                  then Ok (dset ("packages/" +:+ name +:+ "/" +:+ output) root aliases)
                  else fail "package alias root outside authorized closure"
              | Some _ => fail "package alias root outside authorized closure"
              end) ["out"; "dev"; "lib"; "bin"] aliases
        | _ => fail "package alias manifest rejected"
        end) d []
  | _ => fail "package alias manifest rejected"
  end.

(** The roots the paths map to and the absolute files they declare *)
Definition input_root (roots : gset string) (aliases : list (string * string))
    (acc : gset string * gset string) (path : string) : res (gset string * gset string) :=
  let '(mapped, absolute_files) := acc in
  _ ← safe_path (VStr path);
  match repository_match path with
  | None => Ok acc
  | Some (repository, relative) =>
      _ ← raise_if (contains "omux_host" repository) (ValueError "coordinator tools in Darwin execution");
      if negb (bool_decide (repository ∈ NIX_REPOSITORIES)) then Ok acc
      else if startswith "closure/" relative then
        let root := "/nix/store/" +:+ nth 1 (str_split "/" relative) "" in
        _ ← ensure (bool_decide (root ∈ roots)) (ValueError "undeclared Nix input");
        Ok ({[root]} ∪ mapped, {["/nix/store/" +:+ str_drop 8 relative]} ∪ absolute_files)
      else if startswith "packages/" relative then
        let prefix := str_join "/" (take 3 (str_split "/" relative)) in
        match dget prefix aliases with
        | Some root =>
            if bool_decide (relative = prefix) then fail "declared package alias missing from authorized manifest"
            else Ok ({[root]} ∪ mapped, {[root +:+ str_drop (String.length prefix) relative]} ∪ absolute_files)
        | None => fail "declared package alias missing from authorized manifest"
        end
      else Ok acc
  end.
Definition input_roots (paths : list string) (roots : gset string) (aliases : list (string * string)) :
    res (gset string * gset string) :=
  forM (input_root roots aliases) paths (∅, ∅).

(** [s.rstrip("/")] *)
Fixpoint rstrip_slash (s : string) : string :=
  match s with
  | EmptyString => EmptyString
  | String c r =>
      match rstrip_slash r with
      | EmptyString => if bool_decide (c = "/"%char) then EmptyString else String c EmptyString
      | r' => String c r'
      end
  end.

Definition check_reference (mapped authorized absolute_files : gset string) (m : string) : res unit :=
  let reference := rstrip_slash m in
  match root_match reference with
  | None => Err AttributeError
  | Some root =>
      _ ← (if bool_decide (root ∈ mapped) then Ok tt
           else if bool_decide (root ∈ authorized) then fail "authorized store root absent from declared action inputs"
           else fail "absolute reference outside authorized closure");
      _ ← raise_if (bool_decide (".." ∈ str_split "/" reference)) (ValueError "absolute tool traversal rejected");
      raise_if (negb (bool_decide (reference ∈ absolute_files))
                && negb (existsb (startswith (reference +:+ "/")) (elements absolute_files)))
        (ValueError "absolute file or directory has no declared input path")
  end.

(** [arguments[0]] *)
Definition first_item (v : value) : res value :=
  match v with
  | VList (x :: _) => Ok x
  | VList [] => Err IndexError
  | VStr s => match str_chars s with c :: _ => Ok (VStr c) | [] => Err IndexError end
  | VDict _ => Err KeyError
  | _ => Err TypeError
  end.

Definition absolute_inputs (arguments : value) (environment : list (string * string))
    (mapped declared authorized absolute_files : gset string) : res unit :=
  executable ← first_item arguments;
  e ← match executable with VStr s => Ok s | _ => Err AttributeError end;
  _ ← (if startswith "/" e then
         _ ← raise_if (bool_decide (root_match e = None)) (ValueError "ambient absolute executable rejected");
         ensure (bool_decide (e ∈ absolute_files)) (ValueError "absolute executable is not a declared file")
       else
         s ← safe_path (VStr e);
         ensure (bool_decide (s ∈ declared)) (ValueError "executable is not a declared input"));
  _ ← forM (λ _ entry, raise_if (bool_decide (entry ≠ "") && bool_decide (root_match entry = None))
                        (ValueError "ambient executable search path rejected"))
        (str_split ":" (default "" (dget "PATH" environment))) tt;
  args ← match arguments with VList l => Ok l | _ => Err TypeError end;
  forM (λ _ v, match v with
      | VStr s => forM (λ _ m, check_reference mapped authorized absolute_files m) (absolute_refs 0 (str_chars s)) tt
      | _ => Err TypeError
      end) (args ++ (VStr <$> environment.*2)) tt.

(** ** Memoised expansion of the graph *)
Record caches := Caches { path_cache : gmap string string; set_cache : gmap string (gset string); expanded : Z }.
Definition empty_caches : caches := Caches ∅ ∅ 0.

Record tables := Tables { fragments : list (string * value); artifacts : list (string * value); sets : list (string * value) }.

Definition lookup_row (t : list (string * value)) (k : string) : res value :=
  match dget k t with Some v => Ok v | None => Err KeyError end.

Section Expansion.
Context (T : tables).

(** [path(identifier, pending)]; [depth] is [MAX_DEPTH - len(pending)] *)
Fixpoint path (depth : nat) (identifier : string) (pending : list string) (st : caches) : res (string * caches) :=
  if bool_decide (identifier ∈ pending) then fail "artifact path cycle or depth" else
  match depth with
  | O => fail "artifact path cycle or depth"
  | S depth =>
      match path_cache st !! identifier with
      | Some p => Ok (p, st)
      | None =>
          fragment ← lookup_row (fragments T) identifier;
          label ← getitem fragment "label";
          match label with
          | VStr label =>
              _ ← raise_if (str_mem "/" label) (ValueError "path fragment rejected");
              parent ← get_or fragment "parentId" (VStr "0");
              let parent := id_text parent in
              '(prefix, st) ← (if bool_decide (parent = "0") then Ok ("", st)
                               else '(p, st) ← path depth parent (identifier :: pending) st; Ok (p +:+ "/", st));
              p ← safe_path (VStr (prefix +:+ label));
              Ok (p, Caches (<[identifier := p]> (path_cache st)) (set_cache st) (expanded st))
          | _ => fail "path fragment rejected"
          end
      end
  end.

Definition artifact (identifier : value) (st : caches) : res (string * caches) :=
  row ← lookup_row (artifacts T) (id_text identifier);
  f ← getitem row "pathFragmentId";
  path MAX_DEPTH (id_text f) [] st.

(** [{artifact(i) for i in ids}], added to a set *)
Definition add_artifact (acc : gset string * caches) (i : value) : res (gset string * caches) :=
  '(p, st) ← artifact i acc.2; Ok ({[p]} ∪ acc.1, st).

Fixpoint inputs (depth : nat) (identifier : string) (pending : list string) (st : caches) : res (gset string * caches) :=
  if bool_decide (identifier ∈ pending) then fail "input depset cycle or depth" else
  match depth with
  | O => fail "input depset cycle or depth"
  | S depth =>
      match set_cache st !! identifier with
      | Some x => Ok (x, st)
      | None =>
          item ← lookup_row (sets T) identifier;
          ids ← get_or item "directArtifactIds" (VList []);
          ids ← array ids;
          acc ← forM add_artifact ids (∅, st);
          children ← get_or item "transitiveDepSetIds" (VList []);
          children ← array children;
          '(x, st) ← forM (λ acc child,
            '(y, st) ← inputs depth (id_text child) (identifier :: pending) acc.2; Ok (acc.1 ∪ y, st)) children acc;
          let total := expanded st + Z.of_nat (size x) in
          _ ← raise_if (bool_decide (total > 8 * MAX_ITEMS)) (ValueError "depset expansion bound");
          Ok (x, Caches (path_cache st) (<[identifier := x]> (set_cache st)) total)
      end
  end.

(** The declared inputs of an action: its dep sets and its parameter files *)
Definition declared_inputs (action : value) (st : caches) : res (gset string * caches) :=
  ids ← get_or action "inputDepSetIds" (VList []);
  ids ← array ids;
  acc ← forM (λ acc i, '(y, st) ← inputs MAX_DEPTH (id_text i) [] acc.2; Ok (acc.1 ∪ y, st)) ids (∅, st);
  params ← get_or action "paramFiles" (VList []);
  params ← array params;
  forM (λ acc p, x ← getitem p "execPath"; x ← safe_path x; Ok ({[x]} ∪ acc.1, acc.2)) params acc.
End Expansion.

(** ** Registered actions *)
Record registry := Registry {
  actions : list value;
  registrations : gmap nat Z;
  unique : gmap string nat;
}.

Definition register (r : registry) (action : value) : res registry :=
  let fingerprint := digest action in
  '(index, acts, u) ← match unique r !! fingerprint with
    | Some index =>
        match actions r !! index with
        | Some a => if py_eq a action then Ok (index, actions r, unique r) else fail "action registration identity collision"
        | None => Err IndexError
        end
    | None => let index := length (actions r) in Ok (index, actions r ++ [action], <[fingerprint := index]> (unique r))
    end;
  Ok (Registry acts (<[index := default 0 (registrations r !! index) + 1]> (registrations r)) u).

Definition output_ids (action : value) : res (list value) := ids ← get_or action "outputIds" (VList []); array ids.

Definition artifact_trees (T : tables) (acts : list value) (st : caches) : res (gset string * caches) :=
  acc ← forM (λ acc '(i, item),
    t ← get item "isTreeArtifact";
    if is_True t then add_artifact T acc (VStr i) else Ok acc) (artifacts T) (∅, st);
  forM (λ acc action,
    m ← get action "mnemonic";
    if py_eq m (VStr "RunfilesTree") then ids ← output_ids action; forM (add_artifact T) ids acc else Ok acc) acts acc.

Definition add_producer (T : tables) (index : nat) (acc : owners * caches) (i : value) : res (owners * caches) :=
  '(p, st) ← artifact T i acc.2;
  Ok (dset p (default [] (dget p acc.1) ++ [index]) acc.1, st).
Definition producers (T : tables) (acts : list value) (st : caches) : res (owners * caches) :=
  forM (λ acc '(index, action), ids ← output_ids action; forM (add_producer T index) ids acc)
    (zip (seq 0 (length acts)) acts) ([], st).

Definition row_get (t : list (string * value)) (k key : string) : value :=
  match dget k t with Some (VDict d) => default VNone (dget key d) | _ => VNone end.

Definition is_root (targets : list (string * value)) (action : value) : res bool :=
  t ← get action "targetId";
  andM (Ok (py_eq (row_get targets (id_text t) "label") (VStr "//clients/macos:archive")))
       (m ← get action "mnemonic"; Ok (py_eq m (VStr "OmuxMacOSArchive"))).
Definition root_actions (targets : list (string * value)) (acts : list value) : res (list nat) :=
  forM (λ l '(index, action), b ← is_root targets action; Ok (if (b : bool) then l ++ [index] else l))
    (zip (seq 0 (length acts)) acts) [].

(** ** Reachable actions *)
Section Reach.
Context (T : tables) (acts : list value) (own : owners) (trees : gset string).

(** The enclosing tree artifact of a generated child: the longest proper
    prefix of the path that is one *)
Definition enclosing (p : string) : list nat :=
  let pieces := str_split "/" p in
  let parents := (λ size, str_join "/" (take size pieces)) <$> rev (seq 1 (length pieces - 1)) in
  match List.find (λ q, bool_decide (q ∈ trees) && bool_decide (q ∈ dkeys own)) parents with
  | Some q => default [] (dget q own)
  | None => []
  end.

Definition makers (p : string) : list nat :=
  match dget p own with Some l => l | None => enclosing p end.

(** The entries [queue.pop()] returns and the loop skips *)
Fixpoint skip_reached (reached : list nat) (queue : list nat) : list nat :=
  match queue with
  | [] => []
  | i :: queue' => if bool_decide (i ∈ reached) then skip_reached reached queue' else queue
  end.

(** The loop, the queue's end at the head of the list; every round reaches an
    action that was not, so the number of actions bounds the rounds. *)
Fixpoint explore (fuel : nat) (reached queue : list nat) (st : caches) : res (list nat * caches) :=
  match skip_reached reached queue with
  | [] => Ok (reached, st)
  | index :: queue =>
      match fuel with
      | O => Err NoFuel
      | S fuel =>
          match acts !! index with
          | None => Err IndexError
          | Some action =>
              '(declared, st) ← declared_inputs T action st;
              explore fuel (index :: reached) (reverse (mjoin (makers <$> elements declared)) ++ queue) st
          end
      end
  end.
End Reach.

Definition no_arguments (acts : list value) (i : nat) : res bool :=
  match acts !! i with Some a => x ← get a "arguments"; Ok (negb (truthy x)) | None => Err IndexError end.

Definition check_owners (acts : list value) (reached : list nat) (own : owners) : res unit :=
  forM (λ _ '(_, l),
    let selected := filter (.∈ reached) l in
    if bool_decide (1 < length selected)%nat then
      quiet ← allM (no_arguments acts) selected;
      if (quiet : bool) then fail "multiple reachable non-spawn actions own the same output"
      else fail "multiple reachable actions own the same output"
    else Ok tt) own tt.

(** ** The plan *)
Record plan := Plan {
  counts : gmap string nat;
  roots : gset string;
  outputs : gset string;
  action_outputs : gmap string (gset string);
  tree_outputs : gset string;
  action_inputs : gmap string (gset string);
  action_input_trees : gmap string (gset string);
  symlink_targets : gmap string string;
  aliases : list (string * string);
}.

(** The locals of the loop over the reachable actions *)
Record acc := Acc {
  a_plan : plan;
  mnemonics : gmap string nat;
  product_targets : gset (string * string);
  external : nat;
  non_spawn : nat;
  a_caches : caches;
}.

Definition bump {K} `{Countable K} (k : K) (m : gmap K nat) : gmap K nat := <[k := S (default 0%nat (m !! k))]> m.

Definition in_strings (v : value) (l : list string) : res bool :=
  if hashable v then Ok (existsb (λ s, py_eq v (VStr s)) l) else Err TypeError.

Definition with_symlinks (t : gmap string string) (p : plan) : plan :=
  Plan (counts p) (roots p) (outputs p) (action_outputs p) (tree_outputs p) (action_inputs p) (action_input_trees p) t (aliases p).

Definition non_spawn_action (T : tables) (action : value) (s : acc) : res acc :=
  m ← get action "mnemonic";
  ok ← in_strings m NON_SPAWN;
  _ ← ensure ok (ValueError "spawn command missing from analysis");
  let s := Acc (a_plan s) (mnemonics s) (product_targets s) (external s) (S (non_spawn s)) (a_caches s) in
  if negb (py_eq m (VStr "UnresolvedSymlink")) then Ok s else
  target ← get action "unresolvedSymlinkTarget";
  match target with
  | VStr t =>
      _ ← raise_if (bool_decide (t = "")) (ValueError "unresolved symlink target missing");
      _ ← (if startswith "/" t then
             match root_match t with
             | Some r => raise_if (negb (bool_decide (r ∈ roots (a_plan s))) || bool_decide (".." ∈ str_split "/" t))
                           (ValueError "unresolved symlink escapes immutable closure")
             | None => fail "unresolved symlink escapes immutable closure"
             end
           else _ ← safe_path (VStr t); Ok tt);
      ids ← output_ids action;
      '(links, st) ← forM (λ acc i, '(p, st) ← artifact T i acc.2; Ok (<[p := t]> acc.1, st)) ids (symlink_targets (a_plan s), a_caches s);
      Ok (Acc (with_symlinks links (a_plan s)) (mnemonics s) (product_targets s) (external s) (non_spawn s) st)
  | _ => fail "unresolved symlink target missing"
  end.

Definition REFINED : list string := REQUIRED ++ ["ZigVersionValidation"; "TranslateC"; "TranslateCBuild"].
Definition refine_error (label mnemonic : value) (e : exn) : exn :=
  match e with
  | ValueError m =>
      if bool_decide (m ∈ ["authorized store root absent from declared action inputs"; "absolute reference outside authorized closure"]) then
        match in_strings mnemonic REFINED with
        | Err e => e
        | Ok false => ValueError m
        | Ok true =>
            match label, mnemonic with
            | VStr l, VStr n =>
                ValueError ("declared absolute input check failed in " +:+ n +:+ " ("
                            +:+ (if startswith "//" l then "product action" else "external tool action") +:+ "): " +:+ m)
            | _, _ => AttributeError
            end
        end
      else e
  | _ => e
  end.

Definition spawn_action (T : tables) (targets : list (string * value)) (trees : gset string) (arguments action : value) (s : acc) : res acc :=
  let p := a_plan s in
  t ← getitem action "targetId";
  row ← lookup_row targets (id_text t);
  label ← getitem row "label";
  mnemonic ← getitem action "mnemonic";
  platform ← get_or action "executionPlatform" (VStr "");
  _ ← match platform with
      | VStr x => ensure (bool_decide (x ∈ PLATFORMS)) (ValueError "execution platform is not the declared closure")
      | _ => Err TypeError
      end;
  env ← get_or action "environmentVariables" (VList []);
  environment ← pairs env "key" true;
  '(declared, st) ← declared_inputs T action (a_caches s);
  '(mapped, absolute_files) ← input_roots (elements declared) (roots p) (aliases p);
  _ ← match absolute_inputs arguments environment mapped declared (roots p) absolute_files with
      | Err e => Err (refine_error label mnemonic e)
      | Ok _ => Ok tt
      end;
  ids ← output_ids action;
  '(outs, st) ← forM (λ acc i, '(x, st) ← artifact T i acc.2; Ok (acc.1 ++ [x], st)) ids ([], st);
  _ ← raise_if (existsb (λ x, bool_decide (x ∈ outputs p)) outs) (ValueError "multiple analyzed spawns own the same output");
  key ← identity label mnemonic arguments environment (VList (VStr <$> outs));
  '(tree, st) ← forM (λ acc i,
      row ← lookup_row (artifacts T) (id_text i);
      b ← get row "isTreeArtifact";
      if is_True b then add_artifact T acc i else Ok acc) ids (tree_outputs p, st);
  let p := Plan (bump key (counts p)) (roots p) (list_to_set outs ∪ outputs p) (<[key := list_to_set outs]> (action_outputs p))
             tree (<[key := declared]> (action_inputs p)) (<[key := declared ∩ trees]> (action_input_trees p))
             (symlink_targets p) (aliases p) in
  Ok (match label, mnemonic with
      | VStr l, VStr n =>
          if startswith "//" l then Acc p (bump n (mnemonics s)) ({[(l, n)]} ∪ product_targets s) (external s) (non_spawn s) st
          else Acc p (mnemonics s) (product_targets s) (S (external s)) (non_spawn s) st
      | _, _ => Acc p (mnemonics s) (product_targets s) (external s) (non_spawn s) st
      end).

Definition plan_action (T : tables) (targets : list (string * value)) (trees : gset string) (s : acc) (action : value) : res acc :=
  arguments ← get_or action "arguments" (VList []);
  if truthy arguments then spawn_action T targets trees arguments action s else non_spawn_action T action s.

Definition sum_counts {K} `{Countable K} (m : gmap K nat) : nat := sum_list (map_to_list m).*2.

Definition check_manifest (graph manifest : value) : res unit :=
  bad ← (Ok (negb (is_dict graph)) ||? Ok (negb (is_dict manifest))
         ||? (x ← get manifest "system"; Ok (negb (py_eq x (VStr "aarch64-darwin"))))
         ||? (x ← get manifest "apple"; Ok (negb (is_dict x)))
         ||? (x ← getitem manifest "apple"; v ← get x "sdk_version"; Ok (negb (py_eq v (VStr "14.4")))));
  raise_if bad (ValueError "expected Darwin manifest missing").

Definition graph_table (graph : value) (key : string) : res (list (string * value)) :=
  v ← get_or graph key (VList []); table v.

Definition sorted_indices (l : list nat) : list nat := merge_sort Nat.le l.

(** What [action_plan] knows of the graph before it plans *)
Record analysis := Analysis {
  g_tables : tables; g_targets : list (string * value); g_registered : nat; g_registry : registry;
  g_trees : gset string; g_owners : owners; g_root : nat; g_reached : list nat; g_caches : caches }.

Definition analyze (graph : value) : res analysis :=
  fragments ← graph_table graph "pathFragments";
  artifacts ← graph_table graph "artifacts";
  sets ← graph_table graph "depSetOfFiles";
  targets ← graph_table graph "targets";
  let T := Tables fragments artifacts sets in
  acts ← get_or graph "actions" (VList []);
  registered ← array_bound acts MAX_ACTIONS;
  r ← forM register registered (Registry [] ∅ ∅);
  '(trees, st) ← artifact_trees T (actions r) empty_caches;
  '(own, st) ← producers T (actions r) st;
  root ← root_actions targets (actions r);
  match root with
  | [root] =>
      '(reached, st) ← explore T (actions r) own trees (length (actions r)) [] [root] st;
      _ ← check_owners (actions r) reached own;
      Ok (Analysis T targets (length registered) r trees own root reached st)
  | _ => fail "one explicit application archive target root required"
  end.

Definition plan_reached (a : analysis) (roots : gset string) (aliases : list (string * string)) : res acc :=
  forM (λ s index, match actions (g_registry a) !! index with
      | Some action => plan_action (g_tables a) (g_targets a) (g_trees a) s action
      | None => Err IndexError
      end) (sorted_indices (g_reached a))
    (Acc (Plan ∅ roots ∅ ∅ ∅ ∅ ∅ ∅ aliases) ∅ ∅ 0 0 (g_caches a)).

Definition action_plan (graph manifest : value) (store_paths : string) : res (plan * acc * analysis) :=
  _ ← check_manifest graph manifest;
  let lines := splitlines store_paths in
  let roots : gset string := list_to_set lines in
  _ ← raise_if (bool_decide (lines = []) || bool_decide (zlen lines > MAX_ITEMS) || negb (bool_decide (NoDup lines))
                || negb (forallb root_fullmatch lines)) (ValueError "closure root list rejected");
  aliases ← package_aliases manifest roots;
  a ← analyze graph;
  s ← plan_reached a roots aliases;
  _ ← ensure (forallb (λ x, bool_decide (x ∈ product_targets s)) REQUIRED_TARGETS)
        (ValueError "complete application/archive action plan missing");
  Ok (a_plan s, s, a).

(** The counts of the summary *)
Definition reachable_registered (a : analysis) : Z :=
  foldr (λ i n, default 0 (registrations (g_registry a) !! i) + n) 0 (g_reached a).
Definition summary_counts (s : acc) (a : analysis) : list (string * Z) :=
  [("spawn_actions", Z.of_nat (sum_counts (counts (a_plan s))));
   ("product_actions", Z.of_nat (sum_counts (mnemonics s)));
   ("registered_actions", Z.of_nat (g_registered a));
   ("reachable_actions", zlen (g_reached a));
   ("reachable_registered_actions", reachable_registered a);
   ("duplicate_registered_actions", Z.of_nat (g_registered a) - zlen (actions (g_registry a)));
   ("unrequested_registered_actions", Z.of_nat (g_registered a) - reachable_registered a);
   ("external_tool_actions", Z.of_nat (external s)); ("non_spawn_actions", Z.of_nat (non_spawn s))].
End Digest.
End Provenance.
