(* ===== verification/ProvenanceGraph.v ===== *)
(** * tools/reapi_provenance.py: the graph analysis is correct

    A reference semantics of the aquery graph as inductive relations (the path
    of a fragment, the files of a dep set, the inputs an action declares) and
    the proofs that the memoised, depth-bounded expansion computes it and that
    the exploration computes the actions reachable through it. *)
From S2P Require Import Prelude PyBytes PyString PyValue PyText Sha256 Provenance.
Import Provenance.
Local Open Scope Z_scope.

Module ProvenanceGraph.

Section Reference.
Context (T : tables).

(** The path a fragment denotes: its label, after its parent's path *)
Inductive fragment_path : string → string → Prop :=
  | fragment_top i f parent label :
      dget i (fragments T) = Some f → getitem f "label" = Ok (VStr label) →
      get_or f "parentId" (VStr "0") = Ok parent → id_text parent = "0" → fragment_path i label
  | fragment_child i f parent label p :
      dget i (fragments T) = Some f → getitem f "label" = Ok (VStr label) →
      get_or f "parentId" (VStr "0") = Ok parent → id_text parent ≠ "0" →
      fragment_path (id_text parent) p → fragment_path i ((p +:+ "/") +:+ label).

Definition artifact_path (i : value) (p : string) : Prop :=
  ∃ row f, dget (id_text i) (artifacts T) = Some row ∧ getitem row "pathFragmentId" = Ok f ∧ fragment_path (id_text f) p.

(** The files of a dep set: its direct artifacts and those of its children *)
Inductive in_depset : string → string → Prop :=
  | depset_direct i item ids a p :
      dget i (sets T) = Some item → get_or item "directArtifactIds" (VList []) = Ok (VList ids) →
      a ∈ ids → artifact_path a p → in_depset i p
  | depset_child i item ids c p :
      dget i (sets T) = Some item → get_or item "transitiveDepSetIds" (VList []) = Ok (VList ids) →
      c ∈ ids → in_depset (id_text c) p → in_depset i p.

(** The inputs an action declares *)
Definition declares (action : value) (p : string) : Prop :=
  (∃ ids i, get_or action "inputDepSetIds" (VList []) = Ok (VList ids) ∧ i ∈ ids ∧ in_depset (id_text i) p) ∨
  (∃ params x, get_or action "paramFiles" (VList []) = Ok (VList params) ∧ x ∈ params ∧ getitem x "execPath" = Ok (VStr p)).

Lemma fragment_path_det i p q : fragment_path i p → fragment_path i q → p = q.
Proof.
  intros Hp. revert q. induction Hp; inversion 1; simplify_eq; try congruence.
  repeat match goal with H : _ = Ok ?x, H' : _ = Ok ?y |- _ => rewrite H in H'; injection H' as H' end; subst; simplify_eq.
  by erewrite IHHp.
Qed.
Lemma artifact_path_det a p q : artifact_path a p → artifact_path a q → p = q.
Proof.
  intros (r & f & H1 & H2 & H3) (r' & f' & H1' & H2' & H3'). rewrite H1 in H1'. simplify_eq.
  rewrite H2 in H2'. simplify_eq. by eapply fragment_path_det.
Qed.

(** Every cached entry is what the reference says. *)
Record coherent (st : caches) : Prop := {
  coherent_path i p : path_cache st !! i = Some p → fragment_path i p;
  coherent_set i x : set_cache st !! i = Some x → ∀ p, p ∈ x ↔ in_depset i p;
}.

Lemma coherent_empty : coherent empty_caches.
Proof. split; cbn; intros ??; by rewrite lookup_empty. Qed.

Lemma array_Ok v l : array v = Ok l → v = VList l.
Proof. unfold array, array_bound. destruct v; try done. by case_match; intros; ok_inv. Qed.
Lemma lookup_row_Ok t k v : lookup_row t k = Ok v ↔ dget k t = Some v.
Proof. unfold lookup_row. case_match; naive_solver. Qed.
Lemma safe_path_Ok v p : safe_path v = Ok p → v = VStr p ∧ path_ok p = true.
Proof. destruct v; try done. cbn. by case_match; intros; ok_inv. Qed.

Lemma path_sound depth i pending st p st' :
  coherent st → path T depth i pending st = Ok (p, st') → fragment_path i p ∧ coherent st'.
Proof.
  revert i pending st p st'. induction depth as [|depth IH]; intros i pending st p st' Hc; cbn [path];
    (destruct (bool_decide (i ∈ pending)); [done|]); [done|].
  destruct (path_cache st !! i) as [q|] eqn:Hq.
  { intros [= <- <-]. split; [by eapply coherent_path|done]. }
  intros (f & Hf%lookup_row_Ok & H)%bind_Ok. apply bind_Ok in H as (lab & Hlab & H). destruct lab as [| | | |label| |]; try done.
  apply bind_Ok in H as (? & _ & H). apply bind_Ok in H as (parent & Hpar & H).
  apply bind_Ok in H as ([prefix st1] & Hpre & H). apply bind_Ok in H as (p' & Hp & H). injection H as <- <-.
  apply safe_path_Ok in Hp as [Hp _]. injection Hp as <-.
  assert (fragment_path i (prefix +:+ label) ∧ coherent st1) as [Hi Hc1].
  { destruct (bool_decide_reflect (id_text parent = "0")) as [H0|H0].
    - injection Hpre as <- <-. split; [|done]. by eapply fragment_top.
    - apply bind_Ok in Hpre as ([q st2] & Hq2 & Hpre). injection Hpre as <- <-.
      apply IH in Hq2 as [Hq2 ?]; [|done]. split; [|done]. by eapply fragment_child. }
  split; [done|]. split; cbn; [|apply Hc1]. intros j r. rewrite lookup_insert_Some.
  intros [[<- <-]|[_ Hr]]; [done|by eapply coherent_path].
Qed.

Lemma artifact_sound a st p st' :
  coherent st → artifact T a st = Ok (p, st') → artifact_path a p ∧ coherent st'.
Proof.
  intros Hc H. unfold artifact in H. apply bind_Ok in H as (row & Hrow%lookup_row_Ok & H).
  apply bind_Ok in H as (f & Hf & H). apply path_sound in H as [Hp Hc']; [|done]. split; [|done]. by exists row, f.
Qed.

(** A loop that collects into [S] while it threads the caches; [mem] says what
    has been collected. *)
Lemma collect {A S X} (mem : S → X → Prop) (f : S * caches → A → res (S * caches)) (R : A → X → Prop) l :
  (∀ x st a x' st', a ∈ l → coherent st → f (x, st) a = Ok (x', st') → coherent st' ∧ ∀ p, mem x' p ↔ mem x p ∨ R a p) →
  ∀ x st x' st', coherent st → forM f l (x, st) = Ok (x', st') →
    coherent st' ∧ ∀ p, mem x' p ↔ mem x p ∨ ∃ a, a ∈ l ∧ R a p.
Proof.
  induction l as [|a l IH]; intros Hf x st x' st' Hc; cbn [forM].
  { intros [= <- <-]. split; [done|]. set_solver. }
  intros ([x1 st1] & Ha & Hl)%bind_Ok. destruct (Hf x st a x1 st1) as [Hc1 H1]; [set_solver|done|done|].
  destruct (IH) with x1 st1 x' st' as [Hc' H']; [|done|done|].
  { intros. eapply Hf; [set_solver|done|done]. }
  split; [done|]. intros p. rewrite H', H1. split.
  - intros [[?|?]|(b & ? & ?)]; [by left|right; exists a; set_solver|right; exists b; set_solver].
  - intros [?|(b & [->|?]%elem_of_cons & ?)]; [by left; left|by left; right|right; by exists b].
Qed.
#[local] Abbreviation in_set := (λ (x : gset string) (p : string), p ∈ x).

Lemma add_artifact_sound x st a x' st' :
  coherent st → add_artifact T (x, st) a = Ok (x', st') → coherent st' ∧ ∀ p, p ∈ x' ↔ p ∈ x ∨ artifact_path a p.
Proof.
  intros Hc H. unfold add_artifact in H. apply bind_Ok in H as ([q st1] & Hq & H). injection H as <- <-.
  apply artifact_sound in Hq as [Hq ?]; [|done]. split; [done|]. intros p. rewrite elem_of_union, elem_of_singleton. cbn.
  split; [intros [->|?]; auto|intros [?|?]; [by right|left; by eapply artifact_path_det]].
Qed.

Lemma inputs_sound depth i pending st x st' :
  coherent st → inputs T depth i pending st = Ok (x, st') → coherent st' ∧ ∀ p, p ∈ x ↔ in_depset i p.
Proof.
  revert i pending st x st'. induction depth as [|depth IH]; intros i pending st x st' Hc; cbn [inputs];
    (destruct (bool_decide (i ∈ pending)); [done|]); [done|].
  destruct (set_cache st !! i) as [y|] eqn:Hy.
  { intros [= <- <-]. split; [done|]. by eapply coherent_set. }
  intros (item & Hitem%lookup_row_Ok & H)%bind_Ok. apply bind_Ok in H as (v & Hids & H).
  apply bind_Ok in H as (ids & ->%array_Ok & H). apply bind_Ok in H as ([x1 st1] & H1 & H).
  apply bind_Ok in H as (v & Hch & H). apply bind_Ok in H as (children & ->%array_Ok & H).
  apply bind_Ok in H as ([x2 st2] & H2 & H). apply bind_Ok in H as (? & _ & H). injection H as <- <-.
  destruct (collect in_set _ artifact_path ids ltac:(intros; by eapply add_artifact_sound) _ _ _ _ Hc H1) as [Hc1 Hx1].
  apply (collect in_set _ (λ c p, in_depset (id_text c) p)) in H2 as [Hc2 Hx2]; [|clear H2|exact Hc1].
  2:{ intros y st3 c y' st3' _ Hc3 H3. apply bind_Ok in H3 as ([z st4] & Hz & H3). injection H3 as <- <-.
    apply IH in Hz as [? Hz]; [|done]. split; [done|]. intros p. cbn. by rewrite elem_of_union, Hz. }
  assert (∀ p, p ∈ x2 ↔ in_depset i p) as Hx.
  { intros p. rewrite Hx2, Hx1. split.
    - intros [[?|(a & ? & ?)]|(c & ? & ?)]; [set_solver|by eapply depset_direct|by eapply depset_child].
    - inversion 1; simplify_eq;
        repeat match goal with H : get_or ?a ?b ?c = Ok _, H' : get_or ?a ?b ?c = Ok _ |- _ => rewrite H in H'; injection H' as H' end;
        subst; eauto. }
  split; [|done]. split; cbn; [apply Hc2|]. intros j y. rewrite lookup_insert_Some.
  intros [[<- <-]|[_ Hj]]; [done|exact (coherent_set _ Hc2 _ _ Hj)].
Qed.

Lemma declared_inputs_sound action st x st' :
  coherent st → declared_inputs T action st = Ok (x, st') → coherent st' ∧ ∀ p, p ∈ x ↔ declares action p.
Proof.
  intros Hc H. unfold declared_inputs in H. apply bind_Ok in H as (v & Hids & H). apply bind_Ok in H as (ids & ->%array_Ok & H).
  apply bind_Ok in H as ([x1 st1] & H1 & H). apply bind_Ok in H as (v & Hps & H). apply bind_Ok in H as (params & ->%array_Ok & H2).
  apply (collect in_set _ (λ c p, in_depset (id_text c) p)) in H1 as [Hc1 Hx1]; [|clear H1|exact Hc].
  2:{ intros y st3 c y' st3' _ Hc3 H3. apply bind_Ok in H3 as ([z st4] & Hz & H3). injection H3 as <- <-.
    apply inputs_sound in Hz as [? Hz]; [|done]. split; [done|]. intros p. cbn. by rewrite elem_of_union, Hz. }
  apply (collect in_set _ (λ m p, getitem m "execPath" = Ok (VStr p))) in H2 as [Hc2 Hx2]; [|clear H2|exact Hc1].
  2:{ intros y st3 m y' st3' _ Hc3 H3. apply bind_Ok in H3 as (e & He & H3). apply bind_Ok in H3 as (s & Hs & H3).
    injection H3 as <- <-. apply safe_path_Ok in Hs as [-> _]. split; [done|]. intros p. rewrite elem_of_union, elem_of_singleton, He. cbn.
    split; [intros [->|?]; auto|intros [?|[= ->]]; auto]. }
  split; [done|]. intros p. rewrite Hx2, Hx1. unfold declares. split.
  - intros [[?|(a & ? & ?)]|(c & ? & ?)]; [set_solver|left; eauto|right; eauto].
  - intros [(l & a & Hl & ? & ?)|(l & m & Hl & ? & ?)];
      [rewrite Hids in Hl|rewrite Hps in Hl]; simplify_eq; eauto.
Qed.

(** ** Owners of the outputs *)
Definition owns (o : owners) (x : string * nat) : Prop := x.2 ∈ default [] (dget x.1 o).

(** Action [j] lists an output whose path is [p]. *)
Definition makes (action : value) (p : string) : Prop :=
  ∃ ids i, output_ids action = Ok ids ∧ i ∈ ids ∧ artifact_path i p.

Lemma add_producer_sound j o st i o' st' :
  coherent st → add_producer T j (o, st) i = Ok (o', st') →
  coherent st' ∧ ∀ x, owns o' x ↔ owns o x ∨ (x.2 = j ∧ artifact_path i x.1).
Proof.
  intros Hc H. apply bind_Ok in H as ([q st1] & Hq & H). injection H as <- <-.
  apply artifact_sound in Hq as [Hq ?]; [|done]. split; [done|]. intros [p k]. unfold owns. cbn. rewrite dget_dset.
  destruct (bool_decide_reflect (p = q)) as [->|Hp]; cbn.
  - rewrite elem_of_app, list_elem_of_singleton. naive_solver.
  - split; [by left|]. intros [?|[_ Hp']]; [done|]. by destruct Hp; eapply artifact_path_det.
Qed.

Lemma elem_of_enumerate {A} (l : list A) i x : (i, x) ∈ zip (seq 0 (length l)) l ↔ l !! i = Some x.
Proof.
  rewrite list_elem_of_lookup. setoid_rewrite lookup_zip_with_Some. setoid_rewrite lookup_seq. split.
  - intros (k & a & b & [= -> ->] & [-> _] & Hb). done.
  - intros Hi. exists i, i, x. split_and!; [done|done| |done]. by eapply lookup_lt_Some.
Qed.

Lemma producers_sound acts st o st' :
  coherent st → producers T acts st = Ok (o, st') →
  coherent st' ∧ ∀ p j, j ∈ default [] (dget p o) ↔ ∃ action, acts !! j = Some action ∧ makes action p.
Proof.
  intros Hc H. unfold producers in H.
  apply (collect owns _ (λ '(j, action) x, x.2 = j ∧ makes action x.1)) in H as [Hc' H']; [|clear H|done].
  - split; [done|]. intros p j. change (owns o (p, j) ↔ ∃ action, acts !! j = Some action ∧ makes action p). rewrite H'. unfold owns. cbn. split.
    + intros [?|([k action] & Hk & Hkj & ?)]; [set_solver|]. cbn in Hkj. subst k. exists action. by rewrite <-elem_of_enumerate.
    + intros (action & Ha & Hm). right. exists (j, action). by rewrite elem_of_enumerate.
  - intros x st1 [j action] x' st1' _ Hc1 H1. apply bind_Ok in H1 as (ids & Hids & H1).
    apply (collect owns _ (λ i x, x.2 = j ∧ artifact_path i x.1)) in H1 as [Hc2 H2]; [|clear H1|done].
    + split; [done|]. intros y. rewrite H2. unfold makes. rewrite Hids. split.
      * intros [?|(i & ? & ? & ?)]; [by left|]. right. split; [done|]. by exists ids, i.
      * intros [?|(? & ids' & i & [= ->] & ? & ?)]; [by left|]. right. by exists i.
    + intros y st3 i y' st3' _ Hc3 H3. by eapply add_producer_sound.
Qed.
End Reference.

(** ** Exploration *)
Section Exploration.
Context (T : tables) (acts : list value) (own : owners) (trees : gset string).

(** Action [j] makes an input that action [i] declares. *)
Definition feeds (i j : nat) : Prop :=
  ∃ action p, acts !! i = Some action ∧ declares T action p ∧ j ∈ makers own trees p.

Lemma skip_reached_spec reached queue :
  ∃ skipped, queue = skipped ++ skip_reached reached queue ∧ (∀ i, i ∈ skipped → i ∈ reached) ∧
    match skip_reached reached queue with [] => True | i :: _ => i ∉ reached end.
Proof.
  induction queue as [|i queue (sk & Hq & Hs & Hh)]; [exists []; cbn; split; [done|]; split; [set_solver|done]|]. cbn.
  destruct (bool_decide_reflect (i ∈ reached)) as [Hi|Hi].
  - exists (i :: sk). split; [|split; [set_solver|done]]. by rewrite <-app_comm_cons, <-Hq.
  - exists []. split; [done|]. split; [set_solver|done].
Qed.

Lemma pushed i action (x : gset string) j :
  acts !! i = Some action → (∀ p, p ∈ x ↔ declares T action p) →
  j ∈ reverse (mjoin (makers own trees <$> elements x)) ↔ feeds i j.
Proof.
  intros Ha Hx. rewrite elem_of_reverse, list_elem_of_join. setoid_rewrite list_elem_of_fmap. split.
  - intros (l & Hj & p & -> & Hp). exists action, p. split_and!; [done| |done]. by apply Hx, elem_of_elements.
  - intros (a & p & Ha' & Hp & Hj). simplify_eq. exists (makers own trees p). split; [done|]. exists p.
    split; [done|]. by apply elem_of_elements, Hx.
Qed.

Lemma explore_sound root fuel reached queue st reached' st' :
  coherent T st → NoDup reached → (∀ i, i ∈ reached ++ queue → rtc feeds root i) →
  (∀ i j, i ∈ reached → feeds i j → j ∈ reached ++ queue) →
  explore T acts own trees fuel reached queue st = Ok (reached', st') →
  coherent T st' ∧ NoDup reached' ∧ reached ++ queue ⊆ reached' ∧
  (∀ i, i ∈ reached' → rtc feeds root i) ∧ (∀ i j, i ∈ reached' → feeds i j → j ∈ reached').
Proof.
  revert reached queue st. induction fuel as [|fuel IH]; intros reached queue st Hc Hn Hr Hcl; cbn [explore];
    destruct (skip_reached_spec reached queue) as (sk & Hq & Hs & Hh); destruct (skip_reached reached queue) as [|i q];
    try done.
  1,2: rewrite app_nil_r in Hq; subst sk; intros [= <- <-]; split_and!; [done|done|set_solver| |]; [set_solver|];
    intros a b Ha Hab; specialize (Hcl a b Ha Hab); set_solver.
  destruct (acts !! i) as [action|] eqn:Ha; [|done]. intros ([x st1] & Hx & H)%bind_Ok.
  apply declared_inputs_sound in Hx as [Hc1 Hx]; [|done].
  apply IH in H as (Hc' & Hn' & Hsub & Hr' & Hcl').
  - split_and!; [done|done| |done|done]. intros j Hj. apply Hsub. subst queue. set_solver.
  - done.
  - by constructor.
  - intros j. rewrite !elem_of_app, elem_of_cons, (pushed i action x j Ha Hx). intros [[->|?]|[Hj|?]].
    + apply Hr. set_solver.
    + apply Hr. set_solver.
    + apply rtc_r with i; [|done]. apply Hr. set_solver.
    + apply Hr. set_solver.
  - intros a b. rewrite !elem_of_app, !elem_of_cons, (pushed i action x b Ha Hx). intros [->|Ha'] Hab; [tauto|].
    specialize (Hcl a b Ha' Hab). subst queue. set_solver.
Qed.

(** *** Termination *)
#[local] Abbreviation finishes m := (raises (λ e, e ≠ NoFuel) m).

Lemma finishes_safe_path v : finishes (safe_path v).
Proof. unfold safe_path, fail. solve_raises. Qed.
Lemma finishes_array v : finishes (array v).
Proof. unfold array, array_bound, fail. solve_raises. Qed.
Lemma finishes_row t k : finishes (lookup_row t k).
Proof. unfold lookup_row. solve_raises. Qed.
#[local] Hint Resolve finishes_safe_path finishes_array finishes_row : omux.

Lemma finishes_path depth i pending st : finishes (path T depth i pending st).
Proof. revert i pending st. induction depth as [|depth IH]; intros; cbn [path]; unfold fail; solve_raises. Qed.
#[local] Hint Resolve finishes_path : omux.
Lemma finishes_artifact i st : finishes (artifact T i st).
Proof. unfold artifact. solve_raises. Qed.
#[local] Hint Resolve finishes_artifact : omux.
Lemma finishes_add x i : finishes (add_artifact T x i).
Proof. unfold add_artifact. solve_raises. Qed.
#[local] Hint Resolve finishes_add : omux.
Lemma finishes_inputs depth i pending st : finishes (inputs T depth i pending st).
Proof. revert i pending st. induction depth as [|depth IH]; intros; cbn [inputs]; unfold fail; solve_raises. Qed.
#[local] Hint Resolve finishes_inputs : omux.
Lemma finishes_declared action st : finishes (declared_inputs T action st).
Proof. unfold declared_inputs. solve_raises. Qed.

Lemma explore_finishes fuel reached queue st :
  NoDup reached → (∀ i, i ∈ reached ++ queue → i < length acts)%nat →
  (∀ p j, j ∈ makers own trees p → j < length acts)%nat → (length acts <= fuel + length reached)%nat →
  finishes (explore T acts own trees fuel reached queue st).
Proof.
  revert reached queue st. induction fuel as [|fuel IH]; intros reached queue st Hn Hb Hm Hf; cbn [explore];
    destruct (skip_reached_spec reached queue) as (sk & Hq & Hs & Hh); destruct (skip_reached reached queue) as [|i q];
    try apply raises_ok.
  - exfalso. assert (length (i :: reached) <= length (seq 0 (length acts)))%nat as Hl; [|rewrite length_seq in Hl; cbn in Hl; lia].
    apply submseteq_length, NoDup_submseteq; [by constructor|]. intros j Hj. apply elem_of_seq. split; [lia|].
    apply Hb. subst queue. set_solver.
  - destruct (acts !! i) as [action|]; [|by apply raises_err]. apply raises_bind; [apply finishes_declared|].
    intros [x st1]. apply IH; [by constructor| |done|cbn; lia].
    intros j. rewrite !elem_of_app, elem_of_cons, elem_of_reverse, list_elem_of_join. setoid_rewrite list_elem_of_fmap.
    intros [[->|?]|[(l & Hj & p & -> & _)|?]]; [| |by eapply Hm|]; apply Hb; subst queue; set_solver.
Qed.
End Exploration.

(** ** The analysis *)
Section Analysis.
Context (float_repr : SpecFloat.spec_float → string).

Lemma makers_owns own trees p j : j ∈ makers own trees p → ∃ q, j ∈ default [] (dget q own).
Proof.
  unfold makers. destruct (dget p own) eqn:Hp; [intros ?; exists p; by rewrite Hp|].
  unfold enclosing. destruct (List.find _ _) as [q|]; [|set_solver]. by exists q.
Qed.

Lemma root_actions_lookup targets acts l i : root_actions targets acts = Ok l → i ∈ l → (i < length acts)%nat.
Proof.
  intros H. revert i. apply Forall_forall. revert H. apply (forM_inv _ (λ _ l, Forall (λ i, (i < length acts)%nat) l)); [done|].
  intros d [j a] l1 l2 Hl1 Hin Hs. apply bind_Ok in Hs as (b & _ & [= <-]).
  destruct b; [|done]. apply Forall_app. split; [done|]. apply Forall_singleton.
  apply elem_of_enumerate in Hin. by eapply lookup_lt_Some.
Qed.

Lemma check_owners_unique acts reached own u :
  check_owners acts reached own = Ok u → ∀ p l, (p, l) ∈ own → (length (filter (.∈ reached) l) <= 1)%nat.
Proof.
  intros H p l Hp. pose proof (forM_unit _ _ _ H _ Hp) as Hl. cbn in Hl.
  destruct (bool_decide_reflect (1 < length (filter (.∈ reached) l))%nat); [|lia].
  apply bind_Ok in Hl as ([] & _ & Hl); done.
Qed.

Lemma artifact_trees_coherent T acts st x st' :
  coherent T st → artifact_trees T acts st = Ok (x, st') → coherent T st'.
Proof.
  intros Hc H. apply bind_Ok in H as ([x1 st1] & H1 & H2).
  apply (forM_inv _ (λ _ a, coherent T a.2)) in H1; [|done|].
  - apply (forM_inv _ (λ _ a, coherent T a.2)) in H2; [done|done|].
    intros d a [y sy] [z sz] Hy _ Hs. apply bind_Ok in Hs as (m & _ & Hs). destruct (py_eq m _); [|by injection Hs as <- <-].
    apply bind_Ok in Hs as (ids & _ & Hs). apply (forM_inv _ (λ _ a, coherent T a.2)) in Hs; [done|done|].
    intros d' i [u su] [w sw] Hu _ Hs'. by eapply add_artifact_sound.
  - intros d [i a] [y sy] [z sz] Hy _ Hs. apply bind_Ok in Hs as (t & _ & Hs). destruct (is_True t); [|by injection Hs as <- <-].
    by eapply add_artifact_sound.
Qed.

Lemma analyze_coherent graph a :
  analyze float_repr graph = Ok a →
  coherent (g_tables a) (g_caches a) ∧ NoDup (g_reached a) ∧
  ∀ j, j ∈ g_reached a ↔ rtc (feeds (g_tables a) (actions (g_registry a)) (g_owners a) (g_trees a)) (g_root a) j.
Proof.
  unfold analyze. intros H. skip_steps 5 in H. apply bind_Ok in H as (registered & _ & H).
  apply bind_Ok in H as (r & _ & H). apply bind_Ok in H as ([trees st1] & H1 & H).
  apply bind_Ok in H as ([own st2] & H2 & H). apply bind_Ok in H as (root & Hroot & H).
  destruct root as [|root []]; try done. apply bind_Ok in H as ([reached st3] & H3 & H).
  apply bind_Ok in H as (? & _ & H). injection H as <-. cbn.
  apply artifact_trees_coherent in H1; [|apply coherent_empty]. apply producers_sound in H2 as [Hc2 _]; [|done].
  apply (explore_sound _ _ _ _ root) in H3 as (Hc3 & Hn & Hsub & Hr & Hcl).
  - split_and!; [done|done|]. intros j. split; [apply Hr|].
    apply (rtc_ind_r (λ z, z ∈ reached) root); [apply Hsub; set_solver|]. intros y z _ Hyz Hy. by eapply Hcl.
  - done.
  - constructor.
  - intros i. rewrite app_nil_l, list_elem_of_singleton. by intros ->.
  - set_solver.
Qed.

(** C23: the analysis finds exactly the actions the archive depends on: an
    action is reached iff it can be reached from the archive action by going
    from an action to the makers of the inputs it declares, in the reference
    semantics of the graph; owners are exactly the actions that list an output
    with that path, and no path has two reached owners. *)
Theorem analysis_exact graph a (H : analyze float_repr graph = Ok a) :
  let T := g_tables a in let acts := actions (g_registry a) in
  (∀ j, j ∈ g_reached a ↔ rtc (feeds T acts (g_owners a) (g_trees a)) (g_root a) j) ∧
  (∀ p j, j ∈ default [] (dget p (g_owners a)) ↔ ∃ action, acts !! j = Some action ∧ makes T action p) ∧
  ∀ p l, (p, l) ∈ g_owners a → (length (filter (.∈ g_reached a) l) <= 1)%nat.
Proof.
  intros T acts. split; [by apply (analyze_coherent graph a)|]. subst T acts.
  unfold analyze in H. skip_steps 5 in H. apply bind_Ok in H as (registered & _ & H).
  apply bind_Ok in H as (r & _ & H). apply bind_Ok in H as ([trees st1] & H1 & H).
  apply bind_Ok in H as ([own st2] & H2 & H). apply bind_Ok in H as (root & Hroot & H).
  destruct root as [|root []]; try done. apply bind_Ok in H as ([reached st3] & H3 & H).
  apply bind_Ok in H as (? & Hown & H). injection H as <-. cbn. split; [|by eapply check_owners_unique].
  apply artifact_trees_coherent in H1; [|apply coherent_empty]. by eapply producers_sound.
Qed.

Lemma finishes_table v : raises (λ e, e ≠ NoFuel) (table v).
Proof. unfold table, array, array_bound, fail. solve_raises. Qed.
Lemma finishes_ids action : raises (λ e, e ≠ NoFuel) (output_ids action).
Proof. unfold output_ids, array, array_bound, fail. solve_raises. Qed.
#[local] Hint Resolve finishes_table finishes_ids finishes_artifact finishes_add finishes_declared : omux.

(** The analysis ends on every graph: as many rounds as there are distinct
    actions suffice, whatever cycles the graph has. *)
Theorem analysis_ends graph : analyze float_repr graph ≠ Err NoFuel.
Proof.
  cut (raises (λ e, e ≠ NoFuel) (analyze float_repr graph)); [intros Hr H; by apply (Hr NoFuel)|].
  unfold analyze, graph_table. do 6 (apply raises_bind; [unfold array_bound, fail; solve_raises|intros ?]).
  apply raises_bind; [unfold register, fail; solve_raises|]. intros r.
  apply raises_bind_eq; [unfold artifact_trees; solve_raises|]. intros [trees st1] H1.
  apply artifact_trees_coherent in H1; [|apply coherent_empty].
  apply raises_bind_eq; [unfold producers, add_producer; solve_raises|]. intros [own st2] [_ Hown]%producers_sound; [|done].
  apply raises_bind_eq; [unfold root_actions, is_root; solve_raises|]. intros [|root []] Hroot; try by apply raises_err.
  apply raises_bind; [apply explore_finishes|].
  - constructor.
  - intros i Hi. by eapply root_actions_lookup.
  - intros p j (q & (action & Ha & _)%Hown)%makers_owns. by eapply lookup_lt_Some.
  - cbn. lia.
  - intros [reached st3]. apply raises_bind; [|intros; apply raises_ok]. unfold check_owners, no_arguments, fail. solve_raises.
Qed.
End Analysis.

(** An archive action that depends on a generated file, and an action it does
    not depend on *)
Definition ex_rows (l : list (list (string * value))) : value := VList (VDict <$> l).
Definition ex_graph : value := VDict
  [("pathFragments", ex_rows [[("id", VInt 1); ("label", VStr "out")]; [("id", VInt 2); ("label", VStr "a"); ("parentId", VInt 1)];
                              [("id", VInt 3); ("label", VStr "b"); ("parentId", VInt 1)]]);
   ("artifacts", ex_rows [[("id", VInt 1); ("pathFragmentId", VInt 2)]; [("id", VInt 2); ("pathFragmentId", VInt 3)]]);
   ("depSetOfFiles", ex_rows [[("id", VInt 1); ("directArtifactIds", VList [VInt 2])]]);
   ("targets", ex_rows [[("id", VInt 1); ("label", VStr "//clients/macos:archive")]]);
   ("actions", ex_rows [[("targetId", VInt 1); ("mnemonic", VStr "OmuxMacOSArchive"); ("outputIds", VList [VInt 1]); ("inputDepSetIds", VList [VInt 1])];
                        [("mnemonic", VStr "FileWrite"); ("outputIds", VList [VInt 2])]; [("mnemonic", VStr "FileWrite")]])].

Lemma analysis_exact_witness :
  ∃ a, analyze (λ _, "") ex_graph = Ok a ∧ g_reached a = [1; 0]%nat ∧
    rtc (feeds (g_tables a) (actions (g_registry a)) (g_owners a) (g_trees a)) 0%nat 1%nat.
Proof.
  assert ((λ a, (g_reached a, g_root a)) <$> analyze (λ _, "") ex_graph = Ok ([1; 0], 0)%nat) as Hr by (vm_compute; reflexivity).
  destruct (analyze (λ _, "") ex_graph) as [a|] eqn:E; [|discriminate Hr]. injection Hr as Hr H0. exists a.
  split; [reflexivity|]. split; [exact Hr|].
  destruct (analysis_exact (λ _, "") ex_graph a E) as [Hx _]. specialize (Hx 1%nat). rewrite Hr, H0 in Hx.
  apply Hx. apply elem_of_cons. exact (or_introl eq_refl).
Defined.
End ProvenanceGraph.
