(* ===== verification/Reconcile.v ===== *)
(** * tools/reapi_provenance.py: reconciliation of execution receipts

    [reconcile] matches the expanded execution log against the plan of
    [action_plan]; [artifact_summary] then compares the artifact with its
    receipt.  A receipt is decoded JSON; the locals of the loop are the record
    [rstate].  The bytes of the artifact are an argument. *)
From S2P Require Import Prelude PyBytes PyString PyValue PyText Sha256 Provenance.
From Stdlib Require Import Ascii.
Import Sha256 Provenance.
Local Open Scope Z_scope.

Module Reconcile.

(** [CLOSURE.fullmatch(s)] *)
Definition closure_ok (s : string) : bool :=
  let l := str_chars s in
  bool_decide (length (take 32 l) = 32%nat) && forallb lower_alnum (take 32 l)
  && bool_decide (unchars (drop 32 l) = "-omux-bazel-closure").

(** [s.lower()]: only ASCII letters can become letters of "sha256" *)
Definition lower_chr (a : ascii) : ascii :=
  if is_upper a then Ascii.ascii_of_N (Ascii.N_of_ascii a + 32) else a.
Fixpoint lower (s : string) : string :=
  match s with EmptyString => EmptyString | String a s => String (lower_chr a) (lower s) end.
(** [s.replace("-", "")] *)
Fixpoint drop_dashes (s : string) : string :=
  match s with
  | EmptyString => EmptyString
  | String a s => if bool_decide (a = "-"%char) then drop_dashes s else String a (drop_dashes s)
  end.

(** [re.fullmatch(r"0|[1-9][0-9]*", s)] *)
Definition decimal (s : string) : bool := bool_decide (s = "0") || identifier s.

Definition str_or_type (v : value) : res string := match v with VStr s => Ok s | _ => Err TypeError end.
Definition str_or_attribute (v : value) : res string := match v with VStr s => Ok s | _ => Err AttributeError end.

Definition file_digest (v : value) : res (string * Z) :=
  bad ← (Ok (negb (is_dict v))
         ||? (h ← get_or v "hash" (VStr ""); h ← str_or_type h; Ok (negb (is_sha256_hex h)))
         ||? (f ← get_or v "hashFunctionName" (VStr ""); f ← str_or_attribute f;
              Ok (bool_decide (drop_dashes (lower f) ≠ "sha256"))));
  _ ← raise_if bad (ValueError "SHA256 receipt digest missing");
  size ← get v "sizeBytes";
  let size := match size with
              | VStr s => if decimal s then VInt (dec_value s) else size
              | _ => size
              end in
  h ← getitem v "hash"; h ← str_or_type h;
  match size with
  | VInt z => if bool_decide (0 <= z <= 2 ^ 63 - 1) then Ok (h, z) else fail "receipt digest size rejected"
  | _ => fail "receipt digest size rejected"
  end.

Record rstate := RState {
  seen : gmap string nat;
  remote_executions : nat;
  remote_cache_hits : nat;
  action_digests : list (string * Z);
  output_digests : gmap string (string * Z);
  input_digests : list (string * string * value);
  generated_input_values : list (string * (string * Z));
  tree_receipts : list (string * gset string);
  actual_output_paths : gset string;
}.
Definition rinit : rstate := RState ∅ 0 0 [] ∅ [] [] [] ∅.

Definition digest_value (d : string * Z) : value := VList [VStr d.1; VInt d.2].

(** [plan.symlink_targets.get(path)] *)
Definition symlink_of (p : plan) (path : string) : value :=
  match symlink_targets p !! path with Some t => VStr t | None => VNone end.

(** [any(path.startswith(tree + "/") for tree in trees)] *)
Definition under (trees : gset string) (path : string) : bool :=
  existsb (λ tree, startswith (tree +:+ "/") path) (elements trees).

Definition missing {V} (m : gmap string V) (k : string) : res V :=
  match m !! k with Some v => Ok v | None => Err KeyError end.

Section Reconcile.
Context (float_repr : SpecFloat.spec_float → string) (p : plan) (closure : string) (fresh : bool).

Definition receipt_input (key : string) (declared input_trees : gset string)
    (acc : list (string * string * value) * list (string * (string * Z))) (item : value) :
    res (list (string * string * value) * list (string * (string * Z))) :=
  path ← getitem item "path"; path ← str_or_type path;
  _ ← raise_if (negb (bool_decide (path ∈ declared)) && negb (under input_trees path))
        (ValueError "foreign input in execution receipt");
  linked ← py_in (VStr "symlinkTargetPath") item;
  if (linked : bool) then
    target ← getitem item "symlinkTargetPath";
    both ← py_in (VStr "digest") item;
    _ ← raise_if (both || negb (py_eq (symlink_of p path) target)) (ValueError "unresolved symlink input does not match analysis");
    Ok (acc.1 ++ [(key, path, VStr (digest float_repr (VList [VStr "unresolved_symlink"; target])))], acc.2)
  else
    d ← get item "digest"; v ← file_digest d;
    Ok (acc.1 ++ [(key, path, digest_value v)], acc.2 ++ [(path, v)]).

Definition receipt_output (owned : gset string)
    (acc : gset string * gmap string (string * Z)) (output : value) : res (gset string * gmap string (string * Z)) :=
  path ← getitem output "path"; path ← safe_path path;
  _ ← raise_if (bool_decide (path ∈ acc.1)) (ValueError "duplicate actual output");
  _ ← raise_if (negb (bool_decide (path ∈ owned)) && negb (under (owned ∩ tree_outputs p) path))
        (ValueError "receipt output was not declared");
  digested ← py_in (VStr "digest") output;
  if (digested : bool) then
    d ← getitem output "digest"; v ← file_digest d;
    _ ← raise_if (match acc.2 !! path with Some w => negb (bool_decide (w = v)) | None => false end)
          (ValueError "receipt output digest disagreement");
    Ok ({[path]} ∪ acc.1, <[path := v]> acc.2)
  else
    target ← get output "symlinkTargetPath";
    linked ← py_in (VStr "symlinkTargetPath") output;
    _ ← raise_if (negb (py_eq (symlink_of p path) target) || negb linked) (ValueError "actual output content metadata missing");
    Ok ({[path]} ∪ acc.1, acc.2).

(** The identity of a receipt and the checks of how it ran *)
Definition receipt_key (record : value) (environment : list (string * string)) : res string :=
  label ← get record "targetLabel"; mnemonic ← get record "mnemonic";
  arguments ← get record "commandArgs"; outs ← get record "listedOutputs";
  identity float_repr label mnemonic arguments environment outs.

Definition receipt_status (record : value) : res unit :=
  platform ← get_or record "platform" (VDict []);
  properties ← get_or platform "properties" (VList []);
  routing ← pairs properties "name" false;
  _ ← raise_if (bool_decide (dget "nix_closure" routing ≠ Some closure)) (ValueError "receipt closure routing does not match");
  status ← get record "status"; code ← get record "exitCode";
  _ ← raise_if (negb (py_eq status (VStr "")) || match code with VInt z => bool_decide (z ≠ 0) | _ => true end)
        (ValueError "unsuccessful execution receipt");
  remotable ← get record "remotable";
  ensure (is_True remotable) (ValueError "receipt is not remotable").

(** Whether the receipt is a cache hit *)
Definition receipt_cache (record : value) : res bool :=
  cache ← get record "cacheHit"; runner ← get record "runner";
  match cache with
  | VBool true =>
      if py_eq runner (VStr "remote cache hit") then
        if fresh then fail "fresh proof contains a cache hit" else Ok true
      else fail "receipt did not execute remotely or accept a remote cache result"
  | VBool false =>
      if py_eq runner (VStr "remote") then Ok false
      else fail "receipt did not execute remotely or accept a remote cache result"
  | _ => fail "cache provenance missing"
  end.

Definition receipt (s : rstate) (record : value) : res rstate :=
  arguments ← get record "commandArgs";
  env ← get_or record "environmentVariables" (VList []);
  environment ← pairs env "name" false;
  key ← receipt_key record environment;
  _ ← ensure (bool_decide (is_Some (counts p !! key))) (ValueError "receipt has no matching analyzed action");
  _ ← receipt_status record;
  ins ← get_or record "inputs" (VList []);
  receipt_inputs ← array ins;
  paths ← mapM_res (λ item, x ← getitem item "path"; safe_path x) receipt_inputs;
  _ ← ensure (bool_decide (NoDup paths)) (ValueError "duplicate receipt input path");
  let path_set : gset string := list_to_set paths in
  declared ← missing (action_inputs p) key;
  input_trees ← missing (action_input_trees p) key;
  _ ← ensure (bool_decide (declared ∖ input_trees ⊆ path_set)) (ValueError "declared regular action inputs missing from receipt");
  '(indigests, generated) ← forM (receipt_input key declared input_trees) receipt_inputs (input_digests s, generated_input_values s);
  let trees := (λ tree, (tree, filter (λ q, startswith (tree +:+ "/") q = true) path_set)) <$> elements input_trees in
  '(mapped, absolute_files) ← input_roots paths (roots p) (aliases p);
  _ ← absolute_inputs arguments environment mapped path_set (roots p) absolute_files;
  cached ← receipt_cache record;
  dg ← get record "digest"; d ← file_digest dg;
  owned ← missing (action_outputs p) key;
  outs ← get_or record "actualOutputs" (VList []);
  outs ← array outs;
  '(actual, outdigests) ← forM (receipt_output owned) outs (∅, output_digests s);
  _ ← ensure (bool_decide (owned ∖ tree_outputs p ⊆ actual)) (ValueError "regular output materialization receipt missing");
  _ ← ensure (forallb (λ q, bool_decide (is_Some (outdigests !! q))) (elements (owned ∖ tree_outputs p)))
        (ValueError "regular output content digest missing");
  Ok (RState (bump key (seen s))
        (if (cached : bool) then remote_executions s else S (remote_executions s))
        (if cached then S (remote_cache_hits s) else remote_cache_hits s)
        (action_digests s ++ [d]) outdigests indigests generated (tree_receipts s ++ trees)
        (actual ∪ actual_output_paths s)).

Definition reconcile (records : value) : res rstate :=
  _ ← ensure (closure_ok closure) (ValueError "closure identity rejected");
  l ← array_bound records MAX_ACTIONS;
  s ← forM receipt l rinit;
  _ ← ensure (bool_decide (seen s = counts p)) (ValueError "analyzed spawns and execution receipts do not reconcile");
  _ ← forM (λ _ '(tree, input_paths),
        raise_if (bool_decide (tree ∈ tree_outputs p) &&
                  negb (bool_decide (input_paths = filter (λ q, startswith (tree +:+ "/") q = true) (actual_output_paths s))))
          (ValueError "generated tree inputs do not match producer output enumeration")) (tree_receipts s) tt;
  _ ← forM (λ _ '(path, v),
        raise_if (bool_decide (path ∈ actual_output_paths s) && negb (bool_decide (output_digests s !! path = Some v)))
          (ValueError "generated input content does not match producer receipt")) (generated_input_values s) tt;
  Ok s.

(** The comparison of the artifact's bytes with its receipt *)
Definition artifact_summary (bytes : bytes) (exec_path : value) (digests : gmap string (string * Z)) : res (string * Z) :=
  path ← safe_path exec_path;
  _ ← ensure (bool_decide (path ∈ outputs p) && bool_decide (is_Some (digests !! path))) (ValueError "artifact receipt digest missing");
  _ ← raise_if (bool_decide (zlen bytes > 8 * 1024 ^ 3)) (ValueError "artifact size bound");
  let result := (hexdigest bytes, zlen bytes) in
  _ ← ensure (bool_decide (digests !! path = Some result)) (ValueError "artifact bytes do not match remote output digest");
  Ok result.

(** ** What an accepted log means *)
Definition receipt_id (record : value) : res string :=
  env ← get_or record "environmentVariables" (VList []);
  environment ← pairs env "name" false;
  receipt_key record environment.

(** The inputs of a receipt against those the analysis declares for its key *)
Record accounted (record : value) (key : string) (items : list value) : Prop := {
  acc_id : receipt_id record = Ok key;
  acc_planned : is_Some (counts p !! key);
  acc_items : get_or record "inputs" (VList []) = Ok (VList items);
  acc_inputs : ∃ declared trees paths,
    action_inputs p !! key = Some declared ∧ action_input_trees p !! key = Some trees ∧
    Forall2 (λ it q, getitem it "path" = Ok (VStr q)) items paths ∧ NoDup paths ∧
    (∀ q, q ∈ declared → q ∉ trees → q ∈ paths) ∧ (∀ q, q ∈ paths → q ∈ declared ∨ under trees q = true);
  acc_success : get record "exitCode" = Ok (VInt 0) ∧ get record "remotable" = Ok (VBool true);
  acc_ran : get record "cacheHit" = Ok (VBool false) ∧ get record "runner" = Ok (VStr "remote") ∨
            fresh = false ∧ get record "cacheHit" = Ok (VBool true) ∧ get record "runner" = Ok (VStr "remote cache hit");
}.

Lemma array_bound_Ok v b l : array_bound v b = Ok l → v = VList l.
Proof. unfold array_bound. destruct v; try done. by case_match; intros; ok_inv. Qed.
Lemma missing_Ok {V} (m : gmap string V) k v : missing m k = Ok v ↔ m !! k = Some v.
Proof. unfold missing. case_match; naive_solver. Qed.
Lemma safe_path_str v q : safe_path v = Ok q → v = VStr q.
Proof. destruct v; try done. cbn. by case_match; intros; ok_inv. Qed.

Lemma receipt_status_ok record u :
  receipt_status record = Ok u → get record "exitCode" = Ok (VInt 0) ∧ get record "remotable" = Ok (VBool true).
Proof.
  unfold receipt_status. intros H. skip_steps 4 in H. apply bind_Ok in H as (status & _ & H).
  apply bind_Ok in H as (code & Hcode & H). apply bind_Ok in H as (? & Hc & H). apply bind_Ok in H as (rem & Hrem & H).
  apply ensure_Ok, is_True_inv in H as ->. apply raise_if_Ok, orb_false_iff in Hc as [_ Hc].
  destruct code; try done. apply bool_decide_eq_false, dec_stable in Hc as ->. done.
Qed.

Lemma receipt_cache_ok record b :
  receipt_cache record = Ok b →
  if b then fresh = false ∧ get record "cacheHit" = Ok (VBool true) ∧ get record "runner" = Ok (VStr "remote cache hit")
  else get record "cacheHit" = Ok (VBool false) ∧ get record "runner" = Ok (VStr "remote").
Proof.
  unfold receipt_cache. intros (c & Hc & H)%bind_Ok. apply bind_Ok in H as (r & Hr & H).
  destruct c as [|[]| | | | |]; try done; destruct (py_eq r _) eqn:E; try done; apply py_eq_str in E as ->.
  - destruct fresh; [done|]. by injection H as <-.
  - by injection H as <-.
Qed.

(** The digests a loop over the inputs adds, and those it keeps *)
Lemma receipt_input_spec key declared trees items a0 a1 :
  forM (receipt_input key declared trees) items a0 = Ok a1 →
  (∃ l, a1.2 = a0.2 ++ l) ∧
  ∀ it, it ∈ items → ∃ q, getitem it "path" = Ok (VStr q) ∧ (q ∈ declared ∨ under trees q = true) ∧
    (py_in (VStr "symlinkTargetPath") it = Ok true ∨ ∃ d v, get it "digest" = Ok d ∧ file_digest d = Ok v ∧ (q, v) ∈ a1.2).
Proof.
  revert a0. induction items as [|it items IH]; intros a0; cbn [forM].
  { intros [= <-]. split; [exists []; by rewrite app_nil_r|]. set_solver. }
  intros (a & Ha & Hl)%bind_Ok. apply IH in Hl as [[l Hl] Hit]. unfold receipt_input in Ha.
  apply bind_Ok in Ha as (path & Hp & Ha). apply bind_Ok in Ha as (q & Hq & Ha).
  destruct path as [| | | |q'| |]; try done. injection Hq as ->.
  apply bind_Ok in Ha as (? & Hin%raise_if_Ok%andb_false_iff & Ha). apply bind_Ok in Ha as (linked & Hk & Ha).
  assert (q ∈ declared ∨ under trees q = true) as Hdecl.
  { rewrite !negb_false_iff in Hin. destruct Hin as [Hin|Hin]; [left; by apply bool_decide_eq_true in Hin|by right]. }
  destruct linked.
  - skip_steps 3 in Ha. injection Ha as <-. cbn in Hl. split; [by exists l|].
    intros y [->|Hy]%elem_of_cons; [|by apply Hit]. exists q. auto.
  - apply bind_Ok in Ha as (d & Hd & Ha). apply bind_Ok in Ha as (v & Hv & Ha). injection Ha as <-. cbn in Hl.
    split; [exists ((q, v) :: l); by rewrite Hl, <-(assoc_L (++))|].
    intros y [->|Hy]%elem_of_cons; [|by apply Hit]. exists q. split_and!; [done|done|]. right. exists d, v.
    split_and!; [done|done|]. rewrite Hl. set_solver.
Qed.

(** A loop over the outputs keeps the digests it had. *)
Lemma receipt_output_keeps owned outs a0 a1 :
  forM (receipt_output owned) outs a0 = Ok a1 → ∀ q, is_Some (a0.2 !! q) → is_Some (a1.2 !! q).
Proof.
  revert a0. induction outs as [|o outs IH]; intros a0; cbn [forM]; [by intros [= <-]|].
  intros (a & Ha & Hl)%bind_Ok q Hq. apply (IH a Hl). unfold receipt_output in Ha. skip_steps 4 in Ha.
  apply bind_Ok in Ha as ([] & _ & Ha).
  - skip_steps 2 in Ha. apply bind_Ok in Ha as (? & _ & Ha). injection Ha as <-. cbn.
    rewrite lookup_insert_is_Some'. by right.
  - skip_steps 3 in Ha. by injection Ha as <-.
Qed.

(** What one receipt adds to the state *)
Record step_of (s s' : rstate) (record : value) (key : string) (items : list value) : Prop := {
  step_accounted : accounted record key items;
  step_seen : seen s' = bump key (seen s);
  step_ran : (remote_executions s' = S (remote_executions s) ∧ remote_cache_hits s' = remote_cache_hits s ∨
    remote_executions s' = remote_executions s ∧ remote_cache_hits s' = S (remote_cache_hits s) ∧ fresh = false);
  step_digests q : is_Some (output_digests s !! q) → is_Some (output_digests s' !! q);
  step_outputs owned q : action_outputs p !! key = Some owned → q ∈ owned → q ∉ tree_outputs p → is_Some (output_digests s' !! q);
  step_kept : ∃ l, generated_input_values s' = generated_input_values s ++ l;
  step_generated it : it ∈ items → ∃ q, getitem it "path" = Ok (VStr q) ∧
    (py_in (VStr "symlinkTargetPath") it = Ok true ∨
     ∃ d v, get it "digest" = Ok d ∧ file_digest d = Ok v ∧ (q, v) ∈ generated_input_values s');
}.

Lemma mapM_paths items paths :
  mapM_res (λ item, x ← getitem item "path"; safe_path x) items = Ok paths → Forall2 (λ it q, getitem it "path" = Ok (VStr q)) items paths.
Proof.
  rewrite mapM_res_Ok. intros H. eapply Forall2_impl; [exact H|]. cbn. intros it q (x & Hx & ->%safe_path_str)%bind_Ok. done.
Qed.

Lemma receipt_step s s' record : receipt s record = Ok s' → ∃ key items, step_of s s' record key items.
Proof.
  unfold receipt. intros H. apply bind_Ok in H as (arguments & _ & H). apply bind_Ok in H as (env & Henv & H).
  apply bind_Ok in H as (environment & Hen & H). apply bind_Ok in H as (key & Hkey & H).
  apply bind_Ok in H as (? & Hpl%ensure_Ok%bool_decide_eq_true & H). apply bind_Ok in H as (? & Hst%receipt_status_ok & H).
  apply bind_Ok in H as (ins & Hins & H). apply bind_Ok in H as (items & ->%array_bound_Ok & H).
  apply bind_Ok in H as (paths & Hp%mapM_paths & H). apply bind_Ok in H as (? & Hnd%ensure_Ok%bool_decide_eq_true & H).
  apply bind_Ok in H as (declared & Hdecl%missing_Ok & H). apply bind_Ok in H as (trees & Htrees%missing_Ok & H).
  apply bind_Ok in H as (? & Hsub%ensure_Ok%bool_decide_eq_true & H). apply bind_Ok in H as ([ind gen] & Hrin & H).
  apply bind_Ok in H as ([mapped files] & _ & H). apply bind_Ok in H as (? & _ & H).
  apply bind_Ok in H as (cached & Hcache%receipt_cache_ok & H). apply bind_Ok in H as (dg & _ & H).
  apply bind_Ok in H as (d & _ & H). apply bind_Ok in H as (owned & Hown%missing_Ok & H).
  apply bind_Ok in H as (v & _ & H). apply bind_Ok in H as (outs & _ & H).
  apply bind_Ok in H as ([actual od] & Hout & H). apply bind_Ok in H as (? & _ & H).
  apply bind_Ok in H as (? & Hdig%ensure_Ok & H). injection H as <-.
  apply receipt_input_spec in Hrin as [[l Hl] Hit]. cbn in Hl.
  exists key, items. split; cbn.
  - split; [|done|done| |done|destruct cached; auto].
    + unfold receipt_id. rewrite Henv. cbn. rewrite Hen. done.
    + exists declared, trees, paths. split_and!; [done|done|done|done| |].
      * intros q Hq Hnt. assert (q ∈ (list_to_set paths : gset string)) as Hq' by (apply Hsub; set_solver).
        by apply elem_of_list_to_set in Hq'.
      * intros q (i & Hi)%list_elem_of_lookup. destruct (Forall2_lookup_r _ _ _ _ _ Hp Hi) as (it & Hit' & Hq).
        destruct (Hit it) as (q' & Hq' & ? & _); [by eapply list_elem_of_lookup_2|]. rewrite Hq in Hq'. by simplify_eq.
  - done.
  - destruct cached; [right|left]; naive_solver.
  - apply (receipt_output_keeps _ _ _ _ Hout).
  - intros owned' q Ho Hq Hnt. simplify_eq. rewrite forallb_forall in Hdig. specialize (Hdig q).
    apply bool_decide_eq_true in Hdig; [done|]. apply list_elem_of_In, elem_of_elements. set_solver.
  - by exists l.
  - intros it Hin. destruct (Hit it Hin) as (q & Hq & _ & ?). by exists q.
Qed.

(** The receipts of a key *)
Definition with_key (key : string) (record : value) : bool := bool_decide (receipt_id record = Ok key).

Record log_state (l : list value) (s : rstate) : Prop := {
  log_accounted record : record ∈ l → ∃ key items, accounted record key items ∧
    (∀ owned q, action_outputs p !! key = Some owned → q ∈ owned → q ∉ tree_outputs p → is_Some (output_digests s !! q)) ∧
    (∀ it, it ∈ items → ∃ q, getitem it "path" = Ok (VStr q) ∧
      (py_in (VStr "symlinkTargetPath") it = Ok true ∨
       ∃ d v, get it "digest" = Ok d ∧ file_digest d = Ok v ∧ (q, v) ∈ generated_input_values s));
  log_seen key : seen s !! key ≠ Some 0%nat ∧ default 0%nat (seen s !! key) = length (List.filter (with_key key) l);
  log_count : (remote_executions s + remote_cache_hits s = length l)%nat;
  log_fresh : fresh = true → remote_cache_hits s = 0%nat;
}.

Lemma log_state_init : log_state [] rinit.
Proof. split; [set_solver|done|done|done]. Qed.

Lemma log_state_step l s s' record : log_state l s → receipt s record = Ok s' → log_state (l ++ [record]) s'.
Proof.
  intros [H1 H2 H3 H4] (key & items & Hs)%receipt_step. split.
  - intros r [Hr| ->%list_elem_of_singleton]%elem_of_app.
    + destruct (H1 r Hr) as (k & its & Ha & Ho & Hg). exists k, its. split_and!; [done| |].
      * intros owned q ???. eapply step_digests; eauto.
      * intros it Hit. destruct (Hg it Hit) as (q & Hq & [?|(d & v & ? & ? & Hv)]); exists q; [auto|].
        split; [done|]. right. exists d, v. split_and!; [done|done|]. destruct (step_kept _ _ _ _ _ Hs) as [x ->]. set_solver.
    + exists key, items. split_and!; [apply Hs| |apply Hs]. intros. by eapply step_outputs.
  - intros k. rewrite List.filter_app, length_app, (step_seen _ _ _ _ _ Hs). destruct (H2 k) as [Hn Hd]. cbn.
    pose proof (acc_id _ _ _ (step_accounted _ _ _ _ _ Hs)) as Hid. unfold bump, with_key at 2. rewrite Hid.
    destruct (decide (key = k)) as [->|Hk].
    + rewrite lookup_insert, bool_decide_true by done. rewrite decide_True by done. cbn. split; [done|lia].
    + rewrite lookup_insert_ne, bool_decide_false by congruence. cbn. split; [done|lia].
  - rewrite length_app. cbn. destruct (step_ran _ _ _ _ _ Hs) as [[-> ->]|(-> & -> & _)]; lia.
  - intros Hf. destruct (step_ran _ _ _ _ _ Hs) as [[_ ->]|(_ & _ & ?)]; [auto|congruence].
Qed.

Lemma reconcile_log records s :
  reconcile records = Ok s → ∃ l, records = VList l ∧ log_state l s ∧ seen s = counts p ∧
    ∀ q v, (q, v) ∈ generated_input_values s → q ∈ actual_output_paths s → output_digests s !! q = Some v.
Proof.
  unfold reconcile. intros H. apply bind_Ok in H as (? & _ & H). apply bind_Ok in H as (l & ->%array_bound_Ok & H).
  apply bind_Ok in H as (s1 & Hl & H). apply bind_Ok in H as (? & Hseen%ensure_Ok%bool_decide_eq_true & H).
  apply bind_Ok in H as (? & _ & H). apply bind_Ok in H as (? & Hgen & H). injection H as ->.
  exists l. split_and!; [done| |done|].
  - revert Hl. apply (forM_inv _ log_state); [apply log_state_init|]. intros; by eapply log_state_step.
  - intros q v Hin Hact. pose proof (forM_unit _ _ _ Hgen _ Hin) as Hu. cbn in Hu.
    apply raise_if_Ok, andb_false_iff in Hu as [Hu|Hu]; [by apply bool_decide_eq_false in Hu|].
    by apply negb_false_iff, bool_decide_eq_true in Hu.
Qed.

End Reconcile.

(** ** Plan and log together *)
Lemma sum_counts_insert `{Countable A} (m : gmap A nat) k n :
  m !! k = None → sum_counts (<[k := n]> m) = (n + sum_counts m)%nat.
Proof.
  intros Hk. unfold sum_counts. pose proof (fmap_Permutation snd _ _ (map_to_list_insert m k n Hk)) as Hp.
  cbn in Hp. transitivity (sum_list (n :: (map_to_list m).*2)); [|done].
  induction Hp; cbn in *; lia.
Qed.

Lemma sum_counts_bump `{Countable A} (m : gmap A nat) k : sum_counts (bump k m) = S (sum_counts m).
Proof.
  unfold bump. destruct (m !! k) as [n|] eqn:Hk; cbn [default].
  - pose proof (sum_counts_insert (delete k m) k n (lookup_delete_eq m k)) as H1. rewrite (insert_delete_id m k n Hk) in H1.
    rewrite <-insert_delete_eq, sum_counts_insert, H1 by apply lookup_delete_eq. done.
  - by rewrite sum_counts_insert.
Qed.

Definition is_spawn (action : value) : bool :=
  match get_or action "arguments" (VList []) with Ok v => truthy v | Err _ => false end.

Lemma spawn_action_counts float_repr T targets trees arguments action s s' :
  spawn_action float_repr T targets trees arguments action s = Ok s' →
  ∃ key, counts (a_plan s') = bump key (counts (a_plan s)).
Proof.
  unfold spawn_action. intros H. skip_steps 8 in H. apply bind_Ok in H as ([declared st] & _ & H).
  apply bind_Ok in H as ([mapped files] & _ & H). skip_steps 2 in H. apply bind_Ok in H as ([outs st2] & _ & H).
  skip_steps 1 in H. apply bind_Ok in H as (key & _ & H). apply bind_Ok in H as ([tree st3] & _ & H). injection H as <-.
  exists key. repeat case_match; done.
Qed.

Lemma non_spawn_action_counts T action s s' :
  non_spawn_action T action s = Ok s' → counts (a_plan s') = counts (a_plan s).
Proof.
  unfold non_spawn_action. intros H. skip_steps 3 in H. destruct (negb _); [by injection H as <-|].
  apply bind_Ok in H as ([] & _ & H); try done. skip_steps 3 in H. apply bind_Ok in H as ([links st] & _ & H). by injection H as <-.
Qed.

Lemma plan_action_counts float_repr T targets trees s action s' :
  plan_action float_repr T targets trees s action = Ok s' →
  sum_counts (counts (a_plan s')) = ((if is_spawn action then 1 else 0) + sum_counts (counts (a_plan s)))%nat.
Proof.
  unfold plan_action, is_spawn. intros (v & -> & H)%bind_Ok. destruct (truthy v).
  - apply spawn_action_counts in H as [key ->]. by rewrite sum_counts_bump.
  - apply non_spawn_action_counts in H as ->. done.
Qed.

(** The reachable spawns of an analysis *)
Definition spawns (a : analysis) : list nat :=
  List.filter (λ i, match actions (g_registry a) !! i with Some action => is_spawn action | None => false end) (g_reached a).

Lemma filter_length_perm {A} (f : A → bool) l l' : l ≡ₚ l' → length (List.filter f l) = length (List.filter f l').
Proof. induction 1; cbn; repeat case_match; cbn; congruence. Qed.

Lemma plan_reached_counts float_repr a rs al s :
  plan_reached float_repr a rs al = Ok s → sum_counts (counts (a_plan s)) = length (spawns a).
Proof.
  intros H. unfold spawns. rewrite <-(filter_length_perm _ _ _ (merge_sort_Permutation Nat.le (g_reached a))).
  revert H. unfold plan_reached.
  apply (forM_inv _ (λ d s, sum_counts (counts (a_plan s)) = length (List.filter (λ i, match actions (g_registry a) !! i with Some action => is_spawn action | None => false end) d))); [done|].
  intros d i s1 s2 Hd _ Hs. rewrite List.filter_app, length_app, <-Hd. cbn.
  destruct (actions (g_registry a) !! i) as [action|]; [|done]. apply plan_action_counts in Hs as ->.
  destruct (is_spawn action); cbn; lia.
Qed.

Lemma reconcile_count float_repr p closure fresh records s :
  reconcile float_repr p closure fresh records = Ok s →
  (remote_executions s + remote_cache_hits s = sum_counts (counts p))%nat.
Proof.
  unfold reconcile. intros H. apply bind_Ok in H as (? & _ & H). apply bind_Ok in H as (l & _ & H).
  apply bind_Ok in H as (s1 & Hl & H). apply bind_Ok in H as (? & Hseen%ensure_Ok%bool_decide_eq_true & H).
  skip_steps 2 in H. injection H as <-. rewrite <-Hseen. revert Hl.
  apply (forM_inv _ (λ _ s, (remote_executions s + remote_cache_hits s = sum_counts (seen s))%nat)); [done|].
  intros d r s2 s3 Hd _ (key & items & Hs)%receipt_step.
  rewrite (step_seen _ _ _ _ _ _ _ _ Hs), sum_counts_bump, <-Hd.
  destruct (step_ran _ _ _ _ _ _ _ _ Hs) as [[-> ->]|(-> & -> & _)]; lia.
Qed.


(** *** A small archive

    Five actions, one per required target, that all run the declared file
    "tool"; the archive takes the outputs of the others. *)
Definition ex_rows (l : list (list (string * value))) : value := VList (VDict <$> l).
Definition ex_files : list string := ["tool"; "zip"; "ctl"; "app"; "omux"; "omuxd"].
Definition ex_targets : list (string * string) :=
  [("//clients/macos:archive", "OmuxMacOSArchive"); ("//clients/macos:control", "OmuxSwiftUI"); ("//clients/macos:Omux", "OmuxMacOSBundle");
   ("//:omux", "ZigBuildExe"); ("//:omuxd", "ZigBuildExe")].
Definition ex_number {A} (l : list A) : list (Z * A) := zip (Z.of_nat <$> seq 1 (length l)) l.
Definition ex_graph : value := VDict
  [("pathFragments", ex_rows ((λ '(i, f), [("id", VInt i); ("label", VStr f)]) <$> ex_number ex_files));
   ("artifacts", ex_rows ((λ '(i, f), [("id", VInt i); ("pathFragmentId", VInt i)]) <$> ex_number ex_files));
   ("depSetOfFiles", ex_rows [[("id", VInt 1); ("directArtifactIds", VList [VInt 1])];
      [("id", VInt 2); ("directArtifactIds", VList [VInt 3; VInt 4; VInt 5; VInt 6]); ("transitiveDepSetIds", VList [VInt 1])]]);
   ("targets", ex_rows ((λ '(i, t), [("id", VInt i); ("label", VStr t.1)]) <$> ex_number ex_targets));
   ("actions", ex_rows ((λ '(i, t),
      [("targetId", VInt i); ("mnemonic", VStr t.2); ("executionPlatform", VStr "@@omux_nix//:execution_platform");
       ("arguments", VList [VStr "tool"]); ("outputIds", VList [VInt (i + 1)]);
       ("inputDepSetIds", VList [VInt (if bool_decide (i = 1) then 2 else 1)])]) <$> ex_number ex_targets))].
Definition ex_manifest : value := VDict [("system", VStr "aarch64-darwin"); ("apple", VDict [("sdk_version", VStr "14.4")])].
Definition ex_store : string := "/nix/store/00000000000000000000000000000000-tools".
Definition ex_closure : string := "00000000000000000000000000000000-omux-bazel-closure".
Definition ex_digest : value := VDict
  [("hash", VStr (hexdigest [])); ("hashFunctionName", VStr "SHA-256"); ("sizeBytes", VStr "0")].
Definition ex_file (f : string) : value := VDict [("path", VStr f); ("digest", ex_digest)].
Definition ex_log : value := VList ((λ '(i, t),
  let out := nth (Z.to_nat i) ex_files "" in
  VDict [("commandArgs", VList [VStr "tool"]); ("targetLabel", VStr t.1); ("mnemonic", VStr t.2); ("listedOutputs", VList [VStr out]);
    ("platform", VDict [("properties", VList [VDict [("name", VStr "nix_closure"); ("value", VStr ex_closure)]])]);
    ("status", VStr ""); ("exitCode", VInt 0); ("remotable", VBool true); ("cacheHit", VBool false); ("runner", VStr "remote");
    ("inputs", VList (ex_file <$> if bool_decide (i = 1) then ["tool"; "ctl"; "app"; "omux"; "omuxd"] else ["tool"]));
    ("digest", ex_digest); ("actualOutputs", VList [ex_file out])]) <$> ex_number ex_targets).

Definition ex_plan : res (plan * acc * analysis) := action_plan (λ _, "") ex_graph ex_manifest ex_store.
Definition ex_run (fresh : bool) : res rstate := '(p, _, _) ← ex_plan; reconcile (λ _, "") p ex_closure fresh ex_log.

(** The two sides of the example, evaluated together *)
Lemma ex_accepted : ∃ p s a r,
  ex_plan = Ok (p, s, a) ∧ reconcile (λ _, "") p ex_closure true ex_log = Ok r ∧ remote_executions r = 5%nat.
Proof.
  assert (remote_executions <$> ex_run true = Ok 5%nat) as H by (vm_compute; reflexivity).
  unfold ex_run in H. destruct ex_plan as [[[p s] a]|]; [|discriminate H]. cbn [mbind res_bind] in H.
  destruct (reconcile (λ _, "") p ex_closure true ex_log) as [r|] eqn:Hr; [|discriminate H]. injection H as H.
  exists p, s, a, r. split; [reflexivity|]. split; [exact Hr|exact H].
Defined.


End Reconcile.
