(* ===== verification/PatchIO.v ===== *)
(** * integrations/codex-upstream/patch_io.py: exact patch application

    [apply_exact] walks the lines of a git patch; here the remaining lines are
    a list, and the index is its length.  Gzip and tar decoding are a parameter
    that yields the members of an archive, and the value of a decimal digit
    ([\d] and [int] accept every decimal digit of Unicode) is a parameter too;
    the files are an association list from names to bytes. *)
From S2P Require Import Prelude PyBytes PyString PyValue PyText Sha256.
From Stdlib Require Import Ascii.
Import Sha256.
Local Open Scope Z_scope.

Module PatchIO.

Definition MAX_ARCHIVE_BYTES : Z := 64 * 1024 * 1024.
Definition LICENSE_FILES : list string := ["LICENSE"; "NOTICE"].
Definition digest (data : bytes) : string := hexdigest data.

Definition forbidden (a : ascii) : bool := bool_decide (a ∈ ["\"%char; "000"%char; "010"%char; "013"%char; "009"%char]).

Definition source_path (raw : string) : res string :=
  _ ← raise_if (negb (startswith "codex-rs/" raw) || bool_decide (".." ∈ path_parts raw)
                || bool_decide (str_join "/" (path_parts raw) ≠ raw) || str_any forbidden raw)
        (ValueError "path is outside the canonical upstream source boundary");
  Ok raw.

Definition safe_path (raw : string) : res string :=
  if bool_decide (raw = "/dev/null") then Ok raw else
  _ ← ensure (startswith "a/" raw || startswith "b/" raw) (ValueError "patch path must have a git prefix");
  source_path (str_drop 2 raw).

(** [s.rstrip("\n")] *)
Fixpoint rstrip_nl (s : string) : string :=
  match s with
  | EmptyString => EmptyString
  | String c r =>
      match rstrip_nl r with
      | EmptyString => if bool_decide (c = "010"%char) then EmptyString else String c EmptyString
      | r' => String c r'
      end
  end.

Definition NL : string := String "010" EmptyString.
Definition NO_NEWLINE : string := "\ No newline at end of file" +:+ NL.

(** ** Hunks *)
Section Apply.
(** The value of a character that is a decimal digit *)
Context (decimal : string → option Z).

(** [\d+] at the head: the number and the rest *)
Fixpoint number_go (l : list string) (acc : Z) : Z * list string :=
  match l with
  | c :: l' => match decimal c with Some d => number_go l' (10 * acc + d) | None => (acc, l) end
  | [] => (acc, [])
  end.
Definition number (l : list string) : option (Z * list string) :=
  match l with
  | c :: l => match decimal c with Some d => Some (number_go l d) | None => None end
  | [] => None
  end.

(** [(\d+)(?:,(\d+))?] followed by [sep]: a comma that no digit follows is
    not part of the range, and [sep] does not start with one *)
Definition range (sep : list string) (l : list string) : option (Z * Z * list string) :=
  '(start, l) ← number l;
  '(count, l) ← (match l with
                 | "," :: r => match number r with Some (n, r) => Some (n, r) | None => Some (1, l) end
                 | _ => Some (1, l)
                 end);
  (fix eat p l := match p, l with
    | [], _ => Some (start, count, l)
    | a :: p, b :: l => if bool_decide (a = b) then eat p l else None
    | _, _ => None
    end) sep l.

Record header := Header { h_old : Z; h_old_count : Z; h_new : Z; h_new_count : Z }.

(** [@@ -a,b +c,d @@...], the line ending in its only newline *)
Definition parse_header (line : string) : option header :=
  if negb (startswith "@@ -" line) then None else
  '(a, b, l) ← range (str_chars " +") (str_chars (str_drop 4 line));
  '(c, d, l) ← range (str_chars " @@") l;
  match rev l with
  | last :: r => if bool_decide (last = NL) && forallb (λ x, bool_decide (x ≠ NL)) r then Some (Header a b c d) else None
  | [] => None
  end.

(** The first character and the rest of a line *)
Definition split_line (line : string) : option (ascii * string) :=
  match line with String c r => Some (c, r) | EmptyString => None end.

Record progress := Progress { cursor : nat; result : list string; removed : Z; added : Z }.

(** One line of a hunk with its payload *)
Definition hunk_line (source : list string) (c : ascii) (payload : string) (p : progress) : res progress :=
  p ← (if bool_decide (c ∈ [" "%char; "-"%char]) then
         _ ← ensure (bool_decide (source !! cursor p = Some payload)) (ValueError "patch context differs");
         Ok (Progress (S (cursor p)) (result p) (removed p + 1) (added p))
       else Ok p);
  Ok (if bool_decide (c ∈ [" "%char; "+"%char])
      then Progress (cursor p) (result p ++ [payload]) (removed p) (added p + 1) else p).

(** The loop over the lines of a hunk *)
Fixpoint hunk (source : list string) (h : header) (lines : list string) (p : progress) : res (progress * list string) :=
  if negb (bool_decide (removed p < h_old_count h) || bool_decide (added p < h_new_count h)) then Ok (p, lines) else
  match lines with
  | [] => Err (ValueError "patch hunk is truncated")
  | line :: lines =>
      match split_line line with
      | None => Err (ValueError "patch hunk is truncated")
      | Some (c, payload) =>
          if negb (bool_decide (c ∈ [" "%char; "+"%char; "-"%char])) then Err (ValueError "patch hunk is truncated") else
          let continue payload p k :=
            p ← hunk_line source c payload p;
            _ ← raise_if (bool_decide (removed p > h_old_count h) || bool_decide (added p > h_new_count h))
                  (ValueError "patch hunk line counts differ");
            k p in
          match lines with
          | marker :: lines' =>
              if bool_decide (marker = NO_NEWLINE) then
                _ ← ensure (endswith NL payload) (ValueError "malformed missing-newline marker");
                continue (String.substring 0 (String.length payload - 1) payload) p (hunk source h lines')
              else continue payload p (hunk source h lines)
          | [] => continue payload p (hunk source h lines)
          end
      end
  end.

(** The loop over the hunks of a file; [hunks] counts them *)
Fixpoint file_hunks (fuel : nat) (source : list string) (lines : list string) (cur : nat) (res : list string) (hunks : nat) :
    Prelude.res (nat * list string * nat * list string) :=
  match lines with
  | line :: rest =>
      if negb (startswith "@@ " line) then Ok (cur, res, hunks, lines) else
      match fuel with
      | O => Err NoFuel
      | S fuel =>
          match parse_header line with
          | None => Err (ValueError "malformed patch hunk")
          | Some h =>
              let start := h_old h - (if bool_decide (h_old_count h ≠ 0) then 1 else 0) in
              let target_start := h_new h - (if bool_decide (h_new_count h ≠ 0) then 1 else 0) in
              _ ← raise_if (bool_decide (start < Z.of_nat cur) || bool_decide (start > zlen source))
                    (ValueError "patch hunk has an invalid source range");
              let res := res ++ take (Z.to_nat start - cur) (drop cur source) in
              _ ← ensure (bool_decide (target_start = zlen res)) (ValueError "patch hunk has an invalid destination range");
              '(p, rest) ← hunk source h rest (Progress (Z.to_nat start) res 0 0);
              file_hunks fuel source rest (cursor p) (result p) (S hunks)
          end
      end
  | [] => Ok (cur, res, hunks, [])
  end.

(** The header of a file diff: its name, whether it is new, the lines after *)
Definition file_header (original output : list (string * bytes)) (lines : list string) : res (string * bool * list string) :=
  match lines with
  | [] => Err IndexError
  | first :: lines =>
      _ ← ensure (startswith "diff --git " first) (ValueError "unexpected patch content outside a file diff");
      match str_split " " (rstrip_nl first) with
      | [_; _; third; fourth] =>
          old_git ← safe_path third;
          new_git ← safe_path fourth;
          _ ← ensure (bool_decide (old_git = new_git)) (ValueError "unexpected rename in native hook patch");
          let new_file := bool_decide (head lines = Some ("new file mode 100644" +:+ NL)) in
          let lines := if new_file then drop 1 lines else lines in
          match lines with
          | l1 :: l2 :: lines =>
              _ ← ensure (startswith "--- " l1 && startswith "+++ " l2) (ValueError "patch lacks file headers");
              old ← safe_path (rstrip_nl (str_drop 4 l1));
              new ← safe_path (rstrip_nl (str_drop 4 l2));
              _ ← raise_if (bool_decide (new ≠ new_git) || (bool_decide (old ≠ "/dev/null") && bool_decide (old ≠ new))
                            || negb (Bool.eqb new_file (bool_decide (old = "/dev/null"))))
                    (ValueError "inconsistent patch file headers");
              _ ← raise_if (bool_decide (new ∈ dkeys output) || (new_file && bool_decide (new ∈ dkeys original)))
                    (ValueError "duplicate or existing new patch file");
              _ ← raise_if (negb new_file && negb (bool_decide (new ∈ dkeys original))) (ValueError "patch original is missing");
              Ok (new, new_file, lines)
          | _ => Err (ValueError "patch lacks file headers")
          end
      | _ => Err (ValueError "malformed git patch header")
      end
  end.

Definition file_source (original : list (string * bytes)) (new : string) (new_file : bool) : res (list string) :=
  if new_file then Ok [] else
  match dget new original with
  | None => Err KeyError
  | Some data => text ← decode_utf8 data; Ok (splitlines_keep text)
  end.

Fixpoint apply_files (fuel : nat) (original : list (string * bytes)) (lines : list string) (output : list (string * bytes)) :
    res (list (string * bytes)) :=
  match lines with
  | [] => Ok output
  | _ =>
      match fuel with
      | O => Err NoFuel
      | S fuel =>
          '(new, new_file, lines) ← file_header original output lines;
          source ← file_source original new new_file;
          '(cur, res, hunks, lines) ← file_hunks (length lines) source lines 0 [] 0;
          _ ← raise_if (bool_decide (hunks = 0)%nat) (ValueError "patch file has no hunks");
          apply_files fuel original lines (dset new (fsencode (unchars (res ++ drop cur source))) output)
      end
  end.

Definition apply_exact (patch : string) (original : list (string * bytes)) : res (list (string * bytes)) :=
  let lines := splitlines_keep patch in apply_files (length lines) original lines [].

(** Evaluate the tests of a known character. *)
Ltac eval_char :=
  repeat match goal with
  | H : context [bool_decide (?c ∈ ?l)] |- _ => let b := eval vm_compute in (bool_decide (c ∈ l)) in change (bool_decide (c ∈ l)) with b in H
  | |- context [bool_decide (?c ∈ ?l)] => let b := eval vm_compute in (bool_decide (c ∈ l)) in change (bool_decide (c ∈ l)) with b
  end.

(** ** Edit scripts

    A script relates two texts line by line; applying a patch is exact when
    the result is the new side of a script whose old side is the source. *)
Inductive edit := Keep (line : string) | Remove (line : string) | Insert (line : string).
Definition old_side (es : list edit) : list string := omap (λ e, match e with Keep l | Remove l => Some l | Insert _ => None end) es.
Definition new_side (es : list edit) : list string := omap (λ e, match e with Keep l | Insert l => Some l | Remove _ => None end) es.

Lemma old_side_app es fs : old_side (es ++ fs) = old_side es ++ old_side fs.
Proof. apply omap_app. Qed.
Lemma new_side_app es fs : new_side (es ++ fs) = new_side es ++ new_side fs.
Proof. apply omap_app. Qed.
Lemma keep_sides l : old_side (Keep <$> l) = l ∧ new_side (Keep <$> l) = l.
Proof. induction l as [|x l [H1 H2]]; [done|]. cbn. unfold old_side, new_side in *. by rewrite H1, H2. Qed.

(** [r] is what a script makes of the first [c] lines of [source]. *)
Definition edited (source : list string) (c : nat) (r : list string) : Prop :=
  ∃ es, old_side es = take c source ∧ new_side es = r ∧ (c <= length source)%nat.

Lemma edited_keep source c r n :
  edited source c r → (c + n <= length source)%nat → edited source (c + n) (r ++ take n (drop c source)).
Proof.
  intros (es & Ho & <- & _) Hn. exists (es ++ (Keep <$> take n (drop c source))).
  rewrite old_side_app, new_side_app, Ho. destruct (keep_sides (take n (drop c source))) as [-> ->].
  split_and!; [|done|done]. by rewrite take_take_drop.
Qed.

Lemma hunk_line_edited source ch payload p p' :
  ch ∈ [" "%char; "+"%char; "-"%char] → hunk_line source ch payload p = Ok p' →
  edited source (cursor p) (result p) → edited source (cursor p') (result p').
Proof.
  intros Hch H (es & Ho & Hn & Hl). unfold hunk_line in H. apply bind_Ok in H as (q & Hq & H). injection H as <-.
  rewrite !elem_of_cons, elem_of_nil in Hch. destruct Hch as [->|[->|[->|[]]]]; eval_char; cbn iota in Hq |- *.
  - apply bind_Ok in Hq as (? & Hs%ensure_Ok%bool_decide_eq_true & [= <-]). exists (es ++ [Keep payload]).
    rewrite old_side_app, new_side_app, Ho, Hn. cbn [cursor result]. split_and!; [by rewrite (take_S_r _ _ _ Hs)|done|]. by apply lookup_lt_Some in Hs.
  - injection Hq as <-. exists (es ++ [Insert payload]). rewrite old_side_app, new_side_app, Ho, Hn. cbn [cursor result]. by rewrite app_nil_r.
  - apply bind_Ok in Hq as (? & Hs%ensure_Ok%bool_decide_eq_true & [= <-]). exists (es ++ [Remove payload]).
    rewrite old_side_app, new_side_app, Ho, Hn. cbn [cursor result]. split_and!; [by rewrite (take_S_r _ _ _ Hs)|by rewrite app_nil_r|]. by apply lookup_lt_Some in Hs.
Qed.

Lemma hunk_edited source h lines p p' rest :
  hunk source h lines p = Ok (p', rest) →
  (edited source (cursor p) (result p) → edited source (cursor p') (result p')) ∧ (length rest <= length lines)%nat.
Proof.
  revert p. induction lines as [lines IH] using (induction_ltof1 _ length). unfold ltof in IH. intros p H.
  destruct lines as [|line lines]; cbn [hunk] in H; (destruct (negb _); [by injection H as <- <-|]); [done|].
  destruct (split_line line) as [[c payload]|]; [|done].
  destruct (bool_decide_reflect (c ∈ [" "%char; "+"%char; "-"%char])) as [Hc|]; cbn [negb] in H; [|done].
  assert (∀ pl k, (length k <= length lines)%nat → (p ← hunk_line source c pl p;
    _ ← raise_if (bool_decide (removed p > h_old_count h) || bool_decide (added p > h_new_count h)) (ValueError "patch hunk line counts differ");
    hunk source h k p) = Ok (p', rest) →
    (edited source (cursor p) (result p) → edited source (cursor p') (result p')) ∧ (length rest <= length (line :: lines))%nat) as Hstep.
  { intros pl k Hk (q & Hq & Hr)%bind_Ok. apply bind_Ok in Hr as (? & _ & Hr).
    apply IH in Hr as [He Hlen]; [|cbn; lia]. split; [|cbn; lia]. intros Hp. apply He. by eapply hunk_line_edited. }
  destruct lines as [|marker lines']; [by eapply Hstep|]. destruct (bool_decide _); [|by eapply Hstep].
  apply bind_Ok in H as (? & _ & H). eapply Hstep; [|exact H]. cbn. lia.
Qed.

Lemma edited_start source : edited source 0 [].
Proof. exists []. split_and!; [done|done|lia]. Qed.

Lemma file_hunks_edited fuel source lines cur r n cur' r' n' rest :
  file_hunks fuel source lines cur r n = Ok (cur', r', n', rest) → edited source cur r →
  edited source cur' r' ∧ (length rest <= length lines)%nat.
Proof.
  revert lines cur r n. induction fuel as [|fuel IH]; intros lines cur r n; destruct lines as [|line lines]; cbn [file_hunks];
    try (by intros [= <- <- <- <-]); (destruct (negb _); [by intros [= <- <- <- <-]|]); [done|].
  destruct (parse_header line) as [h|]; [|done]. set (start := h_old h - _). intros H He.
  apply bind_Ok in H as (? & Hs%raise_if_Ok%orb_false_iff & H). rewrite !bool_decide_eq_false in Hs.
  apply bind_Ok in H as (? & _ & H). apply bind_Ok in H as ([p rest1] & Hp & H).
  apply hunk_edited in Hp as [Hp Hl]. cbn in Hp. apply IH in H as [He' Hl']; [split; [done|cbn; lia]|].
  apply Hp. unfold zlen in *.
  replace (Z.to_nat start) with (cur + (Z.to_nat start - cur))%nat at 1 by lia. apply edited_keep; [done|lia].
Qed.

Lemma source_path_Ok raw p : source_path raw = Ok p → p = raw ∧ source_path p = Ok p.
Proof. intros H. assert (p = raw) as ->; [|done]. unfold source_path in H. by apply bind_Ok in H as (? & _ & [= ->]). Qed.

(** The name of a file diff *)
Lemma file_header_spec original output lines new new_file rest :
  file_header original output lines = Ok (new, new_file, rest) →
  (new = "/dev/null" ∨ source_path new = Ok new) ∧ (new ∉ dkeys output) ∧ (length rest < length lines)%nat ∧
  (if new_file then new ∉ dkeys original else new ∈ dkeys original).
Proof.
  destruct lines as [|first lines]; [done|]. cbn [file_header]. intros (? & _ & H)%bind_Ok.
  destruct (str_split _ _) as [|p0 [|p1 [|third [|fourth []]]]]; try done.
  apply bind_Ok in H as (og & _ & H). apply bind_Ok in H as (ng & _ & H). apply bind_Ok in H as (? & _ & H).
  set (nf := bool_decide (head lines = _)) in H. set (ls := if nf then drop 1 lines else lines) in H.
  assert (length ls <= length lines)%nat as Hls by (unfold ls; destruct nf; rewrite ?length_drop; lia).
  destruct ls as [|l1 [|l2 ls']]; try done. apply bind_Ok in H as (? & _ & H). apply bind_Ok in H as (old & _ & H).
  apply bind_Ok in H as (nw & Hnw & H). apply bind_Ok in H as (? & _ & H). apply bind_Ok in H as (? & Hd%raise_if_Ok%orb_false_iff & H).
  apply bind_Ok in H as (? & Hm%raise_if_Ok & H). injection H as -> -> ->. destruct Hd as [Hd Hd']. apply bool_decide_eq_false in Hd.
  split_and!; [|done|cbn in Hls |- *; lia|].
  - unfold safe_path in Hnw. destruct (bool_decide_reflect (rstrip_nl (str_drop 4 l2) = "/dev/null")) as [E|E]; [left; congruence|].
    right. apply bind_Ok in Hnw as (? & _ & [_ ?]%source_path_Ok). done.
  - destruct new_file; cbn [andb negb] in Hd', Hm; [by apply bool_decide_eq_false in Hd'|].
    by apply negb_false_iff, bool_decide_eq_true in Hm.
Qed.

(** What a changed file is: the new side of a script over its original *)
Definition exact_change (original : list (string * bytes)) (name : string) (data : bytes) : Prop :=
  (name = "/dev/null" ∨ source_path name = Ok name) ∧
  ∃ es, data = fsencode (unchars (new_side es)) ∧
    match dget name original with Some before => before = fsencode (unchars (old_side es)) | None => old_side es = [] end.

Lemma file_source_spec original new (new_file : bool) source :
  (if new_file then new ∉ dkeys original else new ∈ dkeys original) → file_source original new new_file = Ok source →
  match dget new original with Some before => before = fsencode (unchars source) | None => source = [] end.
Proof.
  unfold file_source. destruct new_file; intros Hin.
  - apply dget_None in Hin as ->. by intros [= <-].
  - destruct (dget new original) as [data|]; [|done]. intros (text & Ht & [= <-])%bind_Ok.
    rewrite splitlines_keep_join. unfold decode_utf8 in Ht. destruct (utf8_valid data); [|done]. injection Ht as <-. by rewrite fsencode_fsdecode.
Qed.

Lemma apply_files_spec fuel original lines output out :
  (∀ name data, dget name output = Some data → exact_change original name data) →
  apply_files fuel original lines output = Ok out →
  ∀ name data, dget name out = Some data → exact_change original name data.
Proof.
  revert lines output. induction fuel as [|fuel IH]; intros lines output Ho; destruct lines as [|line lines]; cbn [apply_files];
    try (by intros [= <-]).
  intros H. apply bind_Ok in H as ([[new nf] rest] & (Hname & Hnew & Hlen & Hin)%file_header_spec & H).
  apply bind_Ok in H as (source & Hsrc%file_source_spec & H); [|done]. apply bind_Ok in H as ([[[cur r] n] rest'] & Hh & H).
  destruct (file_hunks_edited _ _ _ _ _ _ _ _ _ _ Hh (edited_start source)) as [(es & Hold & <- & Hc) _].
  apply bind_Ok in H as (? & _ & H). eapply IH; [|exact H]. intros name data. rewrite dget_dset.
  destruct (bool_decide_reflect (name = new)) as [->|]; [|by apply Ho]. intros [= <-]. split; [done|].
  exists (es ++ (Keep <$> drop cur source)). rewrite new_side_app, old_side_app, Hold.
  destruct (keep_sides (drop cur source)) as [-> ->]. rewrite take_drop. done.
Qed.

(** *** Termination *)
Lemma hunk_finishes source h lines p : raises (λ e, e ≠ NoFuel) (hunk source h lines p).
Proof.
  revert p. induction lines as [lines IH] using (induction_ltof1 _ length). unfold ltof in IH. intros p.
  destruct lines as [|line lines]; cbn [hunk]; (destruct (negb _); [apply raises_ok|]); [by apply raises_err|].
  assert (∀ c pl k, (length k <= length lines)%nat → raises (λ e, e ≠ NoFuel) (p ← hunk_line source c pl p;
    _ ← raise_if (bool_decide (removed p > h_old_count h) || bool_decide (added p > h_new_count h)) (ValueError "patch hunk line counts differ");
    hunk source h k p)) as Hstep.
  { intros c pl k Hk. apply raises_bind; [unfold hunk_line; solve_raises|]. intros q. apply raises_bind; [solve_raises|]. intros _.
    apply IH. cbn. lia. }
  destruct (split_line line) as [[c pl]|]; [|by apply raises_err]. destruct (negb _); [by apply raises_err|].
  destruct lines as [|m lines']; [by apply Hstep|]. destruct (bool_decide _); [|by apply Hstep].
  apply raises_bind; [solve_raises|]. intros _. apply Hstep. cbn. lia.
Qed.

Lemma file_hunks_finishes fuel source lines cur r n :
  (length lines <= fuel)%nat → raises (λ e, e ≠ NoFuel) (file_hunks fuel source lines cur r n).
Proof.
  revert lines cur r n. induction fuel as [|fuel IH]; intros lines cur r n Hl; destruct lines as [|line lines]; cbn [file_hunks];
    try apply raises_ok; (destruct (negb _); [apply raises_ok|]); [cbn in Hl; lia|].
  destruct (parse_header line) as [h|]; [|by apply raises_err]. apply raises_bind; [solve_raises|]. intros _.
  apply raises_bind; [solve_raises|]. intros _. apply raises_bind_eq; [apply hunk_finishes|].
  intros [p rest] [_ Hr]%hunk_edited. apply IH. cbn in Hl. lia.
Qed.

Lemma apply_files_finishes fuel original lines output :
  (length lines <= fuel)%nat → raises (λ e, e ≠ NoFuel) (apply_files fuel original lines output).
Proof.
  revert lines output. induction fuel as [|fuel IH]; intros lines output Hl; destruct lines as [|line lines]; cbn [apply_files];
    try apply raises_ok; [cbn in Hl; lia|].
  apply raises_bind_eq; [unfold file_header, safe_path, source_path; solve_raises|].
  intros [[new nf] rest] (_ & _ & Hlen & Hin)%file_header_spec.
  apply raises_bind; [unfold file_source, decode_utf8; solve_raises|]. intros source.
  apply raises_bind_eq; [by apply file_hunks_finishes|]. intros [[[cur r] n] rest'] Hh.
  destruct (file_hunks_edited _ _ _ _ _ _ _ _ _ _ Hh (edited_start source)) as [_ Hr].
  apply raises_bind; [solve_raises|]. intros _. apply IH. cbn in Hl, Hlen. lia.
Qed.

End Apply.

(** ** Archives *)
Inductive member_kind := RegularFile | Directory | Special.
(** A member as [tarfile] reports it: [m_data] is [None] when
    [extractfile] gives nothing. *)
Record member := Member { m_name : string; m_kind : member_kind; m_size : Z; m_data : option bytes }.

Definition is_file (m : member) : bool := match m_kind m with RegularFile => true | _ => false end.
Definition is_directory (m : member) : bool := match m_kind m with Directory => true | _ => false end.

(** [s.rstrip("/")] *)
Fixpoint rstrip_slash (s : string) : string :=
  match s with
  | EmptyString => EmptyString
  | String c r =>
      match rstrip_slash r with
      | EmptyString => if bool_decide (c = "/"%char) then EmptyString else String c EmptyString
      | r' => String c r'
      end
  end.

Definition read_member (allow_directories : bool) (files : list (string * bytes)) (m : member) : res (list (string * bytes)) :=
  let name := m_name m in
  if is_directory m && allow_directories then
    let directory := rstrip_slash name in
    if bool_decide (directory ≠ "codex-rs") then _ ← source_path directory; Ok files else Ok files
  else
  _ ← (if bool_decide (name ∈ LICENSE_FILES) then Ok tt else _ ← source_path name; Ok tt);
  _ ← raise_if (negb (is_file m) || bool_decide (name ∈ dkeys files)) (ValueError "archive has a duplicate or non-file member");
  _ ← raise_if (bool_decide (m_size m < 0) || bool_decide (m_size m > MAX_ARCHIVE_BYTES)) (ValueError "archive member exceeds its bound");
  match m_data m with
  | None => Err (ValueError "archive member cannot be read")
  | Some v =>
      _ ← raise_if (bool_decide (zlen v ≠ m_size m)) (ValueError "archive member is truncated");
      Ok (dset name v files)
  end.

Section Archive.
(** [gzip] up to a bound, and the members of a tar archive *)
Context (gunzip : bytes → Z → res bytes) (members : bytes → res (list member)).

Definition read_archive (data : bytes) (allow_directories : bool) : res (list (string * bytes)) :=
  raw ← (if allow_directories && negb (bool_decide (take 2 data = [x1f; x8b])) then Ok data
         else gunzip data (MAX_ARCHIVE_BYTES + 1));
  _ ← raise_if (bool_decide (zlen raw > MAX_ARCHIVE_BYTES)) (ValueError "upstream archive exceeds its bound");
  l ← members raw;
  forM (read_member allow_directories) l [].

(** ** The manifest *)
Definition is_hash (v : value) : bool := match v with VStr s => is_sha256_hex s | _ => false end.

Definition check_record (name : string) (record : value) : res unit :=
  _ ← source_path name;
  bad ← (Ok (negb (is_dict record))
         ||? (r ← get record "representation"; Ok (negb (py_eq r (VStr "patch") || py_eq r (VStr "binary_overlay")))));
  _ ← raise_if bad (ValueError "manifest file representation is invalid");
  before ← get record "before_sha256";
  _ ← raise_if (match before with VNone => false | _ => negb (is_hash before) end) (ValueError "manifest has an invalid source checksum");
  after ← get record "after_sha256";
  ensure (is_hash after) (ValueError "manifest has an invalid source checksum").

Definition validate_manifest (manifest : value) : res unit :=
  version ← get manifest "artifact_version"; files ← get manifest "files";
  _ ← raise_if (negb (py_eq version (VInt 2)) || negb (is_dict files)) (ValueError "unsupported native hook artifact manifest");
  _ ← forM (λ _ k, v ← get manifest k; ensure (is_hash v) (ValueError "manifest has an invalid artifact checksum"))
        ["patch_sha256"; "base_sha256"; "binary_overlay_sha256"] tt;
  _ ← forM (λ _ k, v ← get manifest k;
        ensure (match v with VStr s => bool_decide (path_name s = s) && negb (bool_decide (s ∈ [""; "."; ".."])) | _ => false end)
          (ValueError "manifest artifact path is invalid")) ["patch_file"; "binary_overlay_file"] tt;
  rows ← items files;
  _ ← raise_if (bool_decide (rows = [])) (ValueError "manifest does not modify upstream files");
  _ ← forM (λ _ '(name, record), check_record name record) rows tt;
  licenses ← get manifest "license_files";
  match licenses with
  | VDict l =>
      _ ← ensure (keys_are LICENSE_FILES l) (ValueError "manifest must preserve upstream LICENSE and NOTICE");
      ensure (forallb (λ kv, is_hash kv.2) l) (ValueError "manifest has an invalid license checksum")
  | _ => Err (ValueError "manifest must preserve upstream LICENSE and NOTICE")
  end.

(** [digest(value) != expected] for an expected value of any type *)
Definition has_digest (data : bytes) (expected : value) : bool := py_eq (VStr (digest data)) expected.

Definition same_names {A B} (d : list (string * A)) (e : list (string * B)) : bool :=
  forallb (λ k, bool_decide (k ∈ dkeys e)) (dkeys d) && forallb (λ k, bool_decide (k ∈ dkeys d)) (dkeys e).

Definition verify_base (original : list (string * bytes)) (manifest : value) : res unit :=
  files ← getitem manifest "files"; rows ← items files;
  expected ← forM (λ l '(name, record), b ← getitem record "before_sha256";
    Ok (match b with VNone => l | _ => l ++ [(name, tt)] end)) rows [];
  _ ← ensure (same_names original (expected ++ ((λ n, (n, tt)) <$> LICENSE_FILES)))
        (ValueError "packaged upstream originals differ from the manifest file set");
  forM (λ _ '(name, data),
    expected_hash ← (if bool_decide (name ∈ LICENSE_FILES) then l ← getitem manifest "license_files"; getitem l name
                     else r ← getitem files name; getitem r "before_sha256");
    ensure (has_digest data expected_hash) (ValueError "packaged upstream original differs from its manifest")) original tt.

Definition verify_outputs (changed : list (string * bytes)) (manifest : value) : res unit :=
  files ← getitem manifest "files"; rows ← items files;
  _ ← ensure (same_names changed rows) (ValueError "patched file set differs from manifest");
  forM (λ _ '(name, data), r ← getitem files name; h ← getitem r "after_sha256";
    ensure (has_digest data h) (ValueError "patched source differs from reviewed manifest")) changed tt.

(** [changed.update(binary)] *)
Definition update (d e : list (string * bytes)) : list (string * bytes) := foldl (λ d kv, dset kv.1 kv.2 d) d e.

Definition is_patch_row (row : string * value) : res bool :=
  r ← getitem row.2 "representation"; Ok (py_eq r (VStr "patch")).

Definition combine_changes (decimal : string → option Z) (patch overlay : bytes) (original : list (string * bytes)) (manifest : value) :
    res (list (string * bytes)) :=
  p ← getitem manifest "patch_sha256"; o ← getitem manifest "binary_overlay_sha256";
  _ ← ensure (has_digest patch p && has_digest overlay o) (ValueError "patch or binary overlay provenance checksum differs");
  text ← decode_utf8 patch;
  changed ← apply_exact decimal text original;
  binary ← read_archive overlay false;
  files ← getitem manifest "files"; rows ← items files;
  flags ← mapM_res is_patch_row rows;
  let selected b := (λ x, (x.1.1, tt)) <$> List.filter (λ x, Bool.eqb x.2 b) (zip rows flags) in
  _ ← ensure (same_names changed (selected true) && same_names binary (selected false)
              && negb (existsb (λ k, bool_decide (k ∈ dkeys binary)) (dkeys changed)))
        (ValueError "patch and binary overlay file sets differ from manifest");
  let changed := update changed binary in
  _ ← verify_outputs changed manifest;
  Ok changed.

Lemma same_names_spec {A B} (d : list (string * A)) (e : list (string * B)) : same_names d e = true ↔ ∀ k, k ∈ dkeys d ↔ k ∈ dkeys e.
Proof.
  unfold same_names. rewrite andb_true_iff, !forallb_forall. split.
  - intros [H1 H2] k. rewrite !list_elem_of_In in *. split; intros Hk; [apply H1 in Hk|apply H2 in Hk];
      by apply bool_decide_eq_true, list_elem_of_In in Hk.
  - intros H. split; intros k Hk%list_elem_of_In; apply bool_decide_eq_true; by apply H.
Qed.

Lemma dget_update d e k v : dget k (update d e) = Some v → (k, v) ∈ e ∨ dget k d = Some v.
Proof.
  unfold update. revert d. induction e as [|[j w] e IH]; intros d; [by right|]. cbn. intros [?|H]%IH; [left; set_solver|].
  rewrite dget_dset in H. cbn in H. destruct (bool_decide_reflect (k = j)); [left; simplify_eq; set_solver|by right].
Qed.

Lemma verify_outputs_spec changed manifest u :
  verify_outputs changed manifest = Ok u →
  ∃ files, getitem manifest "files" = Ok (VDict files) ∧ (∀ k, k ∈ dkeys changed ↔ k ∈ dkeys files) ∧
    ∀ name data, (name, data) ∈ changed → ∃ r, dget name files = Some r ∧ getitem r "after_sha256" = Ok (VStr (digest data)).
Proof.
  unfold verify_outputs. intros (f & Hf & H)%bind_Ok. apply bind_Ok in H as (rows & Hrows & H).
  destruct f as [| | | | | |files]; try done. injection Hrows as <-. apply bind_Ok in H as (? & Hn%ensure_Ok & H).
  exists files. split; [done|]. split; [by apply same_names_spec|]. intros name data Hin.
  pose proof (forM_unit _ _ _ H _ Hin) as Hr. cbn in Hr. apply bind_Ok in Hr as (r & Hr & H'). apply bind_Ok in H' as (h & Hh & Hd%ensure_Ok).
  unfold has_digest in Hd. apply py_eq_str_l in Hd as ->. exists r. split; [|done]. by destruct (dget name files); simplify_eq.
Qed.

(** C33: what the combination writes is what was reviewed: the changed files
    are exactly the files of the manifest, each with the reviewed checksum,
    and each is either an exact edit of its original or a member of the
    overlay, whose bytes and those of the patch have the pinned checksums. *)
Theorem combined_changes_reviewed decimal patch overlay original manifest out
    (H : combine_changes decimal patch overlay original manifest = Ok out) :
  ∃ files binary, getitem manifest "files" = Ok (VDict files) ∧ (∀ k, k ∈ dkeys out ↔ k ∈ dkeys files) ∧
    read_archive overlay false = Ok binary ∧
    getitem manifest "patch_sha256" = Ok (VStr (digest patch)) ∧ getitem manifest "binary_overlay_sha256" = Ok (VStr (digest overlay)) ∧
    ∀ name data, dget name out = Some data →
      (∃ r, dget name files = Some r ∧ getitem r "after_sha256" = Ok (VStr (digest data))) ∧
      ((name, data) ∈ binary ∨ exact_change original name data).
Proof.
  unfold combine_changes in H. apply bind_Ok in H as (p & Hp & H). apply bind_Ok in H as (o & Ho & H).
  apply bind_Ok in H as (? & Hd%ensure_Ok%andb_true_iff & H). destruct Hd as [Hd1 Hd2].
  unfold has_digest in Hd1, Hd2. apply py_eq_str_l in Hd1 as ->, Hd2 as ->.
  apply bind_Ok in H as (text & _ & H). apply bind_Ok in H as (changed & Hch & H). apply bind_Ok in H as (binary & Hbin & H).
  apply bind_Ok in H as (f & _ & H). apply bind_Ok in H as (rows & _ & H). apply bind_Ok in H as (flags & _ & H).
  apply bind_Ok in H as (? & _ & H). apply bind_Ok in H as (? & Hv%verify_outputs_spec & H). injection H as <-.
  destruct Hv as (files & Hf & Hk & Hsum). exists files, binary. split_and!; [done|done|done|done|done|].
  intros name data Hdata. split; [by apply Hsum, dget_Some_elem|].
  apply dget_update in Hdata as [?|Hdata]; [by left|]. right. revert name data Hdata.
  eapply apply_files_spec; [|exact Hch]. done.
Qed.
End Archive.

(** ** A patch *)
Definition ascii_decimal (c : string) : option Z :=
  match c with String a EmptyString => if is_digit a then Some (digit_val a) else None | _ => None end.
Definition ex_text (lines : list string) : string := unchars ((λ l, l +:+ NL) <$> lines).
Definition ex_patch : string := ex_text
  ["diff --git a/codex-rs/a.rs b/codex-rs/a.rs"; "--- a/codex-rs/a.rs"; "+++ b/codex-rs/a.rs"; "@@ -2,2 +2,3 @@ fn main"; " two"; "-three"; "+THREE"; "+four";
   "diff --git a/codex-rs/b.rs b/codex-rs/b.rs"; "new file mode 100644"; "--- /dev/null"; "+++ b/codex-rs/b.rs"; "@@ -0,0 +1 @@"; "+new"].
Definition ex_original : list (string * bytes) := [("codex-rs/a.rs", fsencode (ex_text ["one"; "two"; "three"; "end"]))].
Definition ex_changed : list (string * bytes) :=
  [("codex-rs/a.rs", fsencode (ex_text ["one"; "two"; "THREE"; "four"; "end"])); ("codex-rs/b.rs", fsencode (ex_text ["new"]))].

Example ex_applies : apply_exact ascii_decimal ex_patch ex_original = Ok ex_changed.
Proof. vm_compute. reflexivity. Qed.

Definition ex_manifest : value := VDict
  [("patch_sha256", VStr (digest (fsencode ex_patch))); ("binary_overlay_sha256", VStr (digest []));
   ("files", VDict ((λ kv, (kv.1, VDict [("representation", VStr "patch"); ("after_sha256", VStr (digest kv.2))])) <$> ex_changed))].

Lemma combined_changes_reviewed_witness :
  combine_changes (λ b _, Ok b) (λ _, Ok []) ascii_decimal (fsencode ex_patch) [] ex_original ex_manifest = Ok ex_changed ∧
  exact_change ex_original "codex-rs/b.rs" (fsencode (ex_text ["new"])).
Proof.
  assert (combine_changes (λ b _, Ok b) (λ _, Ok []) ascii_decimal (fsencode ex_patch) [] ex_original ex_manifest = Ok ex_changed) as H
    by (vm_compute; reflexivity).
  split; [exact H|].
  destruct (combined_changes_reviewed (λ b _, Ok b) (λ _, Ok []) ascii_decimal (fsencode ex_patch) [] ex_original ex_manifest ex_changed H)
    as (files & binary & _ & _ & Hb & _ & _ & Hall).
  destruct (Hall "codex-rs/b.rs" (fsencode (ex_text ["new"])) ltac:(vm_compute; reflexivity)) as [_ [Hin|He]]; [|exact He].
  vm_compute in Hb. injection Hb as <-. inversion Hin.
Defined.
End PatchIO.
