(* ===== verification/Census.v ===== *)
(** * delivery/native_thread_census.py: bounded process metadata

    [Projection] reads a status file byte by byte and keeps the few numeric
    fields it knows; [record] and [parse_record] are the failure records.  The
    exception [Unavailable] carries its reason.  The class that owns
    the processes and descriptors is in [CensusRun]. *)
From S2P Require Import Prelude PyBytes PyString PyValue PyText.
From Stdlib Require Import Ascii.
Local Open Scope Z_scope.

Module Census.

Definition PREFIX : string := "OMUX_NATIVE_THREADS_V1".
Definition ROLES : list string := ["self"; "daemon"; "keyring"; "native-bootstrap"; "native-resume"].
Definition STATES : list string :=
  ["observed"; "not-created"; "retired"; "missing"; "permission"; "identity"; "profile"; "shape"; "bound"; "deadline"; "os-other"].
Definition MAX_THREADS : Z := 65536.
Definition MAX_STATUS : Z := 16 * 1024.
Definition MAX_LINE : Z := 256.
Definition MAX_RECORD : Z := 128.
Definition KEYS : list string := ["Pid"; "PPid"; "Uid"; "NSpid"; "Threads"].

Definition unavailable {A} (reason : string) : res A := Err (Unavailable reason).

(** [_number]; [bytes.isdigit] knows the ASCII digits only *)
Definition number (v : string) (maximum : Z) (positive : bool) : res Z :=
  _ ← raise_if (bool_decide (v = "") || bool_decide (10 < String.length v)%nat || negb (str_all is_digit v)
                || (bool_decide (1 < String.length v)%nat && startswith "0" v)) (Unavailable "shape");
  let n := dec_value v in
  _ ← raise_if (bool_decide (n > maximum)) (Unavailable "bound");
  _ ← raise_if (positive && bool_decide (n = 0)) (Unavailable "shape");
  Ok n.

(** ** The projection of a status file *)
Record projection := Projection {
  keys : list string;
  fields : list (string * string);
  prefix : list ascii;      (** reversed *)
  value : list ascii;       (** reversed *)
  key : option string;
  unknown : bool;
  total : Z;
  terminated : bool;
}.

Definition init (sample_threads : bool) : projection :=
  Projection (if sample_threads then KEYS else take 4 KEYS) [] [] [] None false 0 true.

Fixpoint of_chars (l : list ascii) : string := match l with [] => EmptyString | c :: l => String c (of_chars l) end.
Fixpoint to_chars (s : string) : list ascii := match s with EmptyString => [] | String c s => c :: to_chars s end.

(** [bytes.strip(b" \t")] *)
Definition blank (c : ascii) : bool := bool_decide (c = " "%char) || bool_decide (c = "009"%char).
Definition strip_blanks (l : list ascii) : list ascii := rev (span blank (rev (span blank l).2)).2.

Definition newline : ascii := "010".
Definition colon : ascii := ":".

Definition feed_byte (p : projection) (byte : ascii) : res projection :=
  let t := bool_decide (byte = newline) in
  if t then
    fs ← match key p with
         | Some k =>
             if bool_decide (k ∈ dkeys (fields p)) then unavailable "shape"
             else Ok (dset k (of_chars (strip_blanks (rev (value p)))) (fields p))
         | None => Ok (fields p)
         end;
    Ok (Projection (keys p) fs [] [] None false (total p) t)
  else
    match key p with
    | Some k =>
        _ ← raise_if (bool_decide (zlen (value p) >= MAX_LINE - Z.of_nat (String.length k) - 1)) (Unavailable "bound");
        Ok (Projection (keys p) (fields p) (prefix p) (byte :: value p) (key p) (unknown p) (total p) t)
    | None =>
        if unknown p then Ok (Projection (keys p) (fields p) (prefix p) (value p) (key p) (unknown p) (total p) t)
        else if bool_decide (byte = colon) then
          let k := of_chars (rev (prefix p)) in
          if bool_decide (k ∈ keys p) then Ok (Projection (keys p) (fields p) [] (value p) (Some k) false (total p) t)
          else Ok (Projection (keys p) (fields p) [] (value p) None true (total p) t)
        else if bool_decide (length (prefix p) < 8)%nat then
          Ok (Projection (keys p) (fields p) (byte :: prefix p) (value p) None (unknown p) (total p) t)
        else Ok (Projection (keys p) (fields p) [] (value p) None true (total p) t)
    end.

Definition feed (p : projection) (chunk : list ascii) : res projection :=
  let total := total p + zlen chunk in
  _ ← raise_if (bool_decide (total > MAX_STATUS)) (Unavailable "bound");
  forM feed_byte chunk (Projection (keys p) (fields p) (prefix p) (value p) (key p) (unknown p) total (terminated p)).

Definition lookup_field (p : projection) (k : string) : res string :=
  match dget k (fields p) with Some v => Ok v | None => Err KeyError end.

(** [b.split()] of bytes: ASCII blanks *)
Fixpoint byte_words_go (l : list ascii) (word : list ascii) : list string :=
  let flush := match word with [] => [] | _ => [of_chars (rev word)] end in
  match l with
  | [] => flush
  | c :: l => let n := N_of_ascii c in
      if bool_decide (9 <= n <= 13)%N || bool_decide (n = 32)%N then flush ++ byte_words_go l [] else byte_words_go l (c :: word)
  end.
Definition byte_words (s : string) : list string := byte_words_go (to_chars s) [].

Definition INT_MAX : Z := 2 ^ 31 - 1.

Definition finish (p : projection) : res (Z * Z * list Z * option Z) :=
  _ ← ensure (bool_decide ("NSpid" ∈ dkeys (fields p))) (Unavailable "profile");
  _ ← ensure (terminated p && keys_are (keys p) (fields p)) (Unavailable "shape");
  uid ← lookup_field p "Uid";
  let uids := byte_words uid in
  _ ← raise_if (bool_decide (length uids ≠ 4%nat)) (Unavailable "shape");
  pid ← lookup_field p "Pid"; pid ← number pid INT_MAX true;
  ns ← lookup_field p "NSpid";
  _ ← match byte_words ns with
      | [n] => match number n INT_MAX true with
               | Ok m => if bool_decide (m = pid) then Ok tt else unavailable "profile"
               | Err (Unavailable _) => unavailable "profile"
               | Err e => Err e
               end
      | _ => unavailable "profile"
      end;
  ppid ← lookup_field p "PPid"; ppid ← number ppid INT_MAX false;
  ids ← mapM_res (λ v, number v (2 ^ 32 - 1) false) uids;
  threads ← (if bool_decide ("Threads" ∈ keys p) then
               v ← lookup_field p "Threads"; n ← number v MAX_THREADS true; Ok (Some n)
             else Ok None);
  Ok (pid, ppid, ids, threads).

Definition parse_status (payload : string) : res (Z * Z * list Z * option Z) :=
  p ← feed (init true) (to_chars payload); finish p.

(** ** Failure records *)
Definition record (role state : string) (count : option Z) : res string :=
  _ ← ensure (bool_decide (role ∈ ROLES) && bool_decide (state ∈ STATES)) (ValueError "thread census record rejected");
  text ← (if bool_decide (state = "observed") then
            match count with
            | Some n => if bool_decide (1 <= n <= MAX_THREADS) then Ok (dec_print n) else Err (ValueError "thread census record rejected")
            | None => Err (ValueError "thread census record rejected")
            end
          else match count with Some _ => Err (ValueError "thread census record rejected") | None => Ok "none" end);
  Ok (PREFIX +:+ "/failure-before-cleanup/" +:+ role +:+ "/" +:+ state +:+ "/" +:+ text +:+ String newline EmptyString).

Definition parse_record (payload : string) : res string :=
  let rejected := ValueError "thread census record rejected" in
  let body := String.substring 0 (String.length payload - 1) payload in
  _ ← ensure (bool_decide (Z.of_nat (String.length payload) <= MAX_RECORD) && endswith (String newline EmptyString) payload
              && negb (str_mem newline body)) rejected;
  match str_split "/" body with
  | [a; b; role; state; text] =>
      _ ← ensure (bool_decide (a = PREFIX) && bool_decide (b = "failure-before-cleanup")) rejected;
      let checked :=
        _ ← decode_ascii (fsencode role); _ ← decode_ascii (fsencode state);
        count ← (if bool_decide (state = "observed") then n ← number text MAX_THREADS true; Ok (Some n) else Ok None);
        again ← record role state count;
        ensure (bool_decide (again = payload)) rejected in
      match checked with
      | Ok _ => Ok payload
      | Err (UnicodeError | Unavailable _) => Err rejected
      | Err e => Err e
      end
  | _ => Err rejected
  end.

(** ** The projection against a line by line reading *)

(** What one line, without its newline, adds to the fields *)
Definition line_field (ks : list string) (fs : list (string * string)) (line : list ascii) : res (list (string * string)) :=
  let '(k, rest) := span (λ c, bool_decide (c ≠ colon)) line in
  match rest with
  | [] => Ok fs
  | _ :: v =>
      let k := of_chars k in
      if bool_decide (k ∈ ks) then
        _ ← raise_if (bool_decide (zlen v > MAX_LINE - Z.of_nat (String.length k) - 1)) (Unavailable "bound");
        if bool_decide (k ∈ dkeys fs) then unavailable "shape" else Ok (dset k (of_chars (strip_blanks v)) fs)
      else Ok fs
  end.

Definition short_keys (ks : list string) : Prop := ∀ k, k ∈ ks → (String.length k <= 8)%nat.

Lemma length_of_chars l : String.length (of_chars l) = length l.
Proof. induction l; simpl; congruence. Qed.

Definition fresh_line ks fs n t := Projection ks fs [] [] None false n t.

(** One byte inside a line *)
Lemma feed_other p c : c ≠ newline →
  feed_byte p c =
  match key p with
  | Some k =>
      _ ← raise_if (bool_decide (zlen (value p) >= MAX_LINE - Z.of_nat (String.length k) - 1)) (Unavailable "bound");
      Ok (Projection (keys p) (fields p) (prefix p) (c :: value p) (Some k) (unknown p) (total p) false)
  | None =>
      Ok (if unknown p then Projection (keys p) (fields p) (prefix p) (value p) None true (total p) false
          else if bool_decide (c = colon) then
            let k := of_chars (rev (prefix p)) in
            let known := bool_decide (k ∈ keys p) in
            Projection (keys p) (fields p) [] (value p) (if known then Some k else None) (negb known) (total p) false
          else if bool_decide (length (prefix p) < 8)%nat then
            Projection (keys p) (fields p) (c :: prefix p) (value p) None false (total p) false
          else Projection (keys p) (fields p) [] (value p) None true (total p) false)
  end.
Proof.
  intros Hc. unfold feed_byte. rewrite (bool_decide_eq_false_2 (c = newline)) by done.
  destruct p as [ks fs pre val [k|] [] n t]; cbn; [done..|].
  destruct (bool_decide (c = colon)); [by destruct (bool_decide (_ ∈ ks))|by destruct (bool_decide _)].
Qed.

(** The end of an ignored line *)
Lemma feed_ignored ks fs n line t pre val :
  newline ∉ line →
  forM feed_byte (line ++ [newline]) (Projection ks fs pre val None true n t) = Ok (fresh_line ks fs n true).
Proof.
  revert t. induction line as [|c line IH]; intros t Hn; [done|].
  cbn [app forM]. rewrite feed_other by set_solver. cbn. apply IH. set_solver.
Qed.

(** The value of a known field *)
Lemma feed_value ks fs n k line val t :
  newline ∉ line →
  forM feed_byte (line ++ [newline]) (Projection ks fs [] val (Some k) false n t) =
  (_ ← raise_if (bool_decide (line ≠ [] ∧ zlen val + zlen line > MAX_LINE - Z.of_nat (String.length k) - 1)) (Unavailable "bound");
   fs ← (if bool_decide (k ∈ dkeys fs) then unavailable "shape" else Ok (dset k (of_chars (strip_blanks (rev val ++ line))) fs));
   Ok (fresh_line ks fs n true)).
Proof.
  revert t val. induction line as [|c line IH]; intros t val Hn.
  - rewrite (bool_decide_eq_false_2 (_ ∧ _)) by naive_solver. rewrite app_nil_r. cbn [app forM].
    unfold feed_byte. rewrite (bool_decide_eq_true_2 (newline = newline)) by done. cbn -[dkeys]. by destruct (bool_decide (k ∈ dkeys fs)).
  - cbn [app forM]. rewrite feed_other by set_solver. cbn [key Census.value].
    destruct (decide (zlen val >= MAX_LINE - Z.of_nat (String.length k) - 1)) as [Hge|Hlt].
    + rewrite (bool_decide_eq_true_2 (_ >= _)) by done. rewrite (bool_decide_eq_true_2 (_ ∧ _)); [done|].
      split; [done|]. unfold zlen in *. cbn. lia.
    + rewrite bool_decide_eq_false_2 by done. cbn [raise_if mbind res_bind keys fields prefix unknown total].
      rewrite IH by set_solver. cbn [rev]. rewrite <- (app_assoc (rev val)). cbn [app].
      f_equal. f_equal. apply bool_decide_ext. unfold zlen in *.
      destruct line; cbn; (split; intros [? ?]; (split; [first [done|exfalso; lia]|lia])).
Qed.

Lemma span_through {A} (q : A → bool) l m :
  forallb q l = true → span q (l ++ m) = (l ++ (span q m).1, (span q m).2).
Proof.
  induction l as [|x l IH]; cbn; [by destruct (span q m)|]. intros [-> Hl]%andb_true_iff. by rewrite IH.
Qed.
Lemma no_colon pre : colon ∉ pre → forallb (λ c, bool_decide (c ≠ colon)) (rev pre) = true.
Proof. intros H. apply forallb_forall. intros x Hx%in_rev%list_elem_of_In. apply bool_decide_eq_true_2. naive_solver. Qed.

(** The name of the field *)
Lemma feed_name ks fs n line pre t :
  short_keys ks → newline ∉ line → colon ∉ pre → (length pre <= 8)%nat →
  forM feed_byte (line ++ [newline]) (Projection ks fs pre [] None false n t) =
  (fs ← line_field ks fs (rev pre ++ line); Ok (fresh_line ks fs n true)).
Proof.
  intros Hks. revert pre t. induction line as [|c line IH]; intros pre t Hn Hp Hl.
  - cbn. unfold line_field. rewrite span_through by by apply no_colon. done.
  - cbn [app forM]. rewrite feed_other by set_solver. cbn [key unknown prefix fields keys Census.value total].
    destruct (decide (c = colon)) as [->|Hc].
    + rewrite (bool_decide_eq_true_2 (colon = colon)) by done. unfold line_field. rewrite span_through by by apply no_colon.
      cbn [span]. rewrite (bool_decide_eq_false_2 (colon ≠ colon)) by naive_solver. cbn [fst snd]. rewrite app_nil_r. cbn zeta.
      destruct (bool_decide_reflect (of_chars (rev pre) ∈ ks)) as [Hk|Hk]; cbn -[feed_byte MAX_LINE].
      * rewrite feed_value by set_solver. cbn [rev app]. specialize (Hks _ Hk). rewrite bind_assoc_res. f_equal.
        f_equal. apply bool_decide_ext. unfold zlen, MAX_LINE in *. destruct line; cbn; [split; [by intros []|lia]|].
        split; [intros [_ ?]; lia|split; [done|lia]].
      * apply feed_ignored. set_solver.
    + rewrite (bool_decide_eq_false_2 (c = colon)) by done.
      destruct (bool_decide_reflect (length pre < 8)%nat) as [H8|H8]; cbn -[feed_byte].
      * rewrite IH; [|set_solver|set_solver|simpl; lia]. cbn [rev]. by rewrite <- app_assoc.
      * rewrite feed_ignored by set_solver. unfold line_field. rewrite span_through by by apply no_colon. cbn.
        rewrite (bool_decide_eq_true_2 (c ≠ colon)) by done. destruct (span _ line) as [a b]. cbn.
        destruct b; [done|]. rewrite bool_decide_eq_false_2; [done|]. intros Hk%Hks. rewrite length_of_chars in Hk.
        rewrite length_app, length_rev in Hk. cbn in Hk. lia.
Qed.
Lemma feed_lines ks lines fs n :
  short_keys ks → (∀ l, l ∈ lines → newline ∉ l) →
  forM feed_byte (concat ((.++ [newline]) <$> lines)) (fresh_line ks fs n true) =
  (fs ← forM (line_field ks) lines fs; Ok (fresh_line ks fs n true)).
Proof.
  intros Hks. revert fs. induction lines as [|l lines IH]; intros fs Hl; [done|].
  cbn [fmap list_fmap concat forM]. rewrite forM_app. unfold fresh_line at 1. rewrite (feed_name ks fs n l []); [|done|set_solver..|simpl; lia]. cbn [rev app].
  rewrite !bind_assoc_res. destruct (line_field ks fs l); [|done]. cbn. apply IH. set_solver.
Qed.

(** *** Chunks *)
Definition with_total (n : Z) (p : projection) : projection :=
  Projection (keys p) (fields p) (prefix p) (value p) (key p) (unknown p) n (terminated p).

Lemma feed_byte_total n p c : feed_byte (with_total n p) c = with_total n <$> feed_byte p c.
Proof.
  destruct p as [ks fs pre val k u m t]. unfold feed_byte. cbn -[dkeys MAX_LINE].
  destruct (bool_decide (c = newline)), k; cbn -[dkeys MAX_LINE]; repeat case_bool_decide; try done; destruct u; try done; by repeat case_bool_decide.
Qed.
Lemma feed_bytes_total n l p : forM feed_byte l (with_total n p) = with_total n <$> forM feed_byte l p.
Proof.
  revert p. induction l as [|c l IH]; intros p; [done|]. cbn [forM]. rewrite feed_byte_total.
  destruct (feed_byte p c); [cbn; apply IH|done].
Qed.
Lemma total_kept l p q : forM feed_byte l p = Ok q → total q = total p.
Proof.
  intros H. pose proof (feed_bytes_total (total p) l p) as E1. replace (with_total (total p) p) with p in E1 by by destruct p.
  rewrite H in E1. cbn in E1. injection E1 as E1. by rewrite E1.
Qed.

Lemma feed_chunks chunks p :
  total p + zlen (concat chunks) <= MAX_STATUS →
  forM feed chunks p = with_total (total p + zlen (concat chunks)) <$> forM feed_byte (concat chunks) p.
Proof.
  revert p. induction chunks as [|c chunks IH]; intros p Hp.
  - cbn. unfold zlen, with_total. cbn. rewrite Z.add_0_r. by destruct p.
  - cbn [concat forM] in *. unfold zlen in *. rewrite length_app, Nat2Z.inj_add in *. rewrite forM_app.
    replace (feed p c) with (forM feed_byte c (with_total (total p + Z.of_nat (length c)) p)); last first.
    { unfold feed, zlen. by rewrite bool_decide_eq_false_2 by lia. }
    rewrite feed_bytes_total. destruct (forM feed_byte c p) as [q|] eqn:E1; [|done]. cbn -[feed].
    apply total_kept in E1. rewrite IH by (cbn; lia). rewrite feed_bytes_total. cbn. destruct (forM feed_byte _ q); [|done].
    cbn. f_equal. unfold with_total. cbn. f_equal. lia.
Qed.

(** C34: reading a status file does not depend on how it arrives in chunks,
    and the byte-wise projection gives exactly what a reading by lines gives:
    the part of a line before its first colon is its name, a line with a known
    name adds its stripped value, a value over the line bound or a repeated
    name raises, and every other line is ignored however long it is. *)
Theorem status_read_by_lines (sample : bool) (chunks lines : list (list ascii)) :
  concat chunks = concat ((.++ [newline]) <$> lines) → (∀ l, l ∈ lines → newline ∉ l) →
  zlen (concat chunks) <= MAX_STATUS →
  forM feed chunks (init sample) =
  (fs ← forM (line_field (keys (init sample))) lines [];
   Ok (Projection (keys (init sample)) fs [] [] None false (zlen (concat chunks)) true)).
Proof.
  intros Hc Hl Hm. rewrite feed_chunks by (destruct sample; exact Hm). rewrite Hc at 2.
  assert (short_keys (keys (init sample))) as Hks.
  { destruct sample; intros k Hk; cbn in Hk; repeat (apply elem_of_cons in Hk as [->|Hk]; [cbn; lia|]); by apply elem_of_nil in Hk. }
  change (init sample) with (fresh_line (keys (init sample)) [] 0 true) at 2. rewrite feed_lines by done. destruct (forM _ lines []); done.
Qed.

Lemma status_read_by_lines_witness :
  forM feed [to_chars "Name:	omuxd"; to_chars (String newline "Pi"); to_chars ("d:	42" +:+ String newline EmptyString)] (init true)
  = Ok (Projection KEYS [("Pid", "42")] [] [] None false 20 true).
Proof.
  etransitivity; [apply (status_read_by_lines true _ [to_chars "Name:	omuxd"; to_chars "Pid:	42"])|].
  - reflexivity.
  - intros l [->|[->|[]%elem_of_nil]%elem_of_cons]%elem_of_cons; vm_compute; intros H;
      repeat (apply elem_of_cons in H as [?|H]; [discriminate|]); by apply elem_of_nil in H.
  - vm_compute. discriminate.
  - vm_compute. reflexivity.
Defined.

(** ** Records *)
Lemma number_print n maximum : 1 <= n <= maximum → n < 10 ^ 10 → number (dec_print n) maximum true = Ok n.
Proof.
  intros Hn Hb. unfold number. destruct (dec_print_head n) as (d & r & Hd & E1); [lia|].
  pose proof (dec_print_length n 9 ltac:(lia)) as Hlen. pose proof (dec_print_digits n ltac:(lia)) as Hdig.
  pose proof (dec_value_print n ltac:(lia)) as Hval.
  rewrite (bool_decide_eq_false_2 (dec_print n = "")) by by rewrite E1.
  rewrite (bool_decide_eq_false_2 (10 < _)%nat) by lia. rewrite Hdig, Hval. cbn [orb negb].
  replace (startswith "0" (dec_print n)) with false; last first.
  { symmetry. rewrite E1. cbn [startswith]. rewrite bool_decide_eq_false_2; [done|]. intros E2. apply (f_equal digit_val) in E2.
    rewrite digit_val_chr in E2 by lia. cbn in E2. unfold digit_val in E2. cbn in E2. lia. }
  rewrite andb_false_r. cbn. rewrite !bool_decide_eq_false_2 by lia. done.
Qed.

Lemma digits_avoid c s : is_digit c = false → str_all is_digit s = true → str_mem c s = false.
Proof.
  intros Hc. unfold str_mem. induction s as [|a s IH]; [done|]. cbn. intros [Ha Hs]%andb_true_iff.
  rewrite IH, bool_decide_eq_false_2 by (done || congruence). done.
Qed.

Definition parts (role state text : string) : list string := [PREFIX; "failure-before-cleanup"; role; state; text].

(** The texts a record may carry *)
Definition text_of (state : string) (count : option Z) (text : string) : Prop :=
  (state = "observed" ∧ ∃ n, count = Some n ∧ 1 <= n <= MAX_THREADS ∧ text = dec_print n) ∨
  (state ≠ "observed" ∧ count = None ∧ text = "none").

Lemma record_iff role state count s :
  record role state count = Ok s ↔
  role ∈ ROLES ∧ state ∈ STATES ∧ ∃ text, text_of state count text ∧
  s = str_join "/" (parts role state text) +:+ String newline EmptyString.
Proof.
  assert (∀ text, str_join "/" (parts role state text) +:+ String newline EmptyString =
    PREFIX +:+ "/failure-before-cleanup/" +:+ role +:+ "/" +:+ state +:+ "/" +:+ text +:+ String newline EmptyString) as Hj.
  { intros text. unfold parts. rewrite !str_join_cons by done. cbn [str_join]. rewrite !str_append_assoc.
    change ("/failure-before-cleanup/") with ("/" +:+ "failure-before-cleanup" +:+ "/"). by rewrite !str_append_assoc. }
  unfold record, text_of. split.
  - intros H. ok_inv. do 2 (split; [done|]). rename select (_ = Ok _) into Ht.
    case_bool_decide as Hs; destruct count as [n|]; try done.
    + case_bool_decide; [|done]. ok_inv. eexists. split; [|by rewrite Hj]. naive_solver.
    + ok_inv. eexists. split; [|by rewrite Hj]. naive_solver.
  - intros (Hr & Hs & text & Ht & ->). rewrite (bool_decide_eq_true_2 (role ∈ _)), (bool_decide_eq_true_2 (state ∈ _)) by done. cbn [andb ensure mbind res_bind].
    destruct Ht as [(Ho & n & -> & Hn & ->)|(Ho & -> & ->)].
    + rewrite (bool_decide_eq_true_2 (state = _)), (bool_decide_eq_true_2 (_ ∧ _)) by done. by rewrite Hj.
    + rewrite (bool_decide_eq_false_2 (state = _)) by done. by rewrite Hj.
Qed.

(** What the parts of a record contain *)
Definition plain_part (s : string) : bool :=
  negb (str_mem "/" s) && negb (str_mem newline s) && forallb (in_range 0 127) (fsencode s).

Lemma role_plain role : role ∈ ROLES → plain_part role = true ∧ (String.length role <= 16)%nat.
Proof. intros H. assert (forallb (λ s, plain_part s && bool_decide (String.length s <= 16)%nat) ROLES = true) as Ha by done.
  rewrite forallb_forall in Ha. specialize (Ha role ltac:(by apply list_elem_of_In)). ok_inv. done. Qed.
Lemma state_plain state : state ∈ STATES → plain_part state = true ∧ (String.length state <= 11)%nat.
Proof. intros H. assert (forallb (λ s, plain_part s && bool_decide (String.length s <= 11)%nat) STATES = true) as Ha by done.
  rewrite forallb_forall in Ha. specialize (Ha state ltac:(by apply list_elem_of_In)). ok_inv. done. Qed.
Lemma text_plain state count text :
  text_of state count text → str_mem "/" text = false ∧ str_mem newline text = false ∧ (String.length text <= 5)%nat.
Proof.
  intros [(_ & n & _ & Hn & ->)|(_ & _ & ->)]; [|split_and!; cbn; [done|done|lia]].
  unfold MAX_THREADS in Hn. pose proof (dec_print_digits n ltac:(lia)).
  split_and!; [by apply digits_avoid..|apply (dec_print_length n 4); lia].
Qed.

Lemma substring_init x c : String.substring 0 (String.length (x +:+ String c EmptyString) - 1) (x +:+ String c EmptyString) = x.
Proof.
  rewrite str_length_app. cbn [String.length]. rewrite Nat.add_sub.
  induction x as [|a x IH]; [done|]. rewrite str_append_cons. cbn. by rewrite IH.
Qed.
Lemma endswith_last x c : endswith (String c EmptyString) (x +:+ String c EmptyString) = true.
Proof.
  unfold endswith. rewrite str_length_app. cbn [String.length]. rewrite bool_decide_eq_true_2 by lia.
  rewrite Nat.add_sub, str_drop_app. by rewrite bool_decide_eq_true_2.
Qed.
Lemma str_mem_join c sep l :
  str_mem c sep = false → (∀ x, x ∈ l → str_mem c x = false) → str_mem c (str_join sep l) = false.
Proof.
  intros Hs. induction l as [|x l IH]; intros Hl; [done|]. destruct l as [|y l]; [apply Hl; set_solver|].
  rewrite str_join_cons, !str_mem_app, Hs, IH, Hl by set_solver. done.
Qed.

(** The parser of the failure records accepts exactly what [record] can
    write, and returns it unchanged. *)
Theorem record_roundtrip (payload result : string) :
  parse_record payload = Ok result ↔
  result = payload ∧ ∃ role state count, record role state count = Ok payload.
Proof.
  split.
  - unfold parse_record. intros H. ok_inv. rename select (match _ with _ => _ end = _) into Hm.
    destruct (str_split "/" _) as [|a [|b [|role [|state [|text [|]]]]]]; try done.
    apply bind_Ok in Hm as (? & Hab & Hm). ok_inv. case_match eqn:Hc; [|by case_match]. ok_inv. eauto 10.
  - intros (-> & role & state & count & (Hr & Hs & text & Ht & ->)%record_iff).
    set (body := str_join "/" (parts role state text)).
    destruct (role_plain _ Hr) as [Pr Lr], (state_plain _ Hs) as [Ps Ls], (text_plain _ _ _ Ht) as (P1 & P2 & Lt).
    unfold plain_part in *. ok_inv.
    assert (∀ x, x ∈ parts role state text → str_mem newline x = false ∧ str_mem "/" x = false) as Hp.
    { intros x. unfold parts. rewrite !elem_of_cons, elem_of_nil. intros [->|[->|[->|[->|[->|[]]]]]]; split; done. }
    unfold parse_record. rewrite substring_init, endswith_last.
    replace (str_mem newline body) with false; [|symmetry; apply str_mem_join; [done|by intros x Hx; apply Hp]].
    rewrite (bool_decide_eq_true_2 (_ <= MAX_RECORD)); last first.
    { unfold body, MAX_RECORD, parts. rewrite !str_join_cons by done. cbn [str_join]. rewrite !str_length_app. cbn. lia. }
    cbn [andb negb ensure mbind res_bind]. unfold body at 1.
    rewrite str_split_join by (done || by intros x Hx; apply Hp). unfold parts at 1.
    rewrite (bool_decide_eq_true_2 (PREFIX = _)), (bool_decide_eq_true_2 ("failure-before-cleanup" = _)) by done.
    cbn [andb ensure mbind res_bind].
    unfold decode_ascii. do 2 match goal with H : forallb _ _ = true |- _ => rewrite H; clear H end. cbn [mbind res_bind].
    assert (record role state count = Ok (body +:+ String newline EmptyString)) as Hrec by (apply record_iff; eauto 10).
    destruct Ht as [(-> & n & -> & Hn & ->)|(Ho & -> & ->)].
    + rewrite (bool_decide_eq_true_2 ("observed" = "observed")), number_print by (done || unfold MAX_THREADS in *; lia).
      cbn [mbind res_bind]. rewrite Hrec. cbn [mbind res_bind]. rewrite bool_decide_eq_true_2 by done. done.
    + rewrite (bool_decide_eq_false_2 (state = "observed")) by done.
      cbn [mbind res_bind]. rewrite Hrec. cbn [mbind res_bind]. rewrite bool_decide_eq_true_2 by done. done.
Qed.
End Census.
