(* ===== verification/CensusRun.v ===== *)
(** * delivery/native_thread_census.py: the census of the owned processes

    The class [Census] with its descriptors, its entries and its states, and
    the module functions around it.  The operating system is a record of
    functions on a world the census cannot see; every one may raise, also with
    the control exceptions [KeyboardInterrupt] and [SystemExit], which covers
    an interrupt that is delivered during the call.  Records written by
    [emit_failure] are the trace of the run. *)
From S2P Require Import Prelude PyBytes PyString PyValue PyText Effect Census.
From Stdlib Require Import Ascii.
Import Census.
Local Open Scope Z_scope.

Module CensusRun.

Definition SAMPLE_NS : Z := 100000000.
Definition MAX_OWNED_FDS : nat := 11.

(** A [Popen] object: its reference and its attribute [pid] *)
Record process := Process { handle : Z; pid : PyValue.value }.
Record stat := Stat { st_dev : Z; st_ino : Z; st_uid : Z; is_directory : bool; is_regular : bool }.
Abbreviation identity := (Z * Z * list Z)%type.
Record entry := Entry {
  directory : Z; pidfd : option Z; owner : option process; information : identity; witness : Z * Z * Z }.

Record census := Census {
  creator : Z * Z;
  uid : Z;
  outer_deadline : PyValue.value;
  root : option Z;
  entries : list (string * entry);
  states : list (string * string);
  fds : gset Z;
  sampled : bool;
  pending_control : option exn;
}.

Definition set_root (r : option Z) (c : census) : census :=
  Census (creator c) (uid c) (outer_deadline c) r (entries c) (states c) (fds c) (sampled c) (pending_control c).
Definition set_entries (m : list (string * entry)) (c : census) : census :=
  Census (creator c) (uid c) (outer_deadline c) (root c) m (states c) (fds c) (sampled c) (pending_control c).
Definition set_states (m : list (string * string)) (c : census) : census :=
  Census (creator c) (uid c) (outer_deadline c) (root c) (entries c) m (fds c) (sampled c) (pending_control c).
Definition set_fds (s : gset Z) (c : census) : census :=
  Census (creator c) (uid c) (outer_deadline c) (root c) (entries c) (states c) s (sampled c) (pending_control c).
Definition set_sampled (b : bool) (c : census) : census :=
  Census (creator c) (uid c) (outer_deadline c) (root c) (entries c) (states c) (fds c) b (pending_control c).
Definition set_pending (e : option exn) (c : census) : census :=
  Census (creator c) (uid c) (outer_deadline c) (root c) (entries c) (states c) (fds c) (sampled c) e.
Definition ddel {V} (k : string) (d : list (string * V)) : list (string * V) := List.filter (λ '(k', _), bool_decide (k' ≠ k)) d.

(** ** The operating system *)
Record kernel (K : Type) := Kernel {
  getpid : K → res Z * K;
  get_ident : K → res Z * K;
  getuid : K → res Z * K;
  getppid : K → res Z * K;
  monotonic_ns : K → res Z * K;
  (** [signal.getsignal(SIGCHLD) == SIG_DFL], and whether [os] has [pidfd_open] *)
  sigchld_default : K → res bool * K;
  has_pidfd_open : bool;
  (** Linux, x86_64, eight byte longs and a statfs of 120 bytes *)
  platform_ok : bool;
  (** the first word of [fstatfs], [None] when it returns an error *)
  fstatfs : Z → K → res (option Z) * K;
  os_open : string → bool → option Z → K → res Z * K;
  os_close : Z → K → res unit * K;
  readlink_self : Z → K → res string * K;
  fstat : Z → K → res stat * K;
  os_read : Z → Z → K → res (list ascii) * K;
  (** [select] with no timeout: is the descriptor readable *)
  readable : Z → K → res bool * K;
  pidfd_open : Z → K → res Z * K;
  get_inheritable : Z → K → res bool * K;
  (** [process.returncode is not None] *)
  returned : process → K → res bool * K;
  popen : K → res process * K;
  write : string → K → res unit * K;
}.
Arguments getpid {K} _ _.
Arguments get_ident {K} _ _.
Arguments getuid {K} _ _.
Arguments getppid {K} _ _.
Arguments monotonic_ns {K} _ _.
Arguments sigchld_default {K} _ _.
Arguments has_pidfd_open {K} _.
Arguments platform_ok {K} _.
Arguments fstatfs {K} _ _ _.
Arguments os_open {K} _ _ _ _ _.
Arguments os_close {K} _ _ _.
Arguments readlink_self {K} _ _ _.
Arguments fstat {K} _ _ _.
Arguments os_read {K} _ _ _ _.
Arguments readable {K} _ _ _.
Arguments pidfd_open {K} _ _ _.
Arguments get_inheritable {K} _ _ _.
Arguments returned {K} _ _ _.
Arguments popen {K} _ _.
Arguments write {K} _ _ _.

Section Census.
Context {K : Type} (os : kernel K).

Abbreviation C := (M (census * K) string).

Definition sys {A} (f : K → res A * K) : C A :=
  call (λ '(c, k), let '(r, k) := f k in (r, (c, k))) (λ _, []).
Definition self {A} (f : census → A) : C A := call (λ '(c, k), (Ok (f c), (c, k))) (λ _, []).
Definition modify (f : census → census) : C unit := call (λ '(c, k), (Ok tt, (f c, k))) (λ _, []).
Definition reject {A} (reason : string) : C A := throw (Unavailable reason).
Definition reject_if (bad : bool) (reason : string) : C unit := if bad then reject reason else mret tt.

(** [except BaseException as error] *)
Definition catch_all {A} (m : C A) (h : exn → C A) : C A := λ st,
  match m st with
  | (Err e, st) => h e st
  | r => r
  end.

(** ** Procfs *)
Definition procfs (fd : Z) : C unit :=
  _ ← reject_if (negb (platform_ok os)) "profile";
  w ← sys (fstatfs os fd);
  reject_if (bool_decide (w ≠ Some 0x9FA0)) "profile".

Definition reason (e : exn) : string :=
  match e with
  | Unavailable r => if bool_decide (r ∈ drop 1 STATES) then r else "os-other"
  | FileNotFoundError => "missing"
  | Errno n => if bool_decide (n = 2) then "missing" else if bool_decide (n = 3) then "retired"
               else if bool_decide (n = 13) then "permission" else if bool_decide (n = 1) then "permission"
               else if bool_decide (n = 40) then "identity" else if bool_decide (n = 20) then "identity" else "os-other"
  | OSError => "os-other"
  | _ => "profile"
  end.

(** ** Methods *)
Definition is_control (e : exn) : bool := match e with KeyboardInterrupt | SystemExit => true | _ => false end.

Definition defer_control (e : exn) : C unit :=
  pending ← self pending_control;
  if is_control e && bool_decide (pending = None) then modify (set_pending (Some e)) else mret tt.

Definition checkpoint : C unit :=
  e ← self pending_control;
  _ ← modify (set_pending None);
  match e with Some e => throw e | None => mret tt end.

Definition budget : C Z :=
  v ← self outer_deadline;
  match v with
  | VInt n =>
      if bool_decide (1 <= n <= 2 ^ 63 - 1) then now ← sys (monotonic_ns os); mret (Z.min n (now + SAMPLE_NS))
      else reject "deadline"
  | _ => reject "deadline"
  end.

Definition check (deadline : Z) : C unit :=
  cr ← self creator;
  p ← sys (getpid os); t ← sys (get_ident os);
  _ ← reject_if (bool_decide (cr ≠ (p, t))) "identity";
  now ← sys (monotonic_ns os);
  reject_if (bool_decide (now >= deadline)) "deadline".

Definition own (fd : Z) : C Z :=
  held ← self fds;
  if bool_decide (MAX_OWNED_FDS <= size held)%nat then _ ← sys (os_close os fd); reject "bound"
  else _ ← modify (λ c, set_fds ({[fd]} ∪ fds c) c); mret fd.

(** [self._own(f())] *)
Definition obtain (f : K → res Z * K) : C Z := fd ← sys f; own fd.

Definition close_fd (fd : Z) : C unit :=
  held ← self fds;
  if bool_decide (fd ∈ held) then
    _ ← modify (λ c, set_fds (fds c ∖ {[fd]}) c);
    catch_all (sys (os_close os fd)) defer_control
  else mret tt.

Definition open (path : string) (dir : bool) (parent : option Z) (deadline : Z) : C Z :=
  _ ← check deadline;
  obtain (os_open os path dir parent).

Definition get_witness (fd : Z) : C (Z * Z * Z) :=
  v ← sys (fstat os fd);
  _ ← reject_if (negb (is_directory v)) "identity";
  mret (st_dev v, st_ino v, st_uid v).

Fixpoint status_loop (fuel : nat) (fd deadline : Z) (p : projection) : C (identity * option Z) :=
  match fuel with
  | O => throw NoFuel
  | S fuel =>
      _ ← check deadline;
      _ ← reject_if (bool_decide (total p >= MAX_STATUS)) "bound";
      chunk ← sys (os_read os fd (Z.min 1024 (MAX_STATUS - total p)));
      _ ← check deadline;
      match chunk with
      | [] => embed (finish p)
      | _ => p ← embed (feed p chunk); status_loop fuel fd deadline p
      end
  end.
Definition status_fuel : nat := Z.to_nat (MAX_STATUS + 1).

Definition status (dir deadline : Z) (sample_threads : bool) : C (identity * option Z) :=
  _ ← check deadline;
  fd ← open "status" false (Some dir) deadline;
  finally (v ← sys (fstat os fd);
           _ ← reject_if (negb (is_regular v)) "profile";
           _ ← procfs fd;
           status_loop status_fuel fd deadline (init sample_threads))
    (close_fd fd).

Definition live (fd : Z) : C bool := r ← sys (readable os fd); mret (negb r).

Definition state_of (role : string) : C string :=
  ss ← self states; match dget role ss with Some s => mret s | None => throw KeyError end.
Definition set_state (role state : string) : C unit := modify (λ c, set_states (dset role state (states c)) c).
Definition set_entry (role : string) (e : entry) : C unit := modify (λ c, set_entries (dset role e (entries c)) c).

Definition close : C unit :=
  held ← self fds;
  _ ← foldr (λ fd rest, _ ← catch_all (close_fd fd) defer_control; rest) (mret tt) (elements held);
  _ ← modify (set_entries []);
  modify (set_root None).

(** The last two statements of both [try] bodies *)
Definition enroll (role : string) (e : entry) : C unit := _ ← set_entry role e; set_state role "observed".

(** The [try] statement of [Census.__init__]: what precedes the enrollment,
    and the whole *)
Definition verify_self (p u : Z) : C entry :=
     d ← budget;
     _ ← check d;
     default ← sys (sigchld_default os);
     _ ← reject_if (negb default || negb (has_pidfd_open os)) "profile";
     proc ← open "/proc" true None d;
     _ ← modify (set_root (Some proc));
     _ ← procfs proc;
     _ ← check d;
     link ← sys (readlink_self os proc);
     _ ← reject_if (bool_decide (link ≠ int_print p)) "profile";
     fd ← open (int_print p) true (Some proc) d;
     info ← status fd d false;
     parent ← sys (getppid os);
     _ ← reject_if (bool_decide (info.1 ≠ (p, parent, replicate 4 u))) "identity";
     w ← get_witness fd;
     mret (Entry fd None None info.1 w).
Definition enroll_self (p u : Z) : C unit :=
  catch_all
    (e ← verify_self p u; enroll "self" e)
    (λ e, _ ← defer_control e;
          _ ← close;
          _ ← set_state "self" (reason e);
          checkpoint).

(** [Census(outer_deadline)] *)
Definition construct (deadline : PyValue.value) : C unit :=
  p ← sys (getpid os); t ← sys (get_ident os); u ← sys (getuid os);
  _ ← modify (λ _, Census (p, t) u deadline None [] ((λ r, (r, "not-created")) <$> ROLES) ∅ false None);
  enroll_self p u.

Definition retire (role : string) : C unit :=
  if negb (bool_decide (role ∈ drop 1 ROLES)) then mret tt else
  es ← self entries;
  _ ← modify (set_entries (ddel role es));
  _ ← match dget role es with
      | None => mret tt
      | Some e => _ ← close_fd (directory e); match pidfd e with Some fd => close_fd fd | None => mret tt end
      end;
  set_state role "retired".

Definition verify_created (role : string) (q : process) : C entry :=
     _ ← reject_if (negb (bool_decide (role ∈ drop 1 ROLES))) "identity";
     s ← state_of role;
     _ ← (if bool_decide (s ≠ "not-created") then _ ← retire role; reject "identity" else mret tt);
     d ← budget;
     _ ← check d;
     proc ← self root;
     default ← (if bool_decide (proc = None) then mret false else sys (sigchld_default os));
     match pid q, proc with
     | VInt n, Some proc =>
         _ ← reject_if (negb default || bool_decide (n <= 0)) "profile";
         done ← sys (returned os q);
         _ ← reject_if done "retired";
         fd ← obtain (pidfd_open os n);
         _ ← check d;
         inherited ← sys (get_inheritable os fd);
         alive ← (if (inherited : bool) then mret false else live fd);
         _ ← reject_if (negb alive) "retired";
         dir ← open (int_print n) true (Some proc) d;
         _ ← procfs dir;
         info ← status dir d false;
         cr ← self creator; u ← self uid;
         _ ← reject_if (bool_decide (info.1 ≠ (n, cr.1, replicate 4 u))) "identity";
         alive ← live fd;
         done ← (if (alive : bool) then sys (returned os q) else mret true);
         _ ← reject_if done "retired";
         w ← get_witness dir;
         mret (Entry dir (Some fd) (Some q) info.1 w)
     | _, _ => reject "profile"
     end.
Definition capture_created (role : string) (q : process) : C unit :=
  before ← self fds;
  catch_all
    (e ← verify_created role q; enroll role e)
    (λ e, _ ← defer_control e;
          now ← self fds;
          _ ← foldr (λ fd rest, _ ← close_fd fd; rest) (mret tt) (elements (now ∖ before));
          if bool_decide (role ∈ drop 1 ROLES) then set_state role (reason e) else mret tt).

(** [process is not None and (process.returncode is not None or not self._live(pidfd))] *)
Definition gone (e : entry) : C bool :=
  match owner e with
  | None => mret false
  | Some q =>
      done ← sys (returned os q);
      if (done : bool) then mret true
      else match pidfd e with Some fd => alive ← live fd; mret (negb alive) | None => throw TypeError end
  end.

Definition sample (deadline : Z) (e : entry) : C (string * option Z) :=
  _ ← check deadline;
  g ← gone e;
  _ ← reject_if g "retired";
  w ← get_witness (directory e);
  _ ← reject_if (bool_decide (w ≠ witness e)) "identity";
  info ← status (directory e) deadline true;
  _ ← reject_if (bool_decide (info.1 ≠ information e)) "identity";
  g ← gone e;
  _ ← reject_if g "retired";
  mret ("observed", info.2).

Fixpoint sample_roles (deadline : Z) (roles : list string) : C (list string) :=
  match roles with
  | [] => mret []
  | role :: roles =>
      state ← state_of role;
      es ← self entries;
      '(state, count) ← match dget role es with
                        | Some e => catch_all (sample deadline e) (λ x, mret (reason x, None))
                        | None => mret (state, None)
                        end;
      line ← embed (record role state count);
      rest ← sample_roles deadline roles;
      mret (line :: rest)
  end.

Definition failure_records : C (list string) :=
  already ← self sampled;
  if (already : bool) then mret [] else
  _ ← modify (set_sampled true);
  d ← catch_all (d ← budget; _ ← check d; mret (Some d)) (λ _, mret None);
  match d with
  | None => embed (mapM_res (λ role, record role "deadline" None) ROLES)
  | Some d => sample_roles d ROLES
  end.

(** ** The module's functions; [present] is [census is not None] *)
Definition owned_popen (present : bool) (role : string) : C process :=
  q ← sys (popen os);
  _ ← (if present then
         catch_all (capture_created role q)
           (λ e, catch_all (_ ← defer_control e;
                            if bool_decide (role ∈ drop 1 ROLES) then _ ← retire role; set_state role "profile" else mret tt)
                   (λ _, mret tt))
       else mret tt);
  mret q.

Definition writer (line : string) : C unit :=
  call (λ '(c, k), let '(r, k) := write os line k in (r, (c, k))) (λ _, [line]).

Definition emit_failure (present : bool) : C unit :=
  if present then
    catch_all
      (rs ← failure_records;
       foldr (λ line rest, line ← embed (parse_record line); _ ← writer line; rest) (mret tt) rs)
      (λ _, mret tt)
  else mret tt.

(** [except Exception] lets the control exceptions pass. *)
Definition catch_exception (m : C unit) : C unit := catch_all m (λ e, if is_control e then throw e else mret tt).

Definition checkpoint_of (present : bool) : C unit := if present then catch_exception checkpoint else mret tt.

Definition retire_of (present : bool) (role : string) : C unit :=
  if present then _ ← catch_exception (retire role); checkpoint_of present else mret tt.

Definition close_of (present primary : bool) : C unit :=
  if negb present then mret tt else
  _ ← catch_all close (λ e, if negb primary && is_control e then throw e else mret tt);
  if primary then modify (set_pending None) else checkpoint_of present.

(** ** Invariants of the monad's operators *)
Section Rules.
Context (I : world (census * K) string → Prop).

Lemma keeps_catch_all {A} (m : C A) h : keeps I m → (∀ e, keeps I (h e)) → keeps I (catch_all m h).
Proof. intros Hm Hh st Hst. specialize (Hm st Hst). unfold catch_all. destruct (m st) as [[a|e] st1]; [done|by apply Hh]. Qed.
Lemma keeps_each {A} (f : A → C unit) l : (∀ x, keeps I (f x)) → keeps I (foldr (λ x rest, _ ← f x; rest) (mret tt) l).
Proof. intros Hf. induction l; cbn; [apply keeps_ret|]. apply keeps_bind; [done|]. by intros []. Qed.
Lemma keeps_self {A} (f : census → A) : keeps I (self f).
Proof. intros [[c k] tr] Hst. unfold self, call. cbn. by rewrite app_nil_r. Qed.
Lemma keeps_reject_if b r : keeps I (reject_if b r).
Proof. unfold reject_if. destruct b; [apply keeps_throw|apply keeps_ret]. Qed.
End Rules.

Ltac census_step :=
  match goal with
  | |- keeps _ (catch_all _ _) => apply keeps_catch_all; [|intros ?]
  | |- keeps _ (finally _ _) => apply keeps_finally
  | |- keeps _ (foldr _ _ _) => apply keeps_each; intros ?
  | |- keeps _ (self _) => apply keeps_self
  | |- keeps _ (embed _) => apply keeps_embed
  | |- keeps _ (reject_if _ _) => apply keeps_reject_if
  | |- keeps _ (reject _) => apply keeps_throw
  | _ => keeps_step
  end.
Ltac solve_census := repeat census_step.

(** Invariants that the calls of the system, and the bookkeeping of
    descriptors and of deferred exceptions, respect *)
Class Friendly (I : world (census * K) string → Prop) : Prop := {
  fr_getpid : keeps I (sys (getpid os));
  fr_get_ident : keeps I (sys (get_ident os));
  fr_getppid : keeps I (sys (getppid os));
  fr_monotonic : keeps I (sys (monotonic_ns os));
  fr_sigchld : keeps I (sys (sigchld_default os));
  fr_fstatfs fd : keeps I (sys (fstatfs os fd));
  fr_readlink fd : keeps I (sys (readlink_self os fd));
  fr_fstat fd : keeps I (sys (fstat os fd));
  fr_read fd n : keeps I (sys (os_read os fd n));
  fr_readable fd : keeps I (sys (readable os fd));
  fr_inheritable fd : keeps I (sys (get_inheritable os fd));
  fr_returned q : keeps I (sys (returned os q));
  fr_open path dir parent : keeps I (obtain (os_open os path dir parent));
  fr_pidfd n : keeps I (obtain (pidfd_open os n));
  fr_close fd : keeps I (close_fd fd);
  fr_pending x : keeps I (modify (set_pending x));
  fr_root x : keeps I (modify (set_root x));
}.
#[local] Hint Resolve fr_getpid fr_get_ident fr_getppid fr_monotonic fr_sigchld fr_fstatfs fr_readlink fr_fstat fr_read fr_readable
  fr_inheritable fr_returned fr_open fr_pidfd fr_close fr_pending fr_root : omux.

Section Methods.
Context (I : world (census * K) string → Prop) `{!Friendly I}.

Lemma keeps_defer e : keeps I (defer_control e).
Proof. unfold defer_control. solve_census. Qed.
Lemma keeps_checkpoint : keeps I checkpoint.
Proof. unfold checkpoint. solve_census. Qed.
Lemma keeps_check d : keeps I (check d).
Proof. unfold check. solve_census. Qed.
Lemma keeps_budget : keeps I budget.
Proof. unfold budget. solve_census. Qed.
#[local] Hint Resolve keeps_defer keeps_check keeps_budget : omux.
Lemma keeps_open path dir parent d : keeps I (open path dir parent d).
Proof. unfold open. solve_census. Qed.
Lemma keeps_procfs fd : keeps I (procfs fd).
Proof. unfold procfs. solve_census. Qed.
Lemma keeps_live fd : keeps I (live fd).
Proof. unfold live. solve_census. Qed.
Lemma keeps_witness fd : keeps I (get_witness fd).
Proof. unfold get_witness. solve_census. Qed.
Lemma keeps_status_loop fuel fd d p : keeps I (status_loop fuel fd d p).
Proof. revert p. induction fuel as [|fuel IH]; intros p; cbn [status_loop]; solve_census. Qed.
#[local] Hint Resolve keeps_open keeps_procfs keeps_live keeps_witness keeps_status_loop : omux.
Lemma keeps_status dir d b : keeps I (status dir d b).
Proof. unfold status. solve_census. Qed.
Lemma keeps_state_of role : keeps I (state_of role).
Proof. unfold state_of. solve_census. Qed.
Lemma keeps_gone e : keeps I (gone e).
Proof. unfold gone. solve_census. Qed.
#[local] Hint Resolve keeps_status keeps_state_of keeps_gone : omux.
Lemma keeps_sample d e : keeps I (sample d e).
Proof. unfold sample. solve_census. Qed.
Lemma keeps_verify_self p u : keeps I (verify_self p u).
Proof. unfold verify_self. solve_census. Qed.
Lemma keeps_verify_created role q : keeps I (retire role) → keeps I (verify_created role q).
Proof. intros Hr. unfold verify_created. solve_census. Qed.
#[local] Hint Resolve keeps_sample : omux.
Lemma keeps_sample_roles d roles : keeps I (sample_roles d roles).
Proof. induction roles; cbn [sample_roles]; solve_census. Qed.
End Methods.
#[local] Hint Resolve keeps_defer keeps_checkpoint keeps_budget keeps_check keeps_state_of keeps_verify_self keeps_verify_created
  keeps_sample keeps_sample_roles : omux.

(** ** Descriptor custody *)

(** What the code relies on: the system hands out descriptors that are not in
    use, releases one that is closed whatever [close] returns, and no other
    call opens or closes any. *)
Definition quiet (open_fds : K → gset Z) {A} (f : K → res A * K) : Prop := ∀ k, open_fds (f k).2 = open_fds k.
Definition hands_out (open_fds : K → gset Z) (f : K → res Z * K) : Prop := ∀ k,
  match f k with
  | (Ok fd, k') => (fd ∉ open_fds k) ∧ open_fds k' = {[fd]} ∪ open_fds k
  | (Err _, k') => open_fds k' = open_fds k
  end.
Class Lawful (open_fds : K → gset Z) : Prop := {
  law_open path dir parent : hands_out open_fds (os_open os path dir parent);
  law_pidfd n : hands_out open_fds (pidfd_open os n);
  law_close fd k : open_fds (os_close os fd k).2 = open_fds k ∖ {[fd]};
  law_getpid : quiet open_fds (getpid os);
  law_get_ident : quiet open_fds (get_ident os);
  law_getuid : quiet open_fds (getuid os);
  law_getppid : quiet open_fds (getppid os);
  law_monotonic : quiet open_fds (monotonic_ns os);
  law_sigchld : quiet open_fds (sigchld_default os);
  law_fstatfs fd : quiet open_fds (fstatfs os fd);
  law_readlink fd : quiet open_fds (readlink_self os fd);
  law_fstat fd : quiet open_fds (fstat os fd);
  law_read fd n : quiet open_fds (os_read os fd n);
  law_readable fd : quiet open_fds (readable os fd);
  law_inheritable fd : quiet open_fds (get_inheritable os fd);
  law_returned q : quiet open_fds (returned os q);
  law_write s : quiet open_fds (write os s);
}.

Section Custody.
Context (open_fds : K → gset Z) {laws : Lawful open_fds} (base : gset Z).

Definition custody (st : world (census * K) string) : Prop :=
  let '(c, k) := env st in
  open_fds k = base ∪ fds c ∧ base ## fds c ∧ (size (fds c) <= MAX_OWNED_FDS)%nat.

Lemma custody_sys {A} (f : K → res A * K) : quiet open_fds f → keeps custody (sys f).
Proof.
  intros Hq [[c k] tr] Hst. unfold sys, call. cbn. specialize (Hq k). destruct (f k) as [r k']. cbn in *. unfold custody in *. cbn in *.
  by rewrite Hq.
Qed.
Lemma custody_modify f : (∀ c, fds (f c) = fds c) → keeps custody (modify f).
Proof. intros Hf [[c k] tr] Hst. unfold modify, call, custody in *. cbn in *. by rewrite Hf. Qed.

Lemma put_back (X : gset Z) fd : fd ∉ X → ({[fd]} ∪ X) ∖ {[fd]} = X.
Proof. set_solver. Qed.

Lemma custody_obtain (f : K → res Z * K) : hands_out open_fds f → keeps custody (obtain f).
Proof.
  intros Hf [[c k] tr] Hst. unfold custody in *. cbn in Hst. destruct Hst as (Ho & Hd & Hs).
  specialize (Hf k). unfold obtain, mbind, M_bind, sys, call. cbn. destruct (f k) as [[fd|e] k']; cbn; [|by rewrite Hf].
  destruct Hf as [Hn Ho']. unfold own, mbind, M_bind, self, sys, modify, call. cbn. case_bool_decide as Hc; cbn.
  - pose proof (law_close fd k') as Hk. destruct (os_close os fd k') as [[|] k'']; cbn in *; (split; [|done]);
      rewrite Hk, Ho', <- Ho; by apply put_back.
  - rewrite Ho in Hn. apply not_elem_of_union in Hn as [Hn1 Hn2]. rewrite Ho', Ho. clear - Hd Hs Hc Hn1 Hn2.
    split; [set_solver|]. split; [set_solver|]. rewrite size_union by set_solver. rewrite size_singleton. lia.
Qed.

Lemma custody_defer e : keeps custody (defer_control e).
Proof. unfold defer_control. solve_census; by apply custody_modify. Qed.

Lemma custody_close_fd fd : keeps custody (close_fd fd).
Proof.
  intros [[c k] tr] (Ho & Hd & Hs). unfold close_fd, mbind, M_bind, self, modify, call. cbn. case_bool_decide as Hc; cbn; [|done].
  unfold catch_all, sys, call. cbn. pose proof (law_close fd k) as Hk. destruct (os_close os fd k) as [r k'].
  assert (custody (World (set_fds (fds c ∖ {[fd]}) c, k') ((tr ++ []) ++ []))) as Hst.
  { unfold custody. cbn in *. split; [set_solver|]. split; [set_solver|].
    transitivity (size (fds c)); [apply subseteq_size; set_solver|done]. }
  destruct r as [[]|e]; cbn; [by rewrite !app_nil_r in *|]. rewrite app_nil_r in *. by apply custody_defer.
Qed.
#[local] Instance custody_friendly : Friendly custody.
Proof.
  split; intros; first [apply custody_obtain | apply custody_sys | apply custody_close_fd | by apply custody_modify]; apply laws || idtac.
Qed.

#[local] Hint Resolve custody_friendly : omux.
#[local] Hint Extern 1 (keeps custody (modify _)) => apply custody_modify; done : omux.

Lemma custody_set_state role s : keeps custody (set_state role s).
Proof. by apply custody_modify. Qed.
Lemma custody_set_entry role e : keeps custody (set_entry role e).
Proof. by apply custody_modify. Qed.
#[local] Hint Resolve custody_set_state custody_set_entry : omux.
Lemma custody_enroll role e : keeps custody (enroll role e).
Proof. unfold enroll. solve_census. Qed.
Lemma custody_close : keeps custody close.
Proof. unfold close. solve_census. Qed.
Lemma custody_retire role : keeps custody (retire role).
Proof. unfold retire. solve_census. Qed.
#[local] Hint Resolve custody_enroll custody_close custody_retire : omux.
Lemma custody_enroll_self p u : keeps custody (enroll_self p u).
Proof. unfold enroll_self. solve_census. Qed.
Lemma custody_capture role q : keeps custody (capture_created role q).
Proof. unfold capture_created. solve_census. Qed.
Lemma custody_records : keeps custody failure_records.
Proof. unfold failure_records. solve_census. Qed.
#[local] Hint Resolve custody_records : omux.
Lemma custody_writer line : keeps custody (writer line).
Proof.
  intros [[c k] tr] Hst. unfold writer, call. cbn. pose proof (law_write line k) as Hq.
  destruct (write os line k) as [r k']. unfold custody in *. cbn in *. by rewrite Hq.
Qed.
#[local] Hint Resolve custody_writer : omux.
Lemma custody_emit b : keeps custody (emit_failure b).
Proof.
  unfold emit_failure. destruct b; [|solve_census]. solve_census. rename select (list string) into l.
  induction l; cbn; solve_census.
Qed.
End Custody.

(** ** What closing does *)
Lemma defer_control_run e c k tr : ∃ x, defer_control e (World (c, k) tr) = (Ok tt, World (set_pending x c, k) tr).
Proof.
  unfold defer_control, self, modify, call, mbind, M_bind. cbn. rewrite app_nil_r. destruct (_ && _); cbn.
  - rewrite app_nil_r. eauto.
  - exists (pending_control c). by destruct c.
Qed.

Lemma close_fd_run fd c k tr :
  ∃ x k', close_fd fd (World (c, k) tr) = (Ok tt, World (set_pending x (set_fds (fds c ∖ {[fd]}) c), k') tr).
Proof.
  unfold close_fd, self, modify, call, mbind, M_bind. cbn. rewrite app_nil_r. case_bool_decide as Hc; cbn.
  - rewrite app_nil_r. unfold catch_all, sys, call. cbn. destruct (os_close os fd k) as [[[]|e] k']; cbn; rewrite app_nil_r.
    + exists (pending_control c), k'. done.
    + destruct (defer_control_run e (set_fds (fds c ∖ {[fd]}) c) k' tr) as [x ->]. eauto.
  - exists (pending_control c), k. replace (fds c ∖ {[fd]}) with (fds c) by set_solver. by destruct c.
Qed.

Lemma close_all_run (f : Z → C unit) l c k tr :
  (∀ fd st, f fd st = close_fd fd st) →
  ∃ x k', foldr (λ fd rest, _ ← f fd; rest) (mret tt) l (World (c, k) tr) =
    (Ok tt, World (set_pending x (set_fds (fds c ∖ list_to_set l) c), k') tr).
Proof.
  intros Hf. revert c k. induction l as [|fd l IH]; intros c k; cbn [foldr list_to_set].
  - exists (pending_control c), k. replace (fds c ∖ ∅) with (fds c) by set_solver. by destruct c.
  - destruct (close_fd_run fd c k tr) as (x & k' & Hr). erewrite run_bind by (rewrite Hf; exact Hr).
    destruct (IH (set_pending x (set_fds (fds c ∖ {[fd]}) c)) k') as (x' & k'' & ->). exists x', k''.
    unfold set_pending, set_fds. cbn. do 4 f_equal. set_solver.
Qed.

Lemma close_run c k tr :
  ∃ x k', close (World (c, k) tr) = (Ok tt, World (set_root None (set_entries [] (set_pending x (set_fds ∅ c))), k') tr).
Proof.
  unfold close. erewrite run_bind by done. cbn [env trace]. rewrite app_nil_r.
  destruct (close_all_run (λ fd, catch_all (close_fd fd) defer_control) (elements (fds c)) c k tr) as (x & k' & Hr).
  { intros fd [[c' k1] tr']. unfold catch_all. destruct (close_fd_run fd c' k1 tr') as (? & ? & ->). done. }
  erewrite run_bind by exact Hr. exists x, k'. unfold modify, call, mbind, M_bind. cbn.
  rewrite !app_nil_r. replace (fds c ∖ list_to_set (elements (fds c))) with (∅ : gset Z); [done|].
  rewrite list_to_set_elements_L. set_solver.
Qed.

Lemma close_of_empties primary st : fds (env (close_of true primary st).2).1 = ∅.
Proof.
  destruct st as [[c k] tr]. unfold close_of. cbn [negb]. destruct (close_run c k tr) as (x & k' & Hr).
  erewrite run_bind by (unfold catch_all; rewrite Hr; done).
  destruct primary; [done|]. unfold checkpoint_of, catch_exception, catch_all, checkpoint, self, modify, call, mbind, M_bind. cbn.
  destruct x as [e|]; [|done]. cbn. by destruct (is_control e).
Qed.

(** ** Uses of a census *)
Inductive op :=
  | Capture (role : string) (q : process)
  | Retire (role : string)
  | Emit
  | Checkpoint
  | Close (primary : bool).

Definition run_op (o : op) : C unit :=
  match o with
  | Capture role q => capture_created role q
  | Retire role => retire_of true role
  | Emit => emit_failure true
  | Checkpoint => checkpoint_of true
  | Close primary => close_of true primary
  end.

(** The census after some operations, whatever they raised *)
Definition uses (ops : list op) (st : world (census * K) string) : world (census * K) string :=
  foldl (λ st o, (run_op o st).2) st ops.

Lemma construct_raises deadline c k tr e st :
  fds c = ∅ → construct deadline (World (c, k) tr) = (Err e, st) → fds (env st).1 = ∅.
Proof.
  intros Hc. unfold construct, mbind at 1, M_bind at 1, sys at 1, call at 1. cbn [env].
  destruct (getpid os k) as [[p|] k1]; [|by intros [= <- <-]].
  unfold mbind at 1, M_bind at 1, sys at 1, call at 1. cbn [env]. destruct (get_ident os k1) as [[t|] k2]; [|by intros [= <- <-]].
  unfold mbind at 1, M_bind at 1, sys at 1, call at 1. cbn [env]. destruct (getuid os k2) as [[u|] k3]; [|by intros [= <- <-]].
  unfold mbind at 1, M_bind at 1, modify at 1, call at 1. cbn [env]. unfold enroll_self, catch_all at 1.
  match goal with |- context [match ?m with _ => _ end] => destruct m as [[[]|x] [[c' k'] tr']] end; [by intros [= ]|].
  destruct (defer_control_run x c' k' tr') as [pe Hd]. erewrite run_bind by exact Hd.
  destruct (close_run (set_pending pe c') k' tr') as (? & ? & Hr). erewrite run_bind by exact Hr.
  unfold set_state, checkpoint, self, modify, call, mbind, M_bind. cbn. intros H.
  case_match; [|done]. by injection H as <- <-.
Qed.

(** The construction starts with no descriptors, so custody is kept by its
    assignment of the fields too. *)
Lemma custody_construct (open_fds : K → gset Z) `{!Lawful open_fds} deadline c k tr :
  fds c = ∅ → custody open_fds (open_fds k) (construct deadline (World (c, k) tr)).2.
Proof.
  intros Hc.
  set (J := λ st : world (census * K) string, custody open_fds (open_fds k) st ∧ fds (env st).1 = ∅).
  assert (∀ A (f : K → res A * K), quiet open_fds f → keeps J (sys f)) as Hsys.
  { intros A f Hf st [Hst He]. split; [by apply custody_sys|]. destruct st as [[c1 k1] tr1]. unfold sys, call. cbn.
    by destruct (f k1). }
  assert (J (World (c, k) tr)) as H0.
  { split; [|done]. unfold custody. cbn. rewrite Hc. rewrite size_empty. split; [set_solver|]. split; [set_solver|lia]. }
  assert (∀ A B (m : C A) (kk : A → C B) st, J st → keeps J m → (∀ a st, J st → custody open_fds (open_fds k) (kk a st).2) →
          custody open_fds (open_fds k) ((m ≫= kk) st).2) as Hb.
  { intros A B m kk st Hst Hm Hk. specialize (Hm st Hst). unfold mbind, M_bind. destruct (m st) as [[a|e] st1]; [by apply Hk|apply Hm]. }
  unfold construct. apply Hb; [done|apply Hsys, law_getpid|]. intros p st1 H1.
  apply Hb; [done|apply Hsys, law_get_ident|]. intros t st2 H2.
  apply Hb; [done|apply Hsys, law_getuid|]. intros u st3 H3.
  apply Hb; [done| |].
  { intros [[c4 k4] tr4] [H4 E4]. unfold modify, call. cbn in *. split; [|done]. unfold custody in *. cbn in *. by rewrite E4 in H4. }
  intros _ st4 [H4 _]. by apply custody_enroll_self.
Qed.

Lemma custody_op (open_fds : K → gset Z) `{!Lawful open_fds} base o : keeps (custody open_fds base) (run_op o).
Proof.
  pose proof (@keeps_checkpoint _ (custody_friendly open_fds base)) as Hcp. pose proof (custody_close open_fds base).
  assert (∀ m, keeps (custody open_fds base) m → keeps (custody open_fds base) (catch_exception m)) as Hce.
  { intros m Hm. unfold catch_exception. solve_census. }
  destruct o; cbn [run_op].
  - by apply custody_capture.
  - unfold retire_of, checkpoint_of. apply keeps_bind; [by apply Hce, custody_retire|]. intros _. by apply Hce.
  - by apply custody_emit.
  - unfold checkpoint_of. by apply Hce.
  - unfold close_of. cbn [negb]. apply keeps_bind; [by solve_census|]. intros _. destruct primary; [by apply custody_modify|by apply Hce].
Qed.

(** C36: the census never holds more than eleven descriptors, and on a system
    that hands out unused descriptors the open ones are at every moment those
    that were open before the census was built and the ones it owns: whatever
    calls fail or are interrupted, closing it, or a construction that raises,
    leaves exactly the descriptors that were open before. *)
Theorem descriptor_custody (open_fds : K → gset Z) (laws : Lawful open_fds)
    (deadline : PyValue.value) (ops : list op) (c : census) (k : K) (primary : bool) :
  fds c = ∅ →
  let built := construct deadline (World (c, k) []) in
  let '(c1, k1) := env (uses ops built.2) in
  let '(c2, k2) := env (run_op (Close primary) (uses ops built.2)).2 in
  (open_fds k1 = open_fds k ∪ fds c1 ∧ open_fds k ## fds c1 ∧ (size (fds c1) <= MAX_OWNED_FDS)%nat) ∧
  open_fds k2 = open_fds k ∧
  (is_ok built.1 = false → open_fds (env built.2).2 = open_fds k).
Proof.
  intros Hc built. pose proof (custody_construct open_fds deadline c k [] Hc) as Hb. fold built in Hb.
  assert (custody open_fds (open_fds k) (uses ops built.2)) as Hu.
  { unfold uses. revert Hb. generalize built.2. induction ops as [|o ops IH]; intros st Hst; [done|]. cbn. apply IH.
    by apply custody_op. }
  pose proof (custody_op open_fds (open_fds k) (Close primary) _ Hu) as Hcl.
  pose proof (close_of_empties primary (uses ops built.2)) as He.
  unfold custody in Hu, Hcl. destruct (env (uses ops built.2)) as [c1 k1].
  destruct (env (run_op (Close primary) _).2) as [c2 k2] eqn:E2. cbn [run_op] in E2. rewrite E2 in He. cbn in He.
  split; [done|]. split; [destruct Hcl as [-> _]; rewrite He; set_solver|].
  intros Hr. destruct built as [[[]|e] st] eqn:E3; [done|]. apply construct_raises in E3; [|done]. cbn.
  unfold custody in Hb. cbn in Hb. destruct (env st) as [c3 k3]. cbn in *. destruct Hb as [-> _]. set_solver.
Qed.

(** ** The states behind the records *)
Section Reports.
Context (P : list (string * entry) → list (string * string) → bool → Prop).

(** A property of what only enrollment, retirement and sampling change *)
Definition frame (st : world (census * K) string) : Prop := let c := (env st).1 in P (entries c) (states c) (sampled c).

Lemma frame_sys {A} (f : K → res A * K) : keeps frame (sys f).
Proof. intros [[c k] tr] Hst. unfold sys, call. cbn. by destruct (f k). Qed.
Lemma frame_modify f : (∀ c, entries (f c) = entries c ∧ states (f c) = states c ∧ sampled (f c) = sampled c) → keeps frame (modify f).
Proof. intros Hf [[c k] tr] Hst. unfold modify, call, frame in *. cbn in *. by destruct (Hf c) as (-> & -> & ->). Qed.
Lemma frame_obtain f : keeps frame (obtain f).
Proof.
  unfold obtain, own. repeat first [apply frame_sys | by apply frame_modify | census_step].
Qed.
Lemma frame_close_fd fd : keeps frame (close_fd fd).
Proof. intros [[c k] tr] Hst. destruct (close_fd_run fd c k tr) as (x & k' & ->). done. Qed.
#[local] Instance frame_friendly : Friendly frame.
Proof. split; intros; first [apply frame_obtain | apply frame_sys | apply frame_close_fd | by apply frame_modify]. Qed.
End Reports.

(** Every role has a state the records know, and an observed one an entry. *)
Definition reportable (es : list (string * entry)) (ss : list (string * string)) : Prop :=
  ∀ role, role ∈ ROLES → ∃ s, dget role ss = Some s ∧ s ∈ STATES ∧ (s = "observed" → is_Some (dget role es)).
Definition ready : world (census * K) string → Prop := frame (λ es ss b, b = false ∧ reportable es ss).

Lemma reason_unobserved e : reason e ∈ drop 1 STATES.
Proof.
  assert (∀ s, bool_decide (s ∈ drop 1 STATES) = true → s ∈ drop 1 STATES) as Hd by (intros; by eapply bool_decide_eq_true_1).
  destruct e; try (by apply Hd); cbn [reason]; repeat case_bool_decide; try done; by apply Hd.
Qed.

Lemma reportable_state es ss role s :
  reportable es ss → s ∈ STATES → (s = "observed" → is_Some (dget role es)) → reportable es (dset role s ss).
Proof.
  intros H Hs Ho r Hr. rewrite dget_dset. case_bool_decide; [subst; eauto|by apply H].
Qed.
Lemma unobserved s : s ∈ drop 1 STATES → s ∈ STATES ∧ s ≠ "observed".
Proof.
  intros H. split; [change STATES with ("observed" :: drop 1 STATES); by apply elem_of_cons; right|].
  intros ->. by eapply (bool_decide_eq_true_2 _) in H.
Qed.

Lemma ready_set_state role s : s ∈ drop 1 STATES → keeps ready (set_state role s).
Proof.
  intros [Hs Ho]%unobserved [[c k] tr] [Hb Hr]. unfold set_state, modify, call, ready, frame. cbn in *. split; [done|].
  by apply reportable_state.
Qed.
Lemma ready_enroll role e : keeps ready (enroll role e).
Proof.
  intros [[c k] tr] [Hb Hr]. unfold enroll, set_entry, set_state, modify, call, mbind, M_bind, ready, frame. cbn in *. split; [done|].
  apply reportable_state; [|by apply (bool_decide_eq_true_1 _)|intros _; rewrite dget_dset_eq; eauto].
  intros r Hr'. destruct (Hr r Hr') as (s & ? & ? & ?). exists s. do 2 (split; [done|]). intros Ho.
  rewrite dget_dset. case_bool_decide; eauto.
Qed.

Lemma dget_ddel {V} k r (d : list (string * V)) : r ≠ k → dget r (ddel k d) = dget r d.
Proof.
  intros Hr. unfold ddel. induction d as [|[k' v] d IH]; [done|]. cbn. destruct (bool_decide_reflect (k' ≠ k)) as [|Hk]; cbn.
  - case_bool_decide; [done|apply IH].
  - apply dec_stable in Hk. subst. rewrite bool_decide_eq_false_2 by done. apply IH.
Qed.

Lemma retire_run role c k tr :
  role ∈ drop 1 ROLES →
  ∃ x s k', retire role (World (c, k) tr) =
    (Ok tt, World (set_states (dset role "retired" (states c)) (set_pending x (set_fds s (set_entries (ddel role (entries c)) c))), k') tr).
Proof.
  intros Hin. unfold retire. rewrite bool_decide_eq_true_2 by done. cbn [negb].
  erewrite run_bind by done. erewrite run_bind by done. cbn [env trace]. rewrite !app_nil_r.
  set (c1 := set_entries _ c).
  assert (∃ x s k', match dget role (entries c) with
    | None => mret tt
    | Some e => _ ← close_fd (directory e); match pidfd e with Some fd => close_fd fd | None => mret tt end
    end (World (c1, k) tr) = (Ok tt, World (set_pending x (set_fds s c1), k') tr)) as (x & s & k' & Hr).
  { destruct (dget role (entries c)) as [e|]; [|exists (pending_control c1), (fds c1), k; by destruct c1].
    destruct (close_fd_run (directory e) c1 k tr) as (x & k1 & H1). erewrite run_bind by exact H1.
    destruct (pidfd e) as [fd|]; [|eauto]. destruct (close_fd_run fd (set_pending x (set_fds (fds c1 ∖ {[directory e]}) c1)) k1 tr) as (? & ? & ->).
    unfold set_pending, set_fds. cbn. eauto. }
  erewrite run_bind by exact Hr. unfold set_state, modify, call. cbn. rewrite app_nil_r. eauto.
Qed.

Lemma ready_retire role : keeps ready (retire role).
Proof.
  destruct (decide (role ∈ drop 1 ROLES)) as [Hin|Hin]; last first.
  { unfold retire. rewrite bool_decide_eq_false_2 by done. apply keeps_ret. }
  intros [[c k] tr] [Hb Hr]. destruct (retire_run role c k tr Hin) as (x & s & k' & ->). split; [done|].
  intros r Hr'. cbn. rewrite dget_dset. case_bool_decide as Hc.
  - exists "retired". split; [done|]. split; [by apply (bool_decide_eq_true_1 _)|done].
  - rewrite dget_ddel by done. by apply Hr.
Qed.

Lemma ready_friendly : Friendly ready.
Proof. apply frame_friendly. Qed.
#[local] Hint Resolve ready_friendly ready_retire ready_enroll reason_unobserved ready_set_state : omux.

Lemma ready_capture role q : keeps ready (capture_created role q).
Proof. unfold capture_created. solve_census. Qed.

(** The initial states *)
Definition fresh_states : list (string * string) := (λ r, (r, "not-created")) <$> ROLES.
Lemma fresh_reportable es : reportable es fresh_states.
Proof.
  intros r Hr. exists "not-created". split; [|split; [by apply (bool_decide_eq_true_1 _)|done]].
  cbn in Hr. repeat (apply elem_of_cons in Hr as [->|Hr]; [done|]). by apply elem_of_nil in Hr.
Qed.

Lemma ready_enroll_self p u st :
  frame (λ _ ss b, ss = fresh_states ∧ b = false) st → ready (enroll_self p u st).2.
Proof.
  intros Hst. unfold enroll_self, catch_all.
  pose proof (@keeps_verify_self _ (frame_friendly _) p u st Hst) as Hv. unfold mbind at 1, M_bind at 1.
  destruct (verify_self p u st) as [[e|x] st1]; cbn [snd] in Hv.
  - assert (ready st1) as H1 by (destruct Hv as [Hs Hb]; split; [done|]; rewrite Hs; apply fresh_reportable).
    apply (ready_enroll "self" e) in H1. destruct st1 as [[c k] tr]. exact H1.
  - destruct st1 as [[c1 k1] tr1]. destruct (defer_control_run x c1 k1 tr1) as [pe Hd]. erewrite run_bind by exact Hd.
    destruct (close_run (set_pending pe c1) k1 tr1) as (? & ? & Hr). erewrite run_bind by exact Hr.
    assert (keeps ready (_ ← set_state "self" (reason x); checkpoint)) as Hk.
    { pose proof ready_friendly. apply keeps_bind; [apply ready_set_state, reason_unobserved|]. intros _. apply keeps_checkpoint. done. }
    apply Hk. destruct Hv as [Hs Hb]. split; [done|]. cbn in *. rewrite Hs. apply fresh_reportable.
Qed.

Lemma ready_construct deadline st st' : construct deadline st = (Ok tt, st') → ready st'.
Proof.
  unfold construct. do 3 (unfold mbind at 1, M_bind at 1; destruct (sys _ _) as [[?|?] ?]; [|done]).
  rename select (world _ _) into st3. destruct st3 as [[c3 k3] tr3]. erewrite run_bind by done. intros Hc.
  apply (f_equal snd) in Hc. cbn [snd] in Hc. rewrite <- Hc. by apply ready_enroll_self.
Qed.

Definition enrolls (o : op) : bool := match o with Capture _ _ | Retire _ | Checkpoint => true | _ => false end.

Lemma ready_op o : enrolls o = true → keeps ready (run_op o).
Proof.
  pose proof ready_friendly as Hf.
  assert (∀ m, keeps ready m → keeps ready (catch_exception m)) as Hce.
  { intros m Hm. unfold catch_exception. solve_census. }
  pose proof (Hce _ (keeps_checkpoint ready)) as Hcp.
  destruct o as [role q|role| | |]; intros Ho; try discriminate Ho; cbn [run_op].
  - apply ready_capture.
  - unfold retire_of. apply (keeps_bind ready); [by apply Hce, ready_retire|]. by intros _.
  - done.
Qed.

(** ** What a computation can return *)
Definition yields {A} (Q : A → Prop) (m : C A) : Prop := ∀ st a st', m st = (Ok a, st') → Q a.

Lemma yields_bind {A B} (Q : B → Prop) (m : C A) (k : A → C B) : (∀ a, yields Q (k a)) → yields Q (m ≫= k).
Proof. intros Hk st b st'. unfold mbind, M_bind. destruct (m st) as [[a|e] st1]; [apply Hk|done]. Qed.
Lemma yields_use {A B} (R : A → Prop) (Q : B → Prop) (m : C A) (k : A → C B) :
  yields R m → (∀ a, R a → yields Q (k a)) → yields Q (m ≫= k).
Proof. intros Hm Hk st b st'. unfold mbind, M_bind. destruct (m st) as [[a|e] st1] eqn:E; [eapply Hk; by eapply Hm|done]. Qed.
Lemma yields_finally {A} (Q : A → Prop) (m : C A) f : yields Q m → yields Q (finally m f).
Proof.
  intros Hm st a st'. unfold finally. destruct (m st) as [r st1] eqn:E. destruct (f st1) as [[]]; [|done].
  intros [= -> <-]. by eapply Hm.
Qed.
Lemma yields_embed {A} (Q : A → Prop) (r : res A) : (∀ a, r = Ok a → Q a) → yields Q (embed r).
Proof. intros H st a st' [= -> <-]. by apply H. Qed.
Lemma yields_embed_bind {A B} (Q : B → Prop) (r : res A) (k : A → C B) :
  (∀ a, r = Ok a → yields Q (k a)) → yields Q (embed r ≫= k).
Proof. intros Hk st b st'. unfold mbind, M_bind, embed. destruct r as [a|]; [by apply Hk|done]. Qed.

(** A sampled status has a bounded positive number of threads. *)
Definition counted (x : option Z) : Prop := ∃ n, x = Some n ∧ 1 <= n <= MAX_THREADS.

Lemma digit_val_nonneg a : is_digit a = true → 0 <= digit_val a.
Proof. destruct a as [[] [] [] [] [] [] [] []]; vm_compute; intros H; discriminate H || (intros H'; discriminate H'). Qed.
Lemma dec_acc_nonneg s acc : 0 <= acc → str_all is_digit s = true → 0 <= dec_acc acc s.
Proof.
  revert acc. induction s as [|a s IH]; intros acc Ha; [done|]. cbn. intros [Hd Hs]%andb_true_iff. apply IH; [|done].
  pose proof (digit_val_nonneg a Hd). lia.
Qed.
Lemma number_bounds v maximum n : number v maximum true = Ok n → 1 <= n <= maximum.
Proof.
  unfold number. intros H. ok_inv. pose proof (dec_acc_nonneg v 0). unfold dec_value in *.
  cbn [andb] in *. ok_inv. assert (0 <= dec_acc 0 v) by auto with lia. lia.
Qed.
Lemma finish_counted p r : keys p = KEYS → finish p = Ok r → counted r.2.
Proof.
  intros Hk. unfold finish. rewrite Hk. intros H. repeat (apply bind_Ok in H as (? & ? & H)). ok_inv.
  rename select (bool_decide ("Threads" ∈ KEYS) = _) into X || idtac.
  match goal with H : (if bool_decide ("Threads" ∈ KEYS) then _ else _) = Ok _ |- _ => rename H into Ht end.
  rewrite bool_decide_eq_true_2 in Ht by by apply (bool_decide_eq_true_1 _). ok_inv. cbn.
  eexists. split; [done|]. by eapply number_bounds.
Qed.
Lemma feed_byte_keys p c q : feed_byte p c = Ok q → keys q = keys p.
Proof. unfold feed_byte. intros H. repeat case_match; ok_inv; done. Qed.
Lemma feed_keys p l q : feed p l = Ok q → keys q = keys p.
Proof.
  unfold feed. intros H. ok_inv. match goal with H : forM _ _ _ = _ |- _ => revert H end.
  apply (forM_inv _ (λ _ s, keys s = keys p)); [done|]. intros ? ? ? ? <- _ ?%feed_byte_keys. done.
Qed.

Lemma status_loop_counted fuel fd d p : keys p = KEYS → yields (λ r, counted r.2) (status_loop fuel fd d p).
Proof.
  revert p. induction fuel as [|fuel IH]; intros p Hk; [by intros ???|]. cbn [status_loop].
  do 3 (apply yields_bind; intros ?). apply yields_bind. intros _. case_match.
  - apply yields_embed. intros r. by apply finish_counted.
  - apply yields_embed_bind. intros q Hq. apply IH. by rewrite (feed_keys _ _ _ Hq).
Qed.
Lemma sample_counted d e : yields (λ r, r.1 = "observed" ∧ counted r.2) (sample d e).
Proof.
  unfold sample. do 5 (apply yields_bind; intros ?).
  apply (yields_use (λ r : identity * option Z, counted r.2)).
  - unfold status. do 2 (apply yields_bind; intros ?). apply yields_finally. do 3 (apply yields_bind; intros ?).
    by apply status_loop_counted.
  - intros i Hi. do 3 (apply yields_bind; intros ?). by intros st r st' [= <- <-].
Qed.

(** ** Sampling *)
Definition reports (role line : string) : Prop := ∃ state count, record role state count = Ok line.

Lemma record_state role state count :
  role ∈ ROLES → state ∈ STATES → (state = "observed" → counted count) → (state ≠ "observed" → count = None) →
  ∃ line, record role state count = Ok line.
Proof.
  intros Hr Hs Ho Hn. assert (∃ text, text_of state count text) as [text Ht].
  { destruct (decide (state = "observed")) as [E|E].
    - destruct (Ho E) as (n & -> & ?). exists (dec_print n). left. eauto.
    - rewrite (Hn E). exists "none". by right. }
  eexists. apply record_iff. eauto.
Qed.

Lemma sample_roles_reports d roles st :
  frame (λ es ss _, reportable es ss) st → (∀ r, r ∈ roles → r ∈ ROLES) →
  ∃ rs st', sample_roles d roles st = (Ok rs, st') ∧ Forall2 reports roles rs.
Proof.
  revert st. induction roles as [|role roles IH]; intros st Hst Hin; [by eexists _, _|].
  assert (role ∈ ROLES ∧ ∀ r, r ∈ roles → r ∈ ROLES) as [Hrole Hin'] by (split; [apply Hin; by left|intros; apply Hin; by right]).
  destruct (Hst role Hrole) as (s & Hs & HS & Ho). cbn [sample_roles].
  assert (state_of role st = (Ok s, World (env st) (trace st ++ []))) as Hstate.
  { destruct st as [[c k] tr]. unfold state_of, self, call, mbind, M_bind. cbn in *. by rewrite Hs. }
  erewrite run_bind by exact Hstate.
  assert (self entries (World (env st) (trace st ++ [])) = (Ok (entries (env st).1), World (env st) ((trace st ++ []) ++ []))) as Hes
    by by destruct st as [[c k] tr].
  erewrite run_bind by exact Hes. set (st1 := World (env st) ((trace st ++ []) ++ [])).
  assert (frame (λ es ss _, reportable es ss) st1) as Hst1 by (destruct st as [[c k] tr]; done).
  assert (∃ state count st2, match dget role (entries (env st).1) with
      | Some e => catch_all (sample d e) (λ x, mret (reason x, None)) | None => mret (s, None) end st1 = (Ok (state, count), st2)
    ∧ frame (λ es ss _, reportable es ss) st2 ∧ state ∈ STATES
    ∧ (state = "observed" → counted count) ∧ (state ≠ "observed" → count = None)) as (state & count & st2 & Hm & H2 & HS2 & Hc & Hn).
  { destruct (dget role (entries (env st).1)) as [e|] eqn:Ee.
    - unfold catch_all. pose proof (@keeps_sample _ (frame_friendly _) d e st1 Hst1) as Hk. pose proof (sample_counted d e st1) as Hy.
      destruct (sample d e st1) as [[[state count]|x] st2].
      + destruct (Hy _ _ eq_refl) as [E Hc]. cbn in E, Hc. subst. eexists _, _, _. split_and!; [done|done|by apply (bool_decide_eq_true_1 _)|done|done].
      + destruct (unobserved _ (reason_unobserved x)). eexists _, _, _. split_and!; [done|done|done|done|done].
    - eexists _, _, _. split_and!; [done|done|done| |done]. intros E. destruct (Ho E) as [? Hx]. congruence. }
  erewrite run_bind by exact Hm. cbn beta iota.
  destruct (record_state role state count Hrole HS2 Hc Hn) as [line Hl].
  erewrite run_bind by (unfold embed; rewrite Hl; done).
  destruct (IH st2 H2 Hin') as (rs & st' & Hr & Hf). erewrite run_bind by exact Hr.
  eexists _, _. split; [done|]. constructor; [by exists state, count|done].
Qed.

(** The fuel of the reading loop is enough: every read that does not end it
    takes at least one of the [MAX_STATUS] bytes. *)
Lemma feed_total p l q : feed p l = Ok q → total q = total p + zlen l ∧ total q <= MAX_STATUS.
Proof. unfold feed. intros H. ok_inv. match goal with H : forM _ _ _ = _ |- _ => apply total_kept in H; rewrite H end. cbn. lia. Qed.

Lemma bind_cong {A B} (m : C A) (k k' : A → C B) st :
  (∀ a st', m st = (Ok a, st') → k a st' = k' a st') → (m ≫= k) st = (m ≫= k') st.
Proof. intros H. unfold mbind, M_bind. destruct (m st) as [[a|e] st'] eqn:E; [by apply H|done]. Qed.

Lemma bind_fail {A B} (m : C A) (k : A → C B) st e st' : m st = (Err e, st') → (m ≫= k) st = (Err e, st').
Proof. unfold mbind, M_bind. by intros ->. Qed.

Lemma status_loop_enough fuel n fd d p st :
  total p <= MAX_STATUS < total p + Z.of_nat fuel →
  status_loop (fuel + n) fd d p st = status_loop fuel fd d p st.
Proof.
  revert p st. induction fuel as [|fuel IH]; intros p st Hp; [lia|]. cbn [Nat.add status_loop].
  do 4 (apply bind_cong; intros ? ? _). case_match; [done|]. apply bind_cong. intros q st''.
  unfold embed. destruct (feed p _) as [q'|] eqn:E; [|done]. intros [= <- <-]. apply feed_total in E. apply IH. unfold zlen in E. cbn in E. lia.
Qed.

(** C37: however the enrollment of the children went, the first failure report
    of a census that was built has exactly one record for each of the five
    roles, in their order, every record one that [record] writes; a second
    report is empty. *)
Theorem failure_reports (deadline : PyValue.value) st built (ops : list op) :
  construct deadline st = (Ok tt, built) → forallb enrolls ops = true →
  ∃ lines after, failure_records (uses ops built) = (Ok lines, after)
    ∧ Forall2 reports ROLES lines ∧ (failure_records after).1 = Ok [].
Proof.
  intros Hb Hops. apply ready_construct in Hb.
  assert (ready (uses ops built)) as Hr.
  { unfold uses. revert built Hb. induction ops as [|o ops IH]; intros st1 H1; [done|]. cbn in *. apply andb_true_iff in Hops as [Ho Hops].
    apply IH; [done|]. by apply ready_op. }
  destruct (uses ops built) as [[c k] tr]. destruct Hr as [Hs Hr]. cbn in Hs, Hr.
  assert (self sampled (World (c, k) tr) = (Ok false, World (c, k) (tr ++ []))) as H1 by by rewrite <- Hs.
  unfold failure_records at 1. erewrite run_bind by exact H1. cbn beta iota. erewrite run_bind by done. cbn [env trace].
  set (st0 := World _ _). set (P := λ es ss b, b = true ∧ reportable es ss).
  assert (frame P st0) as H0 by done. pose proof (frame_friendly P) as Hf.
  assert (∃ d st1, catch_all (d ← budget; _ ← check d; mret (Some d)) (λ _, mret None) st0 = (Ok d, st1)) as (d & st1 & Hd).
  { unfold catch_all. destruct ((d ← budget; _ ← check d; mret (Some d)) st0) as [[d|] st1]; eauto. }
  assert (frame P st1) as HP1.
  { assert (keeps (frame P) (catch_all (d ← budget; _ ← check d; mret (Some d)) (λ _, mret None))) as Hk by solve_census.
    specialize (Hk st0 H0). by rewrite Hd in Hk. }
  erewrite run_bind by exact Hd.
  assert (∀ st2, frame P st2 → (failure_records st2).1 = Ok []) as Hagain.
  { intros [[c2 k2] tr2] [Hs2 _]. unfold failure_records, self, call, mbind at 1, M_bind at 1. cbn in *. by rewrite Hs2. }
  destruct d as [d|].
  - destruct (sample_roles_reports d ROLES st1) as (rs & st' & Hrun & Hrs); [by destruct HP1|done|]. rewrite Hrun.
    exists rs, st'. split_and!; [done|done|]. apply Hagain.
    pose proof (keeps_sample_roles (frame P) d ROLES st1 HP1) as Hk. by rewrite Hrun in Hk.
  - assert (∃ rs, mapM_res (λ role, record role "deadline" None) ROLES = Ok rs) as [rs Hrs] by (eexists; vm_compute; reflexivity).
    unfold embed. rewrite Hrs. exists rs, st1. split_and!; [done| |by apply Hagain].
    apply mapM_res_Ok in Hrs. eapply Forall2_impl; [exact Hrs|]. intros role line Hl. by exists "deadline", None.
Qed.

(** Capturing a child never changes the outcome of its launch: the caller
    gets exactly the process, or the exception, that [Popen] gave, and when
    [Popen] raised the census is as it was. *)
Theorem launch_unchanged (present : bool) (role : string) c k tr :
  (owned_popen present role (World (c, k) tr)).1 = (popen os k).1 ∧
  (is_ok (popen os k).1 = true ∨ (env (owned_popen present role (World (c, k) tr)).2).1 = c).
Proof.
  unfold owned_popen. destruct (popen os k) as [[q|e] k1] eqn:Eq; last first.
  { assert (sys (popen os) (World (c, k) tr) = (Err e, World (c, k1) (tr ++ []))) as Hs by (unfold sys, call; cbn; by rewrite Eq).
    erewrite bind_fail by exact Hs. split; [done|by right]. }
  assert (sys (popen os) (World (c, k) tr) = (Ok q, World (c, k1) (tr ++ []))) as Hs by (unfold sys, call; cbn; by rewrite Eq).
  erewrite run_bind by exact Hs. split; [|by left]. destruct present; [|done].
  assert (∃ st', capture_created role q (World (c, k1) (tr ++ [])) = (Ok tt, st')) as [st' Hc].
  { unfold capture_created. erewrite run_bind by done. unfold catch_all. unfold mbind at 1, M_bind at 1.
    destruct (verify_created role q _) as [[en|x] [[c1 k2] tr1]]; [by eexists|].
    destruct (defer_control_run x c1 k2 tr1) as [pe Hd]. erewrite run_bind by exact Hd. erewrite run_bind by done.
    edestruct (close_all_run close_fd) as (? & ? & Hr); [done|]. erewrite run_bind by exact Hr.
    destruct (bool_decide (role ∈ drop 1 ROLES)); by eexists. }
  erewrite run_bind by (unfold catch_all; rewrite Hc; done). done.
Qed.
End Census.

(** ** A concrete system: one status file, every call succeeds *)
Definition demo_status : list ascii :=
  to_chars ("Pid:	7" +:+ String newline ("PPid:	1" +:+ String newline ("Uid:	5 5 5 5" +:+ String newline
            ("NSpid:	7" +:+ String newline ("Threads:	3" +:+ String newline EmptyString))))).
Definition next_fd (s : gset Z) : Z := 1 + foldr Z.max 2 (elements s).

Lemma next_fd_fresh s : next_fd s ∉ s.
Proof.
  unfold next_fd. rewrite <- elem_of_elements. generalize (elements s). intros l Hin.
  assert (∀ x, x ∈ l → x <= foldr Z.max 2 l) as Hm.
  { clear. induction l as [|y l IH]; intros x; [by intros ?%elem_of_nil|]. intros [->|H]%elem_of_cons; cbn; [lia|]. specialize (IH _ H). lia. }
  specialize (Hm _ Hin). lia.
Qed.

(** The world: the open descriptors, and those whose file was read to its end *)
Definition demo_kernel : kernel (gset Z * gset Z) :=
  let give {A} (a : A) k := (Ok a, k) in
  let hand k := let fd := next_fd k.1 in (Ok fd, ({[fd]} ∪ k.1, k.2 ∖ {[fd]})) in
  Kernel _ (give 7) (give 1) (give 5) (give 1) (give 10) (give true) true true (λ _, give (Some 0x9FA0)) (λ _ _ _, hand)
    (λ fd k, (Ok tt, (k.1 ∖ {[fd]}, k.2))) (λ _, give "7") (λ _, give (Stat 1 2 5 true true))
    (λ fd _ k, if bool_decide (fd ∈ k.2) then (Ok [], k) else (Ok demo_status, (k.1, {[fd]} ∪ k.2)))
    (λ _, give false) (λ _, hand) (λ _, give false) (λ _, give false) (give (Process 1 (VInt 9))) (λ _, give tt).

Lemma demo_lawful : Lawful demo_kernel fst.
Proof.
  split; try done.
  - intros path dir parent k. split; [apply next_fd_fresh|done].
  - intros n k. split; [apply next_fd_fresh|done].
  - intros fd n k. cbn. by case_bool_decide.
Qed.

Definition demo_world : world (census * (gset Z * gset Z)) string :=
  World (Census (0, 0) 0 VNone None [] [] ∅ false None, ({[0; 1; 2]}, ∅)) [].
Definition demo_ops : list op := [Capture "daemon" (Process 1 (VInt 9)); Retire "daemon"].

Lemma descriptor_custody_witness :
  (env (run_op demo_kernel (Close false) (uses demo_kernel demo_ops (construct demo_kernel (VInt 1000) demo_world).2)).2).2.1 = {[0; 1; 2]}.
Proof.
  pose proof (descriptor_custody demo_kernel fst demo_lawful (VInt 1000) demo_ops
    (Census (0, 0) 0 VNone None [] [] ∅ false None) ({[0; 1; 2]}, ∅) false eq_refl) as H.
  cbv zeta in H. fold demo_world in H.
  destruct (env (uses demo_kernel demo_ops _)) as [c1 k1].
  destruct (env (run_op demo_kernel (Close false) _).2) as [c2 k2]. destruct H as (_ & H & _). exact H.
Defined.

Lemma failure_reports_witness :
  ∃ built lines after, construct demo_kernel (VInt 1000) demo_world = (Ok tt, built) ∧
    failure_records demo_kernel (uses demo_kernel demo_ops built) = (Ok lines, after) ∧ Forall2 reports ROLES lines.
Proof.
  assert ((construct demo_kernel (VInt 1000) demo_world).1 = Ok tt) as E by (vm_compute; reflexivity).
  destruct (construct demo_kernel (VInt 1000) demo_world) as [r built] eqn:Eb. cbn in E. subst r.
  destruct (failure_reports demo_kernel (VInt 1000) demo_world built demo_ops Eb eq_refl) as (lines & after & H1 & H2 & _).
  exists built, lines, after. split; [reflexivity|]. split; [exact H1|exact H2].
Defined.

(** The self role is observed and its threads are counted. *)
Example demo_records :
  (λ r : res (list string), match r with Ok (l :: _) => Some l | _ => None end)
    (failure_records demo_kernel (uses demo_kernel demo_ops (construct demo_kernel (VInt 1000) demo_world).2)).1
  = Some ("OMUX_NATIVE_THREADS_V1/failure-before-cleanup/self/observed/3" +:+ String newline EmptyString).
Proof. vm_compute. reflexivity. Qed.
End CensusRun.
