(* ===== verification/Closure.v ===== *)
(** * Closures by a visited set and a stack

    Two components compute the closure of some roots under a reference graph
    with the same loop: pop a node, skip it when it was visited, else visit it
    and push its references.  This file has one step of that loop, the
    invariant that makes its result the set of reachable nodes, and the measure
    that bounds the number of steps.  The stack is kept with its top first. *)
From S2P Require Import Prelude.

Section Closure.
Context (succ : string → list string).

(** The nodes reachable from the seeds *)
Inductive reaches (seeds : list string) : string → Prop :=
  | reaches_seed x : x ∈ seeds → reaches seeds x
  | reaches_step x y : reaches seeds x → y ∈ succ x → reaches seeds y.

(** [push visited x]: what visiting [x] puts on the stack *)
Context (push : list string → string → list string).

Definition closure_step (visited : list string) (x : string) (stack : list string) : list string * list string :=
  if bool_decide (x ∈ visited) then (visited, stack) else (x :: visited, rev (push (x :: visited) x) ++ stack).

Definition pushes_references : Prop :=
  ∀ v x, (∀ y, y ∈ push v x → y ∈ succ x) ∧ (∀ y, y ∈ succ x → y ∈ v ∨ y ∈ push v x) ∧ (length (push v x) <= length (succ x))%nat.

(** Everything seen is reachable; the seeds and the references of what was
    visited have been seen. *)
Record exploring (seeds visited stack : list string) : Prop := {
  ex_sound x : x ∈ visited ++ stack → reaches seeds x;
  ex_seeds x : x ∈ seeds → x ∈ visited ++ stack;
  ex_closed x y : x ∈ visited → y ∈ succ x → y ∈ visited ++ stack;
  ex_nodup : NoDup visited;
}.

Lemma exploring_start seeds stack : (∀ x, x ∈ stack ↔ x ∈ seeds) → exploring seeds [] stack.
Proof.
  intros Hs. split; cbn.
  - intros x Hx. apply reaches_seed, Hs, Hx.
  - intros x Hx. by apply Hs.
  - intros x y Hx. by apply elem_of_nil in Hx.
  - constructor.
Qed.

Lemma exploring_step seeds visited x stack visited' stack' :
  pushes_references → exploring seeds visited (x :: stack) → closure_step visited x stack = (visited', stack') →
  exploring seeds visited' stack'.
Proof.
  intros Hp He. unfold closure_step. case_bool_decide as Hx; intros [= <- <-].
  - destruct He as [H1 H2 H3 H4]. split; [|..|done].
    + intros z Hz. apply H1. rewrite elem_of_app, elem_of_cons in *. tauto.
    + intros z Hz%H2. rewrite elem_of_app, elem_of_cons in *. naive_solver.
    + intros z y Hz Hy. specialize (H3 _ _ Hz Hy). rewrite elem_of_app, elem_of_cons in *. naive_solver.
  - destruct (Hp (x :: visited) x) as (P1 & P2 & _). destruct He as [H1 H2 H3 H4].
    assert (reaches seeds x) as Hr by (apply H1; rewrite elem_of_app, elem_of_cons; tauto).
    assert (∀ z, z ∈ rev (push (x :: visited) x) ↔ z ∈ push (x :: visited) x) as Hrev.
    { intros z. rewrite !list_elem_of_In, <- in_rev. done. }
    split.
    + intros z. rewrite !elem_of_app, elem_of_cons, Hrev. intros [[->|Hz]|[Hz|Hz]]; [done|..].
      * apply H1. rewrite elem_of_app. tauto.
      * eapply reaches_step; [exact Hr|by apply P1].
      * apply H1. rewrite elem_of_app, elem_of_cons. tauto.
    + intros z Hz%H2. rewrite !elem_of_app, !elem_of_cons in *. naive_solver.
    + intros z y Hz Hy. rewrite !elem_of_app, elem_of_cons, Hrev. apply elem_of_cons in Hz as [->|Hz].
      * apply P2 in Hy. rewrite elem_of_cons in Hy. tauto.
      * specialize (H3 _ _ Hz Hy). rewrite elem_of_app, elem_of_cons in H3. tauto.
    + by constructor.
Qed.

(** With nothing left on the stack, the visited nodes are the reachable ones. *)
Lemma exploring_done seeds visited x : exploring seeds visited [] → x ∈ visited ↔ reaches seeds x.
Proof.
  intros [H1 H2 H3 _]. setoid_rewrite app_nil_r in H1. setoid_rewrite app_nil_r in H2. setoid_rewrite app_nil_r in H3.
  split; [apply H1|]. induction 1; eauto.
Qed.

(** ** The number of steps *)
Context (universe : list string) (Hu : NoDup universe).

Definition weight (visited : list string) : nat :=
  sum_list ((λ x, length (succ x)) <$> filter (λ x, x ∉ visited) universe).
Definition steps_left (visited stack : list string) : nat := (length stack + weight visited)%nat.

Lemma weight_visit visited x :
  x ∈ universe → x ∉ visited → weight visited = (length (succ x) + weight (x :: visited))%nat.
Proof.
  unfold weight. induction Hu as [|y l Hy Hl IH]; intros Hx Hv; [by apply elem_of_nil in Hx|].
  assert (∀ l' : list string, x ∉ l' → filter (λ z, z ∉ x :: visited) l' = filter (λ z, z ∉ visited) l') as Hout.
  { clear. induction l' as [|z l' IH]; intros Hx; [done|]. apply not_elem_of_cons in Hx as [Hz Hx]. rewrite !filter_cons, IH by done.
    destruct (decide (z ∉ visited)); [rewrite decide_True|rewrite decide_False]; rewrite ?elem_of_cons; naive_solver. }
  destruct (decide (x = y)) as [<-|Hne].
  - rewrite (filter_cons_True _ x) by done. rewrite (filter_cons_False _ x) by (rewrite elem_of_cons; tauto). rewrite Hout by done. done.
  - apply elem_of_cons in Hx as [?|Hx]; [done|]. specialize (IH Hl Hx Hv). rewrite !filter_cons.
    destruct (decide (y ∉ visited)) as [Hn|Hn].
    + rewrite (decide_True) by (rewrite elem_of_cons; naive_solver). cbn. lia.
    + rewrite (decide_False) by (rewrite elem_of_cons; naive_solver). done.
Qed.

Lemma closure_step_decreases visited x stack visited' stack' :
  pushes_references → x ∈ universe → closure_step visited x stack = (visited', stack') →
  (steps_left visited' stack' < steps_left visited (x :: stack))%nat.
Proof.
  intros Hp Hx. unfold closure_step, steps_left. case_bool_decide as Hv; intros [= <- <-]; cbn [length]; [lia|].
  destruct (Hp (x :: visited) x) as (_ & _ & Hl). rewrite (weight_visit visited x) by done. rewrite length_app, length_rev. lia.
Qed.
End Closure.
