(* ===== verification/InterpreterClosure.v ===== *)
(** * tools/nix_interpreter_closure.py: interpreter closures from registrations

    [registrations] parses the declared registration text, [reachable] computes
    the closure of some roots and [select] the groups that are emitted.  The
    JSON inputs are values; reading the files and printing are not modelled. *)
From S2P Require Import Prelude PyBytes PyString PyValue PyText Closure.
From Stdlib Require Import Ascii.
Local Open Scope Z_scope.

Module InterpreterClosure.

Definition MAX_RECORDS : Z := 4096.
Definition MAX_TEXT : Z := 4 * 1024 * 1024.
Definition CAPABILITIES : list string :=
  ["dbus_run_session"; "dbus_daemon"; "gnome_keyring_daemon"; "patchelf"; "openssl_tool"; "systemctl"; "moc"; "rcc"; "uic"; "secret_tool"].

(** ** The patterns; every class is ASCII, so the bytes are the characters *)
Definition store_chr (c : ascii) : bool := is_alnum c || chr_of "._+-" c.
Definition store_hash (c : ascii) : bool := is_digit c || is_lower c.
Definition STORE_DIR : string := "/nix/store/".

(** [re.fullmatch(STORE, s)] *)
Definition store_ok (s : string) : bool :=
  let h := String.substring 0 32 (str_drop 11 s) in
  let n := str_drop 44 s in
  startswith STORE_DIR s && bool_decide (String.length h = 32%nat) && str_all store_hash h
  && startswith "-" (str_drop 43 s) && bool_decide (n ≠ "") && str_all store_chr n.

(** [re.fullmatch(STORE + r"\.drv", s)] *)
Definition deriver_ok (s : string) : bool :=
  endswith ".drv" s && store_ok (String.substring 0 (String.length s - 4) s).

Definition nix32 : string := "0123456789abcdfghijklmnpqrsvwxyz".
Definition HASH_PREFIX : string := "sha256:".
Definition nar_hash_ok (s : string) : bool :=
  let e := str_drop 7 s in
  startswith HASH_PREFIX s
  && ((bool_decide (String.length e = 52%nat) && str_all (chr_of nix32) e) || (bool_decide (String.length e = 64%nat) && str_all is_lower_hex e)).

Definition size_ok (s : string) : bool :=
  match s with String c _ => chr_in "1" "9" c | EmptyString => false end
  && str_all is_digit s && bool_decide (String.length s <= 19)%nat.
Definition count_ok (s : string) : bool :=
  str_all is_digit s && bool_decide (1 <= String.length s <= 4)%nat.

(** [alphabet.index(c)], folded over the encoded hash *)
Fixpoint index_of (c : ascii) (s : string) : Z :=
  match s with EmptyString => 0 | String a s => if bool_decide (a = c) then 0 else 1 + index_of c s end.
Fixpoint nix32_value (acc : Z) (s : string) : Z :=
  match s with EmptyString => acc | String c s => nix32_value (acc * 32 + index_of c nix32) s end.

(** ** Registrations *)
Record registered := Registered { references : list string; record : list string }.
Abbreviation records := (list (string * registered)).

Definition has_dup {A} `{EqDecision A} (l : list A) : bool := negb (bool_decide (NoDup l)).

(** One record: the five lines of its head, and its references *)
Definition registration (rs : records) (root nar_hash size deriver count : string) (rest : list string) : res (records * list string) :=
  _ ← raise_if (negb (store_ok root) || bool_decide (root ∈ dkeys rs) || negb (nar_hash_ok nar_hash) || negb (size_ok size)
                || negb (count_ok count) || (bool_decide (deriver ≠ "") && negb (deriver_ok deriver))) (ValueError "registration record");
  _ ← raise_if (bool_decide (dec_value size > 2 ^ 63 - 1) || bool_decide (dec_value count > MAX_RECORDS)) (ValueError "registration numeric bound");
  let encoded := str_drop 7 nar_hash in
  _ ← raise_if (bool_decide (String.length encoded = 52%nat) && bool_decide (nix32_value 0 encoded >= 2 ^ 256)) (ValueError "registration NAR hash range");
  let n := Z.to_nat (dec_value count) in
  let refs := take n rest in
  _ ← raise_if (bool_decide (length refs ≠ n) || has_dup refs || negb (forallb store_ok refs)) (ValueError "registration references");
  Ok (dset root (Registered refs (root :: nar_hash :: size :: deriver :: count :: refs)) rs, drop n rest).

Fixpoint registration_lines (fuel : nat) (lines : list string) (rs : records) : res records :=
  match lines with
  | [] => Ok rs
  | _ =>
      match fuel with
      | O => Err NoFuel
      | S fuel =>
          _ ← raise_if (bool_decide (zlen rs >= MAX_RECORDS)) (ValueError "registration shape");
          match lines with
          | root :: nar_hash :: size :: deriver :: count :: rest =>
              '(rs, rest) ← registration rs root nar_hash size deriver count rest;
              registration_lines fuel rest rs
          | _ => Err (ValueError "registration shape")
          end
      end
  end.
Definition parse_lines (lines : list string) : res records := registration_lines (length lines) lines [].

Definition registrations (text : string) (declared : list string) : res records :=
  _ ← raise_if (bool_decide (py_len text > MAX_TEXT)) (ValueError "registration bound");
  _ ← raise_if (bool_decide (declared = []) || bool_decide (zlen declared > MAX_RECORDS) || has_dup declared) (ValueError "declared root set");
  _ ← raise_if (negb (forallb store_ok declared)) (ValueError "declared root syntax");
  rs ← parse_lines (splitlines text);
  _ ← raise_if (negb (same_set (dkeys rs) declared)
                || existsb (λ item, existsb (λ ref, negb (bool_decide (ref ∈ dkeys rs))) (references item.2)) rs)
        (ValueError "registration exact graph");
  Ok rs.

(** ** Closures *)
Definition refs_of (rs : records) (x : string) : list string :=
  match dget x rs with Some r => references r | None => [] end.
Definition push (rs : records) (visited : list string) (x : string) : list string :=
  filter (λ ref, ref ∉ visited) (refs_of rs x).

Fixpoint closure_loop (fuel : nat) (rs : records) (visited pending : list string) : res (list string) :=
  match pending with
  | [] => Ok visited
  | x :: pending =>
      match fuel with
      | O => Err NoFuel
      | S fuel =>
          match dget x rs with
          | None => if bool_decide (x ∈ visited) then closure_loop fuel rs visited pending else Err KeyError
          | Some _ => let '(visited, pending) := closure_step (push rs) visited x pending in closure_loop fuel rs visited pending
          end
      end
  end.
Definition closure_fuel (rs : records) (seeds : list string) : nat :=
  (length seeds + sum_list ((λ item, length (references item.2)) <$> rs))%nat.

(** [seed not in records], for seeds of any type *)
Definition seed_root (rs : records) (seed : value) : res string :=
  match seed with
  | VStr s => if bool_decide (s ∈ dkeys rs) then Ok s else Err (ValueError "interpreter root missing")
  | v => if hashable v then Err (ValueError "interpreter root missing") else Err TypeError
  end.

Definition reachable (rs : records) (seeds : list value) : res (list string) :=
  _ ← raise_if (bool_decide (seeds = [])) (ValueError "interpreter root missing");
  seeds ← mapM_res (seed_root rs) seeds;
  visited ← closure_loop (closure_fuel rs seeds) rs [] (rev seeds);
  Ok (merge_sort String.le visited).

(** ** The file inventory *)
Definition bad_part (p : string) : bool := bool_decide (p ∈ [""; "."; ".."]).
Definition bad_chr (c : ascii) : bool := bool_decide (c ∈ ["\"%char; ":"%char; "010"%char; "013"%char; "000"%char]).

(** The root a file belongs to: the first two components of [file.split("/", 2)] *)
Definition file_root (file : string) : option string :=
  match str_split "/" file with
  | a :: b :: _ => if bool_decide (a = "closure") then Some (STORE_DIR +:+ b) else None
  | _ => None
  end.

Definition add_file (root file : string) (indexed : list (string * list string)) : list (string * list string) :=
  dset root (default [] (dget root indexed) ++ [file]) indexed.

Definition index_file (rs : records) (indexed : list (string * list string)) (file : value) : res (list (string * list string)) :=
  match file with
  | VStr f =>
      _ ← raise_if (bool_decide (py_len f > 4096) || startswith "/" f || existsb bad_part (str_split "/" f) || str_any bad_chr f)
            (ValueError "file inventory path");
      match file_root f with
      | Some root =>
          _ ← raise_if (negb (bool_decide (root ∈ dkeys rs))) (ValueError "file inventory undeclared root");
          Ok (add_file root f indexed)
      | None => Ok indexed
      end
  | _ => Err (ValueError "file inventory path")
  end.

(** [len(files) != len(set(files))] *)
Fixpoint distinct_values (l : list value) : bool :=
  match l with [] => true | v :: l => negb (existsb (py_eq v) l) && distinct_values l end.
Definition file_list (inventory : value) : res (list value) :=
  files ← getitem inventory "files";
  match files with
  | VList l =>
      _ ← raise_if (bool_decide (zlen l > 1000000)) (ValueError "file inventory shape");
      if negb (forallb hashable l) then Err TypeError
      else if negb (distinct_values l) then Err (ValueError "file inventory shape") else Ok l
  | _ => Err (ValueError "file inventory shape")
  end.

(** ** Seeds *)
Definition interpreter_seeds (packages bash : value) (seeds : list (string * list value)) (interpreter : string) : res (list (string * list value)) :=
  present ← py_in (VStr interpreter) packages;
  if negb present then Ok seeds
  else if bool_decide (interpreter = "bash") then Ok (dset interpreter [bash] seeds)
  else
    package ← getitem packages interpreter;
    out ← getitem package "out";
    Ok (dset interpreter [out; bash] seeds).

(** [re.fullmatch(STORE + r"/[A-Za-z0-9._+/-]+", executable)] with its components *)
Definition executable_root (e : string) : string := str_join "/" (take 4 (str_split "/" e)).
Definition executable_ok (e : string) : bool :=
  bool_decide (py_len e <= 4096) && store_ok (executable_root e)
  && startswith (executable_root e +:+ "/") e
  && (let tail := str_drop (String.length (executable_root e) + 1) e in
      bool_decide (tail ≠ "") && str_all (λ c, store_chr c || bool_decide (c = "/"%char)) tail)
  && negb (existsb bad_part (drop 1 (str_split "/" e))).

Definition tool_seed (rs : records) (files : list value) (bash : value) (seeds : list (string * list value)) (tool : string * value)
    : res (list (string * list value)) :=
  match tool.2 with
  | VStr e =>
      _ ← raise_if (negb (executable_ok e)) (ValueError "canonical native executable required");
      let root := executable_root e in
      let alias := "closure/" +:+ str_drop 11 e in
      _ ← raise_if (negb (bool_decide (root ∈ dkeys rs)) || negb (existsb (py_eq (VStr alias)) files))
            (ValueError "native executable must be registered and inventoried");
      Ok (dset tool.1 [VStr root; bash] seeds)
  | _ => Err (ValueError "canonical native executable required")
  end.

Definition tool_seeds (rs : records) (files : list value) (bash : value) (resolved_tools : option value) (seeds : list (string * list value))
    : res (list (string * list value)) :=
  match resolved_tools with
  | None | Some VNone => Ok seeds
  | Some (VDict tools) =>
      _ ← raise_if (negb (forallb (λ k, bool_decide (k ∈ CAPABILITIES)) (dkeys tools))) (ValueError "finite native capability map required");
      forM (tool_seed rs files bash) tools seeds
  | Some _ => Err (ValueError "finite native capability map required")
  end.

(** ** Groups *)
Record group := Group { roots : list string; selected : list string; serialized : string }.

Definition NL : string := String "010" EmptyString.
Definition serialize (rs : records) (x : string) : string :=
  match dget x rs with Some r => str_join NL (record r) +:+ NL | None => "" end.

Definition select_group (rs : records) (indexed : list (string * list string)) (seeds : string * list value) : res (string * group) :=
  rts ← reachable rs seeds.2;
  _ ← raise_if (existsb (λ x, bool_decide (default [] (dget x indexed) = [])) rts) (ValueError "interpreter dependency has no inventoried files");
  Ok (seeds.1, Group rts (merge_sort String.le (rts ≫= λ x, default [] (dget x indexed))) (unchars (serialize rs <$> rts))).

Definition select (native : value) (declared : list string) (registration_text : string) (inventory : value) (resolved_tools : option value)
    : res (list (string * group)) :=
  rs ← registrations registration_text declared;
  packages ← getitem native "packages";
  bash_package ← getitem packages "bash"; bash ← getitem bash_package "out";
  files ← file_list inventory;
  indexed ← forM (index_file rs) files [];
  seeds ← forM (interpreter_seeds packages bash) ["python"; "node"; "bash"] [];
  seeds ← tool_seeds rs files bash resolved_tools seeds;
  mapM_res (select_group rs indexed) seeds.

(** ** Parsed records *)
Definition valid_record (x : string) (r : registered) : Prop :=
  ∃ h sz d c, record r = x :: h :: sz :: d :: c :: references r
    ∧ store_ok x = true ∧ nar_hash_ok h = true ∧ size_ok sz = true ∧ count_ok c = true ∧ (d = "" ∨ deriver_ok d = true)
    ∧ dec_value sz <= 2 ^ 63 - 1 ∧ dec_value c <= MAX_RECORDS
    ∧ (String.length (str_drop 7 h) = 52%nat → nix32_value 0 (str_drop 7 h) < 2 ^ 256)
    ∧ length (references r) = Z.to_nat (dec_value c) ∧ NoDup (references r) ∧ forallb store_ok (references r) = true.

Lemma registration_Ok rs x h sz d c rest rs' rest' :
  registration rs x h sz d c rest = Ok (rs', rest') →
  ∃ r, valid_record x r ∧ (x ∉ dkeys rs) ∧ rs' = rs ++ [(x, r)] ∧ x :: h :: sz :: d :: c :: rest = record r ++ rest'.
Proof.
  unfold registration, has_dup. intros H. ok_inv.
  eexists. split; [|split; [done|split; [by apply dset_new|cbn; by rewrite take_drop]]].
  exists h, sz, d, c. cbn [record references]. split_and!; try done; try (by apply Znot_gt_le); try (by apply dec_stable).
  - destruct (decide (d = "")) as [|Hd]; [by left|right].
    destruct (deriver_ok d); [done|]. rename select (bool_decide (d ≠ "") && _ = false) into Hx.
    rewrite bool_decide_eq_true_2 in Hx by done. done.
  - intros Hl. rename select (bool_decide (String.length _ = 52%nat) && _ = false) into Hx.
    rewrite bool_decide_eq_true_2 in Hx by done. cbn in Hx. ok_inv. by apply Znot_ge_lt.
Qed.

Lemma registration_valid rs x r rest :
  valid_record x r → x ∉ dkeys rs →
  ∃ h sz d c, record r = x :: h :: sz :: d :: c :: references r ∧
    registration rs x h sz d c (references r ++ rest) = Ok (rs ++ [(x, r)], rest).
Proof.
  intros (h & sz & d & c & Hr & H1 & H2 & H3 & H4 & H5 & H6 & H7 & H8 & H9 & H10 & H11) Hx.
  exists h, sz, d, c. split; [done|]. unfold registration, has_dup.
  rewrite H1, H2, H3, H4, (bool_decide_eq_false_2 (x ∈ _)) by done.
  replace (bool_decide (d ≠ "") && negb (deriver_ok d)) with false; last first.
  { destruct H5 as [E5|E5]; rewrite E5; [done|by rewrite andb_false_r]. }
  rewrite !(bool_decide_eq_false_2 (dec_value _ > _)) by lia. cbn [orb negb raise_if mbind res_bind].
  replace (bool_decide (String.length (str_drop 7 h) = 52%nat) && bool_decide (nix32_value 0 (str_drop 7 h) >= 2 ^ 256)) with false; last first.
  { case_bool_decide as Hl; [|done]. specialize (H8 Hl). rewrite bool_decide_eq_false_2 by lia. done. }
  cbn [raise_if mbind res_bind]. rewrite take_app_length' by done. rewrite drop_app_length' by done.
  rewrite (bool_decide_eq_false_2 (_ ≠ _)) by lia. rewrite bool_decide_eq_true_2, H11 by done. cbn.
  rewrite dset_new by done. destruct r as [refs rec]. cbn in *. by rewrite <- Hr.
Qed.

(** The lines of some records *)
Definition lines_of (rs : records) : list string := rs ≫= λ item, record item.2.

Record parsed (rs : records) : Prop := {
  parsed_nodup : NoDup (dkeys rs);
  parsed_valid x r : (x, r) ∈ rs → valid_record x r;
}.

Lemma parse_sound fuel lines rs rs' :
  parsed rs → registration_lines fuel lines rs = Ok rs' →
  parsed rs' ∧ lines_of rs' = lines_of rs ++ lines ∧ (zlen rs' <= Z.max MAX_RECORDS (zlen rs)).
Proof.
  revert lines rs. induction fuel as [|fuel IH]; intros lines rs Hp; destruct lines as [|x lines]; cbn [registration_lines].
  1,3: intros [= <-]; rewrite app_nil_r; split_and!; [done|done|lia].
  { done. }
  intros H. apply bind_Ok in H as (u & Hb & H). apply raise_if_Ok in Hb. ok_inv.
  destruct lines as [|h [|sz [|d [|c rest]]]]; try done. apply bind_Ok in H as ([rs1 rest1] & Hr & H).
  apply registration_Ok in Hr as (r & Hv & Hn & -> & Hl). apply IH in H as (Hp' & Hl' & Hz); last first.
  { destruct Hp as [N V]. split.
    - unfold dkeys in *. rewrite fmap_app. apply NoDup_app. split_and!; [done| |apply NoDup_singleton].
      intros y Hy ->%list_elem_of_singleton. by apply Hn.
    - intros y q [Hy|[= -> ->]%list_elem_of_singleton]%elem_of_app; [by apply V|done]. }
  split_and!; [done| |].
  - rewrite Hl', Hl. unfold lines_of. rewrite bind_app. cbn. by rewrite app_nil_r, <- app_assoc.
  - unfold zlen in *. rewrite length_app in Hz. cbn in Hz. lia.
Qed.

Lemma parse_complete fuel acc rs :
  parsed (acc ++ rs) → zlen (acc ++ rs) <= MAX_RECORDS → (length (lines_of rs) <= fuel)%nat →
  registration_lines fuel (lines_of rs) acc = Ok (acc ++ rs).
Proof.
  revert fuel acc. induction rs as [|[x r] rs IH]; intros fuel acc Hp Hz Hf.
  { rewrite app_nil_r. by destruct fuel. }
  unfold lines_of in *. cbn [mbind list_bind fst snd] in *.
  destruct Hp as [N V]. assert (valid_record x r) as Hv by (apply V; set_solver).
  assert (x ∉ dkeys acc) as Hx.
  { intros Hx. unfold dkeys in *. rewrite fmap_app in N. apply NoDup_app in N as (_ & N & _). apply (N x); [done|]. cbn. by left. }
  destruct (registration_valid acc x r (lines_of rs) Hv Hx) as (h & sz & d & c & Hr & Hreg).
  change (rs ≫= λ item, record item.2) with (lines_of rs) in *. rewrite Hr in *. cbn [app] in *. cbn [length] in Hf.
  destruct fuel as [|fuel]; [lia|]. cbn [registration_lines].
  rewrite bool_decide_eq_false_2; last first.
  { unfold zlen in *. rewrite length_app in Hz. cbn in Hz. lia. }
  cbn [raise_if mbind res_bind]. rewrite Hreg. cbn [mbind res_bind]. unfold lines_of in IH.
  assert (∀ l : records, (acc ++ [(x, r)]) ++ l = acc ++ (x, r) :: l) as Ha by (intros; by rewrite <- app_assoc).
  unfold lines_of. rewrite IH; rewrite ?Ha; [done|by split|done|]. rewrite length_app in Hf. unfold lines_of in Hf. lia.
Qed.

(** ** The serialized text *)
Definition plain (c : ascii) : bool := bool_decide (33 <= N_of_ascii c <= 126)%N.
Definition text_chr (c : ascii) : bool := plain c || bool_decide (c = "010"%char).

Lemma text_lead c : text_chr c = true → utf8_cont (Ascii.byte_of_ascii c) = false.
Proof. destruct c as [[] [] [] [] [] [] [] []]; vm_compute; intros H; first [reflexivity|discriminate H]. Qed.
Lemma plain_keeps c : plain c = true → is_break (String c EmptyString) = false.
Proof. destruct c as [[] [] [] [] [] [] [] []]; vm_compute; intros H; first [reflexivity|discriminate H]. Qed.


Lemma str_chars_text s : str_all text_chr s = true → str_chars s = (λ c, String c EmptyString) <$> String.list_ascii_of_string s.
Proof.
  induction s as [|a s IH]; [done|]. cbn [str_all String.list_ascii_of_string fmap list_fmap]. intros [Ha Hs]%andb_true_iff.
  cbn [str_chars]. rewrite (IH Hs). destruct s as [|b s]; [done|]. cbn [String.list_ascii_of_string fmap list_fmap].
  cbn in Hs. apply andb_true_iff in Hs as [Hb _]. by rewrite text_lead.
Qed.

Lemma unchars_chars_of l : unchars ((λ c, String c EmptyString) <$> l) = String.string_of_list_ascii l.
Proof. induction l as [|a l IH]; [done|]. cbn [fmap list_fmap]. rewrite unchars_cons, str_append_cons, str_append_nil_l. cbn. by rewrite <- IH. Qed.

Lemma list_ascii_app s t : String.list_ascii_of_string (s +:+ t) = String.list_ascii_of_string s ++ String.list_ascii_of_string t.
Proof. induction s as [|a s IH]; [done|]. rewrite str_append_cons. cbn. by rewrite IH. Qed.

Lemma lines_go_plain l line rest :
  forallb plain l = true →
  lines_go (((λ c, String c EmptyString) <$> l) ++ LF :: rest) line =
  unchars (rev line ++ ((λ c, String c EmptyString) <$> l)) :: lines_go rest [].
Proof.
  revert line. induction l as [|c l IH]; intros line; cbn [forallb].
  - intros _. cbn. rewrite app_nil_r. by destruct rest.
  - intros [Hc Hl]%andb_true_iff. cbn [fmap list_fmap app lines_go]. rewrite plain_keeps, IH by done. cbn [rev].
    by rewrite <- app_assoc.
Qed.

Definition unlines (ls : list string) : string := unchars ((λ l, l +:+ NL) <$> ls).

Lemma str_all_unlines ls : (∀ l, l ∈ ls → str_all plain l = true) → str_all text_chr (unlines ls) = true.
Proof.
  intros Hls. unfold unlines. induction ls as [|l ls IH]; [done|]. cbn [fmap list_fmap]. rewrite unchars_cons, !str_all_app.
  rewrite IH by (intros; apply Hls; by right). rewrite andb_true_r. change (str_all text_chr NL) with true. rewrite andb_true_r.
  eapply str_all_impl; [|apply Hls; by left]. intros c Hc. unfold text_chr. by rewrite Hc.
Qed.
Lemma splitlines_unlines ls : (∀ l, l ∈ ls → str_all plain l = true) → splitlines (unlines ls) = ls.
Proof.
  intros Hls. unfold splitlines. induction ls as [|l ls IH]; [done|].
  pose proof (str_all_unlines _ Hls) as Ht. pose proof (str_all_unlines ls ltac:(intros; apply Hls; by right)) as Ht'.
  rewrite str_chars_text by done. unfold unlines in *. cbn [fmap list_fmap] in *. rewrite unchars_cons, !list_ascii_app, !fmap_app.
  rewrite <- (app_assoc _ _ (_ <$> _)). cbn [NL String.list_ascii_of_string fmap list_fmap app].
  assert (forallb plain (String.list_ascii_of_string l) = true) as Hp.
  { specialize (Hls l ltac:(by left)). clear - Hls. induction l as [|c l IH]; [done|]. cbn in *. apply andb_true_iff in Hls as [Hc Hl].
    rewrite Hc. by apply IH. }
  rewrite lines_go_plain by done. cbn [rev app]. rewrite unchars_chars_of, String.string_of_list_ascii_of_string. f_equal.
  rewrite <- IH at 2 by (intros; apply Hls; by right). by rewrite str_chars_text.
Qed.



Lemma store_plain s : store_ok s = true → str_all plain s = true.
Proof.
  unfold store_ok. intros H. ok_inv. apply (startswith_all plain STORE_DIR); [done|done|]. cbn [STORE_DIR String.length].
  rewrite (str_all_split _ 32), str_drop_drop. rewrite andb_true_iff. split; [by apply (class_impl store_hash plain)|].
  apply (startswith_all plain "-"); [done|done|]. cbn [String.length]. rewrite str_drop_drop. by apply (class_impl store_chr plain).
Qed.
Lemma record_plain x r l : valid_record x r → l ∈ record r → str_all plain l = true.
Proof.
  intros (h & sz & d & c & -> & Hx & Hh & Hsz & Hc & Hd & _ & _ & _ & _ & _ & Hrefs).
  intros [->|[->|[->|[->|[->|Hl]%elem_of_cons]%elem_of_cons]%elem_of_cons]%elem_of_cons]%elem_of_cons.
  - by apply store_plain.
  - unfold nar_hash_ok in Hh. apply andb_true_iff in Hh as [Hp Hh]. apply (startswith_all plain HASH_PREFIX); [done|done|].
    cbn [HASH_PREFIX String.length]. apply orb_true_iff in Hh as [[_ Hh]%andb_true_iff|[_ Hh]%andb_true_iff].
    + by apply (class_impl (chr_of nix32) plain).
    + by apply (class_impl is_lower_hex plain).
  - unfold size_ok in Hsz. ok_inv. by apply (class_impl is_digit plain).
  - destruct Hd as [->|Hd]; [done|]. unfold deriver_ok, endswith in Hd. ok_inv. rewrite (str_all_split _ (String.length d - 4)).
    rewrite store_plain by done. cbn [String.length] in *. rename select (str_drop _ d = _) into Hdrop. by rewrite Hdrop.
  - unfold count_ok in Hc. ok_inv. by apply (class_impl is_digit plain).
  - apply store_plain. rewrite forallb_forall in Hrefs. by apply Hrefs, list_elem_of_In.
Qed.

(** ** The emitted registration *)
Lemma join_NL l : l ≠ [] → str_join NL l +:+ NL = unlines l.
Proof.
  unfold unlines. induction l as [|x l IH]; [done|]. intros _. destruct l as [|y l]; [done|].
  rewrite str_join_cons by done. rewrite !str_append_assoc, IH by done. cbn [fmap list_fmap]. rewrite (unchars_cons (x +:+ NL)).
  by rewrite str_append_assoc.
Qed.
Lemma unlines_app l m : unlines (l ++ m) = unlines l +:+ unlines m.
Proof. unfold unlines. by rewrite fmap_app, unchars_app. Qed.

(** The records of some roots, in their order *)
Definition restrict (rs : records) (xs : list string) : records :=
  omap (λ x, (λ r, (x, r)) <$> dget x rs) xs.

Lemma restrict_elem rs xs x r : (x, r) ∈ restrict rs xs → x ∈ xs ∧ dget x rs = Some r.
Proof.
  intros (y & Hy & Hr)%list_elem_of_omap. apply fmap_Some in Hr as (q & Hq & [= -> ->]). done.
Qed.
Lemma restrict_keys rs xs : (∀ x, x ∈ xs → x ∈ dkeys rs) → dkeys (restrict rs xs) = xs.
Proof.
  unfold dkeys, restrict. induction xs as [|x xs IH]; intros Hx; [done|]. cbn.
  destruct (proj1 (elem_of_dkeys x rs) (Hx x ltac:(by left))) as [r Hr]. rewrite Hr. cbn. f_equal. apply IH. intros; apply Hx. by right.
Qed.
Lemma restrict_parsed rs xs : parsed rs → NoDup xs → (∀ x, x ∈ xs → x ∈ dkeys rs) → parsed (restrict rs xs).
Proof.
  intros [N V] Hn Hx. split; [by rewrite restrict_keys|]. intros x r [_ Hr]%restrict_elem. apply V. by apply dget_Some_elem.
Qed.
Lemma serialize_unlines rs xs : parsed rs → unchars (serialize rs <$> xs) = unlines (lines_of (restrict rs xs)).
Proof.
  intros [N V]. induction xs as [|x xs IH]; [done|]. cbn [fmap list_fmap]. rewrite unchars_cons, IH.
  destruct (dget x rs) as [r|] eqn:E.
  2: { unfold serialize. replace (restrict rs (x :: xs)) with (restrict rs xs) by (unfold restrict; cbn; by rewrite E). by rewrite E. }
  replace (restrict rs (x :: xs)) with ((x, r) :: restrict rs xs) by (unfold restrict; cbn; by rewrite E).
  change (lines_of ((x, r) :: restrict rs xs)) with (record r ++ lines_of (restrict rs xs)). rewrite unlines_app. unfold serialize. rewrite E. f_equal. apply join_NL.
  destruct (V x r (dget_Some_elem _ _ _ E)) as (? & ? & ? & ? & -> & _). done.
Qed.

(** Parsing the emitted registration gives the selected records back. *)
Lemma serialized_parses rs xs :
  parsed rs → zlen rs <= MAX_RECORDS → NoDup xs → (∀ x, x ∈ xs → x ∈ dkeys rs) →
  parse_lines (splitlines (unchars (serialize rs <$> xs))) = Ok (restrict rs xs).
Proof.
  intros Hp Hz Hn Hx. pose proof (restrict_parsed rs xs Hp Hn Hx) as Hr. rewrite serialize_unlines, splitlines_unlines; [|  |done].
  - apply (parse_complete _ []); [done| |done]. cbn. unfold zlen in *. apply Nat2Z.inj_le in Hz || idtac.
    assert (length (restrict rs xs) <= length rs)%nat; [|lia].
    rewrite <- (length_fmap fst (restrict rs xs)), <- (length_fmap fst rs). change ((restrict rs xs).*1) with (dkeys (restrict rs xs)).
    rewrite restrict_keys by done. apply submseteq_length, NoDup_submseteq; [done|]. intros y Hy. by apply Hx.
  - intros l Hl. unfold lines_of in Hl. apply list_elem_of_bind in Hl as ([x r] & Hl & Hin). destruct Hr as [_ V].
    eapply record_plain; [by apply V|done].
Qed.

(** ** The closure *)
Definition closed_graph (rs : records) : Prop := ∀ x y, y ∈ refs_of rs x → y ∈ dkeys rs.

Lemma push_references rs : pushes_references (refs_of rs) (push rs).
Proof.
  intros v x. unfold push. split_and!.
  - intros y [_ Hy]%list_elem_of_filter. done.
  - intros y Hy. destruct (decide (y ∈ v)); [by left|right]. by apply list_elem_of_filter.
  - apply length_filter.
Qed.

Lemma loop_spec rs seeds fuel visited pending :
  NoDup (dkeys rs) → exploring (refs_of rs) seeds visited pending → (∀ x, x ∈ visited ++ pending → x ∈ dkeys rs) → closed_graph rs →
  (steps_left (refs_of rs) (dkeys rs) visited pending <= fuel)%nat →
  ∃ out, closure_loop fuel rs visited pending = Ok out ∧ NoDup out ∧ (∀ x, x ∈ out ↔ reaches (refs_of rs) seeds x) ∧ (∀ x, x ∈ out → x ∈ dkeys rs).
Proof.
  intros HN He Hk Hc. revert fuel visited pending He Hk. induction fuel as [fuel IH] using lt_wf_ind. intros visited pending He Hk Hf.
  destruct pending as [|x pending].
  - exists visited. split; [by destruct fuel|]. split; [by apply He|]. split; [intros; by apply exploring_done|].
    intros x Hx. apply Hk. by rewrite app_nil_r.
  - assert (x ∈ dkeys rs) as Hx by (apply Hk; rewrite elem_of_app, elem_of_cons; tauto).
    destruct (proj1 (elem_of_dkeys x rs) Hx) as [r Hr].
    destruct (closure_step (push rs) visited x pending) as [visited' pending'] eqn:Es.
    pose proof (closure_step_decreases (refs_of rs) (push rs) (dkeys rs) HN visited x pending _ _ (push_references rs) Hx Es) as Hd.
    destruct fuel as [|fuel]; [lia|]. cbn [closure_loop]. rewrite Hr, Es. apply IH; [lia| | |lia].
    + by eapply exploring_step; [apply push_references| |].
    + intros y Hy. unfold closure_step in Es. case_bool_decide; injection Es as <- <-.
      * apply Hk. rewrite elem_of_app, elem_of_cons in *. tauto.
      * rewrite !elem_of_app, elem_of_cons in Hy. destruct Hy as [[->|Hy]|[Hy|Hy]]; [done|..].
        -- apply Hk. rewrite elem_of_app. tauto.
        -- apply (Hc x). apply list_elem_of_In, in_rev, list_elem_of_In in Hy. unfold push in Hy. by apply list_elem_of_filter in Hy as [_ Hy].
        -- apply Hk. rewrite elem_of_app, elem_of_cons. tauto.
Qed.

Lemma fuel_enough rs seeds : NoDup (dkeys rs) → steps_left (refs_of rs) (dkeys rs) [] (rev seeds) = closure_fuel rs seeds.
Proof.
  intros HN. unfold steps_left, closure_fuel, weight. rewrite length_rev. f_equal.
  assert (filter (λ x, x ∉ []) (dkeys rs) = dkeys rs) as ->.
  { clear. induction (dkeys rs) as [|k l IH]; [done|]. rewrite filter_cons_True by by intros ?%elem_of_nil. by rewrite IH. }
  f_equal. unfold dkeys. rewrite <- list_fmap_compose. apply list_fmap_ext. intros i [x r] Hi. cbn. unfold refs_of.
  rewrite (dget_NoDup x rs r HN) by by eapply list_elem_of_lookup_2. done.
Qed.

Lemma reachable_spec rs seeds out :
  NoDup (dkeys rs) → closed_graph rs → reachable rs seeds = Ok out →
  ∃ names, seeds = VStr <$> names ∧ StronglySorted String.le out ∧ NoDup out ∧
    (∀ x, x ∈ out ↔ reaches (refs_of rs) names x) ∧ (∀ x, x ∈ out → x ∈ dkeys rs).
Proof.
  intros HN Hc H. unfold reachable in H. apply bind_Ok in H as (u & _ & H). apply bind_Ok in H as (names & Hm & H).
  apply mapM_res_Ok in Hm. exists names.
  assert (seeds = VStr <$> names ∧ ∀ x, x ∈ names → x ∈ dkeys rs) as [Hs Hn].
  { clear - Hm. induction Hm as [|v x seeds names Hv Hm [IH1 IH2]]; [split; [done|by intros x ?%elem_of_nil]|].
    unfold seed_root in Hv. destruct v; try (by destruct (hashable _)). case_bool_decide as Hk; [|done]. injection Hv as <-.
    split; [cbn; by rewrite IH1|]. intros y [->|Hy]%elem_of_cons; auto. }
  assert (∀ x, x ∈ rev names ↔ x ∈ names) as Hrev by (intros; by rewrite !list_elem_of_In, <- in_rev).
  destruct (loop_spec rs names (closure_fuel rs names) [] (rev names)) as (o & Ho & Hnd & Hr & Hk);
    [done|by apply exploring_start| |done|by rewrite fuel_enough|].
  { intros x Hx. cbn in Hx. by apply Hn, Hrev. }
  rewrite Ho in H. injection H as <-. split; [done|].
  assert (∀ x, x ∈ merge_sort String.le o ↔ x ∈ o) as Hms by (intros x; by rewrite (merge_sort_Permutation String.le o)).
  split_and!.
  - apply StronglySorted_merge_sort; [intros a b c; apply transitivity|intros a b; apply String.le_total].
  - by rewrite merge_sort_Permutation.
  - intros x. by rewrite Hms.
  - intros x Hx%Hms. by apply Hk.
Qed.

(** It ends: with the fuel of the registered graph it never runs out. *)
Lemma reachable_ends rs seeds : NoDup (dkeys rs) → closed_graph rs → reachable rs seeds ≠ Err NoFuel.
Proof.
  intros HN Hc. unfold reachable. intros [H|(u & _ & H)]%bind_Err; [by apply raise_if_Err in H as [_ ?]|].
  apply bind_Err in H as [H|(names & Hm & H)].
  - assert (raises (λ e, e ≠ NoFuel) (mapM_res (seed_root rs) seeds)) as Hr.
    { apply raises_mapM. intros v. unfold seed_root. destruct v; solve_raises. }
    by apply (Hr _ H).
  - apply mapM_res_Ok in Hm.
    assert (∀ x, x ∈ names → x ∈ dkeys rs) as Hn.
    { clear - Hm. induction Hm as [|v x seeds names Hv Hm IH]; [by intros x ?%elem_of_nil|]. unfold seed_root in Hv.
      destruct v; try (by destruct (hashable _)). case_bool_decide as Hk; [|done]. injection Hv as <-.
      intros y [->|Hy]%elem_of_cons; auto. }
    assert (∀ x, x ∈ rev names ↔ x ∈ names) as Hrev by (intros; by rewrite !list_elem_of_In, <- in_rev).
    destruct (loop_spec rs names (closure_fuel rs names) [] (rev names)) as (o & Ho & _);
      [done|by apply exploring_start| |done|by rewrite fuel_enough|].
    { intros x Hx. cbn in Hx. by apply Hn, Hrev. }
    by rewrite Ho in H.
Qed.

(** ** The inventory *)
Definition file_of (root : string) (v : value) : option string :=
  match v with VStr f => if bool_decide (file_root f = Some root) then Some f else None | _ => None end.

Lemma index_spec rs files indexed :
  forM (index_file rs) files [] = Ok indexed → ∀ root, default [] (dget root indexed) = omap (file_of root) files.
Proof.
  apply (forM_inv (index_file rs) (λ done s, ∀ root, default [] (dget root s) = omap (file_of root) done)); [done|].
  intros done v s1 s2 IH _ H root. rewrite omap_app. cbn [omap list_omap]. unfold index_file in H. destruct v; try done.
  apply bind_Ok in H as (u & _ & H). unfold file_of. destruct (file_root s) as [q|] eqn:Eq.
  - apply bind_Ok in H as (u' & _ & H). injection H as <-. unfold add_file. rewrite dget_dset.
    destruct (decide (root = q)) as [->|Hne].
    + rewrite !bool_decide_eq_true_2 by done. cbn. by rewrite IH.
    + rewrite !bool_decide_eq_false_2 by congruence. by rewrite IH, app_nil_r.
  - injection H as <-. rewrite bool_decide_eq_false_2 by done. by rewrite IH, app_nil_r.
Qed.

Lemma registrations_spec text declared rs :
  registrations text declared = Ok rs →
  parsed rs ∧ closed_graph rs ∧ zlen rs <= MAX_RECORDS ∧ (∀ x, x ∈ dkeys rs ↔ x ∈ declared).
Proof.
  unfold registrations. intros H. do 3 (apply bind_Ok in H as (? & _ & H)). apply bind_Ok in H as (rs' & Hp & H).
  apply bind_Ok in H as (? & Hg & H). injection H as <-. apply raise_if_Ok, orb_false_iff in Hg as [Hs Hg].
  apply negb_false_iff in Hs. unfold parse_lines in Hp.
  apply parse_sound in Hp as (Hp & _ & Hz); [|split; [apply NoDup_nil_2|by intros ? ? ?%elem_of_nil]].
  split_and!; [done| |unfold MAX_RECORDS in *; unfold zlen in *; cbn in Hz; lia|by apply same_set_spec].
  intros z y Hy. unfold refs_of in Hy. destruct (dget z rs') as [r|] eqn:E; [|by apply elem_of_nil in Hy].
  apply dget_Some_elem in E. rewrite existsb_false in Hg. specialize (Hg _ E). rewrite existsb_false in Hg. specialize (Hg _ Hy). by ok_inv.
Qed.

(** ** The seeds of a group *)
Definition output_of (native : value) (package : string) : res value :=
  packages ← getitem native "packages"; p ← getitem packages package; getitem p "out".

(** Bash alone for Bash; the interpreter, or the store object of the resolved
    executable, with Bash for the others *)
Definition seeds_for (native : value) (tools : option value) (name : string) (seeds : list value) : Prop :=
  ∃ bash, output_of native "bash" = Ok bash ∧
    ((name = "bash" ∧ seeds = [bash]) ∨
     (name ∈ ["python"; "node"] ∧ ∃ out, output_of native name = Ok out ∧ seeds = [out; bash]) ∨
     (∃ t e, tools = Some (VDict t) ∧ name ∈ CAPABILITIES ∧ (name, VStr e) ∈ t ∧ seeds = [VStr (executable_root e); bash])).

Lemma seeds_spec native packages bash rs files tools s0 s1 :
  getitem native "packages" = Ok packages → output_of native "bash" = Ok bash →
  forM (interpreter_seeds packages bash) ["python"; "node"; "bash"] [] = Ok s0 → tool_seeds rs files bash tools s0 = Ok s1 →
  ∀ name seeds, (name, seeds) ∈ s1 → seeds_for native tools name seeds.
Proof.
  intros Hp Hb H0 H1.
  assert (∀ name seeds, (name, seeds) ∈ s0 → seeds_for native tools name seeds) as Hs0.
  { revert H0. apply (forM_inv _ (λ _ s, ∀ name seeds, (name, seeds) ∈ s → seeds_for native tools name seeds)).
    - by intros name seeds ?%elem_of_nil.
    - intros _ i sa sb IH Hi H name seeds Hin. unfold interpreter_seeds in H. apply bind_Ok in H as (present & _ & H).
      destruct present; cbn [negb] in H; [|injection H as <-; by apply IH].
      case_bool_decide as Hbash.
      + injection H as <-. apply elem_of_dset in Hin as [[= -> ->]|Hin]; [|by apply IH]. exists bash. split; [done|]. left. done.
      + apply bind_Ok in H as (pk & Hpk & H). apply bind_Ok in H as (out & Hout & H). injection H as <-.
        apply elem_of_dset in Hin as [[= -> ->]|Hin]; [|by apply IH]. exists bash. split; [done|]. right. left. split.
        * rewrite !elem_of_cons, elem_of_nil in Hi. rewrite !elem_of_cons. tauto.
        * exists out. split; [|done]. unfold output_of. by rewrite Hp; cbn; rewrite Hpk. }
  unfold tool_seeds in H1. destruct tools as [[]|]; try done; try (by injection H1 as <-).
  apply bind_Ok in H1 as (u & Hcap & H1). apply raise_if_Ok, negb_false_iff in Hcap. rewrite forallb_forall in Hcap.
  revert H1. apply (forM_inv _ (λ _ s, ∀ name seeds, (name, seeds) ∈ s → seeds_for native _ name seeds)); [done|].
  intros _ [n v] sa sb IH Hi H name seeds Hin. unfold tool_seed in H. cbn in H. destruct v; try done.
  apply bind_Ok in H as (? & _ & H). apply bind_Ok in H as (? & _ & H). injection H as <-.
  apply elem_of_dset in Hin as [[= -> ->]|Hin]; [|by apply IH]. exists bash. split; [done|]. right. right.
  eexists _, _. split_and!; [done| |exact Hi|done].
  eapply bool_decide_eq_true_1, Hcap, list_elem_of_In, list_elem_of_fmap. by exists (n, VStr s).
Qed.

(** C39: every emitted group is exact.  Its roots are, sorted and without
    repetition, exactly the registered objects reachable from the seeds of its
    name (its interpreter or its executable's store object, and Bash) through the declared references, cycles and self references
    included; its files are exactly the inventoried files of those roots; and
    its registration text parses to exactly the registered records of its
    roots. *)
Theorem selection_exact native declared text inventory tools groups name g :
  select native declared text inventory tools = Ok groups → (name, g) ∈ groups →
  ∃ rs files seeds,
    registrations text declared = Ok rs ∧ seeds_for native tools name (VStr <$> seeds) ∧ getitem inventory "files" = Ok (VList files) ∧
    StronglySorted String.le (roots g) ∧ NoDup (roots g) ∧
    (∀ x, x ∈ roots g ↔ reaches (refs_of rs) seeds x) ∧ (∀ x, x ∈ roots g → x ∈ declared) ∧
    (∀ f, f ∈ selected g ↔ VStr f ∈ files ∧ ∃ x, x ∈ roots g ∧ file_root f = Some x) ∧
    parse_lines (splitlines (serialized g)) = Ok (restrict rs (roots g)).
Proof.
  unfold select. intros H Hg. apply bind_Ok in H as (rs & Hrs & H). apply bind_Ok in H as (packages & Hpk & H).
  apply bind_Ok in H as (bp & Hbp & H). apply bind_Ok in H as (bash & Hbash & H).
  apply bind_Ok in H as (files & Hfl & H). apply bind_Ok in H as (indexed & Hix & H).
  apply bind_Ok in H as (s0 & Hs0 & H). apply bind_Ok in H as (s1 & Hs1 & H).
  apply mapM_res_Ok in H. apply list_elem_of_lookup in Hg as [i Hi].
  destruct (Forall2_lookup_r _ _ _ _ _ H Hi) as ([n seeds] & Hin & Hsel). clear H.
  destruct (registrations_spec _ _ _ Hrs) as ([N V] & Hc & Hz & Hd).
  unfold select_group in Hsel. apply bind_Ok in Hsel as (rts & Hr & Hsel). apply bind_Ok in Hsel as (u & _ & Hsel).
  injection Hsel as -> <-. destruct (reachable_spec rs seeds rts N Hc Hr) as (names & -> & Hsort & Hnd & Hre & Hk).
  assert (seeds_for native tools name (VStr <$> names)) as Hseeds.
  { eapply (seeds_spec native packages bash); [done| |exact Hs0|exact Hs1|by eapply list_elem_of_lookup_2].
    unfold output_of. rewrite Hpk. cbn. by rewrite Hbp. }
  exists rs, files, names. cbn [roots selected serialized].
  assert (getitem inventory "files" = Ok (VList files)) as Hfiles.
  { unfold file_list in Hfl. apply bind_Ok in Hfl as (v & Hv & Hfl). destruct v; try done. apply bind_Ok in Hfl as (? & _ & Hfl).
    destruct (negb _); [done|]. destruct (negb _); [done|]. by injection Hfl as <-. }
  split_and!; [done|done|done|done|done|done| | |by apply serialized_parses].
  - intros x Hx. by apply Hd, Hk.
  - intros f. rewrite (merge_sort_Permutation String.le), list_elem_of_bind. setoid_rewrite (index_spec rs files indexed Hix).
    setoid_rewrite list_elem_of_omap. unfold file_of. split.
    + intros (x & (v & Hv & E) & Hx). destruct v; try done. case_bool_decide as Ef; [|done]. injection E as <-. eauto.
    + intros (Hf & x & Hx & E). exists x. split; [|done]. exists (VStr f). split; [done|]. by rewrite bool_decide_eq_true_2.
Qed.

(** ** Termination *)
Lemma registration_raises rs x h sz d c rest : raises (λ e, e ≠ NoFuel) (registration rs x h sz d c rest).
Proof. unfold registration. solve_raises. Qed.

Lemma parse_ends fuel lines rs : (length lines <= fuel)%nat → raises (λ e, e ≠ NoFuel) (registration_lines fuel lines rs).
Proof.
  revert lines rs. induction fuel as [|fuel IH]; intros lines rs Hl; destruct lines as [|x lines]; cbn [registration_lines]; [done|cbn in Hl; lia|done|].
  apply raises_bind; [by apply raises_raise_if|]. intros _.
  destruct lines as [|h [|sz [|d [|c rest]]]]; try (by apply raises_err).
  apply raises_bind_eq; [apply registration_raises|]. intros [rs1 rest1] Hr. apply IH.
  apply registration_Ok in Hr as (r & (? & ? & ? & ? & Hrec & _) & _ & _ & Heq). apply (f_equal length) in Heq.
  rewrite Hrec, !length_app in Heq. cbn in Heq, Hl. lia.
Qed.

Lemma registrations_raises text declared : raises (λ e, e ≠ NoFuel) (registrations text declared).
Proof. unfold registrations. do 3 (apply raises_bind; [by apply raises_raise_if|intros _]). apply raises_bind; [by apply parse_ends|intros ?]. solve_raises. Qed.

(** Selection ends on every input. *)
Lemma select_ends native declared text inventory tools : raises (λ e, e ≠ NoFuel) (select native declared text inventory tools).
Proof.
  unfold select. apply raises_bind_eq; [apply registrations_raises|]. intros rs Hrs.
  destruct (registrations_spec _ _ _ Hrs) as ([N _] & Hc & _).
  assert (∀ v k, raises (λ e, e ≠ NoFuel) (getitem v k)) as Hget by (intros; by apply raises_getitem).
  assert (∀ w v, raises (λ e, e ≠ NoFuel) (py_in w v)) as Hin by (intros; by apply raises_py_in).
  do 3 (apply raises_bind; [apply Hget|intros ?]).
  apply raises_bind; [unfold file_list; solve_raises|intros files].
  apply raises_bind; [apply raises_forM; intros; unfold index_file; solve_raises|intros indexed].
  apply raises_bind; [apply raises_forM; intros; unfold interpreter_seeds; solve_raises|intros s0].
  apply raises_bind; [|intros s1; apply raises_mapM; intros seeds; unfold select_group].
  - unfold tool_seeds. destruct tools as [[]|]; solve_raises. unfold tool_seed. solve_raises.
  - apply raises_bind; [intros e He ->; by apply (reachable_ends rs seeds.2 N Hc)|]. intros rts. solve_raises.
Qed.

(** ** An inventory with a cycle *)
Definition ex_hash : string := "00000000000000000000000000000000".
Definition ex_path (name : string) : string := STORE_DIR +:+ ex_hash +:+ "-" +:+ name.
Definition ex_lines : list string :=
  [ex_path "bash"; HASH_PREFIX +:+ "0000000000000000000000000000000000000000000000000000"; "7"; ""; "2"; ex_path "bash"; ex_path "libc";
   ex_path "libc"; HASH_PREFIX +:+ "0000000000000000000000000000000000000000000000000000"; "9"; ex_path "libc.drv"; "1"; ex_path "bash";
   ex_path "other"; HASH_PREFIX +:+ "0000000000000000000000000000000000000000000000000000"; "9"; ""; "0"].
Definition ex_native : value := VDict [("packages", VDict [("bash", VDict [("out", VStr (ex_path "bash"))])])].
Definition ex_inventory : value :=
  VDict [("files", VList [VStr ("closure/" +:+ ex_hash +:+ "-bash/bin/bash"); VStr ("closure/" +:+ ex_hash +:+ "-libc");
                          VStr ("closure/" +:+ ex_hash +:+ "-other")])].
Definition ex_select : res (list (string * group)) :=
  select ex_native [ex_path "bash"; ex_path "libc"; ex_path "other"] (unlines ex_lines) ex_inventory None.

Example ex_roots :
  match ex_select with Ok gs => map (λ p, (p.1, roots p.2)) gs | Err _ => [] end = [("bash", [ex_path "bash"; ex_path "libc"])].
Proof. vm_compute. reflexivity. Qed.

Lemma selection_exact_witness :
  ∃ g rs, ex_select = Ok [("bash", g)] ∧ parse_lines (splitlines (serialized g)) = Ok (restrict rs (roots g)).
Proof.
  assert (∃ g, ex_select = Ok [("bash", g)]) as [g Hg] by (eexists; vm_compute; reflexivity).
  destruct (selection_exact ex_native [ex_path "bash"; ex_path "libc"; ex_path "other"] (unlines ex_lines) ex_inventory None
    [("bash", g)] "bash" g Hg (list_elem_of_here _ _)) as (rs & files & seeds & _ & _ & _ & _ & _ & _ & _ & _ & H).
  exists g, rs. split; [exact Hg|exact H].
Defined.
End InterpreterClosure.
