(* ===== verification/WrapperAuthority.v ===== *)
(** * delivery/yoga_wrapper_authority.py: the vault wrapper validator

    The validator joins digests, a companion document, a registry inventory, a
    native manifest and the bytes of three wrapper scripts.  The clock acts on a
    world, [loads] is [json.loads] with the hooks that refuse repeated keys and
    non-finite numbers, and [WrapperRefusal(reason)] is [Unavailable reason].
    The byte arguments are bytes, so their type checks have no counterpart. *)
From S2P Require Import Prelude PyBytes PyString PyValue PyText Sha256 Effect Closure.
From Stdlib Require Import Ascii.
Import Sha256.
Local Open Scope Z_scope.

Module WrapperAuthority.

Definition TOOLS : list string :=
  ["python"; "systemd_run"; "systemctl"; "bazel"; "closure"; "bootstrap_closure"; "zig_sdk"; "java_home"].
Definition ROLES : list (string * (string * string)) :=
  [("dbus_session", ("dbus_run_session", "dbus-run-session")); ("dbus_daemon", ("dbus_daemon", "dbus-daemon"));
   ("keyring", ("gnome_keyring_daemon", "gnome-keyring-daemon"))].
Definition MAX_INVENTORY : Z := 8 * 1024 * 1024.
Definition MAX_MANIFEST : Z := 1024 * 1024.
Definition MAX_COMPANION : Z := 65536.
Definition MAX_WRAPPER : Z := 8192.
Definition MAX_ROWS : Z := 4096.
Definition MAX_REFS : Z := 65536.
Definition MAX_NAR_BYTES : Z := 16 * 1024 ^ 3.
Definition FALSE_FIELDS : list string :=
  ["contentRehashed"; "wrapperExecuted"; "backendExecuted"; "executionAuthority"; "destinationRegistrationVerified"; "realized"].
Definition COMPANION_FIELDS : list string :=
  ["schemaVersion"; "scope"; "selectionSha256"; "inventorySha256"; "controllerTools"; "nativeManifest"; "bootstrapManifest"; "wrappers";
   "rootCount"; "registeredPaths"; "registeredNarBytes"; "deadlineMonotonicNs"; "registrySnapshotVerified"; "selectedInputBytesVerified"]
  ++ FALSE_FIELDS.

Definition refuse {A} (reason : string) : res A := Err (Unavailable reason).
Definition require (condition : bool) (reason : string) : res unit := ensure condition (Unavailable reason).

Record binding := WrapperBinding {
  role : string; path : string; sha256 : string; interpreter : string; backend : string; backend_root : string }.
Record authority := WrapperAuthority {
  companion_sha256 : string; inventory_sha256 : string; native_manifest_sha256 : string;
  registered_native_manifest_sha256 : string; bindings : list binding }.

(** ** Pure checks *)
Definition digest (data : bytes) : string := hexdigest data.
Definition is_sha (v : value) : bool := match v with VStr s => is_sha256_hex s | _ => false end.

(** [hash_input], with the accepted digest *)
Definition hash_input (data : bytes) (expected : value) (maximum : Z) : res string :=
  match expected with
  | VStr e =>
      _ ← require (is_sha256_hex e) "input_invalid";
      _ ← require (bool_decide (0 < zlen data <= maximum)) "byte_bound";
      _ ← require (bool_decide (digest data = e)) "digest_mismatch";
      Ok e
  | _ => refuse "input_invalid"
  end.

Definition nix32_chr (c : ascii) : bool := chr_of "0123456789abcdfghijklmnpqrsvwxyz" c.
Definition name_chr (c : ascii) : bool := is_alnum c || chr_of "+._?=-" c.
Definition path_chr (c : ascii) : bool := name_chr c || chr_of "@/" c.
Definition STORE_DIR : string := "/nix/store/".

(** [STORE.fullmatch(s)] *)
Definition store_ok (s : string) : bool :=
  let h := String.substring 0 32 (str_drop 11 s) in
  let n := str_drop 44 s in
  startswith STORE_DIR s && bool_decide (String.length h = 32%nat) && str_all nix32_chr h
  && startswith "-" (str_drop 43 s) && bool_decide (1 <= String.length n <= 211)%nat && str_all name_chr n.
Definition is_store (v : value) : bool := match v with VStr s => store_ok s | _ => false end.

(** [str(PurePosixPath(s)) == s] for a path with one leading slash, and the
    components without [.] and [..] *)
Definition normal (s : string) : bool :=
  bool_decide (s = "/" +:+ str_join "/" (path_parts s))
  && negb (bool_decide ("." ∈ str_split "/" s)) && negb (bool_decide (".." ∈ str_split "/" s)).
(** [re.fullmatch(r"/[A-Za-z0-9+._?=@/-]+", s)] *)
Definition path_text (s : string) : bool :=
  startswith "/" s && bool_decide (1 < String.length s)%nat && str_all path_chr s.

Definition root_of (s : string) : string := str_join "/" (take 4 (str_split "/" s)).
Definition store_root (v : value) : res string :=
  match v with
  | VStr s =>
      _ ← require (bool_decide (py_len s <= 4096)) "closure_mismatch";
      _ ← require (store_ok (root_of s) && normal s && path_text s) "closure_mismatch";
      Ok (root_of s)
  | _ => refuse "closure_mismatch"
  end.

Definition physical (v : value) : res string :=
  match v with
  | VStr s =>
      _ ← require (bool_decide (1 <= py_len s <= 4096) && (startswith "/srv/" s || startswith STORE_DIR s) && path_text s && normal s) "input_invalid";
      _ ← (if startswith STORE_DIR s then r ← store_root v; Ok tt else Ok tt);
      Ok s
  | _ => refuse "input_invalid"
  end.

(** The pattern [sha256-[A-Za-z0-9+/]{43}=] always decodes to 32 bytes. *)
Definition base64_chr (c : ascii) : bool := is_alnum c || chr_of "+/" c.
Definition nar_hash (v : value) : res unit :=
  match v with
  | VStr s =>
      require ((startswith "sha256:" s && is_sha256_hex (str_drop 7 s))
               || (startswith "sha256-" s && bool_decide (String.length s = 51%nat)
                   && str_all base64_chr (String.substring 0 43 (str_drop 7 s)) && bool_decide (str_drop 50 s = "="))) "inventory_invalid"
  | _ => refuse "inventory_invalid"
  end.

(** A list of distinct store paths in order *)
Fixpoint strings_of (l : list value) : option (list string) :=
  match l with
  | [] => Some []
  | VStr s :: l => cons s <$> strings_of l
  | _ => None
  end.
Definition store_list (v : value) : res (list string) :=
  match v with
  | VList l =>
      match strings_of l with
      | Some ss => _ ← require (forallb store_ok ss && bool_decide (ss = sorted_set ss)) "inventory_invalid"; Ok ss
      | None => refuse "inventory_invalid"
      end
  | _ => refuse "inventory_invalid"
  end.

Section Validator.
Context {K : Type} (now : K → res Z * K) (loads : bytes → res value) (float_repr : SpecFloat.spec_float → string).
Abbreviation C := (M K unit).

Definition canonical (v : value) : bytes := fsencode (json_dumps float_repr v).

Definition decode (data : bytes) : res value :=
  match loads data with Ok v => Ok v | Err _ => refuse "schema_invalid" end.

Definition budget (deadline : value) : C unit :=
  match deadline with
  | VInt d => t ← call now (λ _, []); embed (require (bool_decide (0 < d - t <= 1200 * 10 ^ 9)) "deadline_exceeded")
  | _ => throw (Unavailable "deadline_exceeded")
  end.

(** ** The registry inventory *)
Record row := Row { narSize : Z; references : list string }.
Abbreviation rows := (list (string * row)).
Record counts := Counts { by_path : rows; edges : Z; total : Z }.

Definition inventory_fields : list string :=
  ["schemaVersion"; "system"; "mode"; "roots"; "paths"; "provenance"; "contentRehashed"; "realized"; "published"].

Definition field (d : dict) (k : string) : res value := match dget k d with Some v => Ok v | None => Err KeyError end.
Definition has (d : dict) (k : string) (test : value → bool) : bool := match dget k d with Some v => test v | None => false end.
Definition is_one (v : value) : bool := match v with VInt 1 => true | _ => false end.
Definition is_text (s : string) (v : value) : bool := match v with VStr t => bool_decide (t = s) | _ => false end.

Definition inventory_header (d : dict) : res unit :=
  require (keys_are inventory_fields d && has d "schemaVersion" is_one && has d "system" (is_text "x86_64-linux")
           && has d "mode" (is_text "local-sqlite-readonly-snapshot")
           && forallb (λ k, has d k is_False) ["contentRehashed"; "realized"; "published"]) "inventory_invalid".

Definition inventory_row (c : counts) (v : value) : res counts :=
  match v with
  | VDict d =>
      _ ← require (keys_are ["path"; "narHash"; "narSize"; "references"] d) "inventory_invalid";
      p ← field d "path"; size ← field d "narSize"; hash ← field d "narHash"; refs ← field d "references";
      match p, size with
      | VStr p, VInt size =>
          _ ← require (store_ok p && negb (bool_decide (p ∈ dkeys (by_path c))) && bool_decide (size > 0)) "inventory_invalid";
          _ ← nar_hash hash;
          refs ← store_list refs;
          let c := Counts (dset p (Row size refs) (by_path c)) (edges c + zlen refs) (total c + size) in
          _ ← require (bool_decide (edges c <= MAX_REFS) && bool_decide (total c <= MAX_NAR_BYTES)) "byte_bound";
          Ok c
      | _, _ => refuse "inventory_invalid"
      end
  | _ => refuse "inventory_invalid"
  end.

Fixpoint inventory_rows (deadline : value) (l : list value) (c : counts) : C counts :=
  match l with
  | [] => mret c
  | v :: l => _ ← budget deadline; c ← embed (inventory_row c v); inventory_rows deadline l c
  end.

Definition refs_of (rs : rows) (x : string) : list string := match dget x rs with Some r => references r | None => [] end.
Definition push (rs : rows) (_ : list string) (x : string) : list string := refs_of rs x.

Fixpoint closure_loop (fuel : nat) (deadline : value) (rs : rows) (reached pending : list string) : C (list string) :=
  match pending with
  | [] => mret reached
  | x :: pending =>
      match fuel with
      | O => throw NoFuel
      | S fuel =>
          _ ← budget deadline;
          if bool_decide (x ∈ reached) then closure_loop fuel deadline rs reached pending
          else match dget x rs with
               | None => throw KeyError
               | Some _ => let '(reached, pending) := closure_step (push rs) reached x pending in closure_loop fuel deadline rs reached pending
               end
      end
  end.
Definition closure_fuel (rs : rows) (roots : list string) : nat :=
  (length roots + sum_list ((λ item, length (references item.2)) <$> rs))%nat.

Definition SHA_KEYS : list string := ["selection"; "native_manifest"; "bootstrap_manifest"] ++ ((λ r, "wrapper/" +:+ r) <$> ROLES.*1).

Definition inventory_provenance (roots : value) (v : value) : res dict :=
  match v with
  | VDict p =>
      _ ← require (keys_are ["rootsSha256"; "inputSha256"] p
                   && has p "rootsSha256" (is_text (digest (canonical roots)))) "inventory_invalid";
      shas ← field p "inputSha256";
      match shas with
      | VDict shas => _ ← require (keys_are SHA_KEYS shas && forallb is_sha shas.*2) "inventory_invalid"; Ok shas
      | _ => refuse "inventory_invalid"
      end
  | _ => refuse "inventory_invalid"
  end.

Record inventoried := Inventoried { inv_roots : list string; inv_rows : rows; inv_total : Z; inv_shas : dict }.

Definition inventory (v : value) (deadline : value) : C inventoried :=
  match v with
  | VDict d =>
      _ ← embed (inventory_header d);
      vroots ← embed (field d "roots"); vrows ← embed (field d "paths"); provenance ← embed (field d "provenance");
      roots ← embed (store_list vroots);
      _ ← embed (require (bool_decide (1 <= zlen roots <= 11)) "inventory_invalid");
      match vrows with
      | VList l =>
          _ ← embed (require (bool_decide (1 <= zlen l <= MAX_ROWS)) "inventory_invalid");
          c ← inventory_rows deadline l (Counts [] 0 0);
          let rs := by_path c in
          _ ← embed (require (bool_decide (dkeys rs = merge_sort String.le (dkeys rs)) && subset roots (dkeys rs)
                              && forallb (λ item, subset (references item.2) (dkeys rs)) rs) "inventory_invalid");
          reached ← closure_loop (closure_fuel rs roots) deadline rs [] (rev roots);
          _ ← embed (require (subset reached (dkeys rs) && subset (dkeys rs) reached) "closure_mismatch");
          shas ← embed (inventory_provenance vroots provenance);
          mret (Inventoried roots rs (total c) shas)
      | _ => throw (Unavailable "inventory_invalid")
      end
  | _ => throw (Unavailable "inventory_invalid")
  end.

(** ** The join *)
Definition tool_roots (tools : dict) : res (list string) :=
  mapM_res (λ tool,
    root ← store_root tool.2;
    _ ← require (negb (bool_decide (tool.1 ∈ ["closure"; "bootstrap_closure"; "zig_sdk"; "java_home"])) || is_text root tool.2) "closure_mismatch";
    Ok root) tools.

Definition is_dict_of (ks : list string) (v : value) : bool := match v with VDict d => keys_are ks d | _ => false end.

Definition companion_header (d : dict) : res unit :=
  require (keys_are COMPANION_FIELDS d && has d "schemaVersion" is_one && has d "scope" (is_text "yoga-controller-registry-and-wrapper-v1")
           && has d "registrySnapshotVerified" is_True && has d "selectedInputBytesVerified" is_True
           && forallb (λ k, has d k is_False) FALSE_FIELDS
           && has d "deadlineMonotonicNs" (λ v, match v with VInt n => bool_decide (n > 0) | _ => false end)) "schema_invalid".

(** [type(d[k]) is int and d[k] == n] *)
Definition is_count (n : Z) (v : value) : bool := match v with VInt m => bool_decide (m = n) | _ => false end.
Definition same (v w : value) : bool := py_eq v w.

Definition companion_inventory (d : dict) (inventory_sha : string) (inv : inventoried) : res unit :=
  selection ← field (inv_shas inv) "selection";
  require (has d "inventorySha256" (is_text inventory_sha) && has d "rootCount" (is_count (zlen (inv_roots inv)))
           && has d "registeredPaths" (is_count (zlen (inv_rows inv))) && has d "registeredNarBytes" (is_count (inv_total inv))
           && has d "selectionSha256" (same selection)) "inventory_invalid".

Definition registered_manifest (d : dict) (inv : inventoried) (tools : dict) (name tool key : string) : res unit :=
  facts ← field d name;
  match facts with
  | VDict f =>
      _ ← require (keys_are ["sha256"; "registeredObject"; "registeredManifestSha256"] f && has f "sha256" is_sha
                   && has f "registeredManifestSha256" is_sha && has f "registeredObject" is_store) "schema_invalid";
      closure ← field tools tool; object ← field f "registeredObject";
      match closure, object with
      | VStr closure, VStr object =>
          _ ← require (bool_decide (closure ∈ dkeys (inv_rows inv)) && bool_decide (object ∈ dkeys (inv_rows inv))
                       && bool_decide (object ∈ refs_of (inv_rows inv) closure)) "closure_mismatch";
          expected ← field (inv_shas inv) key;
          require (has f "sha256" (same expected)) "manifest_mismatch"
      | _, _ => refuse "closure_mismatch"
      end
  | _ => refuse "schema_invalid"
  end.

Definition NL : string := String "010" EmptyString.
Definition QUOTE : string := String "034" EmptyString.
(** The exact wrapper script *)
Definition script (interpreter backend : string) : string :=
  "#!" +:+ interpreter +:+ NL +:+ "set -eu" +:+ NL +:+ "exec '" +:+ backend +:+ "' " +:+ QUOTE +:+ "$@" +:+ QUOTE +:+ NL.

Definition wrapper_path (manifest_path key : string) : string :=
  "/" +:+ str_join "/" (take (length (path_parts manifest_path) - 1) (path_parts manifest_path) ++ ["tool_wrappers"; key]).

Record wrapper_inputs := WrapperInputs { w_paths : dict; w_sha : dict; w_bytes : list (string * bytes) }.

Definition check_role (facts_of : dict) (packages tools : value) (inv : inventoried) (interp manifest_path : string) (w : wrapper_inputs)
    (r : string * (string * string)) : res binding :=
  let '(role, (key, basename)) := r in
  facts ← field facts_of role;
  match facts with
  | VDict f =>
      _ ← require (keys_are ["sha256"; "backend"; "backendRoot"; "interpreter"; "abi"] f && has f "abi" (is_text "omux-native-capability-wrapper-v1")) "schema_invalid";
      vbackend ← getitem tools key;
      root ← store_root vbackend;
      let backend := root +:+ "/bin/" +:+ basename in
      _ ← require (is_text backend vbackend && bool_decide (root ∈ dkeys (inv_rows inv)) && has f "backend" (is_text backend)
                   && has f "backendRoot" (is_text root) && has f "interpreter" (is_text interp)) "wrapper_mismatch";
      package ← getitem packages (if bool_decide (role = "keyring") then "gnome_keyring" else "dbus");
      out ← getitem package "out";
      _ ← require (is_text root out) "manifest_mismatch";
      vpath ← field (w_paths w) role;
      p ← physical vpath;
      _ ← require (bool_decide (p = wrapper_path manifest_path key)) "wrapper_mismatch";
      vsha ← field (w_sha w) role;
      data ← match dget role (w_bytes w) with Some b => Ok b | None => Err KeyError end;
      sha ← hash_input data vsha MAX_WRAPPER;
      expected ← field (inv_shas inv) ("wrapper/" +:+ role);
      _ ← require (has f "sha256" (is_text sha) && is_text sha expected) "digest_mismatch";
      _ ← require (bool_decide (data = fsencode (script interp backend))) "wrapper_mismatch";
      Ok (WrapperBinding role p sha interp backend root)
  | _ => refuse "schema_invalid"
  end.

Fixpoint check_roles (deadline : value) (check : string * (string * string) → res binding) (l : list (string * (string * string))) : C (list binding) :=
  match l with
  | [] => mret []
  | r :: l => _ ← budget deadline; b ← embed (check r); bs ← check_roles deadline check l; mret (b :: bs)
  end.

(** The controller's own interpreter and tools in the native manifest *)
Definition controller_manifest (packages tools : value) (ctools : dict) (inv : inventoried) (bash : string) : res unit :=
  _ ← require (bool_decide (bash ∈ dkeys (inv_rows inv))) "manifest_mismatch";
  python ← (p ← getitem packages "python"; getitem p "out"); cpython ← field ctools "python"; croot ← store_root cpython;
  _ ← require (is_text croot python) "manifest_mismatch";
  _ ← require (is_text (croot +:+ "/bin/python3") cpython) "manifest_mismatch";
  jdk ← (p ← getitem packages "bazel_jdk"; getitem p "out"); java ← field ctools "java_home";
  _ ← require (same jdk java) "manifest_mismatch";
  systemctl ← getitem tools "systemctl"; csystemctl ← field ctools "systemctl";
  _ ← require (same systemctl csystemctl) "manifest_mismatch";
  crun ← field ctools "systemd_run"; sroot ← store_root systemctl;
  require (is_text (sroot +:+ "/bin/systemd-run") crun) "manifest_mismatch".

Record captured := Captured {
  companion_bytes : bytes; companion_sha : value; native_bytes : bytes; native_sha : value; registered_bytes : bytes;
  inventory_bytes : bytes; inventory_sha : value; manifest_path : value; wrapper_paths : value; wrapper_sha : value;
  wrapper_bytes : list (string * bytes); controller_tools : value; deadline_ns : value }.

Definition dict_with (ks : list string) (v : value) (reason : string) : res dict :=
  match v with VDict d => _ ← require (keys_are ks d) reason; Ok d | _ => refuse reason end.

Definition validate_ (x : captured) : C authority :=
  _ ← budget (deadline_ns x);
  csha ← embed (hash_input (companion_bytes x) (companion_sha x) MAX_COMPANION);
  nsha ← embed (hash_input (native_bytes x) (native_sha x) MAX_MANIFEST);
  isha ← embed (hash_input (inventory_bytes x) (inventory_sha x) MAX_INVENTORY);
  vcompanion ← embed (decode (companion_bytes x)); vnative ← embed (decode (native_bytes x)); vinventory ← embed (decode (inventory_bytes x));
  companion ← embed (match vcompanion with VDict d => Ok d | _ => refuse "schema_invalid" end);
  _ ← embed (companion_header companion);
  ctools ← embed (dict_with TOOLS (controller_tools x) "closure_mismatch");
  _ ← embed (require (has companion "controllerTools" (λ v, is_dict v && same v (controller_tools x))) "closure_mismatch");
  troots ← embed (tool_roots ctools);
  wp ← embed (dict_with ROLES.*1 (wrapper_paths x) "input_invalid");
  _ ← embed (require (keys_are ROLES.*1 (wrapper_bytes x)) "input_invalid");
  ws ← embed (dict_with ROLES.*1 (wrapper_sha x) "input_invalid");
  vfacts ← embed (field companion "wrappers"); facts ← embed (dict_with ROLES.*1 vfacts "schema_invalid");
  inv ← inventory vinventory (deadline_ns x);
  _ ← embed (companion_inventory companion isha inv);
  _ ← embed (registered_manifest companion inv ctools "nativeManifest" "closure" "native_manifest");
  _ ← embed (registered_manifest companion inv ctools "bootstrapManifest" "bootstrap_closure" "bootstrap_manifest");
  nfacts ← embed (field companion "nativeManifest"); vn ← embed (getitem nfacts "sha256");
  _ ← embed (require (is_text nsha vn) "manifest_mismatch");
  vr ← embed (getitem nfacts "registeredManifestSha256");
  rsha ← embed (hash_input (registered_bytes x) vr MAX_MANIFEST);
  native ← embed (match vnative with VDict d => Ok d | _ => refuse "manifest_mismatch" end);
  vregistered ← embed (decode (registered_bytes x));
  _ ← embed (require (same vnative vregistered && has native "system" (is_text "x86_64-linux") && has native "packages" is_dict
                      && has native "tools" is_dict) "manifest_mismatch");
  mp ← embed (physical (manifest_path x));
  _ ← embed (require (bool_decide (path_name mp = "native.json")) "manifest_mismatch");
  packages ← embed (field native "packages"); tools ← embed (field native "tools");
  vbash ← embed (p ← getitem packages "bash"; getitem p "out");
  bash ← embed (match vbash with VStr b => _ ← require (store_ok b) "manifest_mismatch"; Ok b | _ => refuse "manifest_mismatch" end);
  _ ← embed (controller_manifest packages tools ctools inv bash);
  bs ← check_roles (deadline_ns x) (check_role facts packages tools inv (bash +:+ "/bin/bash") mp (WrapperInputs wp ws (wrapper_bytes x))) ROLES;
  _ ← embed (require (bool_decide (inv_roots inv = sorted_set (troots ++ (backend_root <$> bs)))) "closure_mismatch");
  _ ← budget (deadline_ns x);
  mret (WrapperAuthority csha isha nsha rsha bs).

(** [validate]: every other failure becomes a refusal *)
Definition other_failure (e : exn) : bool :=
  match e with KeyError | TypeError | ValueError _ | UnicodeError | AttributeError => true | _ => false end.
Definition validate (x : captured) : C authority :=
  try_except other_failure (validate_ x) (throw (Unavailable "input_invalid")).

(** ** Inversion *)
Lemma M_Ok {A B} (m : C A) (k : A → C B) st b st' :
  (m ≫= k) st = (Ok b, st') → ∃ a st1, m st = (Ok a, st1) ∧ k a st1 = (Ok b, st').
Proof. unfold mbind, M_bind. destruct (m st) as [[a|e] st1]; [eauto|done]. Qed.
Lemma embed_Ok {A B} (r : res A) (k : A → C B) st b st' :
  (embed r ≫= k) st = (Ok b, st') → ∃ a, r = Ok a ∧ k a st = (Ok b, st').
Proof. intros (a & st1 & [= -> <-] & H)%M_Ok. eauto. Qed.

(** ** The registry closure *)

(** A path of the decoded inventory: one of its roots, or a reference of one *)
Definition listed (v : value) (x : string) (refs : list string) : Prop :=
  ∃ d l row, v = VDict d ∧ dget "paths" d = Some (VList l) ∧ VDict row ∈ l ∧
    dget "path" row = Some (VStr x) ∧ dget "references" row = Some (VList (VStr <$> refs)).
Inductive registered (v : value) : string → Prop :=
  | registered_root d roots x : v = VDict d → dget "roots" d = Some (VList (VStr <$> roots)) → x ∈ roots → registered v x
  | registered_ref x refs y : registered v x → listed v x refs → y ∈ refs → registered v y.

Lemma strings_of_texts l ss : strings_of l = Some ss → l = VStr <$> ss.
Proof.
  revert ss. induction l as [|v l IH]; intros ss; [by intros [= <-]|]. cbn. destruct v; try done.
  destruct (strings_of l) as [ss'|]; [|done]. intros [= <-]. cbn. f_equal. by apply IH.
Qed.
Lemma store_list_Ok v ss : store_list v = Ok ss → v = VList (VStr <$> ss) ∧ forallb store_ok ss = true.
Proof.
  unfold store_list, require. destruct v; try done. destruct (strings_of l) as [ss'|] eqn:E; [|done]. apply strings_of_texts in E. intros H.
  ok_inv. done.
Qed.
Lemma field_Ok d k v : field d k = Ok v → dget k d = Some v.
Proof. unfold field. destruct (dget k d); [by intros [= ->]|done]. Qed.

Definition rows_from (l : list value) (rs : rows) : Prop :=
  NoDup (dkeys rs) ∧ ∀ x r, dget x rs = Some r →
    ∃ d, VDict d ∈ l ∧ dget "path" d = Some (VStr x) ∧ dget "references" d = Some (VList (VStr <$> references r)).

Lemma inventory_row_from l c v c' :
  rows_from l (by_path c) → inventory_row c v = Ok c' → rows_from (v :: l) (by_path c').
Proof.
  intros [N Hr] H. unfold inventory_row in H. destruct v as [| | | | | |d]; try done.
  apply bind_Ok in H as (u & _ & H). apply bind_Ok in H as (p & Hp & H). apply bind_Ok in H as (sz & _ & H).
  apply bind_Ok in H as (h & _ & H). apply bind_Ok in H as (vr & Hvr & H). apply field_Ok in Hp, Hvr.
  destruct p as [| | | |p| |], sz as [| |sz| | | |]; try done.
  apply bind_Ok in H as (u1 & Hn & H). apply bind_Ok in H as (u2 & _ & H). apply bind_Ok in H as (refs & Hrefs & H).
  apply bind_Ok in H as (u3 & _ & H). injection H as <-. cbn [by_path]. apply store_list_Ok in Hrefs as [-> _].
  unfold require in Hn. ok_inv. split.
  - rewrite dkeys_dset, bool_decide_eq_false_2 by done. apply NoDup_app. split_and!; [done| |apply NoDup_singleton].
    by intros x Hx ->%list_elem_of_singleton.
  - intros x r. rewrite dget_dset. case_bool_decide as Hx.
    + intros [= <-]. subst x. exists d. split; [by left|]. done.
    + intros (d' & Hd' & ?)%Hr. exists d'. split; [by right|done].
Qed.

Lemma rows_from_mono l l' rs : (∀ v, v ∈ l → v ∈ l') → rows_from l rs → rows_from l' rs.
Proof. intros Hl [N H]. split; [done|]. intros x r (d & Hd & ?)%H. eauto. Qed.

Lemma inventory_rows_from deadline l l0 c st c' st' :
  rows_from l0 (by_path c) → inventory_rows deadline l c st = (Ok c', st') → rows_from (l0 ++ l) (by_path c').
Proof.
  revert l0 c st. induction l as [|v l IH]; intros l0 c st Hc; cbn [inventory_rows].
  { intros [= <- <-]. by rewrite app_nil_r. }
  intros (u & st1 & _ & H)%M_Ok. apply embed_Ok in H as (c1 & Hr & H).
  eapply IH in H; [|by eapply inventory_row_from]. eapply rows_from_mono; [|exact H].
  intros w. rewrite !elem_of_app, !elem_of_cons. tauto.
Qed.

Lemma push_all_references rs : pushes_references (refs_of rs) (push rs).
Proof. intros v x. unfold push. split_and!; [done|by right|lia]. Qed.

Lemma closure_loop_Ok fuel deadline rs roots reached pending st out st' :
  exploring (refs_of rs) roots reached pending → closure_loop fuel deadline rs reached pending st = (Ok out, st') →
  ∀ x, x ∈ out ↔ reaches (refs_of rs) roots x.
Proof.
  revert reached pending st. induction fuel as [|fuel IH]; intros reached pending st He; destruct pending as [|x pending]; cbn [closure_loop].
  1,3: intros [= <- <-] y; by apply exploring_done.
  { done. }
  intros (u & st1 & _ & H)%M_Ok. destruct (bool_decide (x ∈ reached)) eqn:Ex.
  - eapply IH; [|exact H]. eapply (exploring_step (refs_of rs) (push rs)); [apply push_all_references|exact He|]. unfold closure_step. by rewrite Ex.
  - destruct (dget x rs); [|done]. destruct (closure_step (push rs) reached x pending) as [r' p'] eqn:Es.
    eapply IH; [|exact H]. by eapply (exploring_step (refs_of rs) (push rs)); [apply push_all_references| |].
Qed.

(** Every row of an accepted inventory is registered from its roots. *)
Lemma inventory_registered v deadline st inv st' :
  inventory v deadline st = (Ok inv, st') → ∀ x, x ∈ dkeys (inv_rows inv) → registered v x.
Proof.
  unfold inventory. destruct v as [| | | | | |d]; try done.
  intros (u & _ & H)%embed_Ok. apply embed_Ok in H as (vroots & Hroots & H). apply embed_Ok in H as (vrows & Hrows & H).
  apply embed_Ok in H as (prov & _ & H). apply embed_Ok in H as (roots & Hs & H). apply embed_Ok in H as (u1 & _ & H).
  destruct vrows as [| | | | |l|]; try done. apply embed_Ok in H as (u2 & _ & H). apply M_Ok in H as (c & st1 & Hc & H).
  apply embed_Ok in H as (u3 & _ & H). apply M_Ok in H as (reached & st2 & Hl & H). apply embed_Ok in H as (u4 & Hsub & H).
  apply embed_Ok in H as (shas & _ & H). injection H as <- <-. cbn [inv_rows].
  apply field_Ok in Hroots, Hrows. apply store_list_Ok in Hs as [-> _]. unfold require in Hsub. ok_inv.
  apply (inventory_rows_from _ _ []) in Hc as [N Hfrom]; [|split; [apply NoDup_nil_2|done]].
  assert (∀ x, x ∈ rev roots ↔ x ∈ roots) as Hrev by (intros; by rewrite !list_elem_of_In, <- in_rev).
  pose proof (closure_loop_Ok _ _ _ roots _ _ _ _ _ (exploring_start _ _ _ Hrev) Hl) as Hreach.
  intros x Hx. assert (reaches (refs_of (by_path c)) roots x) as Hr.
  { apply Hreach. by eapply subset_spec. }
  clear Hx. induction Hr as [x Hx|x y Hx IH Hy].
  - by eapply registered_root.
  - unfold refs_of in Hy. destruct (dget x (by_path c)) as [r|] eqn:E; [|by apply elem_of_nil in Hy].
    destruct (Hfrom x r E) as (row & Hin & Hp & Href). eapply registered_ref; [exact IH| |exact Hy]. by exists d, l, row.
Qed.

(** ** Wrappers *)
Lemma hash_input_Ok data v maximum sha : hash_input data v maximum = Ok sha → v = VStr sha ∧ digest data = sha.
Proof. unfold hash_input, require. destruct v; try done. intros H. ok_inv. done. Qed.

Lemma store_root_Ok v root : store_root v = Ok root → ∃ s, v = VStr s ∧ root = root_of s ∧ store_ok root = true ∧ str_all path_chr s = true.
Proof.
  unfold store_root, require, path_text. destruct v as [| | | |s| |]; try done. intros H. ok_inv. eauto 10.
Qed.

Record wrapper_ok (v : value) (x : captured) (b : binding) : Prop := {
  wrapper_script data : dget (role b) (wrapper_bytes x) = Some data → data = fsencode (script (interpreter b) (backend b)) ∧ digest data = sha256 b;
  wrapper_present : is_Some (dget (role b) (wrapper_bytes x));
  wrapper_registered : registered v (backend_root b);
  wrapper_backend : ∃ base, backend b = backend_root b +:+ "/bin/" +:+ base;
  wrapper_plain : str_all path_chr (backend b) = true ∧ str_all path_chr (interpreter b) = true;
}.

Lemma is_text_Some s v : is_text s v = true → v = VStr s.
Proof. unfold is_text. destruct v; try done. intros H. ok_inv. done. Qed.

Lemma check_role_Ok v x facts packages tools inv interp mp wp ws r b :
  (∀ y, y ∈ dkeys (inv_rows inv) → registered v y) → str_all path_chr interp = true →
  check_role facts packages tools inv interp mp (WrapperInputs wp ws (wrapper_bytes x)) r = Ok b →
  role b = r.1 ∧ wrapper_ok v x b.
Proof.
  intros Hreg Hi H. destruct r as [ro [key base]]. unfold check_role in H. apply bind_Ok in H as (vf & _ & H).
  destruct vf as [| | | | | |f]; try done. apply bind_Ok in H as (u & _ & H). apply bind_Ok in H as (vb & _ & H).
  apply bind_Ok in H as (root & Hroot & H). apply bind_Ok in H as (u1 & Hb & H). do 2 (apply bind_Ok in H as (? & _ & H)).
  apply bind_Ok in H as (u2 & _ & H). apply bind_Ok in H as (vp & _ & H). apply bind_Ok in H as (p & _ & H).
  apply bind_Ok in H as (u3 & _ & H). apply bind_Ok in H as (vs & _ & H). cbn [w_bytes] in H.
  destruct (dget ro (wrapper_bytes x)) as [data|] eqn:Ed; [|done]. cbn [mbind res_bind] in H.
  apply bind_Ok in H as (sha & Hsha & H). apply bind_Ok in H as (ex & _ & H). apply bind_Ok in H as (u4 & _ & H).
  apply bind_Ok in H as (u5 & Hscript & H). injection H as <-. split; [done|].
  apply hash_input_Ok in Hsha as [_ Hsha]. apply store_root_Ok in Hroot as (s & -> & _ & _ & Hs).
  unfold require in Hb, Hscript. apply ensure_Ok in Hb, Hscript. apply bool_decide_eq_true in Hscript.
  apply andb_true_iff in Hb as [Hb _]. apply andb_true_iff in Hb as [Hb _]. apply andb_true_iff in Hb as [Hb _].
  apply andb_true_iff in Hb as [Hb Hin]. apply bool_decide_eq_true in Hin. apply is_text_Some in Hb. injection Hb as ->.
  split; cbn.
  - intros data'. rewrite Ed. intros [= <-]. done.
  - by rewrite Ed.
  - by apply Hreg.
  - by exists base.
  - done.
Qed.

Lemma path_avoids c s : c ∈ ["'"%char; " "%char; "010"%char; "034"%char] → str_all path_chr s = true → str_mem c s = false.
Proof.
  intros Hc. unfold str_mem. induction s as [|a s IH]; [done|]. cbn. intros [Ha Hs]%andb_true_iff. rewrite IH by done.
  rewrite orb_false_r. apply bool_decide_eq_false_2. intros ->.
  repeat (apply elem_of_cons in Hc as [->|Hc]; [vm_compute in Ha; discriminate|]). by apply elem_of_nil in Hc.
Qed.

Lemma check_roles_Ok v x deadline check l st bs st' :
  (∀ r b, r ∈ l → check r = Ok b → role b = r.1 ∧ wrapper_ok v x b) →
  check_roles deadline check l st = (Ok bs, st') → role <$> bs = l.*1 ∧ ∀ b, b ∈ bs → wrapper_ok v x b.
Proof.
  revert st bs. induction l as [|r l IH]; intros st bs Hc; cbn [check_roles].
  { intros [= <- <-]. split; [done|]. by intros b ?%elem_of_nil. }
  intros (u & st1 & _ & H)%M_Ok. apply embed_Ok in H as (b & Hb & H). apply M_Ok in H as (bs1 & st2 & H2 & H). injection H as <- <-.
  apply IH in H2 as [H2 H3]; [|intros ? ? Hr; apply Hc; by right]. destruct (Hc r b ltac:(by left) Hb) as [Hr Hw].
  split; [cbn; by rewrite Hr, H2|]. intros b' [->|Hb']%elem_of_cons; [done|by apply H3].
Qed.

Lemma store_ok_plain s : store_ok s = true → str_all path_chr s = true.
Proof.
  unfold store_ok. intros H. ok_inv. apply (startswith_all path_chr STORE_DIR); [done|done|]. cbn [STORE_DIR String.length].
  rewrite (str_all_split _ 32), str_drop_drop. rewrite andb_true_iff. split; [by apply (class_impl nix32_chr path_chr)|].
  apply (startswith_all path_chr "-"); [done|done|]. cbn [String.length]. rewrite str_drop_drop. by apply (class_impl name_chr path_chr).
Qed.

Lemma validate_Ok x st a st' :
  validate_ x st = (Ok a, st') →
  ∃ v, loads (inventory_bytes x) = Ok v ∧ role <$> bindings a = ROLES.*1 ∧ (∀ b, b ∈ bindings a → wrapper_ok v x b) ∧
    digest (companion_bytes x) = companion_sha256 a ∧ digest (native_bytes x) = native_manifest_sha256 a ∧
    digest (inventory_bytes x) = inventory_sha256 a ∧ digest (registered_bytes x) = registered_native_manifest_sha256 a.
Proof.
  unfold validate_. intros (u & st1 & _ & H)%M_Ok.
  apply embed_Ok in H as (csha & Hc & H). apply embed_Ok in H as (nsha & Hn & H). apply embed_Ok in H as (isha & Hi & H).
  do 2 (apply embed_Ok in H as (? & _ & H)). apply embed_Ok in H as (v & Hv & H). do 9 (apply embed_Ok in H as (? & _ & H)).
  apply embed_Ok in H as (facts & _ & H). apply M_Ok in H as (inv & st2 & Hinv & H).
  do 6 (apply embed_Ok in H as (? & _ & H)). apply embed_Ok in H as (vr & _ & H).
  apply embed_Ok in H as (rsha & Hr & H). do 7 (apply embed_Ok in H as (? & _ & H)).
  apply embed_Ok in H as (vbash & _ & H). apply embed_Ok in H as (bash & Hbash & H). apply embed_Ok in H as (? & _ & H).
  apply M_Ok in H as (bs & st3 & Hbs & H). apply embed_Ok in H as (? & _ & H). apply M_Ok in H as (? & st4 & _ & H). injection H as <- <-.
  cbn [bindings companion_sha256 native_manifest_sha256 inventory_sha256 registered_native_manifest_sha256].
  exists v. split; [unfold decode in Hv; by destruct (loads (inventory_bytes x))|].
  apply check_roles_Ok with (v := v) (x := x) in Hbs as [Hroles Hok]; last first.
  { intros r b Hr' Hb. eapply check_role_Ok; [| |exact Hb].
    - by eapply inventory_registered.
    - destruct vbash; try done. unfold require in Hbash. ok_inv. by rewrite str_all_app, store_ok_plain. }
  split_and!; [done|done|..]; by eapply hash_input_Ok.
Qed.

(** C40: when the validator returns, the three capability roles are bound in
    order, and every bound wrapper is exactly the script that executes its
    backend: the captured bytes are the fixed two-line script around the bound
    interpreter and backend, with the bound digest; the backend lies in a store
    object that the decoded registry inventory reaches from its roots through
    declared references; its path and the interpreter's have no quote, blank or
    newline that could change what the script runs.  The digests of the
    authority are those of the captured documents. *)
Theorem wrappers_bound x st a st' :
  validate x st = (Ok a, st') →
  (∃ v, loads (inventory_bytes x) = Ok v ∧ ∀ b, b ∈ bindings a →
     registered v (backend_root b) ∧ (∃ base, backend b = backend_root b +:+ "/bin/" +:+ base)) ∧
  role <$> bindings a = ["dbus_session"; "dbus_daemon"; "keyring"] ∧
  (∀ b, b ∈ bindings a →
     ∃ data, dget (role b) (wrapper_bytes x) = Some data ∧ data = fsencode (script (interpreter b) (backend b)) ∧ digest data = sha256 b ∧
       ∀ c, c ∈ ["'"%char; " "%char; "010"%char; "034"%char] → str_mem c (backend b) = false ∧ str_mem c (interpreter b) = false) ∧
  digest (companion_bytes x) = companion_sha256 a ∧ digest (native_bytes x) = native_manifest_sha256 a ∧
  digest (inventory_bytes x) = inventory_sha256 a ∧ digest (registered_bytes x) = registered_native_manifest_sha256 a.
Proof.
  intros H. unfold validate, try_except in H. destruct (validate_ x st) as [[a1|e] st1] eqn:E; [|by destruct (other_failure e)].
  injection H as -> ->. apply validate_Ok in E as (v & Hv & Hroles & Hok & Hd).
  split; [exists v; split; [done|]; intros b Hb; split; apply (Hok b Hb)|]. split; [exact Hroles|]. split; [|done].
  intros b Hb. destruct (Hok b Hb) as [Hs [data Hdata] _ _ [P1 P2]]. exists data. destruct (Hs data Hdata) as [H1 H2].
  split_and!; [done|done|done|]. intros c Hc. split; by apply path_avoids.
Qed.

(** ** Termination *)
Definition never_starves {A} (m : C A) : Prop := ∀ st st', m st ≠ (Err NoFuel, st').

Lemma starves_bind {A B} (m : C A) (k : A → C B) : never_starves m → (∀ a, never_starves (k a)) → never_starves (m ≫= k).
Proof. intros Hm Hk st st'. unfold mbind, M_bind. destruct (m st) as [[a|e] st1] eqn:E; [apply Hk|]. intros [= -> ->]. by apply Hm in E. Qed.
Lemma starves_embed {A B} (r : res A) (k : A → C B) :
  raises (λ e, e ≠ NoFuel) r → (∀ a, r = Ok a → never_starves (k a)) → never_starves (embed r ≫= k).
Proof. intros Hr Hk st st'. unfold mbind, M_bind, embed. destruct r as [a|e]; [by apply Hk|]. intros [= -> _]. by apply (Hr NoFuel). Qed.

Context (Hnow : ∀ k, (now k).1 ≠ Err NoFuel).

Lemma starves_budget d : never_starves (budget d).
Proof.
  intros st st'. unfold budget. destruct d; try done. unfold mbind, M_bind, call, embed. pose proof (Hnow (env st)) as Hn.
  destruct (now (env st)) as [[t|e] k]; cbn in *; [|congruence]. unfold require, ensure. by destruct (bool_decide _).
Qed.

Lemma starves_closure fuel deadline rs reached pending :
  NoDup (dkeys rs) → (∀ x y, y ∈ refs_of rs x → y ∈ dkeys rs) → (∀ x, x ∈ pending → x ∈ dkeys rs) →
  (steps_left (refs_of rs) (dkeys rs) reached pending <= fuel)%nat → never_starves (closure_loop fuel deadline rs reached pending).
Proof.
  intros HN Hc. revert reached pending. induction fuel as [|fuel IH]; intros reached pending Hp Hf; destruct pending as [|x pending]; cbn [closure_loop];
    try (by intros st st').
  { unfold steps_left in Hf. cbn in Hf. lia. }
  apply starves_bind; [apply starves_budget|]. intros _.
  assert (x ∈ dkeys rs) as Hx by (apply Hp; by left).
  destruct (closure_step (push rs) reached x pending) as [r' p'] eqn:Es.
  pose proof (closure_step_decreases (refs_of rs) (push rs) (dkeys rs) HN _ _ _ _ _ (push_all_references rs) Hx Es) as Hd.
  unfold closure_step in Es. case_bool_decide as Ex.
  - injection Es as <- <-. apply IH; [intros; apply Hp; by right|lia].
  - destruct (dget x rs); [|by intros st st']. injection Es as <- <-. apply IH; [|lia].
    intros y [Hy|Hy]%elem_of_app; [|apply Hp; by right]. apply (Hc x). by apply list_elem_of_In, in_rev, list_elem_of_In in Hy.
Qed.

Lemma closure_fuel_enough rs roots : NoDup (dkeys rs) → steps_left (refs_of rs) (dkeys rs) [] (rev roots) = closure_fuel rs roots.
Proof.
  intros HN. unfold steps_left, closure_fuel, weight. rewrite length_rev. f_equal.
  assert (filter (λ x, x ∉ []) (dkeys rs) = dkeys rs) as ->.
  { clear. induction (dkeys rs) as [|k l IH]; [done|]. rewrite filter_cons_True by by intros ?%elem_of_nil. by rewrite IH. }
  f_equal. unfold dkeys. rewrite <- list_fmap_compose. apply list_fmap_ext. intros i [x r] Hi. cbn. unfold refs_of.
  rewrite (dget_NoDup x rs r HN) by by eapply list_elem_of_lookup_2. done.
Qed.

Lemma raises_require b r : raises (λ e, e ≠ NoFuel) (require b r).
Proof. by apply raises_ensure. Qed.
Lemma raises_field d k : raises (λ e, e ≠ NoFuel) (field d k).
Proof. unfold field. solve_raises. Qed.
Lemma raises_item v k : raises (λ e, e ≠ NoFuel) (getitem v k).
Proof. by apply raises_getitem. Qed.
#[local] Hint Resolve raises_require raises_field raises_item : omux.
Lemma raises_refuse {A} r : raises (λ e, e ≠ NoFuel) (refuse (A := A) r).
Proof. by apply raises_err. Qed.
Lemma raises_store_list v : raises (λ e, e ≠ NoFuel) (store_list v).
Proof. unfold store_list, refuse. solve_raises. Qed.
Lemma raises_nar_hash v : raises (λ e, e ≠ NoFuel) (nar_hash v).
Proof. unfold nar_hash, refuse. solve_raises. Qed.
#[local] Hint Resolve raises_refuse raises_store_list raises_nar_hash : omux.
Lemma raises_row c v : raises (λ e, e ≠ NoFuel) (inventory_row c v).
Proof. unfold inventory_row. solve_raises. Qed.
Lemma raises_provenance r v : raises (λ e, e ≠ NoFuel) (inventory_provenance r v).
Proof. unfold inventory_provenance. solve_raises. Qed.
Lemma raises_hash_input b v m : raises (λ e, e ≠ NoFuel) (hash_input b v m).
Proof. unfold hash_input. solve_raises. Qed.
Lemma raises_store_root v : raises (λ e, e ≠ NoFuel) (store_root v).
Proof. unfold store_root. solve_raises. Qed.
#[local] Hint Resolve raises_row raises_provenance raises_hash_input raises_store_root : omux.
Lemma raises_physical v : raises (λ e, e ≠ NoFuel) (physical v).
Proof. unfold physical. solve_raises. Qed.
#[local] Hint Resolve raises_physical : omux.
Lemma raises_check_role f p t inv i m w r : raises (λ e, e ≠ NoFuel) (check_role f p t inv i m w r).
Proof. unfold check_role. destruct r as [ro [key base]]. solve_raises. Qed.

Lemma starves_rows deadline l c : never_starves (inventory_rows deadline l c).
Proof.
  revert c. induction l as [|v l IH]; intros c; cbn [inventory_rows]; [by intros st st'|].
  apply starves_bind; [apply starves_budget|]. intros _. apply starves_embed; [apply raises_row|]. by intros c' _.
Qed.

Lemma starves_inventory v deadline : never_starves (inventory v deadline).
Proof.
  unfold inventory. destruct v as [| | | | | |d]; try (by intros st st').
  do 6 (apply starves_embed; [unfold inventory_header; eauto with omux|intros ? ?]).
  match goal with |- never_starves (match ?x with _ => _ end) => destruct x; try (by intros st st') end.
  apply starves_embed; [eauto with omux|]. intros _ _. intros st st' Hrun.
  unfold mbind at 1, M_bind at 1 in Hrun. destruct (inventory_rows deadline l (Counts [] 0 0) st) as [[c|e] st1] eqn:Er.
  2: { injection Hrun as -> ->. by apply starves_rows in Er. }
  apply (inventory_rows_from _ _ []) in Er as [N _]; [|split; [apply NoDup_nil_2|done]].
  revert Hrun. apply (starves_embed (require _ _)); [eauto with omux|]. intros [] Hs. unfold require in Hs. ok_inv.
  apply starves_bind; [apply starves_closure|intros reached].
  - done.
  - intros x y Hy. unfold refs_of in Hy. destruct (dget x (by_path c)) as [r|] eqn:E; [|by apply elem_of_nil in Hy].
    apply dget_Some_elem in E. rename select (forallb _ (by_path c) = true) into Hall. rewrite forallb_forall in Hall.
    specialize (Hall _ (proj1 (list_elem_of_In _ _) E)). by eapply subset_spec.
  - intros x Hx. apply list_elem_of_In, in_rev, list_elem_of_In in Hx. by eapply subset_spec.
  - by rewrite closure_fuel_enough.
  - apply starves_embed; [eauto with omux|]. intros _ _. apply starves_embed; [eauto with omux|]. intros shas _. by intros st2 st2'.
Qed.

(** The validator ends on every input, on a clock that answers. *)
Lemma validate_ends x : never_starves (validate x).
Proof.
  assert (never_starves (validate_ x)) as Hv.
  { unfold validate_. apply starves_bind; [apply starves_budget|intros _].
    assert (∀ b, raises (λ e, e ≠ NoFuel) (decode b)) as Hd by (intros; unfold decode; solve_raises).
    assert (∀ ks v r, raises (λ e, e ≠ NoFuel) (dict_with ks v r)) as Hdw by (intros; unfold dict_with; solve_raises).
    do 16 (apply starves_embed; [try unfold companion_header; try unfold tool_roots; solve_raises|intros ? ?]).
    apply starves_bind; [apply starves_inventory|intros inv].
    do 18 (apply starves_embed; [try unfold companion_inventory; try unfold registered_manifest; try unfold controller_manifest; solve_raises|intros ? ?]).
    apply starves_bind; [|intros bs; apply starves_embed; [eauto with omux|]; intros _ _;
      apply starves_bind; [apply starves_budget|]; intros _; by intros st st'].
    generalize ROLES. intros l. induction l as [|r l IH]; cbn [check_roles]; [by intros st st'|].
    apply starves_bind; [apply starves_budget|intros _]. apply starves_embed; [apply raises_check_role|intros b _].
    apply starves_bind; [exact IH|]. intros bs. by intros st st'. }
  intros st st'. unfold validate, try_except. destruct (validate_ x st) as [[a|e] st1] eqn:E; [done|].
  destruct (other_failure e); [done|]. intros [= -> ->]. by apply Hv in E.
Qed.
End Validator.

(** ** A captured example: one store object with everything in it *)
Definition ex_root : string := STORE_DIR +:+ "00000000000000000000000000000000-all".
Definition ex_interp : string := ex_root +:+ "/bin/bash".
Definition ex_sha (data : bytes) : value := VStr (digest data).
Definition ex_companion_bytes : bytes := fsencode "companion".
Definition ex_native_bytes : bytes := fsencode "native".
Definition ex_inventory_bytes : bytes := fsencode "inventory".
Definition ex_script (basename : string) : bytes := fsencode (script ex_interp (ex_root +:+ "/bin/" +:+ basename)).
Definition ex_tools : value := VDict
  [("python", VStr (ex_root +:+ "/bin/python3")); ("systemd_run", VStr (ex_root +:+ "/bin/systemd-run")); ("systemctl", VStr (ex_root +:+ "/bin/systemctl"));
   ("bazel", VStr (ex_root +:+ "/bin/bazel")); ("closure", VStr ex_root); ("bootstrap_closure", VStr ex_root); ("zig_sdk", VStr ex_root); ("java_home", VStr ex_root)].
Definition ex_native : value :=
  let out := VDict [("out", VStr ex_root)] in
  VDict [("system", VStr "x86_64-linux");
         ("packages", VDict [("bash", out); ("python", out); ("bazel_jdk", out); ("dbus", out); ("gnome_keyring", out)]);
         ("tools", VDict (("systemctl", VStr (ex_root +:+ "/bin/systemctl"))
            :: ((λ r, (r.2.1, VStr (ex_root +:+ "/bin/" +:+ r.2.2))) <$> ROLES)))].
Definition ex_manifest_facts : value :=
  VDict [("sha256", ex_sha ex_native_bytes); ("registeredObject", VStr ex_root); ("registeredManifestSha256", ex_sha ex_native_bytes)].
Definition ex_companion : value := VDict (
  [("schemaVersion", VInt 1); ("scope", VStr "yoga-controller-registry-and-wrapper-v1"); ("selectionSha256", ex_sha []);
   ("inventorySha256", ex_sha ex_inventory_bytes); ("controllerTools", ex_tools); ("nativeManifest", ex_manifest_facts);
   ("bootstrapManifest", ex_manifest_facts);
   ("wrappers", VDict ((λ r, (r.1, VDict [("sha256", ex_sha (ex_script r.2.2)); ("backend", VStr (ex_root +:+ "/bin/" +:+ r.2.2));
      ("backendRoot", VStr ex_root); ("interpreter", VStr ex_interp); ("abi", VStr "omux-native-capability-wrapper-v1")])) <$> ROLES));
   ("rootCount", VInt 1); ("registeredPaths", VInt 1); ("registeredNarBytes", VInt 5); ("deadlineMonotonicNs", VInt 9);
   ("registrySnapshotVerified", VBool true); ("selectedInputBytesVerified", VBool true)]
  ++ ((λ k, (k, VBool false)) <$> FALSE_FIELDS)).
Definition ex_float (_ : SpecFloat.spec_float) : string := "".
Definition ex_inventory : value := VDict
  [("schemaVersion", VInt 1); ("system", VStr "x86_64-linux"); ("mode", VStr "local-sqlite-readonly-snapshot");
   ("roots", VList [VStr ex_root]);
   ("paths", VList [VDict [("path", VStr ex_root); ("narHash", VStr ("sha256:" +:+ digest [])); ("narSize", VInt 5); ("references", VList [VStr ex_root])]]);
   ("provenance", VDict [("rootsSha256", ex_sha (canonical ex_float (VList [VStr ex_root])));
      ("inputSha256", VDict ([("selection", ex_sha []); ("native_manifest", ex_sha ex_native_bytes); ("bootstrap_manifest", ex_sha ex_native_bytes)]
         ++ ((λ r, ("wrapper/" +:+ r.1, ex_sha (ex_script r.2.2))) <$> ROLES)))]);
   ("contentRehashed", VBool false); ("realized", VBool false); ("published", VBool false)].
Definition ex_loads (data : bytes) : res value :=
  if bool_decide (data = ex_companion_bytes) then Ok ex_companion
  else if bool_decide (data = ex_native_bytes) then Ok ex_native
  else if bool_decide (data = ex_inventory_bytes) then Ok ex_inventory
  else Err (ValueError "Expecting value").
Definition ex_now (k : unit) : res Z * unit := (Ok 100, k).
Definition ex_captured : captured := Captured ex_companion_bytes (ex_sha ex_companion_bytes) ex_native_bytes (ex_sha ex_native_bytes) ex_native_bytes
  ex_inventory_bytes (ex_sha ex_inventory_bytes) (VStr "/srv/m/native.json")
  (VDict ((λ r, (r.1, VStr ("/srv/m/tool_wrappers/" +:+ r.2.1))) <$> ROLES)) (VDict ((λ r, (r.1, ex_sha (ex_script r.2.2))) <$> ROLES))
  ((λ r, (r.1, ex_script r.2.2)) <$> ROLES) ex_tools (VInt 200).
Abbreviation ex_run := (validate ex_now ex_loads ex_float ex_captured (World tt [])).

Example ex_run_accepted : is_ok ex_run.1 = true.
Proof. vm_compute. reflexivity. Qed.

Lemma wrappers_bound_witness : ∃ a, ex_run.1 = Ok a ∧ role <$> bindings a = ["dbus_session"; "dbus_daemon"; "keyring"].
Proof.
  assert (is_ok ex_run.1 = true) as Hok by (vm_compute; reflexivity).
  destruct ex_run as [[a|e] st'] eqn:E; [|discriminate Hok]. exists a. split; [reflexivity|].
  destruct (wrappers_bound ex_now ex_loads ex_float ex_captured (World tt []) a st' E) as (_ & H & _). exact H.
Defined.
End WrapperAuthority.
