(* ===== verification/NativeStderr.v ===== *)
(** * Closed categories for private diagnostics: [delivery/native_cli_stderr.py]

    [classify] maps the standard error of a private command line run to one of
    a fixed list of category names, so that nothing of the diagnostics
    themselves is reported.  [json.loads] with its object hook is a parameter:
    what it returns or raises for the given bytes. *)
From S2P Require Import Prelude PyBytes PyString PyValue PyText PyScan.
From Stdlib Require Import Ascii.
Local Open Scope Z_scope.

Module NativeStderr.

Definition MAX_BYTES : Z := 1024 * 1024.

Definition CATEGORIES : list string := [
  "stderr-empty"; "stderr-instance-mismatch";
  "stderr-safe-allocator-leak-prefix"; "stderr-zig-error-prefix";
  "stderr-mutation-guidance"; "stderr-unrecognized";
  "stderr-colored-safe-allocator-leak-prefix"; "stderr-colored-zig-error-prefix";
  "stderr-safe-allocator-leak-after-preamble"; "stderr-zig-error-after-preamble";
  "stderr-zig-warning-prefix"; "stderr-colored-zig-warning-prefix";
  "stderr-json-other"; "stderr-unrecognized-escape-leading";
  "stderr-unrecognized-ascii-leading"; "stderr-unrecognized-nonascii-leading";
  "stderr-zig-info-prefix"; "stderr-colored-zig-info-prefix";
  "stderr-zig-debug-prefix"; "stderr-colored-zig-debug-prefix";
  "stderr-scoped-zig-error-prefix"; "stderr-colored-scoped-zig-error-prefix";
  "stderr-scoped-zig-warning-prefix"; "stderr-colored-scoped-zig-warning-prefix";
  "stderr-scoped-zig-info-prefix"; "stderr-colored-scoped-zig-info-prefix";
  "stderr-scoped-zig-debug-prefix"; "stderr-colored-scoped-zig-debug-prefix";
  "stderr-zig-memory-map-fallback-format"; "stderr-colored-zig-memory-map-fallback-format";
  "stderr-unrecognized-whitespace-leading";
  "stderr-shell-init-current-directory-format";
  "stderr-shell-working-directory-format";
  "stderr-loader-version-information-format";
  "stderr-loader-symbol-size-format" ].

Definition ESC : byte := x1b.
Definition COLOR_CODES : list bytes :=
  (λ s, ESC :: fsencode s) <$> ["[0m"; "[1m"; "[2m"; "[31m"; "[32m"; "[33m"; "[35m"].

(** [[A-Za-z_][A-Za-z0-9_]{0,63}], read greedily: the characters that may
    follow it in the patterns are not of the class, so the run is the match. *)
Definition ident_start (b : byte) : bool :=
  let c := Ascii.ascii_of_byte b in is_lower c || is_upper c || bool_decide (b = x5f).
Definition ident_char (b : byte) : bool := ident_start b || is_digit (Ascii.ascii_of_byte b).
Definition identifier (l : bytes) : option (bytes * bytes) :=
  let '(name, rest) := span ident_char l in
  match name with
  | b :: _ => if ident_start b && bool_decide (zlen name <= 64) then Some (name, rest) else None
  | [] => None
  end.

(** [SCOPED_PREFIX.match(l)]: the level it captures *)
Definition scoped_at (l : bytes) (level : string) : bool :=
  bstartswith (fsencode (level +:+ "(")) l &&
  match identifier (drop (String.length level + 1) l) with
  | Some (_, rest) => bstartswith (fsencode "): ") rest
  | None => false
  end.
Definition SCOPED_CATEGORIES : list (string * (string * string)) := [
  ("error", ("stderr-scoped-zig-error-prefix", "stderr-colored-scoped-zig-error-prefix"));
  ("warning", ("stderr-scoped-zig-warning-prefix", "stderr-colored-scoped-zig-warning-prefix"));
  ("info", ("stderr-scoped-zig-info-prefix", "stderr-colored-scoped-zig-info-prefix"));
  ("debug", ("stderr-scoped-zig-debug-prefix", "stderr-colored-scoped-zig-debug-prefix")) ].
Definition scoped_prefix (l : bytes) : option (string * string) :=
  snd <$> find (λ row, scoped_at l row.1) SCOPED_CATEGORIES.

Definition fallback_head : bytes := fsencode "warning: memory mapping failed with ".
Definition fallback_tail : bytes := fsencode ", falling back to file operations" ++ [x0a].
(** [MEMORY_MAP_FALLBACK.fullmatch(l)] *)
Definition memory_map_fallback (l : bytes) : bool :=
  bstartswith fallback_head l &&
  match identifier (drop (length fallback_head) l) with
  | Some (_, rest) => bool_decide (rest = fallback_tail)
  | None => false
  end.

Definition SHELL_CWD_PREFIXES : list (string * string) := [
  ("shell-init: error retrieving current directory: getcwd: cannot access parent directories: ",
   "stderr-shell-init-current-directory-format");
  ("job-working-directory: error retrieving current directory: getcwd: cannot access parent directories: ",
   "stderr-shell-working-directory-format") ].

Definition printable (l : bytes) : bool := forallb (in_range 32 126) l.
Definition field (l : bytes) : bool :=
  bool_decide (0 < zlen l) && bool_decide (zlen l <= 4096) && printable l.

Definition version_marker : bytes := fsencode ": no version information available (required by ".
Definition symbol_marker : bytes := fsencode ": Symbol `".
Definition symbol_suffix : bytes := fsencode "' has different size in shared object, consider re-linking".

(** [executable: library: no version information available (required by user)] *)
Definition loader_version (line : bytes) : bool :=
  match bpartition version_marker line with
  | Some (head, tail) =>
      bendswith (fsencode ")") tail &&
      match bpartition (fsencode ": ") head with
      | Some (executable, library) => field executable && field library && field (take (length tail - 1) tail)
      | None => false
      end
  | None => false
  end.

Definition loader_symbol (line : bytes) : bool :=
  match bpartition symbol_marker line with
  | Some (executable, tail) =>
      bendswith symbol_suffix tail && field executable && field (take (length tail - length symbol_suffix) tail)
  | None => false
  end.

Definition platform_stderr_shape (diagnostics : bytes) : option string :=
  match bpartition [x0a] diagnostics with
  | None => None
  | Some (line, _) =>
      if bool_decide (zlen line > 3 * 4096 + 128) || negb (printable line) then None else
      match find (λ row, bstartswith (fsencode row.1) line && bool_decide (zlen line > zlen (fsencode row.1))) SHELL_CWD_PREFIXES with
      | Some (_, category) => Some category
      | None =>
          if loader_version line then Some "stderr-loader-version-information-format"
          else if loader_symbol line then Some "stderr-loader-symbol-size-format"
          else None
      end
  end.

(** One row of the two tables of prefixes: its plain and its decorated category *)
Definition PREFIXES_1 : list (string * (string * string)) := [
  ("error(SafeAllocator): leaked ", ("stderr-safe-allocator-leak-prefix", "stderr-colored-safe-allocator-leak-prefix"));
  ("error: ", ("stderr-zig-error-prefix", "stderr-colored-zig-error-prefix"));
  ("warning: ", ("stderr-zig-warning-prefix", "stderr-colored-zig-warning-prefix")) ].
Definition PREFIXES_2 : list (string * (string * string)) := [
  ("info: ", ("stderr-zig-info-prefix", "stderr-colored-zig-info-prefix"));
  ("debug: ", ("stderr-zig-debug-prefix", "stderr-colored-zig-debug-prefix")) ].
Definition first_prefix (table : list (string * (string * string))) (l : bytes) : option (string * string) :=
  snd <$> find (λ row, bstartswith (fsencode row.1) l) table.

Definition shade (colored : bool) (c : string * string) : string := if colored then c.2 else c.1.

Definition mismatch : bytes := fsencode "Omux artifact instance mismatch" ++ [x0a].

Definition guidance_of (operation_id params : value) : value :=
  VDict [("operation_id", operation_id); ("status", VStr "unresolved");
         ("query", VDict [("method", VStr "operation.status"); ("params", params)]);
         ("message", VStr "Query this operation in the same daemon installation before repeating the action. The CLI does not replay it.")].
Definition is_guidance (guidance params : value) : bool :=
  match params with
  | VDict d => match dget "operation_id" d with Some id => py_eq guidance (guidance_of id params) | None => false end
  | _ => false
  end.

(** What the [except] clause around [json.loads] catches *)
Definition undecodable (e : exn) : bool :=
  match e with ValueError _ | UnicodeError | RecursionError => true | _ => false end.

(** The category of nonempty bytes that are no JSON *)
Definition leading (diagnostics : bytes) : string :=
  match diagnostics with
  | [] => "stderr-unrecognized"
  | b :: _ =>
      if bool_decide (b = ESC) then "stderr-unrecognized-escape-leading"
      else if bool_decide (b ∈ [x20; x09; x0d; x0a]) then "stderr-unrecognized-whitespace-leading"
      else match platform_stderr_shape diagnostics with
      | Some platform => platform
      | None => if bool_decide (byte_Z b < 128) then "stderr-unrecognized-ascii-leading" else "stderr-unrecognized-nonascii-leading"
      end
  end.

Section Classify.
Context (loads : bytes → res value).

Definition visible_of (diagnostics : bytes) : bytes := foldl (λ l code, bremove code l) diagnostics COLOR_CODES.

(** [None]: the diagnostics are neither [bytes] nor [bytearray]. *)
Definition classify (diagnostics : option bytes) (params : value) : res string :=
  match diagnostics with
  | None => Ok "stderr-unrecognized"
  | Some diagnostics =>
  if bool_decide (zlen diagnostics > MAX_BYTES) then Ok "stderr-unrecognized" else
  if bool_decide (diagnostics = []) then Ok "stderr-empty" else
  if bool_decide (diagnostics = mismatch) then Ok "stderr-instance-mismatch" else
  let visible := visible_of diagnostics in
  let colored := negb (bool_decide (visible = diagnostics)) in
  if memory_map_fallback visible then
    Ok (shade colored ("stderr-zig-memory-map-fallback-format", "stderr-colored-zig-memory-map-fallback-format")) else
  match first_prefix PREFIXES_1 visible with
  | Some c => Ok (shade colored c)
  | None =>
  if bcontains (x0a :: fsencode "error(SafeAllocator): leaked ") visible then Ok "stderr-safe-allocator-leak-after-preamble" else
  if bcontains (x0a :: fsencode "error: ") visible then Ok "stderr-zig-error-after-preamble" else
  match first_prefix PREFIXES_2 visible with
  | Some c => Ok (shade colored c)
  | None =>
  match scoped_prefix visible with
  | Some c => Ok (shade colored c)
  | None =>
  match loads diagnostics with
  | Err e => if undecodable e then Ok (leading diagnostics) else Err e
  | Ok guidance => if is_guidance guidance params then Ok "stderr-mutation-guidance" else Ok "stderr-json-other"
  end end end end end.
End Classify.

(** ** What a category says about the diagnostics *)
(** The categories whose meaning is stated below *)
Definition SPECIAL : list string :=
  ["stderr-empty"; "stderr-instance-mismatch"; "stderr-mutation-guidance";
   "stderr-loader-version-information-format"; "stderr-loader-symbol-size-format";
   "stderr-zig-memory-map-fallback-format"].

Definition is_ident (l : bytes) : Prop :=
  forallb ident_char l = true ∧ 1 <= zlen l <= 64 ∧ match l with b :: _ => ident_start b = true | [] => False end.

Record meaning (loads : bytes → res value) (d : option bytes) (params : value) (c : string) : Prop := {
  me_closed : c ∈ CATEGORIES;
  me_empty : c = "stderr-empty" ↔ d = Some [];
  me_mismatch : c = "stderr-instance-mismatch" ↔ d = Some mismatch;
  me_guidance : c = "stderr-mutation-guidance" →
    ∃ l ps id v, d = Some l ∧ params = VDict ps ∧ dget "operation_id" ps = Some id ∧
      loads l = Ok v ∧ py_eq v (guidance_of id params) = true;
  me_version : c = "stderr-loader-version-information-format" →
    ∃ executable library user rest, Forall (λ f, field f = true) [executable; library; user] ∧
      d = Some (executable ++ fsencode ": " ++ library ++ version_marker ++ user ++ fsencode ")" ++ x0a :: rest);
  me_symbol : c = "stderr-loader-symbol-size-format" →
    ∃ executable symbol rest, Forall (λ f, field f = true) [executable; symbol] ∧
      d = Some (executable ++ symbol_marker ++ symbol ++ symbol_suffix ++ x0a :: rest);
  me_fallback : c = "stderr-zig-memory-map-fallback-format" →
    ∃ name, is_ident name ∧ d = Some (fallback_head ++ name ++ fallback_tail);
}.

Lemma identifier_Some l name rest : identifier l = Some (name, rest) → l = name ++ rest ∧ is_ident name.
Proof.
  unfold identifier. destruct (span ident_char l) as [n r] eqn:E. apply span_spec in E as (-> & Hn & _).
  destruct n as [|b n]; [done|]. destruct (ident_start b && _) eqn:Hb; [|done]. intros [= <- <-]. ok_inv.
  split; [done|]. split_and!; [done|rewrite zlen_cons; pose proof (zlen_nonneg n); lia|done|done].
Qed.

Lemma fallback_spec l : memory_map_fallback l = true → ∃ name, is_ident name ∧ l = fallback_head ++ name ++ fallback_tail.
Proof.
  unfold memory_map_fallback. intros [[t ->]%bstartswith_spec H]%andb_true_iff. rewrite drop_app_length in H.
  destruct (identifier t) as [[name rest]|] eqn:E; [|done]. apply bool_decide_eq_true in H as ->.
  apply identifier_Some in E as [-> Hn]. eauto.
Qed.

Lemma take_minus_app {A} (l m : list A) : take (length (l ++ m) - length m) (l ++ m) = l.
Proof. rewrite length_app, Nat.add_sub. apply take_app_length. Qed.

Lemma loader_version_spec line : loader_version line = true →
  ∃ executable library user, Forall (λ f, field f = true) [executable; library; user] ∧
    line = executable ++ fsencode ": " ++ library ++ version_marker ++ user ++ fsencode ")".
Proof.
  unfold loader_version. destruct (bpartition version_marker line) as [[head tail]|] eqn:E1; [|done].
  apply bpartition_Some in E1 as ->. intros [Ht H]%andb_true_iff.
  destruct (bpartition (fsencode ": ") head) as [[exe lib]|] eqn:E2; [|done]. apply bpartition_Some in E2 as ->.
  apply bendswith_spec in Ht. apply andb_true_iff in H as [[He Hl]%andb_true_iff Hu].
  exists exe, lib, (take (length tail - 1) tail). split; [by repeat constructor|].
  rewrite Ht at 1. change (length (fsencode ")")) with 1%nat. by rewrite <-!(assoc_L (++)).
Qed.

Lemma loader_symbol_spec line : loader_symbol line = true →
  ∃ executable symbol, Forall (λ f, field f = true) [executable; symbol] ∧
    line = executable ++ symbol_marker ++ symbol ++ symbol_suffix.
Proof.
  unfold loader_symbol. destruct (bpartition symbol_marker line) as [[exe tail]|] eqn:E1; [|done].
  apply bpartition_Some in E1 as ->. intros [[Ht He]%andb_true_iff Hs]%andb_true_iff. apply bendswith_spec in Ht.
  exists exe, (take (length tail - length symbol_suffix) tail). split; [by repeat constructor|]. by rewrite <-Ht.
Qed.

(** A category of a table is one of the closed list, and none of the special ones. *)
Definition ordinary (c : string) : bool := bool_decide (c ∈ CATEGORIES) && bool_decide (c ∉ SPECIAL).
Definition ordinary_table (table : list (string * (string * string))) : bool :=
  forallb (λ row, ordinary row.2.1 && ordinary row.2.2) table.

Lemma find_ordinary f table c colored :
  ordinary_table table = true → snd <$> find f table = Some c → ordinary (shade colored c) = true.
Proof.
  intros Ht (row & Hf & ->)%fmap_Some. apply find_some in Hf as [Hin _].
  unfold ordinary_table in Ht. rewrite forallb_forall in Ht. apply Ht in Hin as [H1 H2]%andb_true_iff. by destruct colored.
Qed.

Section Meaning.
Context (loads : bytes → res value) (l : bytes) (params : value) (Hl : l ≠ []) (Hm : l ≠ mismatch).

(** Membership in a closed list of names, by evaluation *)
Local Ltac listed := by apply (bool_decide_unpack _); vm_compute.

Lemma meaning_ordinary c : ordinary c = true → meaning loads (Some l) params c.
Proof.
  intros [Hc%bool_decide_eq_true Hs%bool_decide_eq_true]%andb_true_iff.
  split; [done|split|split|..]; intros E; try congruence; subst; destruct Hs; listed.
Qed.

Lemma meaning_guidance v :
  loads l = Ok v → is_guidance v params = true → meaning loads (Some l) params "stderr-mutation-guidance".
Proof.
  intros Hv Hg. split; [listed|split; congruence|split; congruence|..|done|done|done]. intros _.
  unfold is_guidance in Hg. destruct params as [| | | | | |ps]; try done. destruct (dget "operation_id" ps) as [id|] eqn:E; [|done].
  exists l, ps, id, v. done.
Qed.

Lemma meaning_platform c : platform_stderr_shape l = Some c → meaning loads (Some l) params c.
Proof.
  unfold platform_stderr_shape. destruct (bpartition [x0a] l) as [[line rest]|] eqn:E; [|done].
  apply bpartition_Some in E. destruct (_ || _); [done|]. destruct (find _ _) as [[p category]|] eqn:Ef.
  - intros [= <-]. apply find_some in Ef as [Hin _]. apply meaning_ordinary.
    destruct Hin as [[= _ <-]|[[= _ <-]|[]]]; by vm_compute.
  - destruct (loader_version line) eqn:Ev; [|destruct (loader_symbol line) eqn:Es; [|done]]; intros [= <-].
    + split; [listed|split; congruence|split; congruence|done|..|done|done]. intros _.
      apply loader_version_spec in Ev as (exe & lib & user & Hf & ->). exists exe, lib, user, rest.
      split; [done|]. rewrite E. by rewrite <-!(assoc_L (++)).
    + split; [listed|split; congruence|split; congruence|done|done|..|done]. intros _.
      apply loader_symbol_spec in Es as (exe & sym & Hf & ->). exists exe, sym, rest.
      split; [done|]. rewrite E. by rewrite <-!(assoc_L (++)).
Qed.

Lemma meaning_fallback colored :
  colored = negb (bool_decide (visible_of l = l)) → memory_map_fallback (visible_of l) = true →
  meaning loads (Some l) params
    (shade colored ("stderr-zig-memory-map-fallback-format", "stderr-colored-zig-memory-map-fallback-format")).
Proof.
  intros -> Hf. case_bool_decide as Hv; cbn [negb shade snd fst]; [|by apply meaning_ordinary].
  split; [listed|split; congruence|split; congruence|done|done|done|]. intros _. rewrite Hv in Hf.
  apply fallback_spec in Hf as (name & Hn & Hl'). exists name. by rewrite <-Hl'.
Qed.

End Meaning.

Lemma meaning_leading loads l params : l ≠ [] → l ≠ mismatch → meaning loads (Some l) params (leading l).
Proof.
  intros Hl Hm. unfold leading. destruct l as [|b r] eqn:E; [done|]. rewrite <-E in *.
  repeat (case_bool_decide; [by apply meaning_ordinary|]).
  destruct (platform_stderr_shape l) eqn:Ep; [by apply meaning_platform|].
  case_bool_decide; by apply meaning_ordinary.
Qed.

Lemma classify_meaning loads l params c :
  l ≠ [] → l ≠ mismatch → classify loads (Some l) params = Ok c → meaning loads (Some l) params c.
Proof.
  intros Hl Hm. unfold classify. case_bool_decide as Hb; [intros [= <-]; by apply meaning_ordinary|].
  rewrite (bool_decide_false (l = [])), (bool_decide_false (l = mismatch)) by done.
  destruct (memory_map_fallback (visible_of l)) eqn:Ef; [intros [= <-]; by apply meaning_fallback|].
  destruct (first_prefix PREFIXES_1 _) as [c1|] eqn:E1; [intros [= <-]; by eapply meaning_ordinary, find_ordinary, E1|].
  destruct (bcontains _ _); [intros [= <-]; by apply meaning_ordinary|].
  destruct (bcontains _ _); [intros [= <-]; by apply meaning_ordinary|].
  destruct (first_prefix PREFIXES_2 _) as [c2|] eqn:E2; [intros [= <-]; by eapply meaning_ordinary, find_ordinary, E2|].
  destruct (scoped_prefix _) as [c3|] eqn:E3; [intros [= <-]; by eapply meaning_ordinary, find_ordinary, E3|].
  destruct (loads l) as [v|e] eqn:Ev.
  - destruct (is_guidance v params) eqn:Eg; intros [= <-]; [by eapply meaning_guidance|by apply meaning_ordinary].
  - destruct (undecodable e); [|done]. intros [= <-]. by apply meaning_leading.
Qed.

Lemma classify_total loads d params :
  (∀ l e, d = Some l → loads l = Err e → undecodable e = true) → ∃ c, classify loads d params = Ok c.
Proof.
  intros He. destruct d as [l|]; [|by eexists]. unfold classify.
  repeat case_match; try by eexists. rewrite (He l e) in *; done.
Qed.


(** A loader diagnostic that is no JSON *)
Definition ex_line : bytes :=
  fsencode "omux: libz.so.1: no version information available (required by omux)" ++ [x0a].
Definition ex_loads (l : bytes) : res value := Err (ValueError "Expecting value").

End NativeStderr.
