(* ===== verification/GitObjects.v ===== *)
(** * Git objects and their export: [tools/codex_git_inputs.py]

    The part of the producer that reads raw Git objects: their identities, the
    tree format, the walk that turns a commit into an export inventory, the
    check of symbolic links, and the framed proof of the trees it read.

    Everything runs under a budget, which is represented by its [tick] method:
    it may refuse (raise) at any call.  The reader of objects is a parameter
    too, a computation that returns a kind and bytes or raises.  Both act on a
    world [W] that the definitions do not look into. *)
From S2P Require Import Prelude PyBytes PyString PyValue PyText PyScan Sha256 Sha1 Effect.
From Stdlib Require Import Ascii.
Local Open Scope Z_scope.

Module GitObjects.

Definition MAX_BLOB : Z := 64 * 1024 * 1024.
Definition MAX_TREE : Z := 8 * 1024 * 1024.
Definition MAX_PROOF : Z := 16 * 1024 * 1024.
Definition MAX_SOURCE : Z := 512 * 1024 * 1024.
Definition MAX_ENTRIES : Z := 20000.
Definition MAGIC : bytes := fsencode "OMUX-GIT-TREE-PROOF-1" ++ [x0a].

Definition require (good : bool) (msg : string) : res unit := ensure good (ValueError msg).

(** [OID.fullmatch(s)] *)
Definition is_oid (s : string) : bool := bool_decide (String.length s = 40%nat) && str_all is_lower_hex s.

Definition object_id (kind : string) (v : bytes) : res string :=
  _ ← require (bool_decide (kind ∈ ["commit"; "tree"; "blob"])) "unsupported Git object type";
  Ok (Sha256.hex (Sha1.sha1 (fsencode kind ++ x20 :: fsencode (dec_print (zlen v)) ++ x00 :: v))).

(** A byte that [component] and [resolve_links] refuse *)
Definition control (b : byte) : bool := bool_decide (byte_Z b < 32) || bool_decide (b = x7f).
Definition component (name : bytes) : res string :=
  _ ← require (bool_decide (0 < zlen name) && bool_decide (zlen name <= 100)
               && bool_decide (name ∉ [fsencode "."; fsencode ".."; fsencode ".git"])
               && negb (existsb control name) && negb (bcontains [x2f] name) && negb (bcontains [x5c] name))
        "unsupported Git path component";
  decode_utf8 name.

Definition MODES : list string := ["40000"; "100644"; "100755"; "120000"].

(** Bytes are compared as Python does, byte by byte. *)
Definition bytes_le (a b : bytes) : Prop := String.le (fsdecode a) (fsdecode b).
#[export] Instance bytes_le_dec a b : Decision (bytes_le a b).
Proof. unfold bytes_le. apply _. Defined.

Definition entry : Type := string * string * string.   (** mode, name, object *)

Record row := Row {
  path : string; git_mode : string; git_oid : string; bytes_ : Z; sha256 : option string }.
#[export] Instance row_eq_dec : EqDecision row.
Proof. solve_decision. Defined.

(** The locals of [snapshot_tree] that [walk] changes *)
Record snap := Snap {
  proof : list (string * (string * bytes)); records : list row; blobs : list (string * bytes); source_bytes : Z }.

(** One entry of a tree object at the cursor: the row with its sorting key, and
    the next cursor *)
Definition tree_entry (v : bytes) (names : list string) (cursor : Z) : res (entry * bytes * Z) :=
  let space := bfind x20 v cursor in
  let end_ := bfind x00 v (space + 1) in
  _ ← require (bool_decide (space > cursor) && bool_decide (end_ > space) && bool_decide (end_ + 21 <= zlen v)) "malformed Git tree";
  mode ← decode_ascii (slice cursor (space - cursor) v);
  _ ← require (bool_decide (mode ∈ MODES)) "unsupported Git mode or submodule";
  let raw_name := slice (space + 1) (end_ - (space + 1)) v in
  name ← component raw_name;
  _ ← require (bool_decide (name ∉ names)) "duplicate Git tree name";
  Ok ((mode, name, Sha256.hex (slice (end_ + 1) 20 v)),
      raw_name ++ (if bool_decide (mode = "40000") then [x2f] else [x00]), end_ + 21).

(** [re.search(rb"(?:^|\s)[-!]?filter(?:=|\s|$)", payload)] *)
Definition is_blank (b : byte) : bool := bool_decide (b ∈ [x20; x09; x0a; x0d; x0b; x0c]).
Definition filter_word : bytes := fsencode "filter".
Definition filter_at (l : bytes) : bool :=
  let l := match l with b :: l' => if bool_decide (b ∈ [x2d; x21]) then l' else l | [] => [] end in
  bstartswith filter_word l &&
  match drop (length filter_word) l with [] => true | b :: _ => bool_decide (b = x3d) || is_blank b end.
Fixpoint filter_after_blank (l : bytes) : bool :=
  match l with [] => false | b :: l => (is_blank b && filter_at l) || filter_after_blank l end.
Definition filter_search (payload : bytes) : bool := filter_at payload || filter_after_blank payload.

Definition path_le (a b : row) : Prop := String.le (path a) (path b).
#[export] Instance path_le_dec a b : Decision (path_le a b).
Proof. unfold path_le. apply _. Defined.

Definition proof_le (a b : string * (string * bytes)) : Prop := String.le a.1 b.1.
#[export] Instance proof_le_dec a b : Decision (proof_le a b).
Proof. unfold proof_le. apply _. Defined.

(** The total length of the trees read so far *)
Definition proof_size (p : list (string * (string * bytes))) : Z := foldr (λ o n, zlen o.2.2 + n) 0 p.

Section Git.
Context {W E : Type}.
(** [budget.tick(count)] *)
Definition budget : Type := Z → M W E unit.

(** [tick(budget)] *)
Definition tick (b : option budget) : M W E unit := match b with Some t => t 0 | None => mret tt end.

Fixpoint tree_loop (fuel : nat) (b : option budget) (v : bytes) (rows : list (entry * bytes)) (cursor : Z) : M W E (list (entry * bytes)) :=
  if bool_decide (cursor < zlen v) then
    match fuel with
    | O => throw NoFuel
    | S fuel =>
        _ ← tick b;
        '(e, key, next) ← embed (tree_entry v ((λ r, r.1.1.2) <$> rows) cursor);
        tree_loop fuel b v (rows ++ [(e, key)]) next
    end
  else mret rows.

Definition tree_entries (v : bytes) (b : option budget) : M W E (list entry) :=
  _ ← tick b;
  _ ← embed (require (bool_decide (zlen v <= MAX_TREE)) "tree object exceeds bound");
  rows ← tree_loop (length v) b v [] 0;
  _ ← embed (require (bool_decide (rows.*2 = merge_sort bytes_le rows.*2)) "Git tree order differs");
  mret rows.*1.

Definition checked_object (reader : string → M W E (string * bytes)) (oid expected : string) (b : budget) : M W E bytes :=
  _ ← embed (require (is_oid oid) "invalid Git object identity");
  _ ← b 0;
  '(kind, v) ← reader oid;
  _ ← embed (require (bool_decide (kind = expected)
                      && bool_decide (zlen v <= if bool_decide (kind = "blob") then MAX_BLOB else MAX_TREE)) "object type or length differs");
  _ ← b (zlen v);
  id ← embed (object_id kind v);
  _ ← embed (require (bool_decide (id = oid)) "Git object digest differs");
  mret v.

(** ** Symbolic links *)
Definition join (parts : list string) : string := str_join "/" parts.

Definition link_step (entries : list (string * row)) (b : option budget) (parts : list string) (part : string) : M W E (list string) :=
  _ ← tick b;
  _ ← match parts with
      | [] => mret tt
      | _ =>
          embed (match dget (join parts) entries with
                 | Some parent => require (bool_decide (git_mode parent = "40000")) "symlink traverses non-directory"
                 | None => require false "symlink traverses non-directory"
                 end)
      end;
  if bool_decide (part ∈ [""; "."]) then mret parts
  else if bool_decide (part = "..") then
    _ ← embed (require (negb (bool_decide (parts = []))) "escaping symlink");
    mret (take (length parts - 1) parts)
  else
    _ ← embed (component (fsencode part));
    mret (parts ++ [part]).

Definition check_prefix (entries : list (string * row)) (parts : list string) (b : option budget) (_ : unit) (n : nat) : M W E unit :=
  _ ← tick b;
  embed (match dget (join (take n parts)) entries with
         | Some referenced => require (negb (bool_decide (git_mode referenced = "120000"))) "nested symlink unsupported"
         | None => require false "nested symlink unsupported"
         end).

Definition resolve_link (entries : list (string * row)) (bl : list (string * bytes)) (b : option budget) (_ : unit) (r : row) : M W E unit :=
  _ ← tick b;
  if negb (bool_decide (git_mode r = "120000")) then mret tt else
  v ← embed (match dget (git_oid r) bl with Some v => Ok v | None => Err KeyError end);
  _ ← embed (require (bool_decide (0 < zlen v) && bool_decide (zlen v <= 100) && negb (existsb control v)) "unsupported symlink payload");
  target ← embed (decode_utf8 v);
  _ ← embed (require (negb (startswith "/" target) && negb (str_mem "\" target)) "escaping symlink");
  let parents := str_split "/" (path r) in
  parts ← forE (link_step entries b) (str_split "/" target) (take (length parents - 1) parents);
  _ ← embed (require (negb (bool_decide (parts = [])) && bool_decide (join parts ∈ dkeys entries)) "dangling or root symlink unsupported");
  forE (check_prefix entries parts b) (seq 1 (length parts)) tt.

(** [{row["path"]: row for row in records}] *)
Definition by_path (rs : list row) : list (string * row) := foldl (λ d r, dset (path r) r d) [] rs.

Definition resolve_links (rs : list row) (bl : list (string * bytes)) (b : option budget) : M W E unit :=
  _ ← tick b;
  forE (resolve_link (by_path rs) bl b) rs tt.

(** ** The export of a tree *)
Section Snapshot.
Context (reader : string → M W E (string * bytes)) (b : budget).

(** One entry of a tree; [descend] is the recursive call of [walk]. *)
Definition walk_entry (descend : string → string → snap → M W E snap) (prefix : string) (st : snap) (e : entry) : M W E snap :=
  let '(mode, name, oid) := e in
  _ ← b 0;
  let p := prefix +:+ name in
  _ ← embed (require (bool_decide (zlen (fsencode p) <= 240) && bool_decide (zlen (records st) < MAX_ENTRIES)) "export inventory exceeds bound");
  if bool_decide (mode = "40000") then
    descend oid (p +:+ "/") (Snap (proof st) (records st ++ [Row p mode oid 0 None]) (blobs st) (source_bytes st))
  else
    payload ← checked_object reader oid "blob" b;
    let total := source_bytes st + zlen payload in
    _ ← embed (require (bool_decide (total <= MAX_SOURCE)) "source export exceeds bound");
    _ ← (if bool_decide (name = ".gitattributes") then embed (require (negb (filter_search payload)) "Git filters unsupported") else mret tt);
    mret (Snap (proof st) (records st ++ [Row p mode oid (zlen payload) (Some (Sha256.hexdigest payload))])
               (dset oid payload (blobs st)) total).

Fixpoint walk (fuel : nat) (tree prefix : string) (ancestors : list string) (st : snap) : M W E snap :=
  match fuel with
  | O => throw NoFuel
  | S fuel =>
      _ ← embed (require (bool_decide (zlen ancestors < 64) && bool_decide (tree ∉ ancestors)) "nested or cyclic Git tree");
      v ← checked_object reader tree "tree" b;
      let proof' := dset tree ("tree", v) (proof st) in
      _ ← embed (require (bool_decide (proof_size proof' <= MAX_PROOF)) "object proof exceeds bound");
      es ← tree_entries v (Some b);
      forE (walk_entry (λ oid pre st, walk fuel oid pre (tree :: ancestors) st) prefix) es
           (Snap proof' (records st) (blobs st) (source_bytes st))
  end.

(** The ancestors are distinct and fewer than 64: the recursion is at most 65 deep. *)
Definition walk_fuel : nat := 65.

Definition snapshot_tree (root_tree : string) : M W E (string * list row * list (string * (string * bytes)) * list (string * bytes)) :=
  st ← walk walk_fuel root_tree "" [] (Snap [] [] [] 0);
  _ ← b 0;
  let rs := merge_sort path_le (records st) in
  _ ← b 0;
  _ ← embed (require (bool_decide (length (remove_dups (path <$> rs)) = length rs)) "duplicate export path");
  _ ← resolve_links rs (blobs st) (Some b);
  mret (root_tree, rs, proof st, blobs st).

(** The witness of the commit that names the tree *)
Record commit_witness := Commit { c_oid : string; c_tree_oid : string; c_bytes : Z; c_sha256 : string }.

Definition tree_line (l : bytes) : option string :=
  if bstartswith (fsencode "tree ") l && is_oid (fsdecode (drop 5 l)) then Some (fsdecode (drop 5 l)) else None.

Definition snapshot (commit : string) : M W E (string * list row * list (string * (string * bytes)) * list (string * bytes) * commit_witness) :=
  v ← checked_object reader commit "commit" b;
  let first := match bpartition [x0a] v with Some (h, _) => h | None => v end in
  root_tree ← embed (match tree_line first with Some t => Ok t | None => Err (ValueError "commit root tree differs") end);
  s ← snapshot_tree root_tree;
  mret (s, Commit commit root_tree (zlen v) (Sha256.hexdigest v)).
End Snapshot.

(** ** The framed proof *)
Definition frame_object (b : option budget) (result : bytes) (o : string * (string * bytes)) : M W E bytes :=
  let '(oid, (kind, v)) := o in
  _ ← tick b;
  _ ← embed (ok ← Ok (bool_decide (kind = "tree")) &&? (id ← object_id kind v; Ok (bool_decide (id = oid)));
             require ok "proof identity differs");
  raw ← embed (match Sha1.fromhex oid with Some l => Ok l | None => Err (ValueError "non-hexadecimal number found in fromhex() arg") end);
  let result := result ++ raw ++ fsencode "t" ++ encode BE 8 (zlen v) ++ v in
  _ ← embed (require (bool_decide (zlen result <= MAX_PROOF)) "proof framing exceeds bound");
  mret result.

Definition proof_bytes (p : list (string * (string * bytes))) (b : option budget) : M W E bytes :=
  _ ← tick b;
  result ← forE (frame_object b) (merge_sort proof_le p) MAGIC;
  _ ← tick b;
  mret result.

(** One framed object at the cursor: its identity, its bytes and the next cursor *)
Definition proof_object (v : bytes) (cursor : Z) (last : string) : res (string * bytes * Z) :=
  _ ← require (bool_decide (cursor + 29 <= zlen v)) "truncated proof header";
  let oid := Sha256.hex (slice cursor 20 v) in
  let code := slice (cursor + 20) 1 v in
  let length_ := decode BE (slice (cursor + 21) 8 v) in
  let cursor := cursor + 29 in
  _ ← require (bool_decide (code = fsencode "t") && bool_decide (length_ <= MAX_TREE)
               && bool_decide (cursor + length_ <= zlen v) && String.ltb last oid) "invalid or duplicate proof object";
  let payload := slice cursor length_ v in
  id ← object_id "tree" payload;
  _ ← require (bool_decide (id = oid)) "proof object digest differs";
  Ok (oid, payload, cursor + length_).

Fixpoint proof_loop (fuel : nat) (b : option budget) (v : bytes) (result : list (string * (string * bytes))) (cursor : Z) (last : string)
    : M W E (list (string * (string * bytes))) :=
  if bool_decide (cursor < zlen v) then
    match fuel with
    | O => throw NoFuel
    | S fuel =>
        _ ← tick b;
        '(oid, payload, next) ← embed (proof_object v cursor last);
        let result := dset oid ("tree", payload) result in
        _ ← embed (require (bool_decide (zlen result <= MAX_ENTRIES + 1)) "proof object count exceeds bound");
        proof_loop fuel b v result next oid
    end
  else mret result.

Definition parse_proof (v : bytes) (b : option budget) : M W E (list (string * (string * bytes))) :=
  _ ← tick b;
  _ ← embed (require (bool_decide (zlen v <= MAX_PROOF) && bstartswith MAGIC v) "proof format differs");
  proof_loop (length v) b v [] (zlen MAGIC) "".
End Git.

End GitObjects.
