(* ===== verification/GitExport.v ===== *)
(** * What the Git export guarantees

    The tree format as an encoder and the facts a tree has to satisfy, the
    inverse laws of [tree_entries], of [parse_proof] and [proof_bytes], and the
    theorem that an accepted snapshot is exactly the inventory that the objects
    of the reader denote. *)
From S2P Require Import Prelude PyBytes PyString PyValue PyText PyScan Sha256 Sha1 Effect GitObjects.
From Stdlib Require Import Ascii.
Local Open Scope Z_scope.

Module GitExport.
Import GitObjects.

(** ** The tree format *)
Definition entry_bytes (e : entry) : bytes :=
  fsencode e.1.1 ++ x20 :: fsencode e.1.2 ++ x00 :: default [] (Sha1.fromhex e.2).
Definition tree_bytes (l : list entry) : bytes := concat (entry_bytes <$> l).
Definition entry_key (e : entry) : bytes := fsencode e.1.2 ++ (if bool_decide (e.1.1 = "40000") then [x2f] else [x00]).

Record entry_ok (e : entry) : Prop := {
  eo_mode : e.1.1 ∈ MODES;
  eo_name : component (fsencode e.1.2) = Ok e.1.2;
  eo_oid : ∃ raw, length raw = 20%nat ∧ e.2 = Sha256.hex raw;
}.
Record tree_ok (l : list entry) : Prop := {
  to_entries : Forall entry_ok l;
  to_names : NoDup ((λ e : entry, e.1.2) <$> l);
  to_order : entry_key <$> l = merge_sort bytes_le (entry_key <$> l);
}.

Lemma component_Ok raw name : component raw = Ok name → fsencode name = raw ∧ (x00 ∉ raw) ∧ (x2f ∉ raw) ∧ 0 < zlen raw.
Proof.
  unfold component, require, decode_utf8. intros H. apply bind_Ok in H as (u & Hc & Hd). apply ensure_Ok in Hc. ok_inv.
  destruct (utf8_valid raw); [|done]. injection Hd as <-. rewrite fsencode_fsdecode. split_and!; [done|..|done].
  - intros Hin. assert (control x00 = true) as Hz by by vm_compute.
    match goal with H : existsb _ raw = false |- _ => rewrite (proj1 (existsb_false _ _) H _ Hin) in Hz; discriminate Hz end.
  - intros (h & t & ->)%list_elem_of_split.
    pose proof (bcontains_intro [x2f] h t) as Hc. cbn [app] in Hc. congruence.
Qed.

Lemma decode_ascii_Ok bs s : decode_ascii bs = Ok s → fsencode s = bs.
Proof. unfold decode_ascii. destruct (forallb _ _); [|done]. intros [= <-]. apply fsencode_fsdecode. Qed.

Lemma mode_chars mode : mode ∈ MODES → (x20 ∉ fsencode mode) ∧ 0 < zlen (fsencode mode) ∧ decode_ascii (fsencode mode) = Ok mode.
Proof.
  unfold MODES. rewrite !elem_of_cons, elem_of_nil. intros Hm.
  repeat destruct Hm as [->|Hm]; try done; (split_and!; [|done|done]); by apply (bool_decide_unpack _); vm_compute.
Qed.

Lemma zlen_drop {A} n (l : list A) : 0 <= n <= zlen l → zlen (drop (Z.to_nat n) l) = zlen l - n.
Proof. unfold zlen. intros. rewrite length_drop. lia. Qed.

Lemma drop_split {A} n (l m r : list A) : 0 <= n → drop (Z.to_nat n) l = m ++ r → drop (Z.to_nat (n + zlen m)) l = r.
Proof.
  intros Hn H. replace (Z.to_nat (n + zlen m)) with (Z.to_nat n + length m)%nat by (unfold zlen; lia).
  rewrite <-drop_drop, H. apply drop_app_length.
Qed.

(** [find] from the cursor, in terms of what is left there *)
Lemma bfind_at b v start h t : 0 <= start → drop (Z.to_nat start) v = h ++ b :: t → b ∉ h → bfind b v start = start + zlen h.
Proof. intros Hs Hd Hn. unfold bfind. rewrite Hd. by apply index_from_app. Qed.

Lemma bfind_Some b v start i : 0 <= start → bfind b v start = i → start <= i →
  ∃ h t, drop (Z.to_nat start) v = h ++ b :: t ∧ (b ∉ h) ∧ i = start + zlen h.
Proof. intros Hs Hi Hle. unfold bfind in Hi. destruct (index_from_spec _ _ _ _ Hs Hi) as [[-> _]|?]; [lia|done]. Qed.

Lemma slice_at_drop n v h t : drop (Z.to_nat n) v = h ++ t → slice n (zlen h) v = h.
Proof. unfold slice, zlen. intros ->. rewrite Nat2Z.id. apply take_app_length. Qed.

Lemma tree_entry_sound v names cursor e key next :
  0 <= cursor → tree_entry v names cursor = Ok (e, key, next) →
  drop (Z.to_nat cursor) v = entry_bytes e ++ drop (Z.to_nat next) v ∧ next = cursor + zlen (entry_bytes e) ∧
  entry_ok e ∧ key = entry_key e ∧ (e.1.2 ∉ names) ∧ next <= zlen v.
Proof.
  intros Hc. unfold tree_entry. set (space := bfind x20 v cursor). set (end_ := bfind x00 v (space + 1)).
  intros (u & Hg%ensure_Ok & H)%bind_Ok. rewrite !andb_true_iff, !bool_decide_eq_true in Hg. destruct Hg as [[Hg1 Hg2] Hg3].
  destruct (bfind_Some x20 v cursor space Hc eq_refl ltac:(lia)) as (m & t1 & Hd1 & Hm & Hs).
  pose proof (drop_split cursor v (m ++ [x20]) t1 Hc) as Hd2. rewrite <-(assoc_L (++)) in Hd2. specialize (Hd2 Hd1).
  rewrite zlen_app, zlen_cons, zlen_nil in Hd2. replace (cursor + (zlen m + (1 + 0))) with (space + 1) in Hd2 by lia.
  destruct (bfind_Some x00 v (space + 1) end_ ltac:(lia) eq_refl ltac:(lia)) as (n & t2 & Hd3 & Hn & He).
  assert (slice cursor (space - cursor) v = m) as Hsl1.
  { replace (space - cursor) with (zlen m) by lia. by eapply slice_at_drop. }
  assert (slice (space + 1) (end_ - (space + 1)) v = n) as Hsl2.
  { replace (end_ - (space + 1)) with (zlen n) by lia. by eapply slice_at_drop. }
  rewrite Hsl1, Hsl2 in *.
  apply bind_Ok in H as (mode & Hmode & H). apply bind_Ok in H as (? & Hmm & H).
  apply bind_Ok in H as (name & Hname & H). apply bind_Ok in H as (? & Hnn & H). apply ensure_Ok, bool_decide_eq_true in Hmm, Hnn.
  injection H as <- <- <-. apply decode_ascii_Ok in Hmode. pose proof (component_Ok _ _ Hname) as (Hfn & _ & _ & _).
  pose proof (drop_split (space + 1) v (n ++ [x00]) t2 ltac:(lia)) as Hd4. rewrite <-(assoc_L (++)) in Hd4. specialize (Hd4 Hd3).
  rewrite zlen_app, zlen_cons, zlen_nil in Hd4. replace (space + 1 + (zlen n + (1 + 0))) with (end_ + 1) in Hd4 by lia.
  assert (zlen t2 = zlen v - (end_ + 1)) as Ht2 by (rewrite <-Hd4; apply zlen_drop; lia).
  pose proof (zlen_nonneg m). pose proof (zlen_nonneg n).
  assert (slice (end_ + 1) 20 v = take 20 t2) as Hraw by (unfold slice; by rewrite Hd4).
  assert (length (take 20 t2) = 20%nat) as Hlen by (rewrite length_take; unfold zlen in *; lia).
  assert (entry_bytes (mode, name, Sha256.hex (slice (end_ + 1) 20 v)) = m ++ x20 :: n ++ x00 :: take 20 t2) as Heb.
  { unfold entry_bytes. cbn [fst snd]. by rewrite Hmode, Hfn, Hraw, Sha1.fromhex_hex. }
  assert (zlen (entry_bytes (mode, name, Sha256.hex (slice (end_ + 1) 20 v))) = end_ + 21 - cursor) as Hzl.
  { rewrite Heb. rewrite zlen_app, zlen_cons, zlen_app, zlen_cons. unfold zlen at 3. rewrite Hlen. lia. }
  split_and!.
  - rewrite Hd1. rewrite <-Hd2 in *. rewrite Hd3, Heb. rewrite <-(assoc_L (++)). cbn. rewrite <-(assoc_L (++)). cbn.
    do 2 f_equal. f_equal. f_equal. rewrite <-(take_drop 20 t2) at 1. f_equal.
    rewrite <-Hd4, drop_drop. f_equal. lia.
  - lia.
  - split; cbn [fst snd]; [done|by rewrite Hfn|exists (take 20 t2); by rewrite Hraw].
  - unfold entry_key. cbn [fst snd]. by rewrite Hfn.
  - done.
  - lia.
Qed.

Lemma tree_entry_complete v names cursor e rest :
  0 <= cursor → drop (Z.to_nat cursor) v = entry_bytes e ++ rest → entry_ok e → e.1.2 ∉ names →
  tree_entry v names cursor = Ok (e, entry_key e, cursor + zlen (entry_bytes e)).
Proof.
  intros Hc Hd [Hm Hn (raw & Hraw & Ho)] Hnew. destruct e as [[mode name] oid]. cbn [fst snd] in *. subst oid.
  destruct (mode_chars mode Hm) as (Hsp & Hmp & Hmd). destruct (component_Ok _ _ Hn) as (_ & Hz & _ & _).
  unfold entry_bytes in *. cbn [fst snd] in *. rewrite Sha1.fromhex_hex in *. cbn [default] in *. unfold id in *.
  set (m := fsencode mode) in *. set (n := fsencode name) in *.
  rewrite <-!(assoc_L (++)) in Hd. cbn in Hd. rewrite <-!(assoc_L (++)) in Hd. cbn in Hd.
  assert (cursor <= zlen v) as Hcv.
  { destruct (decide (cursor <= zlen v)); [done|]. rewrite drop_ge in Hd by (unfold zlen in *; lia). by destruct m. }
  assert (zlen raw = 20) as Hr by (unfold zlen; lia). pose proof (zlen_nonneg n). pose proof (zlen_nonneg rest).
  pose proof (f_equal zlen Hd) as Hlen. rewrite zlen_drop in Hlen by lia.
  rewrite !zlen_app, !zlen_cons, !zlen_app, !zlen_cons, ?zlen_app, Hr in *.
  pose proof (drop_split cursor v (m ++ [x20]) (n ++ x00 :: raw ++ rest) Hc) as Hd2. rewrite <-(assoc_L (++)) in Hd2. specialize (Hd2 Hd).
  pose proof (drop_split (cursor + zlen (m ++ [x20])) v (n ++ [x00]) (raw ++ rest) ltac:(pose proof (zlen_nonneg (m ++ [x20])); lia)) as Hd3. rewrite <-(assoc_L (++)) in Hd3. specialize (Hd3 Hd2).
  rewrite !zlen_app, !zlen_cons, !zlen_nil in *.
  unfold tree_entry. rewrite (bfind_at x20 v cursor m _ Hc Hd Hsp).
  rewrite (bfind_at x00 v (cursor + zlen m + 1) n (raw ++ rest)); [|lia|by rewrite <-Hd2; do 2 f_equal; lia|done].
  replace (cursor + zlen m - cursor) with (zlen m) by lia.
  replace (cursor + zlen m + 1 + zlen n - (cursor + zlen m + 1)) with (zlen n) by lia.
  rewrite (slice_at_drop cursor v m _ Hd). rewrite (slice_at_drop (cursor + zlen m + 1) v n (x00 :: raw ++ rest)); last first.
  { rewrite <-Hd2. do 2 f_equal. lia. }
  replace (slice _ 20 v) with raw; last first.
  { symmetry. rewrite <-Hr. apply (slice_at_drop _ v raw rest). rewrite <-Hd3. do 2 f_equal. lia. }
  rewrite !bool_decide_true by lia. cbn [andb require ensure mbind res_bind]. rewrite Hmd. cbn [mbind res_bind].
  rewrite (bool_decide_true (mode ∈ MODES)) by done. fold n in Hn. cbn [require ensure mbind res_bind]. rewrite Hn. cbn [mbind res_bind].
  rewrite (bool_decide_true (name ∉ names)) by done. unfold entry_key. cbn [fst snd require ensure mbind res_bind]. fold n. do 2 f_equal. lia.
Qed.

Lemma zlen_entry_bytes e : entry_ok e → 0 < zlen (entry_bytes e).
Proof.
  intros [Hm _ _]. destruct (mode_chars _ Hm) as (_ & ? & _). unfold entry_bytes. rewrite zlen_app.
  pose proof (zlen_nonneg (x20 :: fsencode e.1.2 ++ x00 :: default [] (Sha1.fromhex e.2))). lia.
Qed.

Lemma tree_bytes_cons e l : tree_bytes (e :: l) = entry_bytes e ++ tree_bytes l.
Proof. done. Qed.

Section Trees.
Context {W E : Type}.

Lemma tree_loop_sound fuel (b : option (budget (W := W) (E := E))) v rows cursor :
  0 <= cursor <= zlen v → NoDup ((λ r : entry * bytes, r.1.1.2) <$> rows) →
  returns (tree_loop fuel b v rows cursor) (λ rows', ∃ es,
    rows' = rows ++ ((λ e, (e, entry_key e)) <$> es) ∧ drop (Z.to_nat cursor) v = tree_bytes es ∧
    Forall entry_ok es ∧ NoDup ((λ r : entry * bytes, r.1.1.2) <$> rows')).
Proof.
  revert rows cursor. induction fuel as [|fuel IH]; intros rows cursor Hc Hn; cbn [tree_loop];
    case_bool_decide as Hlt; try apply returns_throw.
  1, 3: apply returns_ret; exists []; rewrite app_nil_r; split_and!; [done| |constructor|done];
    apply drop_ge; unfold zlen in *; lia.
  apply returns_skip; intros _. eapply returns_bind; [apply returns_embed; intros a Ha; exact Ha|].
  intros [[e key] next] He. cbn in He. apply tree_entry_sound in He as (Hd & Hnx & He & -> & Hnew & Hle); [|lia].
  pose proof (zlen_entry_bytes e He). eapply returns_conseq; [apply IH; [lia|]|].
  - rewrite fmap_app. cbn. apply NoDup_app. split_and!; [done|set_solver|apply NoDup_singleton].
  - intros rows' (es & -> & Hd' & Hes & Hnd). exists (e :: es). split_and!.
    + by rewrite <-(assoc_L (++)).
    + by rewrite tree_bytes_cons, <-Hd', Hd.
    + by constructor.
    + done.
Qed.

(** What [tree_entries] returns is the list of entries the bytes encode. *)
Lemma tree_entries_sound v (b : option (budget (W := W) (E := E))) :
  returns (tree_entries v b) (λ l, v = tree_bytes l ∧ tree_ok l ∧ zlen v <= MAX_TREE).
Proof.
  unfold tree_entries. apply returns_skip; intros _.
  eapply returns_bind; [apply returns_embed; intros u Hu; exact Hu|]. intros u Hu%ensure_Ok%bool_decide_eq_true.
  eapply returns_bind; [apply tree_loop_sound; [unfold zlen; lia|constructor]|].
  intros rows (es & -> & Hd & Hes & Hn). rewrite app_nil_l in *.
  eapply returns_bind; [apply returns_embed; intros x Hx; exact Hx|]. intros x Hx%ensure_Ok%bool_decide_eq_true.
  apply returns_ret. rewrite <-!list_fmap_compose in *. cbn in Hd, Hx |- *.
  change (fst ∘ (λ e, (e, entry_key e))) with (id : entry → entry). rewrite list_fmap_id.
  change (snd ∘ (λ e, (e, entry_key e))) with entry_key in Hx. by split_and!.
Qed.

(** Conversely, without a budget, every well-formed tree of acceptable size is
    read back. *)
Lemma tree_loop_complete fuel v rows es cursor st :
  0 <= cursor → drop (Z.to_nat cursor) v = tree_bytes es → Forall entry_ok es → (length es <= fuel)%nat →
  NoDup (((λ r : entry * bytes, r.1.1.2) <$> rows) ++ ((λ e : entry, e.1.2) <$> es)) →
  tree_loop (W := W) (E := E) fuel None v rows cursor st = (Ok (rows ++ ((λ e, (e, entry_key e)) <$> es)), st).
Proof.
  intros Hc Hd Hes. revert rows cursor fuel Hc Hd. induction Hes as [|e es He Hes IH]; intros rows cursor fuel Hc Hd Hf Hn.
  - assert (¬ cursor < zlen v).
    { intros Hlt. apply (f_equal length) in Hd. rewrite length_drop in Hd. cbn in Hd. unfold zlen in *. lia. }
    destruct fuel; cbn [tree_loop]; rewrite bool_decide_false by done; by rewrite app_nil_r.
  - destruct fuel as [|fuel]; [cbn in Hf; lia|]. pose proof (zlen_entry_bytes e He). cbn [tree_loop].
    assert (cursor < zlen v).
    { apply (f_equal length) in Hd. rewrite length_drop, tree_bytes_cons, length_app in Hd. unfold zlen in *. lia. }
    rewrite bool_decide_true by done. cbn [tick]. rewrite fmap_cons in Hn.
    unfold mbind, M_bind, mret, M_ret, embed. cbn beta iota. rewrite tree_bytes_cons in Hd.
    rewrite (tree_entry_complete v _ cursor e (tree_bytes es)); [|done|done|done|]; last first.
    { apply NoDup_app in Hn as (_ & Hn & _). intros Hin. apply (Hn _ Hin). constructor. }
    rewrite (IH (rows ++ [(e, entry_key e)])).
    + by rewrite <-(assoc_L (++)).
    + lia.
    + by apply (drop_split cursor v (entry_bytes e)).
    + cbn in Hf. lia.
    + rewrite fmap_app, <-(assoc_L (++)). done.
Qed.

Lemma length_tree_bytes l : Forall entry_ok l → (length l <= length (tree_bytes l))%nat.
Proof.
  induction 1 as [|e l He _ IH]; [done|]. rewrite tree_bytes_cons, length_app. pose proof (zlen_entry_bytes e He).
  unfold zlen in *. cbn. lia.
Qed.

Lemma tree_entries_complete l st :
  tree_ok l → zlen (tree_bytes l) <= MAX_TREE → tree_entries (W := W) (E := E) (tree_bytes l) None st = (Ok l, st).
Proof.
  intros [He Hn Ho] Hz. unfold tree_entries, tick, mbind, M_bind, embed. unfold mret, M_ret. cbn beta iota.
  rewrite bool_decide_true by done. cbn [require ensure].
  rewrite (tree_loop_complete _ _ [] l); [|lia|done|done|by apply length_tree_bytes|done].
  rewrite app_nil_l, <-!list_fmap_compose. change (snd ∘ (λ e, (e, entry_key e))) with entry_key.
  rewrite bool_decide_true by done. cbn [require ensure]. change (fst ∘ (λ e, (e, entry_key e))) with (id : entry → entry).
  by rewrite list_fmap_id.
Qed.
End Trees.

(** A tree object denotes one list of entries. *)
Lemma tree_bytes_inj l1 l2 : Forall entry_ok l1 → Forall entry_ok l2 → tree_bytes l1 = tree_bytes l2 → l1 = l2.
Proof.
  intros H1. revert l2. induction H1 as [|e1 l1 He1 _ IH]; intros l2 H2 Heq.
  - destruct H2 as [|e2 l2 He2 _]; [done|]. rewrite tree_bytes_cons in Heq. pose proof (zlen_entry_bytes e2 He2).
    apply (f_equal zlen) in Heq. rewrite zlen_app in Heq. pose proof (zlen_nonneg (tree_bytes l2)). change (zlen (tree_bytes [])) with 0 in Heq. lia.
  - destruct H2 as [|e2 l2 He2 H2].
    { pose proof (zlen_entry_bytes e1 He1). rewrite tree_bytes_cons in Heq. apply (f_equal zlen) in Heq. rewrite zlen_app in Heq.
      pose proof (zlen_nonneg (tree_bytes l1)). change (zlen (tree_bytes [])) with 0 in Heq. lia. }
    rewrite !tree_bytes_cons in Heq.
    pose proof (tree_entry_complete (entry_bytes e1 ++ tree_bytes l1) [] 0 e1 _ ltac:(lia) eq_refl He1 (not_elem_of_nil _)) as E1.
    pose proof (tree_entry_complete (entry_bytes e1 ++ tree_bytes l1) [] 0 e2 (tree_bytes l2) ltac:(lia) Heq He2 (not_elem_of_nil _)) as E2.
    rewrite E1 in E2. injection E2 as -> _ _. f_equal. apply IH; [done|]. by apply app_inv_head in Heq.
Qed.

(** ** The framed proof *)
Abbreviation object := (string * (string * bytes))%type.
Definition frame (o : object) : bytes := default [] (Sha1.fromhex o.1) ++ fsencode "t" ++ encode BE 8 (zlen o.2.2) ++ o.2.2.
Definition frames (os : list object) : bytes := concat (frame <$> os).
Record object_ok (o : object) : Prop := {
  oo_kind : o.2.1 = "tree";
  oo_id : object_id "tree" o.2.2 = Ok o.1;
  oo_size : zlen o.2.2 <= MAX_TREE;
}.
(** The identities increase strictly from [last] on. *)
Fixpoint increasing (last : string) (os : list object) : Prop :=
  match os with [] => True | o :: os => String.ltb last o.1 = true ∧ increasing o.1 os end.

Lemma str_compare_refl s : String.compare s s = Eq.
Proof. induction s as [|a s IH]; [done|]. cbn. unfold Ascii.compare. by rewrite N.compare_refl. Qed.

Lemma ltb_spec s t : String.ltb s t = true ↔ String.le s t ∧ s ≠ t.
Proof.
  unfold String.ltb, String.le, String.leb. pose proof (String.compare_eq_iff s t) as He.
  destruct (String.compare s t) eqn:E; cbn.
  - split; [done|]. intros [_ Hn]. destruct Hn. by apply He.
  - split; [|done]. intros _. split; [done|]. intros ->. by rewrite str_compare_refl in E.
  - split; [done|]. by intros [[] _].
Qed.

Lemma object_id_hex kind v oid : object_id kind v = Ok oid → ∃ raw, length raw = 20%nat ∧ oid = Sha256.hex raw.
Proof. unfold object_id. intros (u & _ & [= <-])%bind_Ok. eexists. split; [apply Sha1.length_sha1|done]. Qed.

Lemma object_frame o : object_ok o → ∃ raw, length raw = 20%nat ∧ o.1 = Sha256.hex raw ∧
  frame o = raw ++ fsencode "t" ++ encode BE 8 (zlen o.2.2) ++ o.2.2.
Proof.
  intros [_ Hid _]. destruct (object_id_hex _ _ _ Hid) as (raw & Hr & Ho). exists raw. split_and!; [done|done|].
  unfold frame. by rewrite Ho, Sha1.fromhex_hex.
Qed.

Lemma zlen_frame o : object_ok o → zlen (frame o) = 29 + zlen o.2.2.
Proof.
  intros (raw & Hr & _ & ->)%object_frame. rewrite !zlen_app, zlen_encode. change (zlen (fsencode "t")) with 1. unfold zlen at 1. lia.
Qed.

Lemma increasing_le last os o : increasing last os → o ∈ os → String.le last o.1 ∧ last ≠ o.1.
Proof.
  revert last. induction os as [|o' os IH]; intros last; [by intros _ ?%elem_of_nil|]. cbn [increasing].
  intros [Hlt Hi]. apply ltb_spec in Hlt as [Hle Hne]. intros [->|Hin]%elem_of_cons; [done|].
  destruct (IH _ Hi Hin) as [Hle2 Hne2]. split; [by etrans|]. intros ->. apply Hne. by apply (anti_symm String.le).
Qed.

Lemma increasing_sorted last os : increasing last os → StronglySorted proof_le os ∧ NoDup (dkeys os).
Proof.
  revert last. induction os as [|o os IH]; intros last; [by repeat constructor|]. cbn [increasing]. intros [_ Hi].
  destruct (IH _ Hi) as [Hs Hn]. split; constructor; try done.
  - apply Forall_forall. intros x Hx. by apply (increasing_le _ _ _ Hi Hx).
  - intros (x & Hk & Hx)%list_elem_of_fmap. by destruct (increasing_le _ _ _ Hi Hx).
Qed.

#[export] Instance proof_le_total : Total proof_le.
Proof. intros a b. unfold proof_le. apply (total String.le). Qed.
#[export] Instance proof_le_trans : Transitive proof_le.
Proof. intros a b c. unfold proof_le. apply transitivity. Qed.

(** Sorting the items of a dictionary is determined by the keys. *)
Lemma sort_items (p q : list object) : StronglySorted proof_le q → q ≡ₚ p → NoDup (dkeys p) → merge_sort proof_le p = q.
Proof.
  intros Hq Hp Hn. eapply StronglySorted_unique_strong; [|apply StronglySorted_merge_sort; apply _|done|by rewrite merge_sort_Permutation].
  intros x1 x2 H1 H2 Hle1 Hle2. rewrite merge_sort_Permutation in H1. rewrite Hp in H2.
  destruct x1 as [k1 v1], x2 as [k2 v2]. assert (k1 = k2) as -> by by apply (anti_symm String.le).
  pose proof (dget_NoDup _ _ _ Hn H1). pose proof (dget_NoDup _ _ _ Hn H2). congruence.
Qed.

Lemma sorted_increasing last os :
  StronglySorted proof_le os → NoDup (dkeys os) → (∀ o, o ∈ os → String.ltb last o.1 = true) → increasing last os.
Proof.
  intros Hs. revert last. induction Hs as [|o os Hs IH Hf]; intros last Hn Hlast; [done|]. cbn [increasing].
  apply NoDup_cons in Hn as [Ho Hn]. split; [apply Hlast; constructor|]. apply IH; [done|]. intros x Hx. apply ltb_spec.
  rewrite Forall_forall in Hf. split; [by apply Hf|]. intros E. apply Ho. rewrite E. apply list_elem_of_fmap. eauto.
Qed.

Lemma proof_object_sound v cursor last oid payload next :
  0 <= cursor → proof_object v cursor last = Ok (oid, payload, next) →
  drop (Z.to_nat cursor) v = frame (oid, ("tree", payload)) ++ drop (Z.to_nat next) v ∧
  next = cursor + 29 + zlen payload ∧ next <= zlen v ∧ object_ok (oid, ("tree", payload)) ∧ String.ltb last oid = true.
Proof.
  intros Hc H. unfold proof_object in H. apply bind_Ok in H as (u1 & H1%ensure_Ok & H). apply bool_decide_eq_true in H1.
  apply bind_Ok in H as (u2 & H2%ensure_Ok & H). rewrite !andb_true_iff, !bool_decide_eq_true in H2. destruct H2 as [[[Hcode Hmax] Hend] Hlt].
  apply bind_Ok in H as (id & Hid & H). apply bind_Ok in H as (u3 & H3%ensure_Ok & H). apply bool_decide_eq_true in H3. subst id.
  set (n := decode BE (slice (cursor + 21) 8 v)) in *. injection H as <- <- <-.
  pose proof (decode_range BE (slice (cursor + 21) 8 v)) as Hn. fold n in Hn.
  assert (zlen (slice (cursor + 29) n v) = n) as Hz by (apply length_slice; lia). rewrite Hz.
  split_and!; [|lia|lia|split; cbn [fst snd]; [done|done|lia]|done].
  unfold frame. cbn [fst snd]. rewrite Sha1.fromhex_hex, Hz. cbn [default]. unfold id.
  rewrite <-Hcode. unfold n at 1. rewrite encode_decode; last first.
  { pose proof (length_slice (cursor + 21) 8 v ltac:(lia) ltac:(lia) ltac:(lia)) as H8. unfold zlen in H8. lia. }
  unfold slice. rewrite <-!(assoc_L (++)).
  rewrite <-(take_drop 20 (drop (Z.to_nat cursor) v)) at 1. f_equal. rewrite drop_drop.
  replace (Z.to_nat cursor + 20)%nat with (Z.to_nat (cursor + 20)) by lia.
  rewrite <-(take_drop 1 (drop (Z.to_nat (cursor + 20)) v)) at 1. f_equal. rewrite drop_drop.
  replace (Z.to_nat (cursor + 20) + 1)%nat with (Z.to_nat (cursor + 21)) by lia.
  rewrite <-(take_drop 8 (drop (Z.to_nat (cursor + 21)) v)) at 1. f_equal. rewrite drop_drop.
  replace (Z.to_nat (cursor + 21) + 8)%nat with (Z.to_nat (cursor + 29)) by lia.
  rewrite <-(take_drop (Z.to_nat n) (drop (Z.to_nat (cursor + 29)) v)) at 1. f_equal. rewrite drop_drop. f_equal. lia.
Qed.

Lemma proof_object_complete v cursor last o rest :
  0 <= cursor → drop (Z.to_nat cursor) v = frame o ++ rest → object_ok o → String.ltb last o.1 = true →
  proof_object v cursor last = Ok (o.1, o.2.2, cursor + zlen (frame o)).
Proof.
  intros Hc Hd Ho Hlt. pose proof (zlen_frame o Ho) as Hz. destruct (object_frame o Ho) as (raw & Hr & Hoid & Hf).
  destruct Ho as [_ Hid Hmax]. pose proof (zlen_nonneg o.2.2). pose proof (zlen_nonneg rest).
  assert (cursor + 29 + zlen o.2.2 + zlen rest = zlen v) as Hlen.
  { pose proof (f_equal zlen Hd) as Hl. rewrite zlen_app, Hz in Hl. unfold zlen in Hl at 1. rewrite length_drop in Hl. unfold zlen in *. lia. }
  rewrite Hf, <-!(assoc_L (++)) in Hd. set (payload := o.2.2) in *.
  assert (zlen raw = 20) as Hr20 by (unfold zlen; lia).
  pose proof (drop_split cursor v raw _ Hc Hd) as Hd1. rewrite Hr20 in Hd1.
  pose proof (drop_split (cursor + 20) v (fsencode "t") _ ltac:(lia) Hd1) as Hd2. change (zlen (fsencode "t")) with 1 in Hd2.
  pose proof (drop_split (cursor + 20 + 1) v (encode BE 8 (zlen payload)) _ ltac:(lia) Hd2) as Hd3. rewrite zlen_encode in Hd3.
  replace (cursor + 20 + 1) with (cursor + 21) in * by lia. replace (cursor + 21 + Z.of_nat 8) with (cursor + 29) in * by lia.
  unfold proof_object. rewrite (bool_decide_true (cursor + 29 <= zlen v)) by lia. cbn [require ensure mbind res_bind].
  assert (slice cursor 20 v = raw) as S1 by (rewrite <-Hr20; by eapply slice_at_drop).
  assert (slice (cursor + 20) 1 v = fsencode "t") as S2 by (change 1 with (zlen (fsencode "t")); by eapply slice_at_drop).
  assert (slice (cursor + 21) 8 v = encode BE 8 (zlen payload)) as S3.
  { replace 8 with (zlen (encode BE 8 (zlen payload))) at 1 by (by rewrite zlen_encode). by eapply slice_at_drop. }
  assert (slice (cursor + 29) (zlen payload) v = payload) as S4 by (by eapply slice_at_drop).
  rewrite S1, S2, S3. rewrite decode_encode; last first.
  { split; [lia|]. eapply Z.le_lt_trans; [exact Hmax|]. by vm_compute. }
  rewrite S4, <-Hoid, Hlt, !bool_decide_true by (done || lia). cbn [andb require ensure mbind res_bind]. rewrite Hid. cbn [mbind res_bind].
  rewrite bool_decide_true by done. cbn [require ensure mbind res_bind]. rewrite Hz. do 2 f_equal. lia.
Qed.

Section Frames.
Context {W E : Type}.

Lemma frames_cons o os : frames (o :: os) = frame o ++ frames os.
Proof. done. Qed.

Lemma proof_loop_sound fuel (b : option (budget (W := W) (E := E))) v result cursor last :
  0 <= cursor <= zlen v → (∀ k, k ∈ dkeys result → String.le k last) →
  returns (proof_loop fuel b v result cursor last) (λ result', ∃ os,
    result' = result ++ os ∧ drop (Z.to_nat cursor) v = frames os ∧ Forall object_ok os ∧ increasing last os).
Proof.
  revert result cursor last. induction fuel as [|fuel IH]; intros result cursor last Hc Hk; cbn [proof_loop];
    case_bool_decide as Hlt; try apply returns_throw.
  1, 3: apply returns_ret; exists []; rewrite app_nil_r; split_and!; [done| |constructor|done]; apply drop_ge; unfold zlen in *; lia.
  apply returns_skip; intros _. eapply returns_bind; [apply returns_embed; intros a Ha; exact Ha|].
  intros [[oid payload] next] Hp. cbn in Hp. apply proof_object_sound in Hp as (Hd & Hnx & Hle & Ho & Hl); [|lia].
  apply returns_skip; intros _. pose proof (zlen_nonneg payload). apply ltb_spec in Hl as Hl'. destruct Hl' as [Hll Hne].
  assert (oid ∉ dkeys result) as Hnew by (intros Hin; apply Hne, (anti_symm String.le); [done|by apply Hk]).
  rewrite dset_new by done. eapply returns_conseq; [apply IH; [lia|]|].
  - intros k. unfold dkeys. rewrite fmap_app, elem_of_app. cbn. rewrite list_elem_of_singleton. intros [Hin| ->]; [|done].
    etrans; [by apply Hk|done].
  - intros result' (os & -> & Hd' & Hos & Hi). exists ((oid, ("tree", payload)) :: os). split_and!; [by rewrite <-(assoc_L (++))|..].
    + by rewrite Hd, Hd', frames_cons.
    + by constructor.
    + done.
Qed.

Lemma proof_loop_complete fuel v result os cursor last st :
  0 <= cursor → drop (Z.to_nat cursor) v = frames os → Forall object_ok os → (length os <= fuel)%nat →
  increasing last os → (∀ k, k ∈ dkeys result → String.le k last) → zlen (result ++ os) <= MAX_ENTRIES + 1 →
  proof_loop (W := W) (E := E) fuel None v result cursor last st = (Ok (result ++ os), st).
Proof.
  intros Hc Hd Hos. revert result cursor last fuel Hc Hd. induction Hos as [|o os Ho Hos IH]; intros result cursor last fuel Hc Hd Hf Hi Hk Hz.
  - assert (¬ cursor < zlen v).
    { intros Hlt. apply (f_equal length) in Hd. rewrite length_drop in Hd. cbn in Hd. unfold zlen in *. lia. }
    destruct fuel; cbn [proof_loop]; rewrite bool_decide_false by done; by rewrite app_nil_r.
  - destruct fuel as [|fuel]; [cbn in Hf; lia|]. pose proof (zlen_frame o Ho) as Hzf. pose proof (zlen_nonneg o.2.2).
    assert (cursor < zlen v).
    { apply (f_equal length) in Hd. rewrite length_drop, frames_cons, length_app in Hd. unfold zlen in *. lia. }
    cbn [proof_loop]. rewrite bool_decide_true by done. destruct Hi as [Hl Hi].
    unfold tick, mbind, M_bind, embed. unfold mret, M_ret. cbn beta iota.
    rewrite (proof_object_complete v cursor last o (frames os)) by done. apply ltb_spec in Hl as [Hll Hne].
    assert (o.1 ∉ dkeys result) as Hnew by (intros Hin; apply Hne, (anti_symm String.le); [done|by apply Hk]).
    rewrite dset_new by done. replace (o.1, ("tree", o.2.2)) with o; last first.
    { destruct Ho as [Hkind _ _]. destruct o as [oid [kind payload]]. cbn in *. by subst. }
    rewrite !zlen_app, zlen_cons in *. rewrite zlen_nil. pose proof (zlen_nonneg os). rewrite bool_decide_true by lia. cbn [require ensure].
    rewrite (IH (result ++ [o])); [by rewrite <-(assoc_L (++))|lia|by apply (drop_split cursor v (frame o))|cbn in Hf; lia|done|..].
    + intros k. unfold dkeys. rewrite fmap_app, elem_of_app. cbn. rewrite list_elem_of_singleton. intros [Hin| ->]; [|done].
      etrans; [by apply Hk|done].
    + rewrite !zlen_app, zlen_cons, zlen_nil. lia.
Qed.

(** Framing one object after another *)
Definition framed (o : object) : Prop := o.2.1 = "tree" ∧ object_id "tree" o.2.2 = Ok o.1.

Lemma frame_loop_sound (b : option (budget (W := W) (E := E))) os acc :
  returns (forE (frame_object b) os acc) (λ v, v = acc ++ frames os ∧ Forall framed os ∧ (os ≠ [] → zlen v <= MAX_PROOF)).
Proof.
  eapply returns_conseq; [apply (returns_for (frame_object b)
    (λ done v, v = acc ++ frames done ∧ Forall framed done ∧ (done ≠ [] → zlen v <= MAX_PROOF)))|].
  - split_and!; [by rewrite app_nil_r|constructor|done].
  - intros done [oid [kind payload]] v1 (-> & Hd & _) _. cbn [frame_object]. apply returns_skip; intros _.
    eapply returns_bind; [apply returns_embed; intros u Hu; exact Hu|]. intros u (ok & Hok & ->%ensure_Ok)%bind_Ok.
    apply andM_true in Hok as [[= Hk] Hid]. apply bool_decide_eq_true in Hk as ->.
    apply bind_Ok in Hid as (id & Hid & [= ->%bool_decide_eq_true]). destruct (object_id_hex _ _ _ Hid) as (raw & _ & Hraw).
    eapply returns_bind; [apply returns_embed; intros u' Hu'; exact Hu'|]. intros raw' Hraw'. rewrite Hraw, Sha1.fromhex_hex in Hraw'.
    injection Hraw' as <-. eapply returns_bind; [apply returns_embed; intros u' Hu'; exact Hu'|]. intros _ Hz%ensure_Ok%bool_decide_eq_true.
    apply returns_ret. split_and!; [|apply Forall_app; split; [done|by repeat constructor]|done].
    unfold frames. rewrite fmap_app, concat_app. cbn [fmap list_fmap concat]. rewrite app_nil_r, <-(assoc_L (++)). do 2 f_equal.
    unfold frame. cbn [fst snd]. by rewrite Hraw, Sha1.fromhex_hex.
  - done.
Qed.

Lemma frame_loop_complete os acc st :
  Forall object_ok os → zlen (acc ++ frames os) <= MAX_PROOF →
  forE (frame_object (W := W) (E := E) None) os acc st = (Ok (acc ++ frames os), st).
Proof.
  intros Hos. revert acc. induction Hos as [|o os Ho Hos IH]; intros acc Hz; [by rewrite app_nil_r|].
  rewrite frames_cons in *. rewrite (assoc_L (++)) in *. cbn [forE]. destruct (object_frame o Ho) as (raw & _ & Hoid & Hf). destruct Ho as [Hk Hid _].
  destruct o as [oid [kind payload]]. cbn [fst snd] in *. subst kind.
  pose proof (zlen_nonneg (frames os)). rewrite zlen_app in Hz.
  unfold mbind at 1, M_bind. unfold frame_object at 1, tick, mbind, M_bind, embed. unfold mret, M_ret. cbn beta iota.
  rewrite bool_decide_true by done. rewrite Hid. cbn [andM res_bind mbind]. rewrite bool_decide_true by done. cbn [require ensure].
  rewrite Hoid at 1. rewrite Sha1.fromhex_hex, <-Hf, bool_decide_true by lia. cbn [require ensure]. apply IH.
  by rewrite zlen_app.
Qed.

Lemma proof_bytes_sound p (b : option (budget (W := W) (E := E))) :
  returns (proof_bytes p b) (λ v, v = MAGIC ++ frames (merge_sort proof_le p) ∧ Forall framed (merge_sort proof_le p) ∧ zlen v <= MAX_PROOF).
Proof.
  unfold proof_bytes. apply returns_skip; intros _. eapply returns_bind; [apply frame_loop_sound|]. intros v (-> & Hf & Hz).
  apply returns_skip; intros _. apply returns_ret. split_and!; [done|done|].
  destruct (decide (merge_sort proof_le p = [])) as [->|Hne]; [|by apply Hz]. by vm_compute.
Qed.

Lemma proof_bytes_complete p st :
  Forall object_ok (merge_sort proof_le p) → zlen (MAGIC ++ frames (merge_sort proof_le p)) <= MAX_PROOF →
  proof_bytes (W := W) (E := E) p None st = (Ok (MAGIC ++ frames (merge_sort proof_le p)), st).
Proof.
  intros Hf Hz. unfold proof_bytes, tick, mbind, M_bind. unfold mret at 1, M_ret at 1. cbn beta iota.
  by rewrite frame_loop_complete.
Qed.

Lemma parse_proof_sound v (b : option (budget (W := W) (E := E))) :
  returns (parse_proof v b) (λ p, v = MAGIC ++ frames p ∧ Forall object_ok p ∧ increasing "" p ∧ zlen v <= MAX_PROOF).
Proof.
  unfold parse_proof. apply returns_skip; intros _. eapply returns_bind; [apply returns_embed; intros u Hu; exact Hu|].
  intros _ Hu%ensure_Ok. apply andb_true_iff in Hu as [Hz%bool_decide_eq_true [t ->]%bstartswith_spec].
  eapply returns_conseq; [apply proof_loop_sound; [|by intros k ?%elem_of_nil]|].
  - rewrite zlen_app. pose proof (zlen_nonneg t). pose proof (zlen_nonneg MAGIC). lia.
  - intros p (os & -> & Hd & Ho & Hi). rewrite app_nil_l. rewrite (drop_zlen _ MAGIC) in Hd by done. by subst t.
Qed.

Lemma length_frames os : Forall object_ok os → (length os <= length (frames os))%nat.
Proof.
  induction 1 as [|o os Ho _ IH]; [done|]. rewrite frames_cons, length_app. pose proof (zlen_frame o Ho) as Hz.
  pose proof (zlen_nonneg o.2.2). unfold zlen in *. cbn [length]. lia.
Qed.

Lemma parse_proof_complete os st :
  Forall object_ok os → increasing "" os → zlen os <= MAX_ENTRIES + 1 → zlen (MAGIC ++ frames os) <= MAX_PROOF →
  parse_proof (W := W) (E := E) (MAGIC ++ frames os) None st = (Ok os, st).
Proof.
  intros Ho Hi Hn Hz. unfold parse_proof, tick, mbind, M_bind, embed. unfold mret, M_ret. cbn beta iota.
  rewrite bool_decide_true by done. replace (bstartswith MAGIC (MAGIC ++ frames os)) with true; last first.
  { symmetry. apply bstartswith_spec. eauto. }
  cbn [andb require ensure]. rewrite (proof_loop_complete _ _ [] os); [done|apply zlen_nonneg|by apply drop_zlen|done| |done|by intros k ?%elem_of_nil|done].
  rewrite length_app. pose proof (length_frames os Ho). lia.
Qed.
End Frames.

(** C22: the proof encoding is canonical.  Whatever budget it ran under, a
    proof that [parse_proof] accepts is the bytes [proof_bytes] writes for the
    objects it returns, so no other byte string carries the same objects; and
    what [proof_bytes] writes for a dictionary of trees of acceptable size and
    number is read back as exactly those objects, in order of identity. *)
Theorem proof_roundtrip {W E : Type} (b : option (budget (W := W) (E := E))) :
  (∀ v, returns (parse_proof v b) (λ p, ∀ st : world W E, proof_bytes p None st = (Ok v, st))) ∧
  (∀ p, NoDup (dkeys p) → zlen p <= MAX_ENTRIES + 1 → Forall (λ o, zlen o.2.2 <= MAX_TREE) p →
    returns (proof_bytes p b) (λ v, ∀ st : world W E, parse_proof v None st = (Ok (merge_sort proof_le p), st))).
Proof.
  split.
  - intros v. eapply returns_conseq; [apply parse_proof_sound|]. intros p (-> & Ho & Hi & Hz) st.
    destruct (increasing_sorted _ _ Hi) as [Hs Hn]. pose proof (sort_items p p Hs (reflexivity _) Hn) as Hsort.
    rewrite proof_bytes_complete; rewrite Hsort; done.
  - intros p Hn Hlen Hmax. eapply returns_conseq; [apply proof_bytes_sound|]. intros v (-> & Hf & Hz) st.
    pose proof (merge_sort_Permutation proof_le p) as Hp. apply parse_proof_complete; [| | |done].
    + apply Forall_forall. intros o Ho. rewrite Forall_forall in Hf. destruct (Hf o Ho) as [Hk Hid]. split; [done|done|].
      rewrite Forall_forall in Hmax. apply Hmax. by rewrite <-Hp.
    + apply sorted_increasing; [apply StronglySorted_merge_sort; apply _|unfold dkeys; by rewrite Hp|].
      intros o Ho. rewrite Forall_forall in Hf. destruct (Hf o Ho) as [_ Hid]. destruct (object_id_hex _ _ _ Hid) as (raw & Hr & ->).
      by destruct raw.
    + unfold zlen in *. by rewrite Hp.
Qed.

(** The proof that holds the empty tree *)
Definition ex_proof : list (string * (string * bytes)) := [("4b825dc642cb6eb9a060e54bf8d69288fbee4904", ("tree", []))].
Lemma proof_roundtrip_witness :
  ∃ v, proof_bytes (W := unit) (E := unit) ex_proof None (World tt []) = (Ok v, World tt []) ∧
    parse_proof (W := unit) (E := unit) v None (World tt []) = (Ok ex_proof, World tt []).
Proof.
  assert (∃ v, proof_bytes (W := unit) (E := unit) ex_proof None (World tt []) = (Ok v, World tt [])) as [v Hv].
  { eexists. vm_compute. reflexivity. }
  exists v. split; [exact Hv|]. destruct (proof_roundtrip (W := unit) (E := unit) None) as [_ H].
  refine (H ex_proof _ _ _ _ _ _ Hv _).
  - apply NoDup_singleton.
  - vm_compute. discriminate.
  - constructor; [vm_compute; discriminate|constructor].
Defined.

End GitExport.
