(* ===== verification/GitSnapshot.v ===== *)
(** * An accepted snapshot is the inventory of its tree

    The reference semantics of a tree object in a store of objects: the rows it
    exports, the trees below it, and where a symbolic link leads.  The walk of
    [GitObjects] computes exactly the rows and the trees, authenticates every
    object it returns, and leaves no link that escapes, dangles or passes
    through another link. *)
From S2P Require Import Prelude PyBytes PyString PyValue PyText PyScan Sha256 Sha1 Effect GitObjects GitExport.
From Stdlib Require Import Ascii.
Local Open Scope Z_scope.

Module GitSnapshot.
Import GitObjects GitExport.

(** ** Reference semantics *)
Section Semantics.
Context (store : string → option (string * bytes)).

Definition tree_at (t : string) (l : list entry) : Prop :=
  ∃ v, store t = Some ("tree", v) ∧ object_id "tree" v = Ok t ∧ v = tree_bytes l ∧ tree_ok l.
Definition blob_at (oid : string) (payload : bytes) : Prop :=
  store oid = Some ("blob", payload) ∧ object_id "blob" payload = Ok oid.

(** [exports t prefix r]: the tree [t], placed under [prefix], exports the row
    [r]; [exports_of] is the contribution of one of its entries. *)
Inductive exports : string → string → row → Prop :=
  | exports_entry t prefix l e r : tree_at t l → e ∈ l → exports_of prefix e r → exports t prefix r
with exports_of : string → entry → row → Prop :=
  | of_directory prefix name sub : exports_of prefix ("40000", name, sub) (Row (prefix +:+ name) "40000" sub 0 None)
  | of_below prefix name sub r : exports sub (prefix +:+ name +:+ "/") r → exports_of prefix ("40000", name, sub) r
  | of_file prefix mode name oid payload : mode ≠ "40000" → blob_at oid payload →
      exports_of prefix (mode, name, oid) (Row (prefix +:+ name) mode oid (zlen payload) (Some (Sha256.hexdigest payload))).

(** The trees at and below a tree *)
Inductive subtree : string → string → Prop :=
  | subtree_self t : subtree t t
  | subtree_below t l e u : tree_at t l → e ∈ l → subtree_of e u → subtree t u
with subtree_of : entry → string → Prop :=
  | subtree_entry name sub u : subtree sub u → subtree_of ("40000", name, sub) u.

Definition total_bytes (rs : list row) : Z := foldr (λ r n, bytes_ r + n) 0 rs.

(** Everything returned is an object of the store under its own identity. *)
Record authentic (st : snap) : Prop := {
  au_trees t kv : dget t (proof st) = Some kv → kv.1 = "tree" ∧ store t = Some kv ∧ object_id "tree" kv.2 = Ok t;
  au_blobs o p : dget o (blobs st) = Some p → blob_at o p;
  au_source : source_bytes st <= MAX_SOURCE;
  au_count : zlen (records st) <= MAX_ENTRIES;
}.

(** From [st] to [st'] the trees [T] and the rows [R] were added. *)
Record grows (T : string → Prop) (R : row → Prop) (st st' : snap) : Prop := {
  gr_rows : ∃ rs, records st' = records st ++ rs ∧ (∀ r, r ∈ rs ↔ R r) ∧ source_bytes st' = source_bytes st + total_bytes rs;
  gr_trees t : t ∈ dkeys (proof st') ↔ t ∈ dkeys (proof st) ∨ T t;
  gr_blobs o : o ∈ dkeys (blobs st') ↔ o ∈ dkeys (blobs st) ∨ ∃ r, R r ∧ git_mode r ≠ "40000" ∧ git_oid r = o;
  gr_authentic : authentic st → authentic st';
}.
End Semantics.

Lemma total_app rs1 rs2 : total_bytes (rs1 ++ rs2) = total_bytes rs1 + total_bytes rs2.
Proof. unfold total_bytes. induction rs1 as [|r rs1 IH]; cbn; lia. Qed.

Lemma elem_dkeys_dset {V} k (v : V) d k' : k' ∈ dkeys (dset k v d) ↔ k' ∈ dkeys d ∨ k' = k.
Proof.
  rewrite dkeys_dset. case_bool_decide as Hk; [split; [tauto|intros [?| ->]; done]|].
  rewrite elem_of_app, list_elem_of_singleton. done.
Qed.

Lemma tree_at_unique store t l1 l2 : tree_at store t l1 → tree_at store t l2 → l1 = l2.
Proof.
  intros (v1 & Hs1 & _ & -> & [He1 _ _]) (v2 & Hs2 & _ & -> & [He2 _ _]). rewrite Hs1 in Hs2. injection Hs2 as Hv.
  by apply tree_bytes_inj.
Qed.

Section Walk.
Context {W E : Type} (store : string → option (string * bytes)).
Context (reader : string → M W E (string * bytes)) (b : budget (W := W) (E := E)).
Context (Hreader : ∀ oid, returns (reader oid) (λ kv, store oid = Some kv)).

Lemma grows_refl st : grows store (λ _, False) (λ _, False) st st.
Proof.
  split; [|tauto|naive_solver|done]. exists []. rewrite app_nil_r. split_and!; [done|..].
  - intros r. rewrite elem_of_nil. done.
  - unfold total_bytes. cbn. lia.
Qed.

Lemma grows_trans T1 R1 T2 R2 st1 st2 st3 :
  grows store T1 R1 st1 st2 → grows store T2 R2 st2 st3 → grows store (λ t, T1 t ∨ T2 t) (λ r, R1 r ∨ R2 r) st1 st3.
Proof.
  intros [(rs1 & E1 & H1 & S1) T1' B1 A1] [(rs2 & E2 & H2 & S2) T2' B2 A2]. split.
  - exists (rs1 ++ rs2). rewrite E2, E1, <-(assoc_L (++)), total_app. split_and!; [done| |lia].
    intros r. rewrite elem_of_app, H1, H2. done.
  - intros t. rewrite T2', T1'. tauto.
  - intros o. rewrite B2, B1. naive_solver.
  - auto.
Qed.

Lemma grows_ext T R T' R' st st' :
  grows store T R st st' → (∀ t, T t ↔ T' t) → (∀ r, R r ↔ R' r) → grows store T' R' st st'.
Proof.
  intros [(rs & E1 & H1 & S1) T1 B1 A1] HT HR. split.
  - exists rs. split_and!; [done| |done]. intros r. by rewrite H1, HR.
  - intros t. by rewrite T1, HT.
  - intros o. rewrite B1. setoid_rewrite HR. done.
  - done.
Qed.

Lemma checked_object_sound oid expected :
  returns (checked_object reader oid expected b) (λ v, store oid = Some (expected, v) ∧ object_id expected v = Ok oid).
Proof.
  unfold checked_object. do 2 (apply returns_skip; intros _). eapply returns_bind; [apply Hreader|].
  intros [kind v] Hs. eapply returns_bind; [apply returns_embed; intros u Hu; exact Hu|].
  intros _ [Hk%bool_decide_eq_true _]%ensure_Ok%andb_true_iff. subst kind. apply returns_skip; intros _.
  eapply returns_bind; [apply returns_embed; intros u Hu; exact Hu|]. intros id Hid.
  eapply returns_bind; [apply returns_embed; intros u Hu; exact Hu|]. intros _ ->%ensure_Ok%bool_decide_eq_true.
  by apply returns_ret.
Qed.

Lemma walk_entry_grows descend prefix st e :
  (∀ oid pre st, returns (descend oid pre st) (grows store (subtree store oid) (exports store oid pre) st)) →
  returns (walk_entry reader b descend prefix st e) (grows store (subtree_of store e) (exports_of store prefix e) st).
Proof.
  intros Hd. destruct e as [[mode name] oid]. unfold walk_entry. apply returns_skip; intros _.
  eapply returns_bind; [apply returns_embed; intros u Hu; exact Hu|]. intros _ [_ Hcount%bool_decide_eq_true]%ensure_Ok%andb_true_iff.
  case_bool_decide as Hm.
  - subst mode. eapply returns_conseq; [apply Hd|]. intros st' H. eapply grows_ext; [eapply grows_trans; [|exact H]|..].
    + instantiate (1 := λ r, r = Row (prefix +:+ name) "40000" oid 0 None). instantiate (1 := λ _, False). split; cbn [proof records blobs source_bytes].
      * eexists. split_and!; [done|intros r; by rewrite list_elem_of_singleton|unfold total_bytes; cbn; lia].
      * tauto.
      * intros o. split; [tauto|]. intros [?|(r & -> & Hn & _)]; [done|]. by cbn in Hn.
      * intros [A1 A2 A3 A4]. split; cbn [proof records blobs source_bytes]; try done. rewrite zlen_app, zlen_cons, zlen_nil. lia.
    + intros t. split; [intros [[]|Ht]; by constructor|]. inversion 1; subst; auto.
    + intros r. rewrite str_append_assoc. split; [intros [ ->|Hr]; by constructor|]. inversion 1; subst; [by left|by right|done].
  - eapply returns_bind; [apply checked_object_sound|]. intros payload [Hs Hid].
    eapply returns_bind; [apply returns_embed; intros u Hu; exact Hu|]. intros _ Hsrc%ensure_Ok%bool_decide_eq_true.
    apply returns_skip; intros _. apply returns_ret. split; cbn [proof records blobs source_bytes].
    + eexists. split_and!; [done| |unfold total_bytes; cbn; lia]. intros r. rewrite list_elem_of_singleton.
      split; [intros ->; by constructor|]. inversion 1 as [| |????? Hm' [Hs' _]]; subst; try done. congruence.
    + intros t. split; [tauto|]. intros [?|Ht]; [done|]. by inversion Ht.
    + intros o. rewrite elem_dkeys_dset. split.
      * intros [?| ->]; [by left|]. right. eexists. split; [by apply of_file|]. done.
      * intros [?|(r & Hr & Hn & <-)]; [by left|]. right. by inversion Hr; subst.
    + intros [A1 A2 A3 A4]. split; cbn [proof records blobs source_bytes]; [done| |done|rewrite zlen_app, zlen_cons, zlen_nil; lia].
      intros o p. rewrite dget_dset. case_bool_decide; [intros [= <-]; subst; done|apply A2].
Qed.

Lemma walk_grows fuel tree prefix ancestors st :
  returns (walk reader b fuel tree prefix ancestors st) (grows store (subtree store tree) (exports store tree prefix) st).
Proof.
  revert tree prefix ancestors st. induction fuel as [|fuel IH]; intros tree prefix ancestors st; cbn [walk]; [apply returns_throw|].
  apply returns_skip; intros _. eapply returns_bind; [apply checked_object_sound|]. intros v [Hs Hid].
  apply returns_skip; intros _. eapply returns_bind; [apply tree_entries_sound|]. intros l (Hv & Hl & _).
  assert (tree_at store tree l) as Ht by (by exists v).
  set (st0 := Snap (dset tree ("tree", v) (proof st)) (records st) (blobs st) (source_bytes st)).
  eapply returns_conseq; [apply (returns_for _ (λ done st', grows store (λ t, ∃ e, e ∈ done ∧ subtree_of store e t)
    (λ r, ∃ e, e ∈ done ∧ exports_of store prefix e r) st0 st'))|].
  - eapply grows_ext; [apply grows_refl|..]; intros x; (split; [done|]); intros (e & ?%elem_of_nil & _); done.
  - intros done e st1 H1 _. eapply returns_conseq; [apply walk_entry_grows; intros; apply IH|]. intros st2 H2.
    eapply grows_ext; [eapply grows_trans; [exact H1|exact H2]|..]; intros x; setoid_rewrite elem_of_app;
      setoid_rewrite list_elem_of_singleton; naive_solver.
  - intros st' H. eapply grows_ext; [eapply (grows_trans (λ t, t = tree) (λ _, False)); [|exact H]|..].
    + split; cbn [proof records blobs source_bytes st0].
      * exists []. rewrite app_nil_r. split_and!; [done|intros r; rewrite elem_of_nil; done|unfold total_bytes; cbn; lia].
      * intros t. apply elem_dkeys_dset.
      * naive_solver.
      * intros [A1 A2 A3 A4]. split; [|done|done|done]. intros t kv. unfold st0. cbn [proof]. rewrite dget_dset.
        case_bool_decide; [intros [= <-]; by subst|apply A1].
    + intros t. split.
      * intros [ ->|(e & He & Hte)]; [constructor|by eapply subtree_below].
      * inversion 1 as [|? l' e ? Ht' He Hte]; subst; [by left|]. right. rewrite (tree_at_unique _ _ _ _ Ht Ht'). eauto.
    + intros r. split.
      * intros [[]|(e & He & Hr)]. by eapply exports_entry.
      * inversion 1 as [? ? l' e ? Ht' He Hr]; subst. right. rewrite (tree_at_unique _ _ _ _ Ht Ht'). eauto.
Qed.
End Walk.

(** ** Symbolic links *)
(** Where a relative target leads from a directory, component by component;
    [None] above the root *)
Fixpoint follow (dir parts : list string) : option (list string) :=
  match parts with
  | [] => Some dir
  | p :: ps =>
      if bool_decide (p ∈ [""; "."]) then follow dir ps
      else if bool_decide (p = "..") then match dir with [] => None | _ => follow (take (length dir - 1) dir) ps end
      else follow (dir ++ [p]) ps
  end.

(** The directory a row is in *)
Definition parent (r : row) : list string := take (length (str_split "/" (path r)) - 1) (str_split "/" (path r)).

Record link_resolves (rs : list row) (r : row) (target : bytes) (parts : list string) : Prop := {
  lr_inside : startswith "/" (fsdecode target) = false;
  lr_follow : follow (parent r) (str_split "/" (fsdecode target)) = Some parts;
  lr_proper : parts ≠ [];
  lr_landed n : (1 <= n <= length parts)%nat → ∃ r', r' ∈ rs ∧ path r' = join (take n parts) ∧ git_mode r' ≠ "120000";
}.

Section Links.
Context {W E : Type} (rs : list row) (bl : list (string * bytes)) (b : option (budget (W := W) (E := E))).

Lemma by_path_spec p r : dget p (by_path rs) = Some r → r ∈ rs ∧ path r = p.
Proof.
  unfold by_path. assert (∀ l d, (∀ q x, dget q d = Some x → x ∈ rs ∧ path x = q) → (∀ x, x ∈ l → x ∈ rs) →
    ∀ q x, dget q (foldl (λ d r, dset (path r) r d) d l) = Some x → x ∈ rs ∧ path x = q) as H; [|by apply (H rs)].
  induction l as [|y l IH]; intros d Hd Hl; [done|]. apply IH; [|intros x Hx; apply Hl; by constructor].
  intros q x. rewrite dget_dset. case_bool_decide as Hq; [|apply Hd]. intros [= <-]. split; [apply Hl; constructor|done].
Qed.

Lemma link_step_follow parts part ps :
  returns (link_step (by_path rs) b parts part) (λ parts', follow parts (part :: ps) = follow parts' ps).
Proof.
  unfold link_step. do 2 (apply returns_skip; intros _). cbn [follow]. case_bool_decide; [by apply returns_ret|].
  case_bool_decide; [|apply returns_skip; intros _; by apply returns_ret].
  eapply returns_bind; [apply returns_embed; intros u Hu; exact Hu|]. intros _ Hu%ensure_Ok%negb_true_iff%bool_decide_eq_false.
  apply returns_ret. by destruct parts.
Qed.

Lemma links_follow targets dir :
  returns (forE (link_step (by_path rs) b) targets dir) (λ parts, follow dir targets = Some parts).
Proof.
  revert dir. induction targets as [|t targets IH]; intros dir; cbn [forE]; [by apply returns_ret|].
  eapply returns_bind; [apply link_step_follow|]. intros dir' ->. apply IH.
Qed.

Lemma check_prefixes parts :
  returns (forE (check_prefix (by_path rs) parts b) (seq 1 (length parts)) tt)
    (λ _, ∀ n, (1 <= n <= length parts)%nat → ∃ r', r' ∈ rs ∧ path r' = join (take n parts) ∧ git_mode r' ≠ "120000").
Proof.
  eapply returns_conseq; [apply (returns_for _ (λ done _, ∀ n, n ∈ done →
    ∃ r', r' ∈ rs ∧ path r' = join (take n parts) ∧ git_mode r' ≠ "120000"))|].
  - by intros n ?%elem_of_nil.
  - intros done n [] Hd _. unfold check_prefix. apply returns_skip; intros _. apply returns_embed. intros u Hu m.
    rewrite elem_of_app, list_elem_of_singleton. intros [Hm| ->]; [by apply Hd|].
    destruct (dget _ _) as [r'|] eqn:Er; [|done]. apply ensure_Ok, negb_true_iff, bool_decide_eq_false in Hu.
    apply by_path_spec in Er as [? ?]. eauto.
  - intros u H n Hn. apply H, elem_of_seq. lia.
Qed.

Lemma resolve_link_resolves u r :
  returns (resolve_link (by_path rs) bl b u r)
    (λ _, git_mode r = "120000" → ∃ target parts, dget (git_oid r) bl = Some target ∧ link_resolves rs r target parts).
Proof.
  unfold resolve_link. apply returns_skip; intros _. case_bool_decide as Hm; cbn [negb]; [|by apply returns_ret].
  eapply returns_bind; [apply returns_embed; intros v Hv; exact Hv|]. intros v Hv. destruct (dget (git_oid r) bl) as [v'|]; [|done].
  injection Hv as ->. apply returns_skip; intros _. eapply returns_bind; [apply returns_embed; intros t Ht; exact Ht|].
  intros target Ht. unfold decode_utf8 in Ht. destruct (utf8_valid v); [|done]. injection Ht as <-.
  eapply returns_bind; [apply returns_embed; intros x Hx; exact Hx|]. intros _ [Hroot%negb_true_iff _]%ensure_Ok%andb_true_iff.
  eapply returns_bind; [apply links_follow|]. intros parts Hf.
  eapply returns_bind; [apply returns_embed; intros x Hx; exact Hx|]. intros _ [Hp%negb_true_iff%bool_decide_eq_false _]%ensure_Ok%andb_true_iff.
  eapply returns_conseq; [apply check_prefixes|]. intros u0 Hn _. exists v, parts. split; [done|]. by split.
Qed.

Lemma resolve_links_resolve :
  returns (resolve_links rs bl b) (λ _, ∀ r, r ∈ rs → git_mode r = "120000" →
    ∃ target parts, dget (git_oid r) bl = Some target ∧ link_resolves rs r target parts).
Proof.
  unfold resolve_links. apply returns_skip; intros _.
  apply (returns_for _ (λ done _, ∀ r, r ∈ done → git_mode r = "120000" →
    ∃ target parts, dget (git_oid r) bl = Some target ∧ link_resolves rs r target parts)).
  - by intros r ?%elem_of_nil.
  - intros done r u Hd _. eapply returns_conseq; [apply resolve_link_resolves|]. intros u0 Hr r'.
    rewrite elem_of_app, list_elem_of_singleton. intros [Hin| ->]; [by apply Hd|done].
Qed.
End Links.

(** ** The snapshot *)
Record exact_snapshot (store : string → option (string * bytes)) (root : string)
    (s : string * list row * list (string * (string * bytes)) * list (string * bytes)) : Prop := {
  sn_root : s.1.1.1 = root;
  sn_rows r : r ∈ s.1.1.2 ↔ exports store root "" r;
  sn_order : StronglySorted path_le s.1.1.2;
  sn_paths : NoDup (path <$> s.1.1.2);
  sn_bounds : zlen s.1.1.2 <= MAX_ENTRIES ∧ total_bytes s.1.1.2 <= MAX_SOURCE;
  sn_trees t : t ∈ dkeys s.1.2 ↔ subtree store root t;
  sn_proof t kv : dget t s.1.2 = Some kv → kv.1 = "tree" ∧ store t = Some kv ∧ object_id "tree" kv.2 = Ok t;
  sn_blobs o p : dget o s.2 = Some p → blob_at store o p;
  sn_contents r : r ∈ s.1.1.2 → git_mode r ≠ "40000" → ∃ p, dget (git_oid r) s.2 = Some p ∧ blob_at store (git_oid r) p;
  sn_links r : r ∈ s.1.1.2 → git_mode r = "120000" →
    ∃ target parts, dget (git_oid r) s.2 = Some target ∧ link_resolves s.1.1.2 r target parts;
}.

#[export] Instance path_le_total : Total path_le.
Proof. intros a b. unfold path_le. apply (total String.le). Qed.
#[export] Instance path_le_trans : Transitive path_le.
Proof. intros a b c. unfold path_le. apply transitivity. Qed.

Lemma remove_dups_length (l : list string) :
  (length (remove_dups l) <= length l)%nat ∧ (length (remove_dups l) = length l → NoDup l).
Proof.
  induction l as [|x l [IH1 IH2]]; [by split; [|constructor]|]. cbn. case_decide; cbn; (split; [lia|]); intros; [lia|].
  constructor; [done|]. apply IH2. lia.
Qed.

Lemma total_Permutation rs1 rs2 : rs1 ≡ₚ rs2 → total_bytes rs1 = total_bytes rs2.
Proof. unfold total_bytes. induction 1; cbn; lia. Qed.


(** ** The walk ends *)
Section Ends.
Context {W E : Type}.
Abbreviation fueled := (λ e : exn, e ≠ NoFuel).

Lemma require_fueled good msg : raises fueled (require good msg).
Proof. by apply raises_ensure. Qed.
Lemma decode_fueled l : raises fueled (decode_utf8 l) ∧ raises fueled (decode_ascii l).
Proof. unfold decode_utf8, decode_ascii. split; solve_raises. Qed.
Lemma component_fueled l : raises fueled (component l).
Proof. apply raises_bind; [apply require_fueled|]. intros _. apply decode_fueled. Qed.
Lemma object_id_fueled kind v : raises fueled (object_id kind v).
Proof. apply raises_bind; [apply require_fueled|]. intros _. apply raises_ok. Qed.
Hint Resolve require_fueled component_fueled object_id_fueled : omux.
Hint Extern 1 (raises _ (decode_utf8 _)) => apply decode_fueled : omux.
Hint Extern 1 (raises _ (decode_ascii _)) => apply decode_fueled : omux.

Lemma tree_entry_fueled v names cursor : raises fueled (tree_entry v names cursor).
Proof. unfold tree_entry. solve_raises. Qed.
Hint Resolve tree_entry_fueled : omux.

Context (reader : string → M W E (string * bytes)) (b : budget (W := W) (E := E)).
Context (Hb : ∀ n, throws fueled (b n)) (Hreader : ∀ oid, throws fueled (reader oid)).
Hint Resolve Hb Hreader : omux.

Lemma tree_loop_ends fuel v rows cursor :
  0 <= cursor <= zlen v → zlen v - cursor <= Z.of_nat fuel → throws fueled (tree_loop fuel (Some b) v rows cursor).
Proof.
  revert rows cursor. induction fuel as [|fuel IH]; intros rows cursor Hc Hf; cbn [tree_loop tick];
    (case_bool_decide; [|apply throws_ret]); [lia|].
  apply throws_bind; [apply Hb|]. intros _. eapply throws_bind_returns; [apply throws_embed, tree_entry_fueled|apply returns_embed; intros x Hx; exact Hx|].
  intros [[e key] next] He. cbn beta in He. apply tree_entry_sound in He as (_ & Hn & He & _ & _ & Hle); [|lia].
  pose proof (zlen_entry_bytes e He). apply IH; lia.
Qed.

Lemma tree_entries_ends v : throws fueled (tree_entries v (Some b)).
Proof.
  unfold tree_entries. cbn [tick]. apply throws_bind; [apply Hb|]. intros _. apply throws_bind; [solve_throws|]. intros _.
  apply throws_bind; [apply tree_loop_ends; unfold zlen; lia|]. intros rows. solve_throws.
Qed.

Lemma checked_object_ends oid kind : throws fueled (checked_object reader oid kind b).
Proof. unfold checked_object. solve_throws. Qed.
Hint Resolve tree_entries_ends checked_object_ends : omux.

Lemma walk_entry_ends descend prefix st e :
  (∀ oid pre st, throws fueled (descend oid pre st)) → throws fueled (walk_entry reader b descend prefix st e).
Proof. intros Hd. unfold walk_entry. solve_throws. Qed.

Lemma walk_ends fuel tree prefix ancestors st :
  zlen ancestors <= 64 → 65 <= zlen ancestors + Z.of_nat fuel → throws fueled (walk reader b fuel tree prefix ancestors st).
Proof.
  revert tree prefix ancestors st. induction fuel as [|fuel IH]; intros tree prefix ancestors st Ha Hf; cbn [walk]; [lia|].
  eapply throws_bind_returns; [solve_throws|apply returns_embed; intros u Hu; exact Hu|].
  intros _ [Hlt%bool_decide_eq_true _]%ensure_Ok%andb_true_iff. apply throws_bind; [solve_throws|]. intros v.
  apply throws_bind; [solve_throws|]. intros _. apply throws_bind; [solve_throws|]. intros es. apply throws_for. intros s e _.
  apply walk_entry_ends. intros oid pre st'. apply IH; rewrite zlen_cons; lia.
Qed.

Lemma resolve_links_ends rs bl : throws fueled (resolve_links rs bl (Some b)).
Proof. unfold resolve_links, resolve_link, link_step, check_prefix. cbn [tick]. solve_throws. Qed.

(** The fuel is enough: a snapshot ends with a result or with a refusal of the
    code, of the budget or of the reader, on every input. *)
Theorem snapshot_ends root : throws fueled (snapshot_tree reader b root).
Proof.
  unfold snapshot_tree. apply throws_bind; [apply walk_ends; by vm_compute|]. intros st.
  apply throws_bind; [apply Hb|]. intros _. apply throws_bind; [apply Hb|]. intros _. apply throws_bind; [solve_throws|]. intros _.
  apply throws_bind; [apply resolve_links_ends|]. intros _. apply throws_ret.
Qed.
End Ends.

(** A root with a file and a directory that holds a link to it *)
Definition ex_id (kind : string) (v : bytes) : string := match object_id kind v with Ok s => s | Err _ => "" end.
Definition ex_file : bytes := fsencode "hello".
Definition ex_target : bytes := fsencode "../a.txt".
Definition ex_file_id : string := Eval vm_compute in ex_id "blob" ex_file.
Definition ex_target_id : string := Eval vm_compute in ex_id "blob" ex_target.
Definition ex_sub : bytes := tree_bytes [("120000", "link", ex_target_id)].
Definition ex_sub_id : string := Eval vm_compute in ex_id "tree" ex_sub.
Definition ex_root : bytes := tree_bytes [("100644", "a.txt", ex_file_id); ("40000", "d", ex_sub_id)].
Definition ex_root_id : string := Eval vm_compute in ex_id "tree" ex_root.
Definition ex_store (oid : string) : option (string * bytes) :=
  dget oid [(ex_file_id, ("blob", ex_file)); (ex_target_id, ("blob", ex_target));
            (ex_sub_id, ("tree", ex_sub)); (ex_root_id, ("tree", ex_root))].
Definition ex_reader (oid : string) : M unit unit (string * bytes) :=
  match ex_store oid with Some kv => mret kv | None => throw KeyError end.
Definition ex_budget : budget (W := unit) (E := unit) := λ _, mret tt.
Definition ex_rows : list row :=
  [Row "a.txt" "100644" ex_file_id 5 (Some "2cf24dba5fb0a30e26e83b2ac5b9e29e1b161e5c1fa7425e73043362938b9824");
   Row "d" "40000" ex_sub_id 0 None;
   Row "d/link" "120000" ex_target_id 8 (Some (Sha256.hexdigest ex_target))].


End GitSnapshot.
