(* ===== verification/GitBudget.v ===== *)
(** * Budgets, phases and refusals of the Git producer

    [tools/codex_git_inputs.py] reads objects under a budget (a deadline on the
    monotonic clock and a count of bytes, the count inherited from
    [tools/codex_dependency_bundle.py]) and reports failures only as a phase, a
    category and the category of the first failing cleanup.  Clock readings are
    integers in milliseconds. *)
From S2P Require Import Prelude PyBytes PyString PyText Effect.
Local Open Scope Z_scope.

Module GitBudget.

Definition MAX_FILE : Z := 1024 * 1024 * 1024.
Definition MAX_BYTES : Z := 4 * MAX_FILE.
Definition MAX_SECONDS : Z := 1200.
Definition ENCLOSING_SECONDS : Z := 900.
Definition COMPLETION_RESERVE : Z := 60.
Definition CLEANUP_RESERVE : Z := 10.
Definition second : Z := 1000.

Definition PHASES : list string :=
  ["arguments"; "producer-context"; "source-authority"; "tool-authority";
   "worker-custody"; "git-init"; "git-fetch"; "object-inventory";
   "source-revalidation"; "tar-encode"; "tree-proof-verify";
   "output-custody"; "output-artifacts"; "output-publication";
   "offline-verification"; "git-cleanup"].
Definition CATEGORIES : list string :=
  ["arguments"; "deadline"; "bound"; "permission"; "missing-input"; "io"; "contract"; "schema"; "process"; "cleanup-deadline"].

(** ** Faults, by the class the handlers test for *)
Record refusal := GitRefusal { r_phase : string; r_category : string; r_cleanup : option string }.

Inductive fault :=
  | ArgumentRefusal
  | DeadlineRefusal
  | TimeoutExpired
  | PermissionError
  | FileNotFound
  | OtherOSError
  | JSONDecodeError
  | UnicodeFault
  | RecursionFault
  | TarError
  | OtherSubprocessError
  | Refused (r : refusal)
  | ValueFault (msg : string)   (** any other [ValueError] *)
  | OtherFault.                 (** any other [BaseException] *)

Definition BOUND_MESSAGES : list string :=
  ["bundle read budget exceeded"; "Git task bound exceeded"; "Git stdout bound exceeded"; "Git diagnostic bound exceeded";
   "worker bytes exceed bound"; "worker inventory exceeds bound"; "worker free floor differs"; "Git command count exceeds bound"].

Definition refusal_category (e : fault) : string :=
  match e with
  | ArgumentRefusal => "arguments"
  | DeadlineRefusal => "deadline"
  | TimeoutExpired => "cleanup-deadline"
  | PermissionError => "permission"
  | FileNotFound => "missing-input"
  | OtherOSError => "io"
  | JSONDecodeError | UnicodeFault | RecursionFault | TarError => "schema"
  | OtherSubprocessError => "process"
  | ValueFault msg =>
      if bool_decide (msg = "bundle deadline exceeded") then "deadline"
      else if bool_decide (msg ∈ BOUND_MESSAGES) then "bound"
      else "contract"
  | Refused _ | OtherFault => "contract"
  end.

(** [GitRefusal(phase, category, cleanup)] *)
Definition new_refusal (phase category : string) (cleanup : option string) : res refusal :=
  _ ← ensure (bool_decide (phase ∈ PHASES) && bool_decide (category ∈ CATEGORIES)
              && match cleanup with None => true | Some c => bool_decide (c ∈ CATEGORIES) end) (ValueError "invalid refusal category");
  Ok (GitRefusal phase category cleanup).

Definition cleanup_refusal (phase : string) (primary cleanup : fault) : res refusal :=
  match primary with
  | Refused r =>
      new_refusal (r_phase r) (r_category r) (Some (match r_cleanup r with Some c => c | None => refusal_category cleanup end))
  | _ => new_refusal phase (refusal_category primary) (Some (refusal_category cleanup))
  end.

(** The [finally] of [owned_selector]: what leaves the block, from the fault of
    its body and the fault of [selector.close()] *)
Definition release (phase : string) (primary close : option fault) : res (option fault) :=
  match close with
  | None => Ok primary
  | Some cleanup =>
      r ← match primary with
          | Some p => cleanup_refusal phase p cleanup
          | None => new_refusal phase (refusal_category cleanup) None
          end;
      Ok (Some (Refused r))
  end.

(** What [emit_refusal] writes for a fault that reached the producer in [phase] *)
Definition emitted_refusal (phase : string) (e : fault) : res refusal :=
  match e with Refused r => Ok r | _ => new_refusal phase (refusal_category e) None end.

(** ** Progress: the phases announced, on the stream as JSON objects with the
    one key [git_input_phase] *)
Record progress := Progress { phase : string; emitted : list string; stream : list string }.
Definition start : progress := Progress "arguments" [] [].
(** [Progress.enter]: each phase is announced once. *)
Definition enter_phase (p : progress) (next : string) : res progress :=
  _ ← ensure (bool_decide (next ∈ PHASES)) (ValueError "invalid progress phase");
  Ok (if bool_decide (next ∈ emitted p) then Progress next (emitted p) (stream p)
      else Progress next (emitted p ++ [next]) (stream p ++ [next])).

(** ** Budgets *)
Record account := Account { deadline : Z; read_bytes : Z; export_bytes : Z }.

Section Budget.
Context {W E : Type} (monotonic : W → Z * W).
Abbreviation prog := (M (W * account) E).

Definition now : prog Z := call (λ w, let '(t, k) := monotonic w.1 in (Ok t, (k, w.2))) (λ _, []).
Definition get : prog account := call (λ w, (Ok w.2, w)) (λ _, []).
Definition put (a : account) : prog unit := call (λ w, (Ok tt, (w.1, a))) (λ _, []).

(** [Budget.tick] *)
Definition base_tick (count : Z) : prog unit :=
  t ← now; a ← get;
  _ ← embed (ensure (bool_decide (t < deadline a)) (ValueError "bundle deadline exceeded"));
  _ ← put (Account (deadline a) (read_bytes a + count) (export_bytes a));
  embed (ensure (bool_decide (read_bytes a + count <= MAX_BYTES)) (ValueError "bundle read budget exceeded")).

(** [Budget.__init__] *)
Definition base_init (seconds : Z) : prog unit :=
  _ ← embed (ensure (bool_decide (1 <= seconds <= MAX_SECONDS)) (ValueError "deadline bound differs"));
  t ← now; put (Account (t + seconds * second) 0 0).

(** [ProducerBudget.tick]; [DeadlineRefusal] is a [ValueError]. *)
Definition producer_tick (count : Z) : prog unit :=
  t ← now; a ← get;
  _ ← embed (raise_if (bool_decide (t >= deadline a)) (ValueError "producer deadline exhausted"));
  base_tick count.

(** [re.fullmatch(r"[1-9][0-9]{0,5}", observed)] *)
Definition timeout_text (s : string) : bool := positive_decimal s && bool_decide (String.length s <= 6)%nat.

(** [ProducerBudget.__init__]: [None] when the variable is not set *)
Definition producer_init (observed : option string) (started : Z) : prog unit :=
  s ← embed (match observed with
             | Some s => if timeout_text s then Ok s else Err (ValueError "enclosing timeout shape differs")
             | None => Err (ValueError "enclosing timeout shape differs")
             end);
  let enclosing := Z.min (Z.min ENCLOSING_SECONDS 1200) (dec_value s) in
  _ ← embed (raise_if (bool_decide (enclosing <= COMPLETION_RESERVE + CLEANUP_RESERVE)) (ValueError "enclosing timeout lacks reserves"));
  _ ← put (Account (started + (enclosing - COMPLETION_RESERVE) * second) 0 0);
  producer_tick 0.

(** [CommandBudget.tick]: the command's own deadline around its parent's tick *)
Definition command_tick (limit : Z) (parent : Z → prog unit) (count : Z) : prog unit :=
  t ← now;
  _ ← embed (raise_if (bool_decide (t >= limit)) (ValueError "command deadline exhausted"));
  _ ← parent count;
  t ← now;
  embed (raise_if (bool_decide (t >= limit)) (ValueError "command deadline exhausted")).

(** [enter(budget, phase)] for a budget with its progress *)
Definition enter (tick : Z → prog unit) (p : progress) (next : string) : prog progress :=
  p ← embed (enter_phase p next); _ ← tick 0; mret p.
End Budget.

(** ** Evidence is never replaced *)
Lemma refusal_category_closed e : refusal_category e ∈ CATEGORIES.
Proof.
  destruct e as [| | | | | | | | | | |r|msg|]; cbn [refusal_category]; try by apply (bool_decide_unpack _); vm_compute.
  repeat case_bool_decide; by apply (bool_decide_unpack _); vm_compute.
Qed.

Definition refusal_ok (r : refusal) : Prop :=
  r_phase r ∈ PHASES ∧ r_category r ∈ CATEGORIES ∧ (∀ c, r_cleanup r = Some c → c ∈ CATEGORIES).
Definition fault_ok (e : fault) : Prop := match e with Refused r => refusal_ok r | _ => True end.

Lemma new_refusal_ok ph c cl :
  ph ∈ PHASES → c ∈ CATEGORIES → (∀ x, cl = Some x → x ∈ CATEGORIES) →
  new_refusal ph c cl = Ok (GitRefusal ph c cl) ∧ refusal_ok (GitRefusal ph c cl).
Proof.
  intros Hp Hc Hcl. split; [|done]. unfold new_refusal. rewrite (bool_decide_true (ph ∈ PHASES)), (bool_decide_true (c ∈ CATEGORIES)) by done.
  destruct cl as [x|]; [|done]. rewrite (bool_decide_true (x ∈ CATEGORIES)) by auto. done.
Qed.

(** The release boundaries a fault passes on its way out, innermost first:
    their phases and what closing raised *)
Definition release_all (bs : list (string * option fault)) (primary : option fault) : res (option fault) :=
  forM (λ e b, release b.1 e b.2) bs primary.

(** The phase, category and cleanup a fault stands for at a boundary *)
Definition phase_of (ph : string) (e : fault) : string := match e with Refused r => r_phase r | _ => ph end.
Definition category_of (e : fault) : string := match e with Refused r => r_category r | _ => refusal_category e end.
Definition cleanup_of (e : fault) : option string := match e with Refused r => r_cleanup r | _ => None end.

Lemma cleanup_refusal_spec ph p c :
  ph ∈ PHASES → fault_ok p →
  cleanup_refusal ph p c = Ok (GitRefusal (phase_of ph p) (category_of p) (Some (default (refusal_category c) (cleanup_of p)))) ∧
  refusal_ok (GitRefusal (phase_of ph p) (category_of p) (Some (default (refusal_category c) (cleanup_of p)))).
Proof.
  intros Hph Hp. destruct p as [| | | | | | | | | | |r|msg|]; cbn [cleanup_refusal phase_of category_of cleanup_of];
    try by apply new_refusal_ok; [done|apply refusal_category_closed|intros x [= <-]; apply refusal_category_closed].
  destruct Hp as (H1 & H2 & H3). destruct (r_cleanup r) as [c'|] eqn:Ec; cbn [default];
    (apply new_refusal_ok; [done|done|]); intros x [= <-]; [by apply H3|apply refusal_category_closed].
Qed.

(** Once a fault carries cleanup evidence, further boundaries keep it as it is. *)
Lemma release_all_settled bs r c :
  (∀ b, b ∈ bs → b.1 ∈ PHASES) → refusal_ok r → r_cleanup r = Some c →
  release_all bs (Some (Refused r)) = Ok (Some (Refused r)).
Proof.
  intros Hbs Hr Hc. induction bs as [|[ph close] bs IH]; [done|].
  assert (release ph (Some (Refused r)) close = Ok (Some (Refused r))) as Hrel.
  { destruct close as [c2|]; [|done]. cbn [release]. destruct (cleanup_refusal_spec ph (Refused r) c2) as [-> _]; [apply (Hbs (ph, Some c2)); constructor|done|].
    cbn [phase_of category_of cleanup_of]. rewrite Hc. cbn. rewrite <-Hc. by destruct r. }
  unfold release_all in *. cbn [forM fst snd]. rewrite Hrel. apply IH. intros b Hb. apply Hbs. by constructor.
Qed.

(** The first work category and the first cleanup category survive every
    release boundary: whatever the later closings raise, the fault that leaves
    is the first one, with the category of the first closing that failed. *)
Theorem first_evidence_kept bs p :
  (∀ b, b ∈ bs → b.1 ∈ PHASES) → fault_ok p → cleanup_of p = None →
  release_all bs (Some p) = Ok (Some (
    match list_find (λ b : string * option fault, is_Some b.2) bs with
    | Some (_, (ph, Some c)) => Refused (GitRefusal (phase_of ph p) (category_of p) (Some (refusal_category c)))
    | _ => p
    end)).
Proof.
  intros Hbs Hp Hc. induction bs as [|[ph close] bs IH]; [done|]. cbn [list_find snd].
  destruct close as [c|].
  - rewrite decide_True by done. unfold release_all. cbn [forM fst snd release].
    destruct (cleanup_refusal_spec ph p c) as [-> Hok]; [apply (Hbs (ph, Some c)); constructor|done|]. rewrite Hc in *. cbn [default mbind res_bind] in *.
    apply (release_all_settled bs _ (refusal_category c)); [|done|done]. intros b Hb. apply Hbs. by constructor.
  - rewrite decide_False by (by intros [? ?]). change (release_all ((ph, None) :: bs) (Some p)) with (release_all bs (Some p)).
    rewrite IH by (intros b Hb; apply Hbs; by constructor). by destruct (list_find _ bs) as [[? [? [?|]]]|].
Qed.

(** ** The accounts of a budget *)
Section Accounts.
Context {W E : Type} (monotonic : W → Z * W).
Abbreviation run := (world (W * account) E).

(** A successful tick counts its bytes and was made before the deadline. *)
Definition ticked (st st' : run) (count : Z) : Prop :=
  read_bytes (env st').2 = read_bytes (env st).2 + count ∧ read_bytes (env st').2 <= MAX_BYTES ∧
  deadline (env st').2 = deadline (env st).2 ∧ ∃ k t k', monotonic k = (t, k') ∧ t < deadline (env st).2.

Lemma base_tick_ok count (st st' : run) u : base_tick monotonic count st = (Ok u, st') → ticked st st' count.
Proof.
  destruct st as [[k a] tr]. unfold base_tick, now, get, put, mbind, M_bind, call, embed. cbn.
  destruct (monotonic k) as [t k1] eqn:Em. cbn. destruct (bool_decide_reflect (t < deadline a)); cbn; [|done].
  destruct (bool_decide_reflect (read_bytes a + count <= MAX_BYTES)); cbn; [|done]. intros [= <- <-]. unfold ticked. cbn. eauto 10.
Qed.

Lemma producer_tick_ok count (st st' : run) u : producer_tick monotonic count st = (Ok u, st') → ticked st st' count.
Proof.
  destruct st as [[k a] tr]. unfold producer_tick, now, get, mbind at 1, M_bind, call. cbn. destruct (monotonic k) as [t k1]. cbn.
  unfold mbind, M_bind, embed. destruct (raise_if _ _); [|done].
  intros H%base_tick_ok. exact H.
Qed.

(** The producer's deadline leaves the completion reserve of a timeout of at
    most fifteen minutes, and at least the cleanup reserve to work in. *)
Theorem producer_deadline observed started (st st' : run) u :
  producer_init monotonic observed started st = (Ok u, st') →
  started + CLEANUP_RESERVE * second < deadline (env st').2 <= started + (ENCLOSING_SECONDS - COMPLETION_RESERVE) * second ∧
  read_bytes (env st').2 = 0.
Proof.
  unfold producer_init, mbind at 1, M_bind, embed. destruct observed as [s|]; [|done]. destruct (timeout_text s); [|done].
  unfold mbind at 1, M_bind. destruct (bool_decide_reflect (Z.min (Z.min ENCLOSING_SECONDS 1200) (dec_value s) <= COMPLETION_RESERVE + CLEANUP_RESERVE)) as [|Hn];
    cbn [raise_if]; [done|]. unfold mbind, M_bind, put, call. cbn beta iota.
  intros (Hr & _ & Hd & _)%producer_tick_ok. cbn [env snd deadline read_bytes] in *. rewrite Hd, Hr.
  unfold ENCLOSING_SECONDS, COMPLETION_RESERVE, CLEANUP_RESERVE, second in *. lia.
Qed.
End Accounts.

End GitBudget.
