(* ===== verification/NativeRecords.v ===== *)
(** * Closed diagnostic records of native runs

    [delivery/native_run_cli_failure.py], the record of one failed command line
    run, and the records of [delivery/native_fd2_observer.py]: one line of
    bytes made of names from fixed lists, so that a record carries no byte of
    what was observed. *)
From S2P Require Import Prelude PyBytes PyString PyValue PyText PyScan.
From Stdlib Require Import Ascii.
Local Open Scope Z_scope.

Module NativeRecords.

(** ** Lines of names *)
(** [data.count(b"\n")] *)
Definition newlines (data : bytes) : Z := zlen (List.filter (λ b, bool_decide (b = x0a)) data).

(** The guard both parsers share, and the parts of the line *)
Definition split_record (prefix : string) (maximum : Z) (data : bytes) : option (list string) :=
  if bool_decide (zlen data > maximum) || negb (bendswith [x0a] data) || bool_decide (newlines data ≠ 1) then None else
  match str_split "/" (fsdecode (take (length data - 1) data)) with
  | p :: fields => if bool_decide (p = prefix) then Some fields else None
  | [] => None
  end.

(** [all(field in allowed for field, allowed in zip(fields, CHOICES))] and the
    lengths agree *)
Fixpoint chosen (choices : list (list string)) (fields : list string) : bool :=
  match choices, fields with
  | [], [] => true
  | allowed :: choices, f :: fields => bool_decide (f ∈ allowed) && chosen choices fields
  | _, _ => false
  end.

Definition line (prefix : string) (fields : list string) : bytes := fsencode (str_join "/" (prefix :: fields)) ++ [x0a].

(** ** The failure of one command line run *)
Module Cli.

Definition PREFIX : string := "OMUX_RUN_CLI_FAILURE_V1".
Definition MAX_RECORD : Z := 192.
Definition STAGES : list string := ["launch"; "input"; "capture"; "wait"; "process"; "json"; "result"].
Definition FAILURES : list string :=
  ["os-busy"; "os-permission"; "os-missing"; "os-memory"; "os-pipe"; "os-limit"; "os-interrupted"; "os-other"; "timeout"; "json";
   "output-bound"; "stream-deadline"; "process-predicate"; "result-predicate"; "other"].
Definition EXITS : list string := ["exit-unobserved"; "exit-zero"; "exit-positive"; "exit-signal"; "exit-unavailable"].
Definition STDOUT : list string := ["stdout-empty"; "stdout-nonempty"; "stdout-unavailable"].
Definition STDERR : list string := ["stderr-empty"; "stderr-nonempty"; "stderr-unavailable"].
Definition CHOICES : list (list string) := [STAGES; FAILURES; EXITS; STDOUT; STDERR].
Definition PREDICATES : list (string * string) :=
  [("installed CLI output exceeded its bound", "output-bound");
   ("installed CLI deadline exceeded", "stream-deadline");
   ("installed CLI predicate failed", "process-predicate");
   ("installed CLI response rejected", "result-predicate")].
(** The [errno] constants of Linux *)
Definition ERRNOS : list (Z * string) :=
  [(11, "os-busy"); (13, "os-permission"); (1, "os-permission"); (2, "os-missing"); (12, "os-memory"); (32, "os-pipe");
   (24, "os-limit"); (23, "os-limit"); (4, "os-interrupted")].

(** What the handlers distinguish of an exception *)
Inductive error :=
  | TimeoutExpired
  | OSFailure (errno : value)
  | JSONDecodeError
  | ValueFailure (args : list value)
  | OtherFailure.

Definition failure_kind (e : error) : string :=
  match e with
  | TimeoutExpired => "timeout"
  | OSFailure (VInt n) => default "os-other" (snd <$> List.find (λ row, bool_decide (row.1 = n)) ERRNOS)
  | OSFailure _ => "os-other"
  | JSONDecodeError => "json"
  | ValueFailure [VStr s] => default "other" (dget s PREDICATES)
  | ValueFailure _ => "other"
  | OtherFailure => "other"
  end.

(** [None]: neither [bytes] nor [bytearray] *)
Definition stream_kind (data : option bytes) (name : string) : string :=
  match data with
  | None => name +:+ "-unavailable"
  | Some [] => name +:+ "-empty"
  | Some _ => name +:+ "-nonempty"
  end.

Definition exit_code (returncode : value) : string :=
  match returncode with
  | VNone => "exit-unobserved"
  | VInt n => if bool_decide (n = 0) then "exit-zero" else if bool_decide (n > 0) then "exit-positive" else "exit-signal"
  | _ => "exit-unavailable"
  end.

Definition parse_record (data : bytes) : res bytes :=
  match split_record PREFIX MAX_RECORD data with
  | Some fields => if chosen CHOICES fields then Ok data else Err (ValueError "CLI failure record rejected")
  | None => Err (ValueError "CLI failure record rejected")
  end.

Definition record (stage : string) (e : error) (returncode : value) (output diagnostics : option bytes) : res bytes :=
  _ ← ensure (bool_decide (stage ∈ STAGES)) (ValueError "CLI failure stage rejected");
  parse_record (line PREFIX [stage; failure_kind e; exit_code returncode; stream_kind output "stdout"; stream_kind diagnostics "stderr"]).

(** [notify]: the observer is a function on some world that may raise; nothing
    it raises leaves. *)
Definition notify {W : Type} (observer : option (bytes → W → res unit * W)) (stage : string) (e : error)
    (returncode : value) (output diagnostics : option bytes) (w : W) : res unit * W :=
  match observer with
  | None => (Ok tt, w)
  | Some f =>
      match record stage e returncode output diagnostics with
      | Ok data => (Ok tt, (f data w).2)
      | Err _ => (Ok tt, w)
      end
  end.
End Cli.

(** ** The observer of descriptor 2 *)
Module Fd2.

Definition PREFIX : string := "OMUX_FD2_OBSERVER_V1".
Definition ERROR_STAGES : list string :=
  ["launch-fork"; "launch-table"; "clock"; "wait"; "wait-kind"; "fork-event"; "fork-zero"; "exec-event"; "exec-table"; "resume"; "root-exit-missing"].
Definition ERROR_KINDS : list string :=
  ["none"; "child"; "task-gone"; "permission"; "argument"; "io"; "unsupported"; "interrupted"; "busy"; "memory"; "other"].
Definition ERROR_STATES : list string := stage ← ERROR_STAGES; kind ← ERROR_KINDS; ["error-" +:+ stage +:+ "-" +:+ kind].
Definition CHOICES : list (list string) := [
  ["observed"; "no-write"; "unavailable"; "error"; "cancelled"; "deadline"; "task-bound"; "stop-bound"; "cleanup-incomplete"] ++ ERROR_STATES;
  ["writer-none"; "writer-root-task"; "writer-other-task"];
  ["image-none"; "image-backend"; "image-loader"; "image-other"; "image-unavailable"];
  ["sink-none"; "sink-sampled-capture"; "sink-sampled-other"; "sink-unavailable"];
  ["call-none"; "call-write"; "call-writev"];
  ["origin-none"; "origin-backend"; "origin-loader"; "origin-libc"; "origin-other"; "origin-unavailable"] ].
Definition MAX_RECORD : Z := 224.
Definition NONE : list string := ["writer-none"; "image-none"; "sink-none"; "call-none"; "origin-none"].

Definition consistent (fields : list string) : bool :=
  match fields with
  | state :: rest =>
      negb (bool_decide (state = "no-write") && negb (bool_decide (rest = NONE))) &&
      negb (bool_decide (state = "observed") && existsb (λ p : string * string, bool_decide (p.1 = p.2)) (zip rest NONE))
  | [] => false
  end.

Definition parse_record (data : bytes) : res string :=
  match split_record PREFIX MAX_RECORD data with
  | Some fields =>
      if chosen CHOICES fields && consistent fields then Ok (str_join "/" fields) else Err (ValueError "fd2-observer-record")
  | None => Err (ValueError "fd2-observer-record")
  end.
End Fd2.

(** ** Failures of the history witness: [delivery/native_history_diagnostic.py] *)
Module History.

Definition STAGES : list (string * string) :=
  [("first-native-history-path", "path"); ("first-native-history-custody", "custody");
   ("second-native-history-path", "path"); ("second-native-history-custody", "custody")].
Definition PREDICATES : list (string * string) :=
  [("native persistent history did not materialize", "history-path-unmaterialized");
   ("native history left its private owned home", "history-path-custody");
   ("native history parent changed custody", "history-parent-symlink");
   ("native private file custody changed", "history-file-custody");
   ("native private file exceeded its bound", "history-file-bound")].
Definition KINDS : list string := ["file-absent"; "file-permission"; "file-kind"; "file-os"; "encoding"; "type"; "value"; "other"].
Definition label (stage kind : string) : string := "history-" +:+ stage +:+ "-" +:+ kind.
Definition CATEGORIES : list string :=
  PREDICATES.*2 ++ ["history-stage-unknown"] ++ (stage ← ["path"; "custody"]; kind ← KINDS; [label stage kind]).

(** The classes the classifier tells apart; [PlainValueError] is [ValueError] itself. *)
Inductive error :=
  | PlainValueError (args : list value)
  | FileNotFound
  | Permission
  | DirectoryKind        (** [IsADirectoryError], [NotADirectoryError] *)
  | OtherOSError
  | UnicodeFailure
  | TypeOrAttribute
  | ValueSubclass        (** any other subclass of [ValueError] *)
  | OtherError.

Definition error_kind (e : error) : string :=
  match e with
  | FileNotFound => "file-absent"
  | Permission => "file-permission"
  | DirectoryKind => "file-kind"
  | OtherOSError => "file-os"
  | UnicodeFailure => "encoding"
  | TypeOrAttribute => "type"
  | PlainValueError _ | ValueSubclass => "value"
  | OtherError => "other"
  end.

Definition classify (e : error) (phase : value) : string :=
  match (match phase with VStr p => dget p STAGES | _ => None end) with
  | None => "history-stage-unknown"
  | Some stage =>
      match (match e with PlainValueError [VStr s] => dget s PREDICATES | _ => None end) with
      | Some predicate => predicate
      | None => label stage (error_kind e)
      end
  end.
End History.

(** ** Laws *)
(** A name that can stand in a line: no separator, no line end *)
Definition plain (s : string) : bool := negb (str_mem "/" s) && forallb (λ b, negb (bool_decide (b = x0a))) (fsencode s).

Lemma newlines_line s : forallb (λ b, negb (bool_decide (b = x0a))) (fsencode s) = true → newlines (fsencode s ++ [x0a]) = 1.
Proof.
  intros H. unfold newlines. rewrite List.filter_app, zlen_app. replace (List.filter _ (fsencode s)) with (@nil byte); [done|].
  induction (fsencode s) as [|b l IH]; [done|]. cbn in *. apply andb_true_iff in H as [Hb Hl]. apply negb_true_iff in Hb. rewrite Hb. by apply IH.
Qed.

Lemma join_no_newline l : forallb plain l = true → forallb (λ b, negb (bool_decide (b = x0a))) (fsencode (str_join "/" l)) = true.
Proof.
  induction l as [|x l IH]; [done|]. cbn [forallb]. intros [[_ Hx]%andb_true_iff Hl]%andb_true_iff. destruct l as [|y l]; [done|].
  rewrite str_join_cons, !fsencode_app, !forallb_app by done. rewrite Hx, IH by done. done.
Qed.

(** Exactly the lines of plain names that fit are split, into those names. *)
Lemma split_record_line prefix maximum fields :
  forallb plain (prefix :: fields) = true → zlen (line prefix fields) <= maximum →
  split_record prefix maximum (line prefix fields) = Some fields.
Proof.
  intros Hp Hz. unfold split_record. rewrite bool_decide_false by lia.
  replace (bendswith [x0a] (line prefix fields)) with true; last first.
  { symmetry. unfold bendswith, line. rewrite length_app. cbn [length]. rewrite bool_decide_true by lia.
    rewrite Nat.add_sub, drop_app_length. done. }
  replace (newlines (line prefix fields)) with 1 by (symmetry; by apply newlines_line, join_no_newline). rewrite bool_decide_false by lia. cbn [orb negb].
  unfold line. rewrite length_app. cbn [length]. rewrite Nat.add_sub, take_app_length, fsdecode_fsencode.
  rewrite str_split_join; [by rewrite bool_decide_true|done|].
  intros x Hx. rewrite forallb_forall in Hp. apply list_elem_of_In, Hp, andb_true_iff in Hx as [Hx _]. by apply negb_true_iff in Hx.
Qed.

Lemma split_record_inv prefix maximum data fields :
  split_record prefix maximum data = Some fields → data = line prefix fields ∧ zlen data <= maximum.
Proof.
  unfold split_record. destruct (_ || _) eqn:Hg; [done|]. ok_inv.
  destruct (str_split "/" _) as [|p fs] eqn:Es; [done|]. case_bool_decide; [|done]. intros [= ->]. subst p.
  split; [|lia]. match goal with H : bendswith _ _ = true |- _ => apply bendswith_spec in H as Hd end.
  unfold line. rewrite <-Es. change "/" with (String "/" EmptyString). rewrite str_join_split, fsencode_fsdecode. exact Hd.
Qed.

Lemma chosen_Forall2 choices fields : chosen choices fields = true ↔ Forall2 (λ allowed f, f ∈ allowed) choices fields.
Proof.
  revert fields. induction choices as [|a choices IH]; intros [|f fields]; cbn [chosen].
  - split; [constructor|done].
  - split; [done|]. intros H; inversion H.
  - split; [done|]. intros H; inversion H.
  - rewrite andb_true_iff, bool_decide_eq_true, IH. split; [intros []; by constructor|]. intros H; by inversion H.
Qed.

(** The longest line of names from the lists, and that all names are plain *)
Definition widest (choices : list (list string)) : nat :=
  foldr (λ names n, (S (foldr (λ s m, Nat.max (String.length s) m) O names) + n)%nat) O choices.
Lemma chosen_fits prefix choices fields :
  chosen choices fields = true → zlen (line prefix fields) <= Z.of_nat (S (String.length prefix) + widest choices).
Proof.
  intros Hc. unfold line, zlen. rewrite length_app, length_fsencode. cbn [length].
  assert (String.length (str_join "/" (prefix :: fields)) <= String.length prefix + widest choices)%nat as H; [|lia].
  revert prefix choices Hc. induction fields as [|f fields IH]; intros prefix [|names choices] Hc; try done; [cbn; lia|].
  cbn [chosen] in Hc. apply andb_true_iff in Hc as [Hf%bool_decide_eq_true Hc]. rewrite str_join_cons, !str_length_app by done.
  specialize (IH f choices Hc). cbn [widest foldr]. fold (widest choices).
  assert (String.length f <= foldr (λ s m, Nat.max (String.length s) m) 0 names)%nat.
  { clear -Hf. induction names as [|n names IHn]; [by apply elem_of_nil in Hf|]. cbn. apply elem_of_cons in Hf as [ ->|Hf]; [lia|]. specialize (IHn Hf). lia. }
  cbn [String.length]. lia.
Qed.
Lemma chosen_plain choices fields :
  forallb (forallb plain) choices = true → chosen choices fields = true → forallb plain fields = true.
Proof.
  revert fields. induction choices as [|a choices IH]; intros [|f fields]; cbn [chosen forallb]; try done.
  intros [Ha Hp]%andb_true_iff [Hf%bool_decide_eq_true Hc]%andb_true_iff. rewrite IH by done.
  rewrite forallb_forall in Ha. rewrite Ha by (by apply list_elem_of_In). done.
Qed.

(** The parser of run failures accepts exactly the lines of listed names. *)
Theorem cli_parse_exact data :
  (∃ d, Cli.parse_record data = Ok d) ↔ ∃ fields, data = line Cli.PREFIX fields ∧ Forall2 (λ allowed f, f ∈ allowed) Cli.CHOICES fields.
Proof.
  unfold Cli.parse_record. split.
  - intros [d H]. destruct (split_record _ _ data) as [fields|] eqn:Es; [|done]. destruct (chosen _ _) eqn:Hc; [|done].
    exists fields. split; [by apply split_record_inv in Es as [-> _]|by apply chosen_Forall2].
  - intros (fields & -> & Hc%chosen_Forall2). rewrite split_record_line; [rewrite Hc; eauto| |].
    + cbn [forallb]. rewrite (chosen_plain Cli.CHOICES) by (done || by vm_compute). done.
    + etrans; [by apply chosen_fits|]. by vm_compute.
Qed.

Lemma failure_kind_listed e : Cli.failure_kind e ∈ Cli.FAILURES.
Proof.
  assert (∀ x, bool_decide (x ∈ Cli.FAILURES) = true → x ∈ Cli.FAILURES) as Hl by (intros x; by rewrite bool_decide_eq_true).
  destruct e as [|n| |args|]; cbn [Cli.failure_kind]; try by apply Hl; vm_compute.
  - destruct n as [| |z| | | |]; try by apply Hl; vm_compute.
    destruct (List.find _ _) as [row|] eqn:Ef; cbn; [|by apply Hl; vm_compute]. apply find_some in Ef as [Hin _].
    assert (forallb (λ row, bool_decide (row.2 ∈ Cli.FAILURES)) Cli.ERRNOS = true) as Ht by by vm_compute.
    rewrite forallb_forall in Ht. by apply Hl, Ht.
  - destruct args as [|[| | | |s| |] [|? ?]]; try by apply Hl; vm_compute.
    destruct (dget s Cli.PREDICATES) as [c|] eqn:Ed; cbn; [|by apply Hl; vm_compute]. apply dget_Some_elem in Ed.
    assert (forallb (λ row, bool_decide (row.2 ∈ Cli.FAILURES)) Cli.PREDICATES = true) as Ht by by vm_compute.
    rewrite forallb_forall in Ht. apply Hl. by apply (Ht (s, c)), list_elem_of_In.
Qed.

(** Every failure of a known stage has a record, which its own parser accepts,
    and notifying never raises, whatever the observer does. *)
Theorem cli_record_total stage e returncode output diagnostics :
  stage ∈ Cli.STAGES → ∃ data, Cli.record stage e returncode output diagnostics = Ok data ∧ Cli.parse_record data = Ok data.
Proof.
  intros Hs. unfold Cli.record. rewrite bool_decide_true by done. cbn [ensure mbind res_bind].
  set (data := line _ _). assert (∃ d, Cli.parse_record data = Ok d) as [d Hd].
  { apply cli_parse_exact. eexists. split; [done|]. unfold Cli.CHOICES. repeat apply Forall2_cons_2; [done|apply failure_kind_listed|..|by apply Forall2_nil_2].
    - destruct returncode as [| |z| | | |]; cbn; try by apply (bool_decide_unpack _); vm_compute.
      repeat case_bool_decide; by apply (bool_decide_unpack _); vm_compute.
    - destruct output as [[|? ?]|]; by apply (bool_decide_unpack _); vm_compute.
    - destruct diagnostics as [[|? ?]|]; by apply (bool_decide_unpack _); vm_compute. }
  exists data. unfold Cli.parse_record in *. destruct (split_record _ _ data); [|done]. by destruct (chosen _ _).
Qed.

Lemma notify_silent {W} observer stage e returncode output diagnostics (w : W) :
  (Cli.notify observer stage e returncode output diagnostics w).1 = Ok tt.
Proof. unfold Cli.notify. destruct observer; [|done]. by destruct (Cli.record _ _ _ _ _). Qed.

(** An accepted observer record is the line of the fields that are returned:
    listed names, all "none" when nothing was written, and none of them "none"
    when a write was observed. *)
Theorem fd2_parse_sound data text :
  Fd2.parse_record data = Ok text →
  ∃ state rest, text = str_join "/" (state :: rest) ∧ data = line Fd2.PREFIX (state :: rest) ∧
    Forall2 (λ allowed f, f ∈ allowed) Fd2.CHOICES (state :: rest) ∧
    (state = "no-write" → rest = Fd2.NONE) ∧ (state = "observed" → Forall2 (λ a b, a ≠ b) rest Fd2.NONE).
Proof.
  unfold Fd2.parse_record. destruct (split_record _ _ data) as [fields|] eqn:Es; [|done].
  destruct (chosen Fd2.CHOICES fields && Fd2.consistent fields) eqn:Hc; [|done]. intros [= <-].
  apply andb_true_iff in Hc as [Hch Hco]. apply chosen_Forall2 in Hch as HF. apply split_record_inv in Es as [Hd _].
  destruct fields as [|state rest]; [by inversion HF|]. exists state, rest. cbn [Fd2.consistent] in Hco.
  apply andb_true_iff in Hco as [H1%negb_true_iff H2%negb_true_iff]. split_and!; [done|done|done|..].
  - intros ->. rewrite bool_decide_true in H1 by done. cbn in H1. by apply negb_false_iff, bool_decide_eq_true in H1.
  - intros ->. rewrite bool_decide_true in H2 by done. cbn [andb] in H2.
    apply Forall2_length in HF as Hl. cbn in Hl. assert (length rest = length Fd2.NONE) as Hlen by (cbn; lia).
    clear -H2 Hlen. revert H2 Hlen. generalize Fd2.NONE. induction rest as [|x rest IH]; intros [|y l]; cbn; try done.
    intros [Hx%bool_decide_eq_false Hr]%orb_false_iff Hl. constructor; [done|]. apply IH; [done|lia].
Qed.

(** The history classifier returns a listed category, and one that tells the
    stage only for a known stage. *)
Theorem history_closed e phase :
  History.classify e phase ∈ History.CATEGORIES ∧
  (History.classify e phase = "history-stage-unknown" ↔ ∀ p, phase = VStr p → dget p History.STAGES = None).
Proof.
  assert (∀ x, bool_decide (x ∈ History.CATEGORIES) && bool_decide (x ≠ "history-stage-unknown") = true →
    x ∈ History.CATEGORIES ∧ x ≠ "history-stage-unknown") as Hl by (intros x; by rewrite andb_true_iff, !bool_decide_eq_true).
  unfold History.classify. destruct (match phase with VStr p => dget p History.STAGES | _ => None end) as [stage|] eqn:Es.
  - assert (stage = "path" ∨ stage = "custody") as Hst.
    { destruct phase as [| | | |p| |]; try done. apply dget_Some_elem in Es. unfold History.STAGES in Es.
      repeat (apply elem_of_cons in Es as [[= -> ->]|Es]; [tauto|]). by apply elem_of_nil in Es. }
    set (c := match _ with Some predicate => predicate | None => _ end).
    assert (c ∈ History.CATEGORIES ∧ c ≠ "history-stage-unknown") as [H1 H2].
    { unfold c. clear c. destruct (match e with History.PlainValueError [VStr s] => dget s History.PREDICATES | _ => None end) as [q|] eqn:Ep.
      - destruct e as [[|[| | | |s| |] [|? ?]]| | | | | | | |]; try done. apply dget_Some_elem in Ep. unfold History.PREDICATES in Ep.
        repeat (apply elem_of_cons in Ep as [[= -> ->]|Ep]; [by apply Hl; vm_compute|]). by apply elem_of_nil in Ep.
      - destruct Hst as [->|Hst]; [|rewrite Hst]; destruct e; by apply Hl; vm_compute. }
    split; [done|]. split; [done|]. intros H. destruct phase as [| | | |p| |]; try done. by rewrite (H p eq_refl) in Es.
  - split; [by apply (bool_decide_unpack _); vm_compute|]. split; [|done]. intros _ p ->. done.
Qed.

End NativeRecords.
