(* ===== verification/NativeCheckpoint.v ===== *)
(** * The resume checkpoint of a paginated history: [delivery/native_resumed_checkpoint.py]

    The predicate on the bytes a cold native resume appended to a retained
    history.  [json.loads] with the hook that refuses repeated keys is a
    parameter. *)
From S2P Require Import Prelude PyBytes PyString PyValue PyScan.
Local Open Scope Z_scope.

Module NativeCheckpoint.

Definition MAX_HISTORY_BYTES : Z := 1024 * 1024.
Definition MAX_ORDINAL : Z := Z.shiftl 1 64 - 1.

Definition require (good : bool) (msg : string) : res unit := ensure good (ValueError msg).
Definition ENVELOPE : string := "cold native metadata append envelope changed".

(** [data.splitlines()] on [bytes]: lines end at a line feed, a carriage
    return, or both. *)
Fixpoint lines_of (data line : bytes) : list bytes :=
  match data with
  | [] => match line with [] => [] | _ => [rev line] end
  | b :: data' =>
      if bool_decide (b = x0a) then rev line :: lines_of data' []
      else if bool_decide (b = x0d) then
        rev line ::
        match data' with
        | c :: data'' => if bool_decide (c = x0a) then lines_of data'' [] else lines_of data' []
        | [] => []
        end
      else lines_of data' (b :: line)
  end.
Definition splitlines (data : bytes) : list bytes := lines_of data [].

(** [object_pairs_hook]: the pairs of one object, in order *)
Definition strict_object (pairs : list (string * value)) : res value :=
  r ← forM (λ d '(k, v), if bool_decide (k ∈ dkeys d) then Err (ValueError "native JSON contains duplicate keys") else Ok (dset k v d)) pairs [];
  Ok (VDict r).

Definition ordinal (record : value) : res Z :=
  match record with
  | VDict d =>
      match dget "ordinal" d with
      | Some (VInt z) => _ ← require (bool_decide (0 <= z <= MAX_ORDINAL)) ENVELOPE; Ok z
      | _ => Err (ValueError ENVELOPE)
      end
  | _ => Err (ValueError ENVELOPE)
  end.

Definition REQUIRED : list string :=
  ["model"; "model_provider_id"; "approval_policy"; "approvals_reviewer"; "permission_profile"; "cwd"; "collaboration_mode"; "disabled_plugin_ids"].
Definition OPTIONAL : list string :=
  ["service_tier"; "active_permission_profile"; "runtime_workspace_roots"; "reasoning_effort"; "reasoning_summary"; "personality"].

(** [d[k] == v], after the keys of [d] have been checked *)
Definition holds (d : dict) (k : string) (p : value → bool) : bool := match dget k d with Some v => p v | None => false end.

Section Validate.
Context (loads : bytes → res value).

Definition root_paginated (root : value) : bool :=
  match root with
  | VDict d => holds d "type" (py_eq (VStr "session_meta")) &&
      match dget "payload" d with Some (VDict p) => holds p "history_mode" (py_eq (VStr "paginated")) | _ => false end
  | _ => false
  end.

Definition check_settings (settings : dict) (original_cwd : value) : res unit :=
  require (subset REQUIRED (dkeys settings) && subset (dkeys settings) (REQUIRED ++ OPTIONAL)
           && holds settings "cwd" (λ v, py_eq v original_cwd) && holds settings "approval_policy" (λ v, py_eq v (VStr "never"))
           && holds settings "disabled_plugin_ids" (λ v, py_eq v (VList [])))
    "cold native settings snapshot changed provider-free policy".

(** The event's envelope: its payload *)
Definition check_event (event : value) (previous : Z) : res dict :=
  match event with
  | VDict d =>
      _ ← require (keys_are ["timestamp"; "ordinal"; "type"; "payload"] d && holds d "type" (λ v, py_eq v (VStr "event_msg"))
                   && holds d "timestamp" is_str && holds d "payload" is_dict) ENVELOPE;
      o ← ordinal event;
      _ ← require (bool_decide (o = previous + 1)) ENVELOPE;
      match dget "payload" d with Some (VDict body) => Ok body | _ => Err (ValueError ENVELOPE) end
  | _ => Err (ValueError ENVELOPE)
  end.

Definition validate_paginated_checkpoint (prefix appended : bytes) (thread original_cwd : value) : res unit :=
  _ ← require (bool_decide (0 < zlen prefix) && bool_decide (zlen prefix <= MAX_HISTORY_BYTES)
               && bool_decide (0 < zlen appended) && bool_decide (zlen appended <= MAX_HISTORY_BYTES)
               && bendswith [x0a] prefix && bendswith [x0a] appended) ENVELOPE;
  let original := splitlines prefix in
  first ← match head original with Some l => Ok l | None => Err IndexError end;
  root ← loads first;
  _ ← require (root_paginated root) ENVELOPE;
  final ← match last original with Some l => Ok l | None => Err IndexError end;
  record ← loads final;
  previous ← ordinal record;
  _ ← require (bool_decide (previous < MAX_ORDINAL)) ENVELOPE;
  match splitlines appended with
  | [only] =>
      event ← loads only;
      body ← check_event event previous;
      _ ← require (keys_are ["type"; "thread_id"; "thread_settings"] body && holds body "type" (λ v, py_eq v (VStr "thread_settings_applied"))
                   && holds body "thread_id" (λ v, py_eq v thread) && holds body "thread_settings" is_dict)
            "cold native append was not settings metadata";
      match dget "thread_settings" body with
      | Some (VDict settings) => check_settings settings original_cwd
      | _ => Err (ValueError "cold native append was not settings metadata")
      end
  | _ => Err (ValueError "cold native resume appended unexpected history")
  end.
End Validate.

(** ** An accepted append *)
(** [strict_object] builds the object of its pairs and refuses a repeated key. *)
Theorem strict_object_exact pairs v : strict_object pairs = Ok v ↔ v = VDict pairs ∧ NoDup (dkeys pairs).
Proof.
  assert (∀ (ps d r : dict), NoDup (dkeys d) →
    forM (λ d '(k, v), if bool_decide (k ∈ dkeys d) then Err (ValueError "native JSON contains duplicate keys") else Ok (dset k v d)) ps d = Ok r ↔
    r = d ++ ps ∧ NoDup (dkeys (d ++ ps))) as H.
  { induction ps as [|[k x] ps IH]; intros d r Hd; cbn [forM].
    - rewrite app_nil_r. split; [by intros [= <-]|]. by intros [-> _].
    - rewrite bind_Ok. case_bool_decide as Hk.
      + split; [by intros (? & ? & ?)|]. intros [_ Hn]. unfold dkeys in *. rewrite fmap_app in Hn. apply NoDup_app in Hn as (_ & Hn & _).
        destruct (Hn _ Hk). constructor.
      + rewrite dset_new by done. assert (NoDup (dkeys (d ++ [(k, x)]))) as Hd'.
        { unfold dkeys in *. rewrite fmap_app. apply NoDup_app. split_and!; [done| |apply NoDup_singleton]. intros y Hy ->%list_elem_of_singleton. done. }
        specialize (IH _ r Hd'). rewrite <-(assoc_L (++)) in IH. cbn in IH. rewrite <-IH. naive_solver. }
  unfold strict_object. rewrite bind_Ok. split.
  - intros (r & Hr & [= <-]). apply H in Hr as [-> Hn]; [done|constructor].
  - intros [-> Hn]. exists pairs. split; [|done]. apply H; [constructor|done].
Qed.

(** What was accepted: the history declares pagination, and the append is one
    event that carries the next ordinal, which does not wrap, and the settings
    of this thread in its own directory, without approvals or plugins. *)
Record accepted (loads : bytes → res value) (prefix appended : bytes) (thread original_cwd : value)
    (event body settings : dict) (previous : Z) : Prop := {
  ac_last : ∃ final record, last (splitlines prefix) = Some final ∧ loads final = Ok record ∧ ordinal record = Ok previous;
  ac_one : ∃ only, splitlines appended = [only] ∧ loads only = Ok (VDict event);
  ac_ordinal : ordinal (VDict event) = Ok (previous + 1) ∧ 0 < previous + 1 < 2 ^ 64;
  ac_payload : dget "payload" event = Some (VDict body) ∧ dget "thread_settings" body = Some (VDict settings);
  ac_thread : holds body "thread_id" (λ v, py_eq v thread) = true;
  ac_policy : holds settings "cwd" (λ v, py_eq v original_cwd) = true ∧
    dget "approval_policy" settings = Some (VStr "never") ∧ dget "disabled_plugin_ids" settings = Some (VList []);
  ac_keys k : (k ∈ REQUIRED → k ∈ dkeys settings) ∧ (k ∈ dkeys settings → k ∈ REQUIRED ++ OPTIONAL);
}.

Lemma holds_inv d k p : holds d k p = true → ∃ v, dget k d = Some v ∧ p v = true.
Proof. unfold holds. destruct (dget k d); naive_solver. Qed.

Lemma ordinal_range v z : ordinal v = Ok z → 0 <= z <= MAX_ORDINAL.
Proof.
  unfold ordinal, require. destruct v as [| | | | | |d]; try done. destruct (dget "ordinal" d) as [[]|]; try done.
  intros H. ok_inv. done.
Qed.

Theorem checkpoint_sound loads prefix appended thread original_cwd :
  validate_paginated_checkpoint loads prefix appended thread original_cwd = Ok tt →
  ∃ event body settings previous, accepted loads prefix appended thread original_cwd event body settings previous.
Proof.
  unfold validate_paginated_checkpoint. intros H. apply bind_Ok in H as (u1 & _ & H). apply bind_Ok in H as (first & _ & H).
  apply bind_Ok in H as (root & _ & H). apply bind_Ok in H as (u2 & _ & H). apply bind_Ok in H as (final & Hfinal & H).
  destruct (last (splitlines prefix)) as [l|] eqn:El; [injection Hfinal as ->|done].
  apply bind_Ok in H as (record & Hrec & H). apply bind_Ok in H as (previous & Hprev & H).
  apply bind_Ok in H as (u3 & Hlt%ensure_Ok%bool_decide_eq_true & H).
  destruct (splitlines appended) as [|only [|? ?]] eqn:Ea; try done. apply bind_Ok in H as (event & Hev & H).
  apply bind_Ok in H as (body & Hbody & H). destruct event as [| | | | | |d]; try done. cbn [check_event] in Hbody.
  apply bind_Ok in Hbody as (u4 & _ & Hbody). apply bind_Ok in Hbody as (o & Ho & Hbody).
  apply bind_Ok in Hbody as (u5 & ->%ensure_Ok%bool_decide_eq_true & Hbody).
  destruct (dget "payload" d) as [[| | | | | |b]|] eqn:Ep; try done. injection Hbody as ->.
  apply bind_Ok in H as (u6 & Hb%ensure_Ok & H). destruct (dget "thread_settings" body) as [[| | | | | |s]|] eqn:Es; try done.
  apply ensure_Ok in H. rewrite !andb_true_iff in H, Hb. destruct H as [[[[Hq Hr]%andb_true_iff Hcwd] Hap] Hpl]. destruct Hb as [[[_ _] Hth] _].
  pose proof (ordinal_range _ _ Hprev) as Hrange. rewrite subset_spec in Hq, Hr.
  exists d, body, s, previous. split; [by eauto|by eauto|..|done| |]; try done.
  - split; [done|]. unfold MAX_ORDINAL in *. change (Z.shiftl 1 64) with (2 ^ 64) in *. lia.
  - split_and!; [done|..].
    + apply holds_inv in Hap as (v & Hv & Hs%py_eq_str). by subst v.
    + apply holds_inv in Hpl as (v & Hv & Hs). destruct v as [| | |f| |[|? ?]|]; try done. by destruct f.
  - auto.
Qed.

End NativeCheckpoint.
