(* ===== verification/SdkReadiness.v ===== *)
(** * Dependency readiness of the SDK profile: [tools/codex_sdk_profile.py]

    [dependency_readiness] checks the declarations of a retained dependency
    union before any payload is planned.  It never returns: a union whose
    declarations hold still raises [SdkDependencyNotReady], with the counts and
    the bindings it verified.  In the model [Ok r] stands for that exception
    and [Err e] for any other. *)
From S2P Require Import Prelude PyBytes PyString PyValue PyText.
From Stdlib Require Import Ascii.
Local Open Scope Z_scope.

Module SdkReadiness.

Definition ARCHIVE_MANIFEST_SHA : string := "f44be109f043f1044473bfb93a0ad1da25f060c42d688fe182ab4b4bdb6b942a".
(** The digests of [fetch_codex_archives.ARCHIVES] *)
Definition ARCHIVES : list string :=
  ["8015f4a710987439dfdcde7539b62cc5db52d2cd9456af5e2e297494f13c56f3"; "2bb80502d70cadabd1efa0e0cd7ff826873fd787ab593f6394d6ada57248780a";
   "8426a3d170a5879f5682f5fbdd024a1779b3951e7baba685af2d6dc32a6dfc15"; "047ea7098803d3500fa1072e9cee5392697e21525559e4458128a2bf874aa382";
   "e74edd2cf7d0f1f1383b4f00eb90c843750bc489e2ccf7214e6476678a907425"; "ac779bc9839dd47180806b133e4e2563c4a34716284cd5b8fede8ef289f452ca";
   "f1b2a7301513ffdd95ebf22ebbdd932e4d17fc806f748d93924740d0297b1396"; "89f29294a584267251edac00ab723a0a74514b8e1acb7f036840d13635c66bfa";
   "418a27a0ab8ecf46e2e00bd4381efc0bcb54c28312261c4f36114842e5ecb20e"; "0a120cd02aa4319887b938ed98f34907563e9b4bcdd4a2aed23a1a05dd5a8157";
   "87921b36ceb343af152fc988be59eec49ac9865f2e499a48152bed03e66f8228"; "ec2b39a56443142a34dc76ec32a17cb099c6c09137c3fbac893310c623cb10ac";
   "d0623c777fb89b904b56cd5aba51af29cbb34b1f9d45f0672f90f6dce30fa93e"].

Definition require (good : bool) (msg : string) : res unit := ensure good (ValueError msg).

(** [isinstance(v, str) and re.fullmatch(r"[0-9a-f]{64}", v) and v != "0" * 64] *)
Definition zeros : string := str_join "" (replicate 64 "0").
Definition bound (v : value) : bool := match v with VStr s => is_sha256_hex s && negb (bool_decide (s = zeros)) | _ => false end.

(** [re.fullmatch(r"[a-z][a-z0-9-]{0,63}", s)] *)
Definition type_name (s : string) : bool :=
  match s with
  | String a r => is_lower a && str_all (λ c, is_lower c || is_digit c || bool_decide (c = "-"%char)) r && bool_decide (String.length s <= 64)%nat
  | EmptyString => false
  end.

(** [d.get(k)] on a dictionary *)
Definition dfind (k : string) (d : dict) : value := default VNone (dget k d).

(** [json.dumps(v, sort_keys=True)] *)
Section Dumps.
Context (float_repr : SpecFloat.spec_float → string).
Fixpoint json_spaced (v : value) : string :=
  match v with
  | VNone => "null"
  | VBool b => if b then "true" else "false"
  | VInt z => int_print z
  | VFloat f => float_repr f
  | VStr s => json_string s
  | VList l => "[" +:+ str_join ", " (json_spaced <$> l) +:+ "]"
  | VDict d =>
      let members := (λ kv, (kv.1, json_string kv.1 +:+ ": " +:+ json_spaced kv.2)) <$> d in
      "{" +:+ str_join ", " (merge_sort pair_le members).*2 +:+ "}"
  end.
End Dumps.

(** A descriptor: its type, its digest, and the value it was read from *)
Record descriptor := Descriptor { d_type : string; d_sha : string; d_value : value }.

Definition text_between (lo hi : Z) (v : value) : bool :=
  match v with VStr s => bool_decide (lo < py_len s) && bool_decide (py_len s <= hi) | _ => false end.

(** [rows(value)] *)
Definition descriptor_row (v : value) : res descriptor :=
  match v with
  | VDict d =>
      match dfind "type" d, dfind "sha256" d, dfind "identity" d, dfind "urls" d with
      | VStr t, VStr h, VStr i, VList urls =>
          _ ← require (keys_are ["type"; "identity"; "sha256"; "urls"] d && type_name t && is_sha256_hex h
                       && text_between 0 4096 (VStr i) && negb (str_mem "000" i || str_mem "013" i || str_mem "010" i)
                       && bool_decide (0 < zlen urls) && bool_decide (zlen urls <= 16) && forallb (text_between 0 8192) urls)
                "dependency descriptor shape mismatch";
          Ok (Descriptor t h v)
      | _, _, _, _ => Err (ValueError "dependency descriptor shape mismatch")
      end
  | _ => Err (ValueError "dependency descriptor shape mismatch")
  end.
Definition rows (v : value) : res (list descriptor) :=
  match v with
  | VList l => _ ← require (bool_decide (zlen l <= 30000)) "dependency descriptor bound mismatch"; mapM_res descriptor_row l
  | _ => Err (ValueError "dependency descriptor bound mismatch")
  end.

(** [by_type(value)] *)
Definition by_type (types : list string) : list (string * Z) :=
  foldl (λ counts t, dset t (default 0 (dget t counts) + 1) counts) [] types.

Record counts := Counts {
  input_objects : Z; unique_objects : Z; duplicate_objects : Z; missing_objects : Z; missing_by_type : list (string * Z);
  unresolved_rows : Z; unresolved_by_type : list (string * Z) }.
Definition by_type_value (c : list (string * Z)) : value := VDict ((λ kv, (kv.1, VInt kv.2)) <$> c).
Definition counts_value (c : counts) : value :=
  VDict [("input_objects", VInt (input_objects c)); ("unique_objects", VInt (unique_objects c));
         ("duplicate_objects", VInt (duplicate_objects c)); ("missing_objects", VInt (missing_objects c));
         ("missing_by_type", by_type_value (missing_by_type c)); ("unresolved_rows", VInt (unresolved_rows c));
         ("unresolved_by_type", by_type_value (unresolved_by_type c))].

(** [SdkDependencyNotReady]: the counts, the bindings and the blockers it reports *)
Record not_ready := NotReady { nr_counts : counts; nr_bindings : list (string * value) }.
Definition blockers (r : not_ready) : list (string * value) :=
  [("missing_objects", VInt (missing_objects (nr_counts r))); ("unresolved_rows", VInt (unresolved_rows (nr_counts r)));
   ("canonical_id_mapping", VStr "unproved"); ("git_materialization", VStr "unproved")].
Definition message (r : not_ready) : string :=
  "SDK dependencies not ready: " +:+ int_print (missing_objects (nr_counts r)) +:+ " missing objects; " +:+
  int_print (unresolved_rows (nr_counts r)) +:+ " unresolved rows; " +:+
  "canonical-ID mapping and Git materialization unproved; offline analysis unrun".

Definition string_of (v : value) : option string := match v with VStr s => Some s | _ => None end.

(** One declared object: the running total and the number of inputs *)
Definition check_object (admitted : list string) (origins parents : dict) (st : Z * Z) (o : string * value) : res (Z * Z) :=
  let '(total, inputs) := st in
  n ← match o.2 with
      | VDict r =>
          match dget "bytes" r with
          | Some (VInt n) =>
              _ ← require (bool_decide (o.1 ∈ admitted) && keys_are ["bytes"] r && bool_decide (0 <= n <= 1024 * 1024 * 1024))
                    "dependency object declaration mismatch";
              Ok n
          | _ => Err (ValueError "dependency object declaration mismatch")
          end
      | _ => Err (ValueError "dependency object declaration mismatch")
      end;
  match dfind o.1 origins with
  | VList sources =>
      _ ← require (bool_decide (1 <= zlen sources <= 3) && forallb is_str sources && bool_decide (NoDup (omap string_of sources))
                   && forallb (λ v, existsb (py_eq v) [dfind "plan" parents; dfind "shard" parents; dfind "tools" parents]) sources)
            "dependency object origin mismatch";
      Ok (total + n, inputs + zlen sources)
  | _ => Err (ValueError "dependency object origin mismatch")
  end.

Definition unresolved_type (v : value) : option string :=
  match v with VDict d => match dget "type" d with Some (VStr t) => if type_name t then Some t else None | _ => None end | _ => None end.

Definition INT_COUNTS : list string := ["input_objects"; "unique_objects"; "duplicate_objects"; "missing_objects"; "unresolved_rows"].
Definition check_counts (recorded : value) (c : counts) : res unit :=
  match recorded with
  | VDict d =>
      require (keys_are (match counts_value c with VDict e => dkeys e | _ => [] end) d
               && forallb (λ k, is_int (dfind k d)) INT_COUNTS
               && forallb (λ k, match dfind k d with VDict e => forallb is_int e.*2 | _ => false end) ["missing_by_type"; "unresolved_by_type"]
               && py_eq recorded (counts_value c)) "dependency coverage counts mismatch"
  | _ => Err (ValueError "dependency coverage counts mismatch")
  end.

Record arguments := Arguments {
  receipt_sha256 : value; manifest_sha256 : value; source_receipt_sha256 : value; source_inventory_sha256 : value;
  tool_receipt_sha256 : value; tool_manifest_sha256 : value; settings_receipt_sha256 : value }.
Definition bindings (a : arguments) : list (string * value) :=
  [("union_receipt_sha256", receipt_sha256 a); ("descriptor_sha256", manifest_sha256 a);
   ("source_receipt_sha256", source_receipt_sha256 a); ("source_inventory_sha256", source_inventory_sha256 a);
   ("tool_receipt_sha256", tool_receipt_sha256 a); ("tool_manifest_sha256", tool_manifest_sha256 a);
   ("settings_receipt_sha256", settings_receipt_sha256 a)].

Section Readiness.
Context (float_repr : SpecFloat.spec_float → string).

Definition check_header (report : dict) (a : arguments) : res unit :=
  require (is_int (dfind "schema_version" report) && py_eq (dfind "schema_version" report) (VInt 1)
           && py_eq (dfind "status" report) (VStr "verified-finite-dependency-union")
           && py_eq (dfind "descriptor_sha256" report) (manifest_sha256 a)
           && py_eq (dfind "source_receipt_sha256" report) (source_receipt_sha256 a)
           && py_eq (dfind "source_inventory_sha256" report) (source_inventory_sha256 a))
    "dependency source or manifest binding mismatch".

Definition check_parents (v : value) (a : arguments) : res dict :=
  match v with
  | VDict p =>
      _ ← require (keys_are ["plan"; "shard"; "tools"; "tools_manifest"] p && forallb bound p.*2
                   && py_eq (dfind "tools" p) (tool_receipt_sha256 a) && py_eq (dfind "tools_manifest" p) (tool_manifest_sha256 a)
                   && py_eq (tool_manifest_sha256 a) (VStr ARCHIVE_MANIFEST_SHA)) "dependency tool closure binding mismatch";
      Ok p
  | _ => Err (ValueError "dependency tool closure binding mismatch")
  end.

Definition check_missing (descriptors missing : list descriptor) (objects : list string) : res unit :=
  let records := (λ d, json_spaced float_repr (d_value d)) <$> descriptors in
  require (bool_decide (NoDup (d_sha <$> missing))
           && forallb (λ m, bool_decide (json_spaced float_repr (d_value m) ∈ records)) missing
           && same_set (d_sha <$> missing) (filter (λ h, h ∉ objects) (d_sha <$> descriptors)))
    "dependency missing partition mismatch".

Definition dependency_readiness (report : value) (a : arguments) : res not_ready :=
  _ ← require (forallb bound (bindings a).*2) "dependency binding digest mismatch";
  match report with
  | VDict r =>
      _ ← check_header r a;
      _ ← require (forallb (λ k, is_False (dfind k r)) ["closure_proved"; "offline_analysis_proved"; "canonical_id_metadata_exported";
                                                        "native_support"; "provider_evaluation"; "ambient_cache_read"])
            "unsupported dependency proof claims";
      parents ← check_parents (dfind "parent_receipts" r) a;
      descriptors ← rows (dfind "descriptors" r);
      missing ← rows (dfind "missing" r);
      match dfind "objects" r, dfind "object_origins" r with
      | VDict objects, VDict origins =>
          _ ← require (bool_decide (zlen objects <= 5000) && keys_are (dkeys objects) origins) "dependency object bound mismatch";
          '(total, inputs) ← forM (check_object (d_sha <$> descriptors) origins parents) objects (0, 0);
          _ ← require (bool_decide (total <= 4 * 1024 * 1024 * 1024)) "dependency retained byte bound mismatch";
          _ ← check_missing descriptors missing (dkeys objects);
          _ ← require (forallb (λ h, bool_decide (h ∈ dkeys objects)) ARCHIVES) "dependency tool objects absent";
          match dfind "unresolved" r with
          | VList unresolved =>
              _ ← require (bool_decide (zlen unresolved <= 30000) && forallb (λ v, bool_decide (unresolved_type v ≠ None)) unresolved)
                    "dependency unresolved bound mismatch";
              let c := Counts inputs (zlen objects) (inputs - zlen objects) (zlen missing) (by_type (d_type <$> missing))
                              (zlen unresolved) (by_type (omap unresolved_type unresolved)) in
              _ ← check_counts (dfind "counts" r) c;
              Ok (NotReady c (bindings a))
          | _ => Err (ValueError "dependency unresolved bound mismatch")
          end
      | _, _ => Err (ValueError "dependency object bound mismatch")
      end
  | _ => Err (ValueError "dependency source or manifest binding mismatch")
  end.
End Readiness.

(** ** Laws *)
(** [by_type] counts the occurrences of each type. *)
Lemma by_type_count l t : default 0 (dget t (by_type l)) = zlen (filter (λ x, x = t) l).
Proof.
  unfold by_type. assert (∀ d, default 0 (dget t (foldl (λ counts t, dset t (default 0 (dget t counts) + 1) counts) d l)) =
    default 0 (dget t d) + zlen (filter (λ x, x = t) l)) as H; [|by rewrite H].
  induction l as [|x l IH]; intros d; [unfold zlen; cbn; lia|]. cbn [foldl]. rewrite IH, dget_dset, filter_cons.
  destruct (decide (x = t)) as [->|Hx].
  - rewrite bool_decide_true by done. cbn. rewrite zlen_cons. lia.
  - rewrite bool_decide_false by congruence. done.
Qed.

(** The function raises [ValueError]s only: a report of any shape is refused or
    found not ready, and nothing is ever authorized. *)
Lemma require_errors good msg : raises is_ValueError (require good msg).
Proof. by apply raises_ensure. Qed.
Lemma descriptor_row_errors v : raises is_ValueError (descriptor_row v).
Proof. unfold descriptor_row, require. solve_raises. Qed.
Lemma rows_errors v : raises is_ValueError (rows v).
Proof.
  unfold rows. destruct v; try by apply raises_err. apply raises_bind; [apply require_errors|]. intros _.
  apply raises_mapM. intros. apply descriptor_row_errors.
Qed.
Lemma check_object_errors admitted origins parents st o : raises is_ValueError (check_object admitted origins parents st o).
Proof. unfold check_object, require. destruct st. solve_raises. Qed.

Theorem readiness_errors float_repr report a : raises is_ValueError (dependency_readiness float_repr report a).
Proof.
  unfold dependency_readiness, check_header, check_parents, check_missing, check_counts.
  repeat first [apply require_errors | apply rows_errors | apply check_object_errors | raises_step].
Qed.

(** What a report that was found not ready has declared: its descriptors are
    split into the objects that are held and the ones that are missing, the
    tool archives are among those held, and the counts are those of the
    declarations. *)
Record declared (rd : dict) (a : arguments) (descriptors missing : list descriptor) (objects : dict) (r : not_ready) : Prop := {
  de_descriptors : rows (dfind "descriptors" rd) = Ok descriptors;
  de_missing : rows (dfind "missing" rd) = Ok missing;
  de_objects : dfind "objects" rd = VDict objects;
  de_partition h : h ∈ d_sha <$> descriptors ↔ h ∈ dkeys objects ∨ h ∈ d_sha <$> missing;
  de_disjoint h : h ∈ dkeys objects → h ∉ d_sha <$> missing;
  de_distinct : NoDup (d_sha <$> missing);
  de_tools h : h ∈ ARCHIVES → h ∈ dkeys objects;
  de_claims k : k ∈ ["closure_proved"; "offline_analysis_proved"; "native_support"] → dfind k rd = VBool false;
  de_counts : missing_objects (nr_counts r) = zlen missing ∧ unique_objects (nr_counts r) = zlen objects ∧
    input_objects (nr_counts r) = unique_objects (nr_counts r) + duplicate_objects (nr_counts r) ∧ 0 <= duplicate_objects (nr_counts r);
  de_bindings : nr_bindings r = bindings a ∧ ∀ v, v ∈ (bindings a).*2 → bound v = true;
}.

(** Every object of an accepted list is a declared one, and brings an input. *)
Lemma check_objects_admitted admitted origins parents objects total inputs :
  forM (check_object admitted origins parents) objects (0, 0) = Ok (total, inputs) →
  (∀ h, h ∈ dkeys objects → h ∈ admitted) ∧ zlen objects <= inputs.
Proof.
  intros H. eapply (forM_inv _ (λ done st, (∀ h, h ∈ dkeys done → h ∈ admitted) ∧ zlen done <= st.2)) in H; [done|..].
  - split; [by intros h ?%elem_of_nil|]. rewrite zlen_nil. done.
  - intros done o [t1 i1] [t2 i2] [Hd Hz] _ Ho. unfold check_object in Ho. apply bind_Ok in Ho as (n & Hn & Ho).
    destruct o.2 as [| | | | | |rec]; try done. destruct (dget "bytes" rec) as [[]|]; try done.
    apply bind_Ok in Hn as (u & Hu%ensure_Ok & _). rewrite !andb_true_iff in Hu. destruct Hu as [[Hadm%bool_decide_eq_true _] _].
    destruct (dfind o.1 origins) as [| | | | |sources|]; try done. apply bind_Ok in Ho as (u2 & Hs%ensure_Ok & [= <- <-]).
    rewrite !andb_true_iff, bool_decide_eq_true in Hs. destruct Hs as [[[Hl _] _] _]. cbn [snd] in *. split.
    + intros h. unfold dkeys. rewrite fmap_app, elem_of_app. cbn. rewrite list_elem_of_singleton. intros [Hin| ->]; [by apply Hd|done].
    + rewrite zlen_app, zlen_cons, zlen_nil. lia.
Qed.

Theorem readiness_partition float_repr report a r :
  dependency_readiness float_repr report a = Ok r →
  ∃ rd descriptors missing objects, report = VDict rd ∧ declared rd a descriptors missing objects r.
Proof.
  unfold dependency_readiness. intros H. apply bind_Ok in H as (u0 & Hb%ensure_Ok & H). destruct report as [| | | | | |rd]; try done.
  apply bind_Ok in H as (u1 & _ & H). apply bind_Ok in H as (u2 & Hf%ensure_Ok & H). apply bind_Ok in H as (parents & _ & H).
  apply bind_Ok in H as (descriptors & Hds & H). apply bind_Ok in H as (missing & Hms & H).
  destruct (dfind "objects" rd) as [| | | | | |objects] eqn:Eo; try done. destruct (dfind "object_origins" rd) as [| | | | | |origins]; try done.
  apply bind_Ok in H as (u3 & _ & H). apply bind_Ok in H as ([total inputs] & Hobj & H). apply bind_Ok in H as (u4 & _ & H).
  apply bind_Ok in H as (u5 & Hpart%ensure_Ok & H). apply bind_Ok in H as (u6 & Htools%ensure_Ok & H).
  destruct (dfind "unresolved" rd) as [| | | | |unresolved|]; try done. apply bind_Ok in H as (u7 & _ & H).
  apply bind_Ok in H as (u8 & _ & [= <-]). apply check_objects_admitted in Hobj as [Hadm Hin].
  rewrite !andb_true_iff, bool_decide_eq_true in Hpart. destruct Hpart as [[Hnd _] Hset]. rewrite same_set_spec in Hset.
  setoid_rewrite list_elem_of_filter in Hset.
  exists rd, descriptors, missing, objects. split; [done|]. split; try done.
  - intros h. rewrite Hset. destruct (decide (h ∈ dkeys objects)); [|naive_solver]. split; [auto|]. intros _. by apply Hadm.
  - intros h Hh [? _]%Hset. done.
  - intros h Hh. rewrite forallb_forall in Htools. apply list_elem_of_In, Htools in Hh. by apply bool_decide_eq_true in Hh.
  - intros k Hk. rewrite forallb_forall in Hf. apply is_False_inv, Hf, list_elem_of_In.
    revert Hk. rewrite !elem_of_cons, elem_of_nil. tauto.
  - cbn. split_and!; [done|done|lia|lia].
  - split; [done|]. intros v Hv. rewrite forallb_forall in Hb. by apply Hb, list_elem_of_In.
Qed.

(** A union that holds the tool archives and lacks one object *)
Definition ex_digest : string := str_join "" (replicate 64 "1").
Definition ex_row (h : string) : value :=
  VDict [("type", VStr "http-archive"); ("identity", VStr "id"); ("sha256", VStr h); ("urls", VList [VStr "https://example.org/a"])].
Definition ex_arguments : arguments :=
  Arguments (VStr ex_digest) (VStr ex_digest) (VStr ex_digest) (VStr ex_digest) (VStr ex_digest) (VStr ARCHIVE_MANIFEST_SHA) (VStr ex_digest).
Definition ex_report : value := VDict [
  ("schema_version", VInt 1); ("status", VStr "verified-finite-dependency-union"); ("descriptor_sha256", VStr ex_digest);
  ("source_receipt_sha256", VStr ex_digest); ("source_inventory_sha256", VStr ex_digest);
  ("closure_proved", VBool false); ("offline_analysis_proved", VBool false); ("canonical_id_metadata_exported", VBool false);
  ("native_support", VBool false); ("provider_evaluation", VBool false); ("ambient_cache_read", VBool false);
  ("parent_receipts", VDict [("plan", VStr ex_digest); ("shard", VStr ex_digest); ("tools", VStr ex_digest); ("tools_manifest", VStr ARCHIVE_MANIFEST_SHA)]);
  ("descriptors", VList (ex_row <$> ex_digest :: ARCHIVES)); ("missing", VList [ex_row ex_digest]);
  ("objects", VDict ((λ h, (h, VDict [("bytes", VInt 10)])) <$> ARCHIVES));
  ("object_origins", VDict ((λ h, (h, VList [VStr ex_digest])) <$> ARCHIVES)); ("unresolved", VList []);
  ("counts", counts_value (Counts 13 13 0 1 [("http-archive", 1)] 0 []))].
Example ex_not_ready :
  match dependency_readiness (λ _, "") ex_report ex_arguments with Ok r => message r | Err _ => "" end
  = "SDK dependencies not ready: 1 missing objects; 0 unresolved rows; canonical-ID mapping and Git materialization unproved; offline analysis unrun".
Proof. vm_compute. reflexivity. Qed.

End SdkReadiness.
