(* ===== verification/HmProgress.v ===== *)
(** * nix/home_manager_acquisition.py: the redacted phase diagnostics

    [Progress] keeps finite evidence of a run: the nested phases, a fixed set
    of counters, the first failure and the lines written to the standard error.
    [phase] is the context manager around every stage of the acquisition and
    [main] turns a failure into one bounded report.

    A computation runs in [M progress string]: the state is the [Progress]
    object, the trace is the text written to its sink.  [clock n] is the [n]-th
    reading of [time.monotonic()]; [ms a b] is [int((b - a) * 1000)] of two
    readings; [write_fault n] is the exception, if any, of the [n]-th write. *)
From S2P Require Import Prelude PyBytes PyString PyValue PyText Effect.
From Stdlib Require Import Ascii.
Local Open Scope Z_scope.

Module HmProgress.

Definition MAX_SECONDS : Z := 1200.
Definition SOURCE_SECONDS : Z := 600.
Definition MAX_RETAINED_BYTES : Z := 4 * 1024 * 1024 * 1024.
Definition MAX_DIAGNOSTIC_EVENTS : Z := 64.
Definition MAX_DIAGNOSTIC_BYTES : Z := 32768.
Definition MAX_NODES : Z := 200000.
Definition MAX_TREE_BYTES : Z := 2 * 1024 * 1024 * 1024.
Definition NAMES : list string := ["home-manager"; "nixpkgs"].
Definition PHASES : list string := ["inputs"; "source"; "prefetch"; "prefetch-admission"; "prefetch-monitor"; "prefetch-completion";
  "private-budget-scan"; "source-inventory"; "source-nar"; "source-recheck"; "export";
  "copy"; "copy-baseline"; "copy-final-budget"; "copied-proof"; "metadata";
  "pair-proof"; "publication"; "publication-witness"; "publication-proof";
  "publication-recheck"; "publication-rename"; "owned-child-cleanup"; "owned-tree-cleanup"].
Definition COUNTERS : list string := ["privateScanCount"; "privateScanMs"; "narPassCount"; "narPassMs";
  "pairProofCount"; "pairProofMs"; "copiedNodes"; "copiedBytes"; "monitorPolls";
  "ancestryCheckCount"; "ancestryCheckMs"; "fileSyncCount"; "fileSyncMs";
  "sourceExpectedNodes"; "sourceExpectedBytes"].

Definition ERROR_SUFFIXES : list (string * list string) := [
  ("acquisition", [
    "diagnostic-event"; "diagnostic-counter"; "diagnostic-phase"; "diagnostic-depth"; "diagnostic-source-total";
    "held-directory-owner"; "held-directory-custody"; "held-directory-replaced"; "held-directory-mode";
    "held-directory-closed"; "held-parent-scope"; "held-parent-lifetime"; "held-parent-prefix";
    "output-metadata-bound"; "lock-regular-byte-bound"; "lock-replaced"; "native-input-pin"; "native-input-custody";
    "native-nix-required"; "source-name"; "private-inventory-bound"; "private-mount-or-owner"; "private-depth-bound";
    "private-path-bound"; "private-directory-replaced"; "private-file-bound"; "private-special-file";
    "private-disk-budget"; "free-floor"; "private-scan-mode"; "private-ancestor-changed"; "inherited-file-limit";
    "child-output-bound"; "child-live-group"; "child-failed"; "private-source-path"; "prefetch-hash";
    "private-source-alias"; "source-nar-bound"; "hash-root"; "export-nar-mismatch"; "export-source-changed";
    "export-root-changed"; "copy-depth-bound"; "copy-directory-replaced"; "copy-file-or-tree-bound";
    "copy-short-write"; "copy-file-size"; "copy-file-replaced"; "copy-link-replaced"; "copy-undeclared-node";
    "export-output-replaced"; "copy-sync-bound"; "copy-sync-owner"; "export-copy-mismatch"; "metadata-name";
    "metadata-replaced"; "metadata-custody"; "metadata-byte-mismatch"; "metadata-changed-before-publication";
    "source-changed-through-publication"; "rollback-envelope-replaced"; "rollback-destination-exists";
    "publication-envelope-mode"; "output-exists"; "publication-source-replaced"; "publication-replaced";
    "retained-pair-bound"; "output-filesystem"; "cleanup-custody"; "cleanup-inventory-bound"; "cleanup-replaced";
    "cleanup-fd-support"; "contained-context-required"; "action-filesystem"; "requires-empty-outputs"]);
  ("acquired", [
    "duplicate-json-key"; "metadata-byte-bound"; "metadata-fields"; "verification-deadline"; "physical-root";
    "unsafe-ancestor"; "ancestor-changed"; "tree-root-custody"; "tree-node-owner"; "tree-link-custody";
    "tree-node-writable"; "tree-file-custody"; "tree-entry-or-metadata-bound"; "tree-entry-bound"; "tree-path-bound";
    "tree-metadata-bound"; "directory-changed"; "tree-byte-bound"; "link-target-bound"; "tree-special-file";
    "tree-node-changed"; "hash-parent-changed"; "hash-file-changed"; "deadline-bound"; "paired-lock-invalid";
    "receipt-binding"; "lock-binding"; "inventory-binding"; "inventory-schema"; "physical-root-alias";
    "source-lock-binding"; "inventory-entry-bound"; "invalid-nar-inventory"; "inventory-directory-root";
    "complete-inventory-mismatch"; "nar-byte-bound"; "undeclared-hash-input"; "source-nar-mismatch";
    "tree-changed-during-hash"; "selected-root-replaced"; "pair-changed-during-verification"])].

(** ** Failure categories *)
Definition is_OSError (e : exn) : bool := match e with OSError | FileNotFoundError | Errno _ => true | _ => false end.

(** The exceptions [phase] and [main] handle; [UnicodeError] is a [ValueError],
    [RecursionError] a [RuntimeError]. *)
Definition handled (e : exn) : bool :=
  match e with
  | ValueError _ | UnicodeError | KeyError | TypeError | RuntimeError | RecursionError
  | MemoryError | TimeoutExpired | KeyboardInterrupt => true
  | e => is_OSError e
  end.

(** The text of a [UnicodeError] starts with the quoted codec name, which is no
    prefix of the table. *)
Definition failure_category (error : exn) : string :=
  let by_class := match error with
    | KeyboardInterrupt => "acquisition-interrupted"
    | TimeoutExpired => "acquisition-deadline"
    | e => if is_OSError e then "acquisition-filesystem-refusal" else "acquisition-bounded-input-or-custody-failed"
    end in
  match error with
  | ValueError msg =>
      let '(prefix, suffix) := default (msg, "") (split_once "-" msg) in
      if bool_decide (suffix ∈ default [] (dget prefix ERROR_SUFFIXES)) then msg else by_class
  | _ => by_class
  end.

Definition require (condition : bool) (reason : string) : res unit := ensure condition (ValueError reason).

(** ** The [Progress] object *)
Record progress (T : Type) := Progress {
  started : T;
  current : string * string * T * T * option T;
  counters : list (string * Z);
  stack : list string;
  failure : option dict;
  cleanup_category : option string;
  events : Z;
  nbytes : Z;
}.
Arguments Progress {T}.
Arguments started {T} _.
Arguments current {T} _.
Arguments counters {T} _.
Arguments stack {T} _.
Arguments failure {T} _.
Arguments cleanup_category {T} _.
Arguments events {T} _.
Arguments nbytes {T} _.

Definition new_progress {T} (now : T) : progress T :=
  Progress now ("pair", "inputs", now, now, None) ((λ name, (name, 0)) <$> COUNTERS) [] None None 0 0.

(** [active] is [PROGRESS.get() is not None]; [self] is that object. *)
Record penv (T : Type) := PEnv { ticks : nat; writes : nat; active : bool; self : progress T }.
Arguments PEnv {T}.
Arguments ticks {T} _.
Arguments writes {T} _.
Arguments active {T} _.
Arguments self {T} _.

Inductive output := Stderr (line : string) | Stdout (line : string).

Section Progress.
Context {T : Type} (clock : nat → T) (ms : T → T → Z) (is_finite : T → bool) (write_fault : nat → option exn).
Context (float_repr : SpecFloat.spec_float → string) (iterencode : value → list string).

Definition encoded (v : value) : string := json_dumps float_repr v.

Abbreviation P := (M (penv T) output).

Definition monotonic : P T := λ st,
  let w := env st in (Ok (clock (ticks w)), World (PEnv (S (ticks w)) (writes w) (active w) (self w)) (trace st)).

Definition get_self : P (progress T) := λ st, (Ok (self (env st)), st).
Definition is_active : P bool := λ st, (Ok (active (env st)), st).
Definition put_self (p : progress T) : P unit := λ st,
  let w := env st in (Ok tt, World (PEnv (ticks w) (writes w) (active w) p) (trace st)).
Definition set_active (b : bool) : P unit := λ st,
  let w := env st in (Ok tt, World (PEnv (ticks w) (writes w) b (self w)) (trace st)).

(** [self.sink.write(...)] and [flush] *)
Definition write_sink (line : string) : P unit := λ st,
  let w := env st in
  let w' := PEnv (ticks w) (S (writes w)) (active w) (self w) in
  match write_fault (writes w) with
  | Some e => (Err e, World w' (trace st))
  | None => (Ok tt, World w' (trace st ++ [Stderr line]))
  end.
Definition print_out (line : string) : P unit := λ st, (Ok tt, World (env st) (trace st ++ [Stdout line])).

Definition milliseconds (start : T) : P Z :=
  now ← monotonic; mret (Z.min ((MAX_SECONDS + SOURCE_SECONDS) * 1000) (Z.max 0 (ms start now))).

Definition snapshot : P dict :=
  p ← get_self;
  let '(source, phase_name, phase_start, source_start, deadline) := current p in
  elapsed ← milliseconds (started p);
  source_elapsed ← milliseconds source_start;
  phase_elapsed ← milliseconds phase_start;
  remaining ← match deadline with
              | None => mret (@nil (string * value))
              | Some d => now ← monotonic; mret [("remainingMs", VInt (Z.min (MAX_SECONDS * 1000) (Z.max 0 (ms now d))))]
              end;
  mret ([("source", VStr source); ("phase", VStr phase_name); ("phasePath", VList (VStr <$> stack p));
         ("elapsedMs", VInt elapsed); ("sourceElapsedMs", VInt source_elapsed); ("phaseElapsedMs", VInt phase_elapsed)]
        ++ remaining).

Definition counters_value (p : progress T) : value := VDict ((λ c, (c.1, VInt c.2)) <$> counters p).

Definition event (state : string) : P unit :=
  _ ← embed (require (bool_decide (state ∈ ["begin"; "end"])) "acquisition-diagnostic-event");
  p ← get_self;
  if bool_decide (events p >= MAX_DIAGNOSTIC_EVENTS) then mret tt else
  snap ← snapshot;
  let payload := encoded (VDict ([("event", VStr state)] ++ snap ++ [("counters", counters_value p)])) +:+ LF in
  let size := zlen (fsencode payload) in
  if bool_decide (nbytes p + size > MAX_DIAGNOSTIC_BYTES) then mret tt else
  _ ← put_self (Progress (started p) (current p) (counters p) (stack p) (failure p) (cleanup_category p)
                         (events p + 1) (nbytes p + size));
  write_sink payload.

Definition set_counters (cs : list (string * Z)) (p : progress T) : progress T :=
  Progress (started p) (current p) cs (stack p) (failure p) (cleanup_category p) (events p) (nbytes p).

Definition add (counter : string) (amount : Z) : P unit :=
  p ← get_self;
  _ ← embed (require (bool_decide (counter ∈ COUNTERS) && bool_decide (amount >= 0)) "acquisition-diagnostic-counter");
  _ ← embed (require (bool_decide (amount <= MAX_RETAINED_BYTES)) "acquisition-diagnostic-counter");
  v ← embed (match dget counter (counters p) with Some v => Ok v | None => Err KeyError end);
  put_self (set_counters (dset counter (Z.min (Z.shiftl 1 53) (v + amount)) (counters p)) p).

Definition set_cleanup_category (c : string) : P unit :=
  p ← get_self;
  put_self (Progress (started p) (current p) (counters p) (stack p) (failure p) (Some c) (events p) (nbytes p)).

Definition capture (error : exn) : P unit :=
  p ← get_self;
  match failure p with
  | None =>
      snap ← snapshot;
      put_self (Progress (started p) (current p) (counters p) (stack p)
                         (Some (snap ++ [("category", VStr (failure_category error))])) (cleanup_category p) (events p) (nbytes p))
  | Some _ =>
      let '(_, phase_name, _, _, _) := current p in
      if bool_decide (phase_name ∈ ["owned-child-cleanup"; "owned-tree-cleanup"])
      then set_cleanup_category (failure_category error) else mret tt
  end.

Definition summary : P dict :=
  p ← get_self;
  base ← match failure p with Some f => mret f | None => snapshot end;
  final ← milliseconds (started p);
  mret (base ++ [("counters", counters_value p); ("finalElapsedMs", VInt final);
                 ("diagnosticEvents", VInt (events p)); ("diagnosticBytes", VInt (nbytes p))]
        ++ match cleanup_category p with Some c => [("cleanupCategory", VStr c)] | None => [] end).

Definition phase {A} (name : string) (source : option string) (deadline : option T) (emit : bool) (body : P A) : P A :=
  _ ← embed (require (bool_decide (name ∈ PHASES)
                      && match source with None => true | Some s => bool_decide (s ∈ NAMES ++ ["pair"; "cleanup"]) end)
               "acquisition-diagnostic-phase");
  _ ← embed (require (match deadline with None => true | Some d => is_finite d end) "acquisition-diagnostic-phase");
  on ← is_active;
  if negb on then body else
  p ← get_self;
  let previous := current p in
  let '(source0, _, _, source_start0, deadline0) := previous in
  _ ← embed (require (bool_decide (zlen (stack p) < 16)) "acquisition-diagnostic-depth");
  now ← monotonic;
  let selected_source := default source0 source in
  let source_start := if bool_decide (selected_source = source0) then source_start0 else now in
  let cs := if bool_decide (name = "source")
            then dset "sourceExpectedBytes" 0 (dset "sourceExpectedNodes" 0 (counters p)) else counters p in
  _ ← put_self (Progress (started p) (selected_source, name, now, source_start, match deadline with Some d => Some d | None => deadline0 end)
                         cs (stack p ++ [name]) (failure p) (cleanup_category p) (events p) (nbytes p));
  finally
    (catching handled
       (_ ← (if emit then event "begin" else mret tt);
        a ← body;
        _ ← (if emit then event "end" else mret tt);
        mret a)
       (λ error, _ ← capture error; throw error))
    (p ← get_self;
     put_self (Progress (started p) previous (counters p) (take (length (stack p) - 1) (stack p)) (failure p)
                        (cleanup_category p) (events p) (nbytes p))).

Definition count (counter : string) (amount : Z) : P unit :=
  on ← is_active; if (on : bool) then add counter amount else mret tt.

(** The sizes of the regular nodes are all the function reads of them. *)
Definition expected_source (nodes : list (option Z)) : P unit :=
  on ← is_active;
  if negb on then mret tt else
  let total_bytes := foldr Z.add 0 (omap id nodes) in
  _ ← embed (require (bool_decide (1 <= zlen nodes <= MAX_NODES) && bool_decide (0 <= total_bytes <= MAX_TREE_BYTES))
               "acquisition-diagnostic-source-total");
  p ← get_self;
  put_self (set_counters (dset "sourceExpectedBytes" total_bytes (dset "sourceExpectedNodes" (zlen nodes - 1) (counters p))) p).

(** [bounded_encoded]: the chunks are counted before they are retained *)
Fixpoint bounded_chunks (chunks : list string) (maximum : Z) (payload : string) : res string :=
  match chunks with
  | [] => Ok payload
  | chunk :: chunks =>
      _ ← require (bool_decide (zlen (fsencode payload) + zlen (fsencode chunk) <= maximum)) "acquisition-output-metadata-bound";
      bounded_chunks chunks maximum (payload +:+ chunk)
  end.
Definition bounded_encoded (v : value) (maximum : Z) : res string := bounded_chunks (iterencode v) maximum "".

Definition main (run : P Z) : P Z :=
  now ← monotonic;
  _ ← put_self (new_progress now);
  _ ← set_active true;
  finally
    (catching handled (phase "inputs" None None true run)
       (λ error,
          _ ← capture error;
          context ← summary;
          category ← embed (match dget "category" context with Some c => Ok c | None => Err KeyError end);
          payload ← embed (bounded_encoded (VDict [("passed", VBool false); ("scope", VStr "finite-paired-source-acquisition");
            ("category", category); ("context", VDict context); ("evaluationExecuted", VBool false);
            ("activation", VStr "unproved")]) 4096);
          _ ← print_out payload;
          mret 2))
    (set_active false).
End Progress.

(** ** What a run does to the diagnostics

    [prog] is the shape of the code under [main]: phases, counts, cleanup
    handlers and failures, in any order and nesting.  The other effects of the
    code do not touch the [Progress] object. *)
Inductive prog (T : Type) :=
  | Done
  | Raise (e : exn)
  | Count (counter : string) (amount : Z)
  | Expected (nodes : list (option Z))
  | Cleanup (error : exn)                 (** [progress.cleanup_category = failure_category(error)] *)
  | Capture (error : exn)                 (** [progress.capture(error)] *)
  | Phase (name : string) (source : option string) (deadline : option T) (emit : bool) (body : prog T)
  | Seq (p q : prog T)
  | Handle (p : prog T) (caught : exn → bool) (h : exn → prog T)   (** [try: p except caught as e: h(e)] *)
  | Finally (p q : prog T).
Arguments Done {T}.
Arguments Raise {T} e.
Arguments Count {T} counter amount.
Arguments Expected {T} nodes.
Arguments Cleanup {T} error.
Arguments Capture {T} error.
Arguments Phase {T}.
Arguments Seq {T}.
Arguments Handle {T}.
Arguments Finally {T}.

Section Exec.
Context {T : Type} (clock : nat → T) (ms : T → T → Z) (is_finite : T → bool) (write_fault : nat → option exn).
Context (float_repr : SpecFloat.spec_float → string).

Abbreviation P := (M (penv T) output).

Definition when_active (m : P unit) : P unit := on ← is_active; if (on : bool) then m else mret tt.

Fixpoint exec (p : prog T) : P unit :=
  match p with
  | Done => mret tt
  | Raise e => throw e
  | Count counter amount => count counter amount
  | Expected nodes => expected_source nodes
  | Cleanup error => when_active (set_cleanup_category (failure_category error))
  | Capture error => when_active (capture clock ms error)
  | Phase name source deadline emit body =>
      phase clock ms is_finite write_fault float_repr name source deadline emit (exec body)
  | Seq p q => _ ← exec p; exec q
  | Handle p caught h => catching caught (exec p) (λ e, exec (h e))
  | Finally p q => finally (exec p) (exec q)
  end.
End Exec.

(** ** The closed set of categories *)
Definition CLASS_CATEGORIES : list string :=
  ["acquisition-interrupted"; "acquisition-deadline"; "acquisition-filesystem-refusal"; "acquisition-bounded-input-or-custody-failed"].
Definition CATEGORIES : list string :=
  CLASS_CATEGORIES ++ (e ← ERROR_SUFFIXES; (λ suffix, e.1 +:+ "-" +:+ suffix) <$> e.2).

Lemma failure_category_closed e : failure_category e ∈ CATEGORIES.
Proof.
  assert (∀ c, c ∈ CLASS_CATEGORIES → c ∈ CATEGORIES) as Hc by (intros c Hc; apply elem_of_app; by left).
  assert (∀ c, bool_decide (c ∈ CLASS_CATEGORIES) = true → c ∈ CATEGORIES) as Hb by (intros c ?%bool_decide_eq_true; auto).
  destruct e as [msg| | | | | | | | | | | | | | | | |]; try (by apply Hb). unfold failure_category.
  destruct (split_once "-" msg) as [[l r]|] eqn:Hs; cbn [from_option id].
  - case_bool_decide as Hin; [|by apply Hb]. apply split_once_spec in Hs as [-> _].
    unfold CATEGORIES. rewrite elem_of_app. right. apply list_elem_of_bind.
    destruct (dget l ERROR_SUFFIXES) as [ss|] eqn:Hd; [|by apply elem_of_nil in Hin].
    exists (l, ss). split; [|by apply dget_Some_elem]. apply list_elem_of_fmap. eauto.
  - case_bool_decide as Hin; [|by apply Hb]. exfalso.
    destruct (dget msg ERROR_SUFFIXES) as [ss|] eqn:Hd; [|by apply elem_of_nil in Hin]. apply dget_Some_elem in Hd.
    assert (forallb (λ e, negb (bool_decide ("" ∈ e.2))) ERROR_SUFFIXES = true) as Hf by (vm_compute; reflexivity).
    rewrite forallb_forall in Hf. specialize (Hf _ (proj1 (list_elem_of_In _ _) Hd)). by rewrite bool_decide_eq_true_2 in Hf.
Qed.

(** ** The length of encoded text *)
Section Length.
Context (float_repr : SpecFloat.spec_float → string).

Definition slen (s : string) : Z := zlen (fsencode s).
Definition jlen (v : value) : Z := slen (json_dumps float_repr v).
(** An upper bound of the members of a dict, with a separator for each *)
Definition jsum (d : dict) : Z := foldr Z.add 0 ((λ kv, slen (json_string kv.1) + 2 + jlen kv.2) <$> d).

Lemma slen_app s t : slen (s +:+ t) = slen s + slen t.
Proof. unfold slen. by rewrite fsencode_app, zlen_app. Qed.

Lemma slen_nonneg s : 0 <= slen s.
Proof. apply zlen_nonneg. Qed.

Lemma slen_join l : slen (str_join "," l) <= foldr Z.add 0 ((λ s, slen s + 1) <$> l).
Proof.
  induction l as [|x [|y l] IH]; [done| |].
  - cbn. lia.
  - rewrite str_join_cons by done. rewrite !slen_app. change (slen ",") with 1. cbn [fmap list_fmap foldr] in *. lia.
Qed.

Lemma foldr_add_perm (l m : list Z) : l ≡ₚ m → foldr Z.add 0 l = foldr Z.add 0 m.
Proof. induction 1; cbn; lia. Qed.

Lemma jlen_dict d : jlen (VDict d) <= 2 + jsum d.
Proof.
  unfold jlen. cbn [json_dumps]. rewrite !slen_app. change (slen "{") with 1. change (slen "}") with 1.
  set (ms := fmap _ d). pose proof (slen_join (merge_sort pair_le ms).*2) as Hj. rewrite <-list_fmap_compose in Hj.
  rewrite (foldr_add_perm _ (((λ s, slen s + 1) ∘ snd) <$> ms)) in Hj by (apply fmap_Permutation, merge_sort_Permutation).
  enough (foldr Z.add 0 (((λ s, slen s + 1) ∘ snd) <$> ms) = jsum d) by lia.
  unfold ms, jsum. clear. rewrite <-list_fmap_compose. f_equal. apply list_fmap_ext. intros ? [k v] _. cbn.
  rewrite !slen_app. change (slen ":") with 1. unfold jlen. lia.
Qed.

Lemma jsum_app d e : jsum (d ++ e) = jsum d + jsum e.
Proof. unfold jsum. rewrite fmap_app. induction d; cbn; [done|]. cbn in *. lia. Qed.

Lemma jsum_cons k v d : jsum ((k, v) :: d) = slen (json_string k) + 2 + jlen v + jsum d.
Proof. unfold jsum. cbn. lia. Qed.

Lemma jlen_list l n : (∀ v, v ∈ l → jlen v <= n) → jlen (VList l) <= 2 + zlen l * (n + 1).
Proof.
  intros Hl. unfold jlen. cbn [json_dumps]. rewrite !slen_app. change (slen "[") with 1. change (slen "]") with 1.
  pose proof (slen_join (json_dumps float_repr <$> l)) as Hj. rewrite <-list_fmap_compose in Hj.
  enough (foldr Z.add 0 (((λ s, slen s + 1) ∘ json_dumps float_repr) <$> l) <= zlen l * (n + 1)) by lia.
  clear Hj. induction l as [|v l IH]; [done|]. rewrite zlen_cons. cbn [fmap list_fmap foldr].
  specialize (IH ltac:(intros; apply Hl; set_solver)). specialize (Hl v ltac:(set_solver)). unfold jlen in Hl. cbn. lia.
Qed.

Lemma jlen_int z n : 0 <= z < 10 ^ Z.of_nat (S n) → jlen (VInt z) <= Z.of_nat (S n).
Proof.
  intros Hz. unfold jlen, slen, zlen. rewrite length_fsencode. cbn [json_dumps]. unfold int_print.
  rewrite bool_decide_eq_false_2 by lia. pose proof (dec_print_length z n Hz). lia.
Qed.

(** A string of a fixed set *)
Lemma jlen_str_in s l n : s ∈ l → forallb (λ s, bool_decide (slen (json_string s) <= n)) l = true → jlen (VStr s) <= n.
Proof. intros Hs%list_elem_of_In Hl. rewrite forallb_forall in Hl. by apply Hl, bool_decide_eq_true in Hs. Qed.
End Length.

(** ** The invariant of the object *)
Definition SOURCES : list string := NAMES ++ ["pair"; "cleanup"].
Definition ELAPSED : Z := (MAX_SECONDS + SOURCE_SECONDS) * 1000.

Definition snap_ok (snap : dict) : Prop :=
  ∃ source name path elapsed source_elapsed phase_elapsed rest,
    snap = [("source", VStr source); ("phase", VStr name); ("phasePath", VList (VStr <$> path));
            ("elapsedMs", VInt elapsed); ("sourceElapsedMs", VInt source_elapsed); ("phaseElapsedMs", VInt phase_elapsed)] ++ rest
    ∧ source ∈ SOURCES ∧ name ∈ PHASES ∧ zlen path <= 16 ∧ (∀ n, n ∈ path → n ∈ PHASES)
    ∧ 0 <= elapsed <= ELAPSED ∧ 0 <= source_elapsed <= ELAPSED ∧ 0 <= phase_elapsed <= ELAPSED
    ∧ (rest = [] ∨ ∃ z, rest = [("remainingMs", VInt z)] ∧ 0 <= z <= MAX_SECONDS * 1000).

Record good {T} (p : progress T) : Prop := {
  g_depth : zlen (stack p) <= 16;
  g_stack : ∀ n, n ∈ stack p → n ∈ PHASES;
  g_source : (current p).1.1.1.1 ∈ SOURCES;
  g_phase : (current p).1.1.1.2 ∈ PHASES;
  g_keys : dkeys (counters p) = COUNTERS;
  g_counters : ∀ c, c ∈ counters p → 0 <= c.2 <= 2 ^ 53;
  g_failure : ∀ f, failure p = Some f → ∃ snap c, f = snap ++ [("category", VStr c)] ∧ snap_ok snap ∧ c ∈ CATEGORIES;
  g_cleanup : ∀ c, cleanup_category p = Some c → c ∈ CATEGORIES;
  g_events : 0 <= events p <= MAX_DIAGNOSTIC_EVENTS;
  g_bytes : 0 <= nbytes p <= MAX_DIAGNOSTIC_BYTES;
}.

Lemma in_list (x : string) (l : list string) : bool_decide (x ∈ l) = true → x ∈ l.
Proof. apply bool_decide_eq_true. Qed.

Lemma good_new {T} (now : T) : good (new_progress now).
Proof.
  split; try done; try (by apply in_list).
  - intros n Hn. by apply elem_of_nil in Hn.
  - intros c (n & -> & _)%list_elem_of_fmap. cbn. lia.
Qed.

Lemma counters_dset {T} (p : progress T) k v :
  good p → bool_decide (k ∈ COUNTERS) = true → 0 <= v <= 2 ^ 53 → good (set_counters (dset k v (counters p)) p).
Proof.
  intros [] Hk%bool_decide_eq_true Hv. split; unfold set_counters; cbn [counters stack current failure cleanup_category events nbytes]; try done.
  - rewrite dkeys_dset, bool_decide_eq_true_2; [done|]. by rewrite g_keys0.
  - intros c [ ->|Hc]%elem_of_dset; [done|auto].
Qed.

(** The sink and the standard output as the reader sees them: the lines and the
    bytes of the first, which must stay within the budget, and the lines of the
    second. *)
Definition seen : Type := Z * Z * list string.
Definition reads (s : seen) (o : output) : option seen :=
  let '(n, b, out) := s in
  match o with
  | Stderr line =>
      if bool_decide (n + 1 <= MAX_DIAGNOSTIC_EVENTS ∧ b + slen line <= MAX_DIAGNOSTIC_BYTES)
      then Some (n + 1, b + slen line, out) else None
  | Stdout line => Some (n, b, out ++ [line])
  end.

Section Safe.
Context {T : Type} (clock : nat → T) (ms : T → T → Z) (is_finite : T → bool) (write_fault : nat → option exn).
Context (float_repr : SpecFloat.spec_float → string).
Abbreviation P := (M (penv T) output).
Abbreviation assn := (seen → progress T → bool → Prop).

Definition on (Φ : assn) (s : seen) (w : penv T) : Prop := Φ s (self w) (active w).
Definition hp {A} (Φ : assn) (m : P A) (Q : res A → assn) : Prop := hoare reads (0, 0, []) (on Φ) m (λ r, on (Q r)).

(** The frame of a block: the nested phases it runs under *)
Definition Inv (stk : list string) cur (b : bool) (out : list string) : assn := λ s p b',
  good p ∧ s.1.1 <= events p ∧ s.1.2 <= nbytes p ∧ s.2 = out ∧ stack p = stk ∧ current p = cur ∧ b' = b.
Definition safe {A} (m : P A) : Prop := ∀ stk cur b out, hp (Inv stk cur b out) m (λ _, Inv stk cur b out).

Lemma hp_ret {A} (a : A) (Φ : assn) (Q : res A → assn) : (∀ s p b, Φ s p b → Q (Ok a) s p b) → hp Φ (mret a) Q.
Proof. intros H. apply hoare_ret. intros s w. apply H. Qed.
Lemma hp_throw {A} e (Φ : assn) (Q : res A → assn) : (∀ s p b, Φ s p b → Q (Err e) s p b) → hp Φ (throw e) Q.
Proof. intros H. apply hoare_throw. intros s w. apply H. Qed.
Lemma hp_bind {A B} (m : P A) (k : A → P B) Φ (R : A → assn) (Q : res B → assn) :
  hp Φ m (λ r, match r with Ok a => R a | Err e => Q (Err e) end) → (∀ a, hp (R a) (k a) Q) → hp Φ (m ≫= k) Q.
Proof.
  intros Hm Hk. eapply (hoare_bind _ _ _ _ _ (λ a, on (R a))); [|exact Hk].
  eapply hoare_conseq; [exact Hm|done|]. by intros [a|e].
Qed.
Lemma hp_conseq {A} (m : P A) (Φ Φ' : assn) (Q Q' : res A → assn) :
  hp Φ' m Q' → (∀ s p b, Φ s p b → Φ' s p b) → (∀ r s p b, Q' r s p b → Q r s p b) → hp Φ m Q.
Proof. intros Hm H1 H2. eapply hoare_conseq; [exact Hm|intros s w; apply H1|intros r s w; apply H2]. Qed.
Lemma hp_embed {A B} (r : res A) (k : A → P B) (Φ : assn) (Q : res B → assn) :
  (∀ e s p b, r = Err e → Φ s p b → Q (Err e) s p b) → (∀ a, r = Ok a → hp Φ (k a) Q) → hp Φ (embed r ≫= k) Q.
Proof.
  intros He Hk st s Hs HΦ r' st' Hr. unfold mbind, M_bind, embed in Hr. destruct r as [a|e].
  - by eapply Hk.
  - injection Hr as <- <-. exists s. split; [done|]. by apply He.
Qed.
Lemma hp_self {B} (k : progress T → P B) (Φ : assn) (Q : res B → assn) :
  (∀ p0, hp (λ s p b, p = p0 ∧ Φ s p b) (k p0) Q) → hp Φ (get_self ≫= k) Q.
Proof. intros Hk st s Hs HΦ r st' Hr. by eapply (Hk (self (env st)) st s Hs). Qed.
Lemma hp_active {B} (k : bool → P B) (Φ : assn) (Q : res B → assn) :
  (∀ b0, hp (λ s p b, b = b0 ∧ Φ s p b) (k b0) Q) → hp Φ (is_active ≫= k) Q.
Proof. intros Hk st s Hs HΦ r st' Hr. by eapply (Hk (active (env st)) st s Hs). Qed.
Lemma hp_put {B} p' (k : unit → P B) (Φ Ψ : assn) (Q : res B → assn) :
  (∀ s p b, Φ s p b → Ψ s p' b) → hp Ψ (k tt) Q → hp Φ (put_self p' ≫= k) Q.
Proof. intros HΨ Hk st s Hs HΦ r st' Hr. eapply (Hk (put_self p' st).2 s); [done| |exact Hr]. by apply (HΨ _ (self (env st))). Qed.
Lemma hp_put_last p' (Φ : assn) (Q : res unit → assn) : (∀ s p b, Φ s p b → Q (Ok tt) s p' b) → hp Φ (put_self p') Q.
Proof. intros HQ st s Hs HΦ r st' [= <- <-]. exists s. split; [done|]. by apply (HQ _ (self (env st))). Qed.
Lemma hp_monotonic {B} (k : T → P B) (Φ : assn) (Q : res B → assn) :
  (∀ now, hp Φ (k now) Q) → hp Φ (monotonic clock ≫= k) Q.
Proof. intros Hk st s Hs HΦ r st' Hr. by eapply (Hk (clock (ticks (env st))) (monotonic clock st).2 s). Qed.
Lemma hp_milliseconds {B} t (k : Z → P B) (Φ : assn) (Q : res B → assn) :
  (∀ z, 0 <= z <= ELAPSED → hp Φ (k z) Q) → hp Φ (milliseconds clock ms t ≫= k) Q.
Proof.
  intros Hk st s Hs HΦ r st' Hr. unfold ELAPSED in Hk.
  eapply (Hk (Z.min ((MAX_SECONDS + SOURCE_SECONDS) * 1000) (Z.max 0 (ms t (clock (ticks (env st))))))); [| | |exact Hr]; [|done|done].
  unfold MAX_SECONDS, SOURCE_SECONDS. lia.
Qed.
Lemma hp_pure {A} (φ : Prop) (m : P A) (Φ : assn) (Q : res A → assn) : (φ → hp Φ m Q) → hp (λ s p b, φ ∧ Φ s p b) m Q.
Proof. intros H st s Hs [Hφ HΦ]. exact (H Hφ st s Hs HΦ). Qed.

Lemma hp_snapshot {B} (k : dict → P B) (Φ : assn) (Q : res B → assn) :
  (∀ s p b, Φ s p b → good p) → (∀ snap, snap_ok snap → hp Φ (k snap) Q) → hp Φ (snapshot clock ms ≫= k) Q.
Proof.
  intros Hg Hk. apply (hp_bind _ _ _ (λ snap s p b, snap_ok snap ∧ Φ s p b)); [|intros snap; apply hp_pure, Hk].
  unfold snapshot. apply hp_self. intros p0. destruct (current p0) as [[[[source name] phase_start] source_start] deadline] eqn:Hc.
  apply hp_milliseconds; intros z1 H1. apply hp_milliseconds; intros z2 H2. apply hp_milliseconds; intros z3 H3.
  apply (hp_bind _ _ _ (λ rest s p b, (rest = [] ∨ ∃ z, rest = [("remainingMs", VInt z)] ∧ 0 <= z <= MAX_SECONDS * 1000) ∧ p = p0 ∧ Φ s p b)).
  - destruct deadline as [d|]; [apply hp_monotonic; intros now|]; apply hp_ret; intros s p b HΦ; split; auto.
    right. eexists. split; [done|]. unfold MAX_SECONDS. lia.
  - intros rest. apply hp_pure. intros Hr. apply hp_ret. intros s p b [-> HΦ]. split; [|done].
    destruct (Hg _ _ _ HΦ). rewrite Hc in *. exists source, name, (stack p0), z1, z2, z3, rest. cbn in *. done.
Qed.

(** Writing an accounted line keeps the budget. *)
Lemma hp_write line (Φ : assn) (Q : res unit → assn) :
  (∀ n b out p a, Φ (n, b, out) p a → n + 1 <= MAX_DIAGNOSTIC_EVENTS ∧ b + slen line <= MAX_DIAGNOSTIC_BYTES ∧
     Q (Ok tt) (n + 1, b + slen line, out) p a ∧ ∀ e, Q (Err e) (n, b, out) p a) →
  hp Φ (write_sink write_fault line) Q.
Proof.
  intros H st [[n b] out] Hs HΦ r st' Hr. apply H in HΦ as (Hn & Hb & HQ & HE). unfold write_sink in Hr.
  destruct (write_fault (writes (env st))) as [e|]; injection Hr as <- <-.
  - exists (n, b, out). split; [done|apply HE].
  - exists (n + 1, b + slen line, out). split; [|apply HQ]. cbn [trace]. rewrite steps_app, Hs. cbn.
    by rewrite bool_decide_eq_true_2.
Qed.

Lemma safe_ret {A} (a : A) : safe (mret a).
Proof. intros stk cur b out. by apply hp_ret. Qed.
Lemma safe_throw {A} e : safe (throw (A := A) e).
Proof. intros stk cur b out. by apply hp_throw. Qed.
Lemma safe_bind {A B} (m : P A) (k : A → P B) : safe m → (∀ a, safe (k a)) → safe (m ≫= k).
Proof.
  intros Hm Hk stk cur b out. apply (hp_bind _ _ _ (λ _, Inv stk cur b out)); [|intros a; apply Hk].
  eapply hp_conseq; [apply Hm|done|]. by intros [a|e].
Qed.
Lemma safe_when m : safe m → safe (when_active m).
Proof. intros Hm stk cur b out. apply hp_active. intros b0. destruct b0; [eapply hp_conseq; [apply Hm|by intros ? ? ? [_ ?]|done]|apply hp_ret; by intros ? ? ? [_ ?]]. Qed.
Lemma hp_finally {A} (m : P A) f (Φ Ψ Θ : assn) : hp Φ m (λ _, Ψ) → hp Ψ f (λ _, Θ) → hp Φ (finally m f) (λ _, Θ).
Proof.
  intros Hm Hf st s Hs HΦ r st' Hr. unfold finally in Hr. destruct (m st) as [r1 st1] eqn:E1.
  destruct (Hm _ _ Hs HΦ _ _ E1) as (s1 & Hs1 & H1). destruct (f st1) as [r2 st2] eqn:E2.
  destruct (Hf _ _ Hs1 H1 _ _ E2) as (s2 & Hs2 & H2). exists s2. destruct r2; by injection Hr as <- <-.
Qed.

(** What an update of the object has to respect *)
Lemma Inv_update stk cur b out s p p' :
  Inv stk cur b out s p b → good p' → stack p' = stack p → current p' = current p → events p <= events p' → nbytes p <= nbytes p' →
  Inv stk cur b out s p' b.
Proof. unfold Inv. intros (? & ? & ? & ? & ? & ? & ?) ? ? ? ? ?. split_and!; try done; try lia; congruence. Qed.

Lemma safe_event state : safe (event clock ms write_fault float_repr state).
Proof.
  intros stk cur b out. unfold event. apply hp_embed; [done|]. intros _ _. apply hp_self. intros p0.
  case_bool_decide as He; [apply hp_ret; by intros ? ? ? [_ ?]|]. apply hp_snapshot; [intros s p a [_ HI]; apply HI|].
  intros snap Hsnap. cbn zeta. case_bool_decide as Hb; [apply hp_ret; by intros ? ? ? [_ ?]|].
  set (line := encoded _ _ +:+ LF) in *. change (zlen (fsencode line)) with (slen line) in *.
  set (p' := Progress _ _ _ _ _ _ _ _).
  apply (hp_put _ _ _ (λ s p a, ∃ p1, p1 = p0 ∧ p = p' ∧ Inv stk cur b out s p1 a)); [naive_solver|].
  apply hp_write. intros n bs out' p a (p1 & -> & -> & HI).
  pose proof (slen_nonneg line) as Hl. destruct HI as (Hg & Hn & Hbs & Ho & Hs & Hc & Ha). cbn in Hn, Hbs, Ho.
  assert (good p') as Hg'. { destruct Hg. split; unfold p'; cbn [stack current counters failure cleanup_category events nbytes]; try done; lia. }
  split_and!; [lia|lia| |intros e]; unfold Inv, p'; cbn; split_and!; try done; try lia.
Qed.

Lemma safe_add counter amount : safe (add counter amount).
Proof.
  intros stk cur b out. unfold add. apply hp_self. intros p0.
  apply hp_embed; [naive_solver|]. intros [] H1. apply hp_embed; [naive_solver|]. intros [] H2.
  apply hp_embed; [naive_solver|]. intros v Hv. unfold require in *. ok_inv.
  apply hp_put_last. intros s p a [-> HI]. pose proof HI as (Hg & _ & _ & _ & _ & _ & ->).
  destruct (dget counter (counters p0)) as [v'|] eqn:Hd; [|done]. injection Hv as ->.
  apply dget_Some_elem, (g_counters _ Hg) in Hd. cbn in Hd.
  eapply Inv_update; [exact HI|apply counters_dset; [done|by apply bool_decide_eq_true_2|]|done..].
  change (Z.shiftl 1 53) with (2 ^ 53). lia.
Qed.

Lemma safe_cleanup e : safe (set_cleanup_category (failure_category e)).
Proof.
  intros stk cur b out. apply hp_self. intros p0. apply hp_put_last. intros s p a [-> HI].
  pose proof HI as (Hg & _ & _ & _ & _ & _ & ->). eapply Inv_update; [exact HI| |done..].
  destruct Hg. split; cbn [stack current counters failure cleanup_category events nbytes]; try done.
  intros c [= <-]. apply failure_category_closed.
Qed.

Lemma safe_capture e : safe (capture clock ms e).
Proof.
  intros stk cur b out. unfold capture. apply hp_self. intros p0. destruct (failure p0) as [f|] eqn:Hf.
  - destruct (current p0) as [[[[? ?] ?] ?] ?]. case_bool_decide; [|apply hp_ret; by intros ? ? ? [_ ?]].
    eapply hp_conseq; [apply safe_cleanup|by intros ? ? ? [_ ?]|done].
  - apply hp_snapshot; [intros s p a [_ HI]; apply HI|]. intros snap Hsnap.
    apply hp_put_last. intros s p a [-> HI]. pose proof HI as (Hg & _ & _ & _ & _ & _ & ->).
    eapply Inv_update; [exact HI| |done..]. destruct Hg. split; cbn [stack current counters failure cleanup_category events nbytes]; try done.
    intros f [= <-]. eauto using failure_category_closed.
Qed.

Lemma safe_expected nodes : safe (expected_source nodes).
Proof.
  intros stk cur b out. unfold expected_source. apply hp_active. intros b0. destruct b0; [|apply hp_ret; by intros ? ? ? [_ ?]]. cbn [negb].
  apply hp_embed; [naive_solver|]. intros u H. unfold require in H. ok_inv. apply hp_self. intros p0. apply hp_put_last.
  intros s p a (-> & -> & HI). pose proof HI as (Hg & _ & _ & _ & _ & _ & <-). eapply Inv_update; [exact HI| |done..].
  unfold MAX_NODES, MAX_TREE_BYTES in *.
  assert (good (set_counters (dset "sourceExpectedNodes" (zlen nodes - 1) (counters p0)) p0)) as Hg1 by (apply counters_dset; [done|done|lia]).
  apply (counters_dset _ "sourceExpectedBytes" (foldr Z.add 0 (omap id nodes))) in Hg1; [done|done|lia].
Qed.

Lemma safe_catching {A} caught (m : P A) h : safe m → (∀ e, safe (h e)) → safe (catching caught m h).
Proof.
  intros Hm Hh stk cur b out st s Hs HΦ r st' Hr. unfold catching in Hr. destruct (m st) as [[a|e] st1] eqn:E1.
  - injection Hr as <- <-. by eapply Hm.
  - destruct (Hm _ _ _ _ _ _ Hs HΦ _ _ E1) as (s1 & Hs1 & H1). destruct (caught e); [by eapply Hh|].
    injection Hr as <- <-. eauto.
Qed.

(** Under the phase the frame is one deeper, and it is restored on every way out. *)
Lemma safe_phase {A} name source deadline emit (body : P A) :
  safe body → safe (phase clock ms is_finite write_fault float_repr name source deadline emit body).
Proof.
  intros Hbody stk cur b out. unfold phase. apply hp_embed; [done|]. intros [] H1. apply hp_embed; [done|]. intros [] _.
  apply hp_active. intros [|]; cbn [negb]; [|eapply hp_conseq; [apply Hbody|by intros ? ? ? [_ ?]|done]].
  apply hp_self. intros p0. destruct (current p0) as [[[[source0 name0] start0] source_start0] deadline0] eqn:Hc.
  apply hp_embed; [naive_solver|]. intros [] Hd. unfold require in *. ok_inv. apply hp_monotonic. intros now. cbn zeta.
  set (cur1 := (default source0 source, name, now, _, _)). set (cs := if bool_decide (name = "source") then _ else _).
  apply (hp_put _ _ _ (λ s p b', Inv (stk ++ [name]) cur1 b out s p b' ∧ cur = current p0 ∧ cur.1.1.1.1 ∈ SOURCES ∧ cur.1.1.1.2 ∈ PHASES)).
  - intros s p b' (-> & -> & Hg & Hn & Hb & Ho & Hs & Hcur & <-). split; [|by destruct Hg; rewrite <-Hcur]. unfold Inv. cbn [stack current events nbytes].
    split_and!; try done; [|by rewrite Hs].
    assert (dkeys cs = COUNTERS ∧ ∀ c, c ∈ cs → 0 <= c.2 <= 2 ^ 53) as [Hk Hv].
    { unfold cs. case_bool_decide; [|split; apply Hg].
      assert (good (set_counters (dset "sourceExpectedNodes" 0 (counters p0)) p0)) as Hg1 by (apply counters_dset; [done|done|lia]).
      apply (counters_dset _ "sourceExpectedBytes" 0) in Hg1; [|done|lia]. split; apply Hg1. }
    destruct Hg. rewrite Hc in *. split; cbn [stack current counters failure cleanup_category events nbytes cur1 fst snd]; try done.
    + rewrite zlen_app. change (zlen [name]) with 1. lia.
    + intros n [Hin|Hin]%elem_of_app; [auto|]. apply list_elem_of_singleton in Hin. by subst n.
    + destruct source as [so|]; cbn; [|done]. by ok_inv.
  - apply (hp_finally _ _ _ (λ s p b', Inv (stk ++ [name]) cur1 b out s p b' ∧ cur = current p0 ∧ cur.1.1.1.1 ∈ SOURCES ∧ cur.1.1.1.2 ∈ PHASES)).
    + assert (safe (catching handled (_ ← (if emit then event clock ms write_fault float_repr "begin" else mret tt); a ← body;
        _ ← (if emit then event clock ms write_fault float_repr "end" else mret tt); mret a)
        (λ error, _ ← capture clock ms error; throw error))) as Hs.
      { apply safe_catching; [|intros e; apply safe_bind; [apply safe_capture|intros; apply safe_throw]].
        apply safe_bind; [destruct emit; [apply safe_event|apply safe_ret]|intros _]. apply safe_bind; [done|intros a].
        apply safe_bind; [destruct emit; [apply safe_event|apply safe_ret]|intros _; apply safe_ret]. }
      intros st s Hst [HI He]. intros r st' Hr. destruct (Hs _ _ _ _ _ _ Hst HI _ _ Hr) as (s' & ? & ?). exists s'. done.
    + apply hp_self. intros p1. apply hp_put_last. intros s p b' (-> & (Hg & Hn & Hb & Ho & Hs & Hcur & ->) & -> & Hso & Hph).
      rewrite Hc in *. unfold Inv. cbn [stack current events nbytes]. rewrite Hs, length_app, Nat.add_sub, take_app_length.
      split_and!; try done. destruct Hg. split; cbn [stack current counters failure cleanup_category events nbytes]; try done.
      * rewrite Hs, zlen_app in g_depth0. change (zlen [name]) with 1 in g_depth0. lia.
      * intros n Hn'. apply g_stack0. rewrite Hs. apply elem_of_app. by left.
Qed.

Lemma safe_exec (p : prog T) : safe (exec clock ms is_finite write_fault float_repr p).
Proof.
  induction p as [|e|c n|nodes|e|e|name source deadline emit p IH|p IHp q IHq|p IHp caught h IHh|p IHp q IHq]; cbn [exec].
  - apply safe_ret.
  - apply safe_throw.
  - apply safe_when, safe_add.
  - apply safe_expected.
  - apply safe_when, safe_cleanup.
  - apply safe_when, safe_capture.
  - by apply safe_phase.
  - by apply safe_bind.
  - by apply safe_catching.
  - intros stk cur b out. by apply (hp_finally _ _ _ (Inv stk cur b out)).
Qed.

(** ** The size of the report *)
Ltac eval_lengths :=
  repeat match goal with
  | |- context [slen (json_string ?k)] => let v := eval vm_compute in (slen (json_string k)) in change (slen (json_string k)) with v
  | |- context [jlen ?f (VBool false)] => change (jlen f (VBool false)) with 5
  end.

Lemma jsum_snap snap : snap_ok snap → jsum float_repr snap <= 600.
Proof.
  intros (source & name & path & e1 & e2 & e3 & rest & -> & Hs & Hn & Hlen & Hpath & H1 & H2 & H3 & Hrest).
  unfold ELAPSED, MAX_SECONDS, SOURCE_SECONDS in *.
  rewrite jsum_app, !jsum_cons. change (jsum float_repr []) with 0. eval_lengths.
  pose proof (jlen_str_in float_repr source _ 14 Hs ltac:(vm_compute; reflexivity)).
  pose proof (jlen_str_in float_repr name _ 21 Hn ltac:(vm_compute; reflexivity)).
  assert (jlen float_repr (VList (VStr <$> path)) <= 2 + zlen (VStr <$> path) * (21 + 1)) as Hp.
  { apply jlen_list. intros v (n & -> & Hin)%list_elem_of_fmap. apply Hpath in Hin.
    by apply (jlen_str_in float_repr n _ 21 Hin); vm_compute. }
  rewrite zlen_fmap in Hp. pose proof (jlen_int float_repr e1 6 ltac:(lia)). pose proof (jlen_int float_repr e2 6 ltac:(lia)).
  pose proof (jlen_int float_repr e3 6 ltac:(lia)).
  assert (jsum float_repr rest <= 24).
  { destruct Hrest as [ ->|(z & -> & Hz)]; [done|]. rewrite jsum_cons. change (jsum float_repr []) with 0. eval_lengths.
    pose proof (jlen_int float_repr z 6 ltac:(lia)). lia. }
  lia.
Qed.

Lemma jlen_counters (p : progress T) : good p → jlen float_repr (counters_value p) <= 700.
Proof.
  intros []. unfold counters_value. etransitivity; [apply jlen_dict|].
  assert (∀ cs : list (string * Z), (∀ c, c ∈ cs → 0 <= c.2 <= 2 ^ 53) →
    jsum float_repr ((λ c, (c.1, VInt c.2)) <$> cs) <= foldr Z.add 0 ((λ k, slen (json_string k) + 18) <$> dkeys cs)) as Hcs.
  { clear. induction cs as [|[k v] cs IH]; intros Hv; [done|]. cbn [fmap list_fmap fst snd]. rewrite jsum_cons.
    specialize (IH ltac:(intros; apply Hv; by right)). specialize (Hv (k, v) ltac:(by left)). cbn [snd] in Hv.
    pose proof (jlen_int float_repr v 15 ltac:(lia)). unfold dkeys in *. cbn [fmap list_fmap foldr fst]. lia. }
  specialize (Hcs _ g_counters0). rewrite g_keys0 in Hcs.
  assert (foldr Z.add 0 ((λ k, slen (json_string k) + 18) <$> COUNTERS) <= 690) by (vm_compute; discriminate). lia.
Qed.

Definition report (category : value) (context : dict) : value :=
  VDict [("passed", VBool false); ("scope", VStr "finite-paired-source-acquisition"); ("category", category);
         ("context", VDict context); ("evaluationExecuted", VBool false); ("activation", VStr "unproved")].

Definition context_ok (c : string) (context : dict) : Prop :=
  c ∈ CATEGORIES ∧ dget "category" context = Some (VStr c) ∧ jsum float_repr context <= 1700.

Lemma category_len c : c ∈ CATEGORIES → jlen float_repr (VStr c) <= 64.
Proof. intros Hc. by apply (jlen_str_in float_repr c _ 64 Hc); vm_compute. Qed.

Lemma report_fits c context : context_ok c context → slen (json_dumps float_repr (report (VStr c) context)) <= 4096.
Proof.
  intros (Hc & _ & Hctx). apply category_len in Hc. change (jlen float_repr (report (VStr c) context) <= 4096).
  unfold report. etransitivity; [apply jlen_dict|]. rewrite !jsum_cons. change (jsum float_repr []) with 0. eval_lengths.
  change (jlen float_repr (VStr "finite-paired-source-acquisition")) with 34. change (jlen float_repr (VStr "unproved")) with 10.
  pose proof (jlen_dict float_repr context). lia.
Qed.

Lemma hp_capture {B} e (k : unit → P B) stk cur b out (Q : res B → assn) :
  hp (λ s p b', Inv stk cur b out s p b' ∧ failure p ≠ None) (k tt) Q → hp (Inv stk cur b out) (capture clock ms e ≫= k) Q.
Proof.
  intros Hk. apply (hp_bind _ _ _ (λ _ s p b', Inv stk cur b out s p b' ∧ failure p ≠ None)); [|by intros []].
  intros st s Hs HI r st' Hr. destruct (safe_capture e _ _ _ _ _ _ Hs HI _ _ Hr) as (s' & Hs' & HI'). exists s'. split; [done|].
  unfold capture, mbind, M_bind, get_self in Hr. cbn in Hr. destruct (failure (self (env st))) as [f|] eqn:Hf.
  - destruct (current (self (env st))) as [[[[? ?] ?] ?] ?]. case_bool_decide; cbn in Hr; injection Hr as <- <-; split; [exact HI'|cbn; by rewrite Hf|exact HI'|cbn; by rewrite Hf].
  - destruct (snapshot clock ms st) as [[snap|e1] st1] eqn:Hsn.
    + injection Hr as <- <-. split; [exact HI'|done].
    + exfalso. unfold snapshot, mbind, M_bind in Hsn. cbn in Hsn. destruct (current (self (env st))) as [[[[? ?] ?] ?] [d|]]; done.
Qed.

Lemma hp_summary {B} (k : dict → P B) stk cur b out (Q : res B → assn) :
  (∀ c context, context_ok c context → hp (Inv stk cur b out) (k context) Q) →
  hp (λ s p b', Inv stk cur b out s p b' ∧ failure p ≠ None) (summary clock ms ≫= k) Q.
Proof.
  intros Hk. apply (hp_bind _ _ _ (λ context s p b', (∃ c, context_ok c context) ∧ Inv stk cur b out s p b'));
    [|intros ctx; apply hp_pure; intros [c Hc]; by eapply Hk].
  unfold summary. apply hp_self. intros p0. destruct (failure p0) as [f|] eqn:Hf.
  - apply (hp_bind _ _ _ (λ f' s p b', f' = f ∧ p = p0 ∧ Inv stk cur b out s p b')); [apply hp_ret; naive_solver|].
    intros f'. apply hp_pure. intros ->. apply hp_milliseconds. intros z Hz. apply hp_ret. intros s p b' [-> HI].
    split; [|done]. pose proof (proj1 HI) as Hg. pose proof (jlen_counters _ Hg) as Hct.
    destruct (g_failure _ Hg _ Hf) as (snap & c & -> & Hsn & Hc). exists c. split; [done|].
    pose proof (category_len _ Hc) as Hcl. pose proof (jsum_snap _ Hsn) as Hsl.
    split.
    + destruct Hsn as (? & ? & ? & ? & ? & ? & rest & -> & _ & _ & _ & _ & _ & _ & _ & [ ->|(? & -> & _)]); done.
    + unfold ELAPSED, MAX_SECONDS, SOURCE_SECONDS in Hz. destruct Hg. unfold MAX_DIAGNOSTIC_EVENTS, MAX_DIAGNOSTIC_BYTES in *.
      rewrite !jsum_app, !jsum_cons. change (jsum float_repr []) with 0. eval_lengths.
      pose proof (jlen_int float_repr z 6 ltac:(lia)). pose proof (jlen_int float_repr (events p0) 1 ltac:(lia)).
      pose proof (jlen_int float_repr (nbytes p0) 4 ltac:(lia)).
      assert (jsum float_repr (match cleanup_category p0 with Some c => [("cleanupCategory", VStr c)] | None => [] end) <= 90); [|lia].
      destruct (cleanup_category p0) as [cc|] eqn:Hcc; [|done]. pose proof (category_len _ (g_cleanup0 _ eq_refl)).
      rewrite jsum_cons. change (jsum float_repr []) with 0. eval_lengths. lia.
  - intros st s Hs (-> & _ & Hn) r st' Hr. by rewrite Hf in Hn.
Qed.

(** ** The entry point *)
Context (iterencode : value → list string).

Lemma bounded_chunks_Ok chunks maximum payload :
  slen payload + slen (unchars chunks) <= maximum → bounded_chunks chunks maximum payload = Ok (payload +:+ unchars chunks).
Proof.
  revert payload. induction chunks as [|c chunks IH]; intros payload H; cbn [bounded_chunks].
  - by rewrite str_append_nil.
  - rewrite unchars_cons in *. rewrite slen_app in H. pose proof (slen_nonneg (unchars chunks)).
    unfold require. change (zlen (fsencode payload)) with (slen payload). change (zlen (fsencode c)) with (slen c).
    rewrite bool_decide_eq_true_2 by lia. cbn [ensure mbind res_bind]. rewrite IH; [by rewrite str_append_assoc|].
    rewrite slen_app. lia.
Qed.

Definition stderr_lines (tr : list output) : list string := omap (λ o, match o with Stderr l => Some l | Stdout _ => None end) tr.
Definition stdout_lines (tr : list output) : list string := omap (λ o, match o with Stdout l => Some l | Stderr _ => None end) tr.

Lemma reads_lines tr n b out : steps reads (0, 0, []) tr = Some (n, b, out) →
  zlen (stderr_lines tr) = n ∧ foldr Z.add 0 (slen <$> stderr_lines tr) = b ∧ stdout_lines tr = out ∧
  n <= MAX_DIAGNOSTIC_EVENTS ∧ b <= MAX_DIAGNOSTIC_BYTES.
Proof.
  revert n b out. induction tr as [|o tr IH] using rev_ind; intros n b out.
  { intros [= <- <- <-]. done. }
  rewrite steps_app. destruct (steps reads (0, 0, []) tr) as [[[n1 b1] out1]|] eqn:E; [|done].
  destruct (IH _ _ _ eq_refl) as (H1 & H2 & H3 & H4 & H5). unfold stderr_lines, stdout_lines in *. rewrite !omap_app, fmap_app, zlen_app, foldr_app.
  destruct o as [line|line]; cbn.
  - case_bool_decide as Hb; [|done]. intros [= <- <- <-]. rewrite app_nil_r. change (zlen [line]) with 1. split_and!; try done; try lia.
    rewrite <-H2. clear. induction (omap _ tr) as [|x l IH]; cbn; lia.
  - intros [= <- <- <-]. rewrite H3. change (zlen (@nil string)) with 0. split_and!; try done; lia.
Qed.

Abbreviation run_main p := (main clock ms is_finite write_fault float_repr iterencode (_ ← exec clock ms is_finite write_fault float_repr p; mret 0)).

Definition reported (r : res Z) (out : list string) : Prop :=
  match r with
  | Ok z => (z = 0 ∧ out = []) ∨ (z = 2 ∧ ∃ c context, context_ok c context ∧ out = [json_dumps float_repr (report (VStr c) context)])
  | Err e => handled e = false ∧ out = []
  end.

Lemma hp_handler e cur :
  (∀ v, unchars (iterencode v) = json_dumps float_repr v) →
  hp (Inv [] cur true []) (
    _ ← capture clock ms e;
    context ← summary clock ms;
    category ← embed (match dget "category" context with Some c => Ok c | None => Err KeyError end);
    payload ← embed (bounded_encoded iterencode (report category context) 4096);
    _ ← print_out payload;
    mret 2) (λ r s p b, reported r s.2).
Proof.
  intros Hiter. apply hp_capture, hp_summary. intros c context Hctx. pose proof (report_fits c context Hctx) as Hfit.
  pose proof Hctx as (_ & Hget & _). rewrite Hget. apply hp_embed; [done|]. intros ? [= <-].
  unfold bounded_encoded. rewrite bounded_chunks_Ok by (rewrite Hiter; exact Hfit). rewrite Hiter.
  apply hp_embed; [done|]. intros ? [= <-].
  intros st [[n b] out] Hs (_ & _ & _ & Ho & _) r st' Hr. cbn in Ho. subst out. injection Hr as <- <-.
  exists (n, b, [json_dumps float_repr (report (VStr c) context)]). split; [|right; eauto].
  cbn [trace env]. rewrite steps_app, Hs. done.
Qed.

Lemma run_main_reported p : (∀ v, unchars (iterencode v) = json_dumps float_repr v) →
  hp (λ s _ _, s = (0, 0, [])) (run_main p) (λ r s _ b, reported r s.2 ∧ b = false).
Proof.
  intros Hiter. unfold main. apply hp_monotonic. intros now.
  apply (hp_put _ _ _ (λ s p b, s = (0, 0, []) ∧ p = new_progress now)); [naive_solver|].
  set (cur := current (new_progress now)).
  apply (hp_bind _ _ _ (λ _, Inv [] cur true [])).
  { intros st s Hs [-> Hp] r st' [= <- <-]. exists (0, 0, []). split; [done|]. unfold on, Inv. cbn. rewrite Hp. split; [apply good_new|done]. }
  intros []. set (body := _ ← exec _ _ _ _ _ p; mret 0).
  assert (safe (phase clock ms is_finite write_fault float_repr "inputs" None None true body)) as Hsafe
    by (apply safe_phase, safe_bind; [apply safe_exec|intros; apply safe_ret]).
  assert (returns (phase clock ms is_finite write_fault float_repr "inputs" None None true body) (λ z, z = 0)) as Hret.
  { assert (returns body (λ z, z = 0)) as Hb by (apply returns_skip; intros; by apply returns_ret).
    unfold phase. do 2 (apply returns_skip; intros _). apply returns_skip. intros []; [|done]. cbn [negb].
    apply returns_skip. intros p0. destruct (current p0) as [[[[? ?] ?] ?] ?]. apply returns_skip; intros _. apply returns_skip; intros now1.
    apply returns_skip; intros _. apply returns_finally, returns_catching.
    - apply returns_skip; intros _. eapply returns_bind; [exact Hb|]. intros a ->. apply returns_skip; intros _. by apply returns_ret.
    - intros e. apply returns_skip; intros _. apply returns_throw. }
  intros st s Hs HI r st' Hr. unfold finally in Hr.
  match type of Hr with context [catching handled ?m ?h st] => destruct (catching handled m h st) as [r1 st1] eqn:E1 end.
  assert (∃ s1, steps reads (0, 0, []) (trace st1) = Some s1 ∧ reported r1 s1.2) as (s1 & Hs1 & H1).
  { unfold catching in E1. destruct (phase _ _ _ _ _ _ _ _ _ _ st) as [[z|e] st2] eqn:E2.
    - injection E1 as <- <-. destruct (Hsafe _ _ _ _ _ _ Hs HI _ _ E2) as (s2 & Hs2 & HI2). exists s2. split; [done|]. left.
      split; [by eapply Hret|apply HI2].
    - destruct (Hsafe _ _ _ _ _ _ Hs HI _ _ E2) as (s2 & Hs2 & HI2). destruct (handled e) eqn:Hh.
      + by eapply (hp_handler e cur Hiter st2 s2).
      + injection E1 as <- <-. exists s2. split; [done|]. split; [done|apply HI2]. }
  injection Hr as <- <-. exists s1. done.
Qed.

End Safe.

(** ** A run that fails in a phase *)
Definition ex_float (_ : SpecFloat.spec_float) : string := "".
Definition ex_env : penv Z := PEnv 0 0 false (new_progress 0).
Definition ex_prog : prog Z :=
  Seq (Count "narPassCount" 1)
    (Phase "source" (Some "nixpkgs") None true
       (Seq (Expected [None; Some 40; Some 2]) (Seq (Count "copiedNodes" 2) (Raise (ValueError "acquisition-free-floor"))))).
Abbreviation ex_main :=
  (main (λ n, Z.of_nat n) (λ a b, (b - a) * 1000) (λ _, true) (λ _, None) ex_float (λ v, [json_dumps ex_float v])
    (_ ← exec (λ n, Z.of_nat n) (λ a b, (b - a) * 1000) (λ _, true) (λ _, None) ex_float ex_prog; mret 0)).

Example ex_main_code : (ex_main (World ex_env [])).1 = Ok 2.
Proof. vm_compute. reflexivity. Qed.
Example ex_main_lines : zlen (stderr_lines (trace (ex_main (World ex_env [])).2)) = 2.
Proof. vm_compute. reflexivity. Qed.

End HmProgress.
