(* ===== verification/FileSync.v ===== *)
(** * nix/home_manager_acquisition.py: the bounded owner of concurrent flushes

    [FileSyncOwner] hands duplicated descriptors to worker threads that flush
    them, at most four at a time, and closes every descriptor again.  The copy
    thread is the only one that opens and closes; a worker claims its lease
    under the lease's lock, flushes, publishes the outcome under the lock and
    sets the event.

    Interleavings are explicit: before each call of the copy thread the
    schedule lets any workers take any of their atomic steps, and it decides
    how the call ends.  A theorem for every schedule is a theorem for every
    interleaving of the calls.  Descriptors carry the call that created them,
    so a reused number is told apart from the one it replaced.

    The wait for lease [i] has the bound [patience i]; [NoFuel] marks a run that
    was still waiting when it was cut off, and no handler of the code sees it.
    No call raises it ([exception]), and when every worker takes its steps
    within bounded times, a large enough patience is never exhausted. *)
From S2P Require Import Prelude PyBytes PyString PyValue Effect HmProgress.
Import HmProgress.
Local Open Scope Z_scope.

Module FileSync.

Definition MAX_PENDING_SYNCS : Z := 4.
Definition OWNER : exn := ValueError "acquisition-copy-sync-owner".
Definition REPLACED : exn := ValueError "acquisition-copy-file-replaced".

(** ** State *)
Record desc := Desc { num : Z; born : nat }.
#[export] Instance desc_eq_dec : EqDecision desc.
Proof. solve_decision. Defined.

Inductive lease_state := Pending | Running | Done | Cancelled.
#[export] Instance lease_state_eq_dec : EqDecision lease_state.
Proof. solve_decision. Defined.

(** Where the worker of a lease is: not handed to the executor, queued there,
    past the claim, past the flush, past the locked publication, returned. *)
Inductive worker := WNone | WQueued | WClaimed | WSynced (error : option exn) (elapsed : Z) | WDone | WGone.
#[export] Instance worker_eq_dec : EqDecision worker.
Proof. solve_decision. Defined.

(** [FileSyncLease]; [before] is the snapshot of the file. *)
Record lease := Lease {
  l_fd : option desc;
  l_parent : option desc;
  l_before : Z;
  l_state : lease_state;
  l_finished : bool;
  l_error : option exn;
  l_elapsed : Z;
  l_counted : bool;
  l_worker : worker;
}.

(** One step of a worker: whose, and how its flush ends if it is the flush *)
Record move := Move { who : nat; outcome : option exn; took : Z }.

Definition exception (e : option exn) : option exn := match e with Some NoFuel => None | e => e end.

(** What the environment does at one call of the copy thread: the steps of the
    workers before it, the exception it raises, whether a raising call took
    effect, the snapshot a stat returns, the descriptors other code holds. *)
Record slot := Slot { moves : list move; fault : option exn; effective : bool; info : Z; others : list Z }.

Definition raised (s : slot) : option exn := exception (fault s).

Record owner := Owner {
  clock : nat;
  leases : list lease;
  pending : list nat;
  closed : bool;
  opened : list desc;      (** the duplicates that are open *)
}.

Inductive ev :=
  | EDup (d : desc)
  | EClose (d : desc)
  | EFsync (d : desc)
  | EAdmit (n : Z)                       (** [n] leases registered *)
  | ECounted (ms : Z)
  | ECaptured (category : string)        (** [progress.capture] *)
  | ECleanup (category : string)         (** [progress.cleanup_category = ...] *)
  | ENoted.                              (** [original.cleanup_category = ...] *)

Section Run.
Context (sched : nat → slot) (patience : nat → nat) (progress_set : bool).
Abbreviation S := (M owner ev).

(** ** The worker: one atomic step of [FileSyncLease.run] *)
Definition set_worker (l : lease) (w : worker) : lease :=
  Lease (l_fd l) (l_parent l) (l_before l) (l_state l) (l_finished l) (l_error l) (l_elapsed l) (l_counted l) w.

Definition run_step (m : move) (l : lease) : lease * list ev :=
  match l_worker l with
  | WQueued =>
      if bool_decide (l_state l = Pending)
      then (Lease (l_fd l) (l_parent l) (l_before l) Running (l_finished l) (l_error l) (l_elapsed l) (l_counted l) WClaimed, [])
      else (set_worker l WGone, [])
  | WClaimed =>
      match l_fd l with
      | Some d => (set_worker l (WSynced (exception (outcome m)) (Z.min ((MAX_SECONDS + SOURCE_SECONDS) * 1000) (Z.max 0 (took m)))), [EFsync d])
      | None => (set_worker l (WSynced (Some TypeError) 0), [])
      end
  | WSynced error elapsed =>
      (Lease (l_fd l) (l_parent l) (l_before l) Done (l_finished l) error elapsed (l_counted l) WDone, [])
  | WDone =>
      (Lease (l_fd l) (l_parent l) (l_before l) (l_state l) true (l_error l) (l_elapsed l) (l_counted l) WGone, [])
  | WNone | WGone => (l, [])
  end.

Definition run_move (ls : list lease) (m : move) : list lease * list ev :=
  match ls !! who m with
  | Some l => let '(l', es) := run_step m l in (<[who m := l']> ls, es)
  | None => (ls, [])
  end.

Fixpoint run_moves (ls : list lease) (ms : list move) : list lease * list ev :=
  match ms with
  | [] => (ls, [])
  | m :: ms => let '(ls, e1) := run_move ls m in let '(ls, e2) := run_moves ls ms in (ls, e1 ++ e2)
  end.

(** ** A call of the copy thread *)
Definition act {A} (f : slot → owner → res A * owner * list ev) : S A := λ st,
  let w := env st in
  let s := sched (clock w) in
  let '(ls, e1) := run_moves (leases w) (moves s) in
  let '(r, w', e2) := f s (Owner (1 + clock w) ls (pending w) (closed w) (opened w)) in
  (r, World w' (trace st ++ e1 ++ e2)).

(** A call that only returns or raises: [tick], [charge_blocks], [sleep], [wait] *)
Definition plain : S unit := act (λ s w, (match raised s with Some e => Err e | None => Ok tt end, w, [])).
Definition tick : S unit := plain.
Definition charge_blocks : S unit := plain.

(** [snapshot(os.fstat(...))] and [snapshot(os.stat(...))] *)
Definition stat : S Z := act (λ s w, (match raised s with Some e => Err e | None => Ok (info s) end, w, [])).

(** [os.dup]: the lowest number that is not open *)
Definition lowest_free (used : list Z) : Z := default 0 (List.find (λ n, negb (bool_decide (n ∈ used))) (seqZ 0 (zlen used + 1))).
Definition dup : S desc := act (λ s w,
  match raised s with
  | Some e => (Err e, w, [])
  | None =>
      let d := Desc (lowest_free (others s ++ (num <$> opened w))) (clock w) in
      (Ok d, Owner (clock w) (leases w) (pending w) (closed w) (opened w ++ [d]), [EDup d])
  end).

(** [os.close]: the number is released even when the call reports an error *)
Definition os_close (d : desc) : S unit := act (λ s w,
  (match raised s with Some _ => Err OSError | None => Ok tt end,
   Owner (clock w) (leases w) (pending w) (closed w) (filter (λ d', d' ≠ d) (opened w)), [EClose d])).

Definition get {A} (f : owner → A) : S A := act (λ _ w, (Ok (f w), w, [])).
Definition with_lease {A} (i : nat) (f : lease → res A * lease * list ev) : S A := act (λ _ w,
  match leases w !! i with
  | Some l => let '(r, l, es) := f l in (r, Owner (clock w) (<[i := l]> (leases w)) (pending w) (closed w) (opened w), es)
  | None => (Err AttributeError, w, [])
  end).
Definition note (es : list ev) : S unit := act (λ _ w, (Ok tt, w, if progress_set then es else [])).
Definition set_closed : S unit := act (λ _ w, (Ok tt, Owner (clock w) (leases w) (pending w) true (opened w), [])).

(** [except BaseException]; a run that was cut off is not an exception *)
Definition attempt_any {A} (m : S A) : S (res A) := λ st,
  match m st with
  | (Err NoFuel, st) => (Err NoFuel, st)
  | (r, st) => (Ok r, st)
  end.
Definition or_failure {A} (failure : option exn) (r : res A) : option exn :=
  match failure, r with Some e, _ => Some e | None, Err e => Some e | None, Ok _ => None end.

(** ** [FileSyncLease] *)
Definition new_lease (fd parent : desc) (before : Z) : S nat := act (λ _ w,
  (Ok (length (leases w)),
   Owner (clock w) (leases w ++ [Lease (Some fd) (Some parent) before Pending false None 0 false WNone]) (pending w) (closed w) (opened w), [])).

Definition cancel (i : nat) : S unit := with_lease i (λ l,
  (Ok tt, if bool_decide (l_state l = Pending)
          then Lease (l_fd l) (l_parent l) (l_before l) Cancelled true (l_error l) (l_elapsed l) (l_counted l) (l_worker l) else l, [])).

Definition result (i : nat) (allow_cancelled : bool) : S unit := with_lease i (λ l,
  if allow_cancelled && bool_decide (l_state l = Cancelled) then (Ok tt, l, []) else
  if negb (l_finished l && bool_decide (l_state l = Done)) then (Err OWNER, l, []) else
  (match l_error l with Some e => Err e | None => Ok tt end,
   Lease (l_fd l) (l_parent l) (l_before l) (l_state l) (l_finished l) (l_error l) (l_elapsed l) true (l_worker l),
   if l_counted l || negb progress_set then [] else [ECounted (l_elapsed l)])).

(** [owned = getattr(self, attribute); setattr(self, attribute, None)] *)
Definition take_parent (i : nat) : S (option desc) := with_lease i (λ l,
  (Ok (l_parent l), Lease (l_fd l) None (l_before l) (l_state l) (l_finished l) (l_error l) (l_elapsed l) (l_counted l) (l_worker l), [])).
Definition take_fd (i : nat) : S (option desc) := with_lease i (λ l,
  (Ok (l_fd l), Lease None (l_parent l) (l_before l) (l_state l) (l_finished l) (l_error l) (l_elapsed l) (l_counted l) (l_worker l), [])).
Definition is_set (i : nat) : S bool := with_lease i (λ l, (Ok (l_finished l), l, [])).

(** [os.close] raises nothing but [OSError] *)
Definition close_owned (owned : option desc) : S (option exn) :=
  match owned with
  | Some d => r ← attempt_any (os_close d); mret (or_failure None r)
  | None => mret None
  end.

Definition close_lease (i : nat) : S (option exn) :=
  set ← is_set i;
  _ ← embed (ensure set OWNER);
  p ← take_parent i; f1 ← close_owned p;
  d ← take_fd i; f2 ← close_owned d;
  mret (match f1 with Some e => Some e | None => f2 end).

(** ** [FileSyncOwner] *)
(** Each lease is inspected under its own lock. *)
Fixpoint check_leases (q : list nat) : S unit :=
  match q with
  | [] => mret tt
  | i :: q =>
      error ← with_lease i (λ l, (Ok (if bool_decide (l_state l = Done) then l_error l else None), l, []));
      match error with Some e => throw e | None => check_leases q end
  end.
Definition check_failed : S unit := q ← get pending; check_leases q.

(** [while not lease.finished.is_set(): check_failed(); tick(); wait(0.01)] *)
Fixpoint await (n : nat) (i : nat) : S unit :=
  match n with
  | O => throw NoFuel
  | Datatypes.S n =>
      set ← is_set i;
      if (set : bool) then mret tt else
      _ ← check_failed; _ ← tick; _ ← plain; await n i
  end.

Definition popleft : S unit := act (λ _ w, (Ok tt, Owner (clock w) (leases w) (tail (pending w)) (closed w) (opened w), [])).

Definition lease_before (i : nat) : S Z := with_lease i (λ l, (Ok (l_before l), l, [])).

Definition finish_one : S unit :=
  q ← get pending;
  i ← embed (match q with i :: _ => Ok i | [] => Err IndexError end);
  _ ← await (patience i) i;
  _ ← tick;
  r ← attempt_any (
    _ ← result i false;
    _ ← stat; _ ← charge_blocks;
    now ← stat; before ← lease_before i; named ← stat;
    _ ← embed (ensure (bool_decide (now = before) && bool_decide (before = named)) REPLACED);
    tick);
  _ ← popleft;
  f ← close_lease i;
  match or_failure (or_failure None r) (match f with Some e => Err e | None => Ok tt end) with Some e => throw e | None => mret tt end.

(** One turn per registered lease *)
Fixpoint drain_loop (n : nat) : S unit :=
  q ← get pending;
  match q, n with
  | [], _ => tick
  | _ :: _, O => throw NoFuel
  | _ :: _, Datatypes.S n => _ ← finish_one; drain_loop n
  end.
Definition drain : S unit := q ← get pending; drain_loop (length q).

(** [while not lease.finished.is_set(): try: sleep(0.01) except BaseException as error: failure = failure or error] *)
Fixpoint join_lease (n : nat) (i : nat) (failure : option exn) : S (option exn) :=
  match n with
  | O => throw NoFuel
  | Datatypes.S n =>
      set ← is_set i;
      if (set : bool) then mret failure else
      r ← attempt_any plain; join_lease n i (or_failure failure r)
  end.

Definition cleanup_lease (i : nat) : S (option exn) :=
  _ ← cancel i;
  failure ← join_lease (patience i) i None;
  r ← attempt_any (result i true);
  f ← close_lease i;
  mret (or_failure (or_failure failure r) (match f with Some e => Err e | None => Ok tt end)).

(** [self.pending.append(lease)], which may raise with the item retained *)
Definition append (i : nat) : S unit := act (λ s w,
  let w' := Owner (clock w) (leases w) (pending w ++ [i]) (closed w) (opened w) in
  match raised s with
  | None => (Ok tt, w', [EAdmit (zlen (pending w'))])
  | Some e => if effective s then (Err e, w', [EAdmit (zlen (pending w'))]) else (Err e, w, [])
  end).

(** [self.executor.submit(lease.run)], which may raise with the callable queued *)
Definition executor_submit (i : nat) : S unit := act (λ s w,
  let w' := Owner (clock w) (alter (λ l, set_worker l WQueued) i (leases w)) (pending w) (closed w) (opened w) in
  match raised s with
  | None => (Ok tt, w', [])
  | Some e => (Err e, if effective s then w' else w, [])
  end).

Definition remove_pending (i : nat) : S unit := act (λ _ w,
  (Ok tt, Owner (clock w) (leases w) (filter (λ j, j ≠ i) (pending w)) (closed w) (opened w), [])).

(** The handler of [submit]: with the lease, or with the bare duplicates *)
Definition submit_failed (original : exn) (lease_ : option nat) (raw : list desc) : S unit :=
  _ ← set_closed;
  _ ← note [ECaptured (failure_category original)];
  match lease_ with
  | Some i =>
      cleanup_error ← cleanup_lease i;
      _ ← remove_pending i;
      match cleanup_error with
      | Some e => _ ← note [ECleanup (failure_category e)]; _ ← act (λ _ w, (Ok tt, w, [ENoted])); throw original
      | None => throw original
      end
  | None =>
      _ ← forE (λ _ d, r ← attempt_any (os_close d);
                       match r with
                       | Err e => _ ← note [ECleanup (failure_category e)]; act (λ _ w, (Ok tt, w, [ENoted]))
                       | Ok _ => mret tt
                       end) raw tt;
      throw original
  end.

Definition submit : S unit :=
  c ← get closed;
  _ ← embed (ensure (negb c) OWNER);
  _ ← check_failed;
  _ ← tick;
  q ← get pending;
  _ ← (if bool_decide (zlen q = MAX_PENDING_SYNCS) then finish_one else mret tt);
  q ← get pending;
  _ ← embed (ensure (bool_decide (zlen q < MAX_PENDING_SYNCS)) (ValueError "acquisition-copy-sync-bound"));
  _ ← tick;
  _ ← check_failed;
  before ← stat; named ← stat;
  _ ← embed (ensure (bool_decide (before = named)) REPLACED);
  r ← attempt_any dup;
  match r with
  | Err e => submit_failed e None []
  | Ok duplicate =>
      r ← attempt_any dup;
      match r with
      | Err e => submit_failed e None [duplicate]
      | Ok parent =>
          r ← attempt_any (
            now ← stat; named ← stat;
            _ ← embed (ensure (bool_decide (now = before) && bool_decide (before = named)) REPLACED);
            tick);
          match r with
          | Err e => submit_failed e None [parent; duplicate]
          | Ok _ =>
              i ← new_lease duplicate parent before;
              r ← attempt_any (_ ← append i; executor_submit i);
              match r with
              | Err e => submit_failed e (Some i) []
              | Ok _ => mret tt
              end
          end
      end
  end.

Fixpoint cancel_all (q : list nat) : S unit := match q with [] => mret tt | i :: q => _ ← cancel i; cancel_all q end.

(** [while self.pending: failure = cleanup_lease(self.pending.popleft()); cleanup_error = cleanup_error or failure] *)
Fixpoint cleanup_all (n : nat) (cleanup_error : option exn) : S (option exn) :=
  q ← get pending;
  match q, n with
  | [], _ => mret cleanup_error
  | _ :: _, O => throw NoFuel
  | i :: _, Datatypes.S n =>
      _ ← popleft;
      failure ← cleanup_lease i;
      cleanup_all n (or_failure cleanup_error (match failure with Some e => Err e | None => Ok tt end))
  end.

Definition exit_ (original : option exn) : S unit :=
  _ ← set_closed;
  _ ← (match original with Some e => note [ECaptured (failure_category e)] | None => mret tt end);
  q ← get pending;
  cleanup_error ← (match original, q with
                   | None, _ :: _ => _ ← note [ECaptured (failure_category OWNER)]; mret (Some OWNER)
                   | _, _ => mret None
                   end);
  _ ← cancel_all q;
  cleanup_error ← cleanup_all (length q) cleanup_error;
  r ← attempt_any plain;
  match or_failure cleanup_error r, original with
  | None, _ => mret tt
  | Some e, None => throw e
  | Some e, Some _ => _ ← act (λ _ w, (Ok tt, w, [ENoted])); note [ECleanup (failure_category e)]
  end.

(** The block under [with FileSyncOwner(...) as sync]: its uses of the owner,
    and the failures of the code around them *)
Inductive use := Submit | Drain | Fail (e : exn).
Definition do_use (u : use) : S unit := match u with Submit => submit | Drain => drain | Fail e => throw e end.
Fixpoint body (us : list use) : S unit := match us with [] => mret tt | u :: us => _ ← do_use u; body us end.

Definition session (us : list use) : S unit :=
  r ← attempt_any (body us);
  _ ← exit_ (match r with Err e => Some e | Ok _ => None end);
  embed r.
End Run.

Definition new_owner : owner := Owner 0 [] [] false [].
(** ** Custody

    The reader of the trace follows the open duplicates, by number and by the
    call that made them.  It refuses a duplicate of an open number, a close or a
    flush of anything but the very duplicate that is open, and an admission
    beyond four. *)
Definition custody (m : gmap Z nat) (e : ev) : option (gmap Z nat) :=
  match e with
  | EDup d => if bool_decide (m !! num d = None) then Some (<[num d := born d]> m) else None
  | EClose d => if bool_decide (m !! num d = Some (born d)) then Some (delete (num d) m) else None
  | EFsync d => if bool_decide (m !! num d = Some (born d)) then Some m else None
  | EAdmit n => if bool_decide (n <= MAX_PENDING_SYNCS) then Some m else None
  | ECounted _ | ECaptured _ | ECleanup _ | ENoted => Some m
  end.

Definition held (l : lease) : list desc := option_list (l_parent l) ++ option_list (l_fd l).
Definition all_held (ls : list lease) : list desc := ls ≫= held.

(** The protocol of one lease: what the state and the event say of the worker;
    nothing is closed before the event is set. *)
Definition lease_ok (l : lease) : Prop :=
  match l_worker l with
  | WNone | WQueued => (l_state l = Pending ∧ l_finished l = false) ∨ (l_state l = Cancelled ∧ l_finished l = true)
  | WClaimed | WSynced _ _ => l_state l = Running ∧ l_finished l = false
  | WDone => l_state l = Done ∧ l_finished l = false
  | WGone => (l_state l = Done ∨ l_state l = Cancelled) ∧ l_finished l = true
  end
  ∧ (l_finished l = false → is_Some (l_fd l) ∧ is_Some (l_parent l))
  ∧ l_error l ≠ Some NoFuel ∧ (∀ elapsed, l_worker l ≠ WSynced (Some NoFuel) elapsed).

(** What the copy thread knows of a lease and no worker changes *)
Inductive fact := Finished | NoParent | NoFd | Fresh | Submitted.
Definition fact_of (k : fact) (l : lease) : Prop :=
  match k with
  | Finished => l_finished l = true
  | NoParent => l_parent l = None
  | NoFd => l_fd l = None
  | Fresh => l_worker l = WNone
  | Submitted => l_worker l ≠ WNone ∨ l_finished l = true
  end.
Definition known (ls : list lease) (ik : nat * fact) : Prop := ∃ l, ls !! ik.1 = Some l ∧ fact_of ik.2 l.

(** [q] is the queue, [live] the leases that may hold descriptors, [raw] the
    duplicates no lease holds. *)
Record Inv (q live : list nat) (raw : list desc) (F : list (nat * fact)) (m : gmap Z nat) (w : owner) : Prop := {
  v_map : ∀ n g, m !! n = Some g ↔ Desc n g ∈ opened w;
  v_nodup : NoDup (num <$> opened w);
  v_open : opened w ≡ₚ all_held (leases w) ++ raw;
  v_ok : ∀ i l, leases w !! i = Some l → lease_ok l;
  v_released : ∀ i l, leases w !! i = Some l → i ∉ live → held l = [] ∧ l_finished l = true;
  v_valid : ∀ i, i ∈ live → (i < length (leases w))%nat;
  v_pending : pending w = q;
  v_bound : zlen q <= MAX_PENDING_SYNCS;
  v_known : Forall (known (leases w)) F;
}.

Lemma run_step_spec mv l l' es : lease_ok l → run_step mv l = (l', es) →
  lease_ok l' ∧ l_fd l' = l_fd l ∧ l_parent l' = l_parent l ∧ (l_finished l = true → l_finished l' = true)
  ∧ (l_worker l = WNone → l_worker l' = WNone) ∧ (l_worker l ≠ WNone → l_worker l' ≠ WNone) ∧ (es = [] ∨ ∃ d, l_fd l = Some d ∧ es = [EFsync d]).
Proof.
  unfold lease_ok, run_step. destruct l as [fd parent before st fin err el cnt wk]; cbn.
  assert (exception (outcome mv) ≠ Some NoFuel) as He by (destruct mv as [? [[]|] ?]; done).
  destruct wk; [..|]; cbn; intros (H1 & H2 & H3 & H4).
  - intros [= <- <-]. cbn. split_and!; naive_solver.
  - case_bool_decide as Hs; intros [= <- <-]; cbn; (split_and!; [..|by left]); naive_solver.
  - destruct fd as [d|]; intros [= <- <-]; cbn; split_and!; naive_solver.
  - intros [= <- <-]. cbn. split_and!; try naive_solver.
  - intros [= <- <-]. cbn. split_and!; naive_solver.
  - intros [= <- <-]. cbn. split_and!; naive_solver.
Qed.

(** Two lists of leases that hold the same descriptors, lease by lease *)
Definition same_held (ls ls' : list lease) : Prop := held <$> ls = held <$> ls'.
Lemma all_held_fmap ls : all_held ls = concat (held <$> ls).
Proof. induction ls; cbn; [done|]. by f_equal. Qed.
Lemma same_all_held ls ls' : held <$> ls = held <$> ls' → all_held ls = all_held ls'.
Proof. rewrite !all_held_fmap. by intros ->. Qed.

Lemma held_insert (ls : list lease) i l l' : ls !! i = Some l → held l' = held l → held <$> <[i := l']> ls = held <$> ls.
Proof.
  intros Hi Hh. rewrite list_fmap_insert, Hh. apply list_insert_id. by rewrite list_lookup_fmap, Hi.
Qed.

(** A lease that holds a descriptor brings it among the open ones. *)
Lemma all_held_elem (ls : list lease) i l d : ls !! i = Some l → d ∈ held l → d ∈ all_held ls.
Proof. intros Hi Hd. apply list_elem_of_bind. exists l. split; [done|]. by eapply list_elem_of_lookup_2. Qed.

Lemma known_insert (ls : list lease) i l l' F :
  ls !! i = Some l → (∀ k, (i, k) ∈ F → fact_of k l → fact_of k l') → Forall (known ls) F → Forall (known (<[i := l']> ls)) F.
Proof.
  intros Hi Hk HF. rewrite Forall_forall in *. intros [j k] Hj. destruct (HF _ Hj) as (l0 & Hl0 & Hf). cbn in *.
  unfold known. cbn. destruct (decide (i = j)) as [->|Hne].
  - rewrite list_lookup_insert_eq by (by eapply lookup_lt_Some). exists l'. split; [done|]. simplify_eq. eauto.
  - rewrite list_lookup_insert_ne by done. eauto.
Qed.

(** Changing one lease while it holds the same descriptors *)
Lemma Inv_lease q live raw F m w i l l' :
  Inv q live raw F m w → leases w !! i = Some l → held l' = held l → lease_ok l' → (l_finished l = true → l_finished l' = true) →
  (∀ k, (i, k) ∈ F → fact_of k l → fact_of k l') →
  Inv q live raw F m (Owner (clock w) (<[i := l']> (leases w)) (pending w) (closed w) (opened w)).
Proof.
  intros [] Hi Hh Hok Hfin Hk. split; cbn [clock leases pending closed opened]; try done.
  - rewrite v_open0. f_equiv. by rewrite (same_all_held _ _ (held_insert _ _ _ _ Hi Hh)).
  - intros j l0. destruct (decide (i = j)) as [->|Hne].
    + rewrite list_lookup_insert_eq by (by eapply lookup_lt_Some). by intros [= <-].
    + rewrite list_lookup_insert_ne by done. apply v_ok0.
  - intros j l0. destruct (decide (i = j)) as [->|Hne].
    + rewrite list_lookup_insert_eq by (by eapply lookup_lt_Some). intros [= <-] Hj. rewrite Hh.
      destruct (v_released0 _ _ Hi Hj). auto.
    + rewrite list_lookup_insert_ne by done. apply v_released0.
  - intros j. rewrite length_insert. apply v_valid0.
  - by eapply known_insert.
Qed.

Lemma Inv_clock q live raw F m w c b : Inv q live raw F m w → Inv q live raw F m (Owner c (leases w) (pending w) b (opened w)).
Proof. intros []. by split. Qed.

(** The workers keep the invariant and flush only what their lease holds. *)
Lemma interference q live raw F m w ms ls es c :
  Inv q live raw F m w → run_moves (leases w) ms = (ls, es) →
  steps custody m es = Some m ∧ Inv q live raw F m (Owner c ls (pending w) (closed w) (opened w)).
Proof.
  revert w ls es. induction ms as [|mv ms IH]; intros w ls es HI; cbn [run_moves].
  { intros [= <- <-]. split; [done|]. by apply Inv_clock. }
  destruct (run_move (leases w) mv) as [ls1 e1] eqn:E1. destruct (run_moves ls1 ms) as [ls2 e2] eqn:E2. intros [= <- <-].
  assert (steps custody m e1 = Some m ∧ Inv q live raw F m (Owner (clock w) ls1 (pending w) (closed w) (opened w))) as [Hs1 HI1].
  { unfold run_move in E1. destruct (leases w !! who mv) as [l|] eqn:Hl; [|injection E1 as <- <-; split; [done|by apply Inv_clock]].
    destruct (run_step mv l) as [l' es'] eqn:Er. injection E1 as <- <-.
    destruct (run_step_spec _ _ _ _ (v_ok _ _ _ _ _ _ HI _ _ Hl) Er) as (Hok & Hfd & Hp & Hfin & Hw & Hw' & Hes). split.
    - destruct Hes as [->|(d & Hd & ->)]; [done|]. cbn. rewrite bool_decide_eq_true_2; [done|].
      apply (v_map _ _ _ _ _ _ HI). rewrite (v_open _ _ _ _ _ _ HI), elem_of_app. left. destruct d. eapply all_held_elem; [done|].
      unfold held. rewrite Hd. set_solver.
    - eapply Inv_lease; try done; [unfold held; by rewrite Hfd, Hp|]. intros [] _; cbn; naive_solver congruence. }
  destruct (IH _ _ _ HI1 E2) as [Hs2 HI2]. split; [|done]. by rewrite steps_app, Hs1.
Qed.

Section Custody.
Context (sched : nat → slot) (patience : nat → nat) (progress_set : bool).
Abbreviation assn := (gmap Z nat → owner → Prop).
Definition hs {A} (Φ : assn) (m : M owner ev A) (Q : res A → assn) : Prop := hoare custody ∅ Φ m Q.

Lemma hs_act {A} (f : slot → owner → res A * owner * list ev) q live raw F (Q : res A → assn) :
  (∀ s m w r w' es, Inv q live raw F m w → f s w = (r, w', es) → ∃ m', steps custody m es = Some m' ∧ Q r m' w') →
  hs (Inv q live raw F) (act sched f) Q.
Proof.
  intros Hf st m Hm HI r st' Hr. unfold act in Hr. destruct (run_moves _ _) as [ls e1] eqn:E1.
  destruct (f _ _) as [[r1 w1] e2] eqn:E2. injection Hr as <- <-.
  destruct (interference _ _ _ _ _ _ _ _ _ (1 + clock (env st)) HI E1) as [Hs1 HI1].
  destruct (Hf _ _ _ _ _ _ HI1 E2) as (m' & Hs2 & HQ). exists m'. split; [|done].
  cbn [trace]. rewrite steps_app, Hm. cbn [mbind option_bind]. by rewrite steps_app, Hs1.
Qed.

(** A call that changes nothing *)
Lemma hs_still {A} (f : slot → owner → res A * owner * list ev) q live raw F (Q : res A → assn) :
  (∀ s m w r w' es, Inv q live raw F m w → f s w = (r, w', es) → w' = w ∧ steps custody m es = Some m ∧ Q r m w) →
  hs (Inv q live raw F) (act sched f) Q.
Proof. intros Hf. apply hs_act. intros s m w r w' es HI E. destruct (Hf _ _ _ _ _ _ HI E) as (-> & ? & ?). eauto. Qed.

Definition steady {A} (m : M owner ev A) : Prop := ∀ q live raw F,
  hs (Inv q live raw F) m (λ r mm w, r ≠ Err NoFuel ∧ Inv q live raw F mm w).

Lemma raised_not_fuel {A} s (a : A) : match raised s with Some e => Err e | None => Ok a end ≠ Err NoFuel.
Proof. unfold raised, exception. by destruct (fault s) as [[]|]. Qed.

Lemma raised_exception s e : raised s = Some e → Err (A := unit) e ≠ Err NoFuel.
Proof. intros Hr [= ->]. apply (raised_not_fuel s tt). by rewrite Hr. Qed.

Lemma steady_plain : steady (plain sched).
Proof. intros q live raw F. apply hs_still. intros s m w r w' es HI [= <- <- <-]. split_and!; [done|done|apply raised_not_fuel|done]. Qed.
Lemma steady_stat : steady (stat sched).
Proof. intros q live raw F. apply hs_still. intros s m w r w' es HI [= <- <- <-]. split_and!; [done|done|apply raised_not_fuel|done]. Qed.
(** An access to a lease that keeps its descriptors and the facts *)
Lemma steady_lease {A} i (f : lease → res A * lease * list ev) :
  (∀ m l r l' es, lease_ok l → f l = (r, l', es) → held l' = held l ∧ lease_ok l' ∧ (l_finished l = true → l_finished l' = true)
     ∧ (∀ k, fact_of k l → fact_of k l') ∧ steps custody m es = Some m ∧ r ≠ Err NoFuel) →
  steady (with_lease sched i f).
Proof.
  intros Hf q live raw F. apply hs_act. intros s m w r w' es HI. destruct (leases w !! i) as [l|] eqn:Hl.
  - destruct (f l) as [[r1 l1] es1] eqn:E. intros [= <- <- <-].
    destruct (Hf m _ _ _ _ (v_ok _ _ _ _ _ _ HI _ _ Hl) E) as (Hh & Hok & Hfin & Hk & Hs & Hr). exists m.
    split_and!; [done|done|]. eapply Inv_lease; eauto.
  - intros [= <- <- <-]. by exists m.
Qed.

Lemma steady_cancel i : steady (cancel sched i).
Proof.
  apply steady_lease. intros m l r l' es Hok [= <- <- <-]. case_bool_decide as Hs; [|done].
  split_and!; [done| |done|intros []; cbn; tauto|done|done]. destruct l as [fd parent before st fin err el cnt wk]. unfold lease_ok in *. cbn in *. subst st.
  destruct wk; naive_solver.
Qed.
Lemma steady_result i a : steady (result sched progress_set i a).
Proof.
  apply steady_lease. intros m l r l' es Hok. destruct (a && _); [by intros [= <- <- <-]|]. destruct (negb _); [by intros [= <- <- <-]|].
  intros [= <- <- <-]. split_and!; [done|exact Hok|done|by intros []| |].
  - by destruct (l_counted l || negb progress_set).
  - destruct Hok as (_ & _ & He & _). destruct (l_error l); naive_solver.
Qed.
Lemma steady_before i : steady (lease_before sched i).
Proof. apply steady_lease. by intros m l r l' es Hok [= <- <- <-]. Qed.

Lemma hs_steady_ret {A} (a : A) : steady (mret a).
Proof. intros q live raw F. by apply hoare_ret. Qed.
Lemma steady_throw {A} e : e ≠ NoFuel → steady (throw (A := A) e).
Proof. intros He q live raw F. apply hoare_throw. intros s w HI. split; [congruence|done]. Qed.
Lemma steady_embed {A} (r : res A) : r ≠ Err NoFuel → steady (embed r).
Proof. intros Hr q live raw F st m Hm HI r' st' [= <- <-]. eauto. Qed.
Lemma ensure_not_fuel b e : e ≠ NoFuel → ensure b e ≠ Err NoFuel.
Proof. intros He [_ ?]%ensure_Err. congruence. Qed.
Lemma hs_bind {A B} (m : M owner ev A) (k : A → M owner ev B) Φ (R : A → assn) (Q : res B → assn) :
  hs Φ m (λ r, match r with Ok a => R a | Err e => Q (Err e) end) → (∀ a, hs (R a) (k a) Q) → hs Φ (m ≫= k) Q.
Proof.
  intros Hm Hk. eapply hoare_bind; [|exact Hk]. eapply hoare_conseq; [exact Hm|done|]. by intros [a|e].
Qed.
Lemma hs_steady_bind {A B} (m : M owner ev A) (k : A → M owner ev B) : steady m → (∀ a, steady (k a)) → steady (m ≫= k).
Proof.
  intros Hm Hk q live raw F. eapply (hs_bind _ _ _ (λ _, Inv q live raw F)); [|intros; apply Hk].
  eapply hoare_conseq; [apply Hm|done|]. intros [a|e] s w [Hr HI]; [done|]. split; [congruence|done].
Qed.
(** A steady step whose outcome does not matter for the descriptors *)
Lemma hs_steady {A B} (m : M owner ev A) (k : A → M owner ev B) q live raw F (Q : res B → assn) :
  steady m → (∀ e mm w, e ≠ NoFuel → Inv q live raw F mm w → Q (Err e) mm w) → (∀ a, hs (Inv q live raw F) (k a) Q) → hs (Inv q live raw F) (m ≫= k) Q.
Proof.
  intros Hm He Hk. eapply (hs_bind _ _ _ (λ _, Inv q live raw F)); [|exact Hk].
  eapply hoare_conseq; [apply Hm|done|]. intros [a|e] s w [Hr HI]; [done|apply He; [congruence|done]].
Qed.
Lemma hs_queue {B} (k : list nat → M owner ev B) q live raw F (Q : res B → assn) :
  hs (Inv q live raw F) (k q) Q → hs (Inv q live raw F) (get sched pending ≫= k) Q.
Proof.
  intros Hk. eapply (hs_bind _ _ _ (λ q' mm w, q' = q ∧ Inv q live raw F mm w)).
  - apply hs_still. intros s m w r w' es HI [= <- <- <-]. split_and!; [done|done|by apply HI|done].
  - intros q'. apply hoare_pure. by intros ->.
Qed.
Lemma steady_get {A} (f : owner → A) : steady (get sched f).
Proof. intros q live raw F. apply hs_still. by intros s m w r w' es HI [= <- <- <-]. Qed.

Lemma steady_check_leases q : steady (check_leases sched q).
Proof.
  induction q as [|i q IH]; cbn [check_leases]; [apply hs_steady_ret|].
  intros q' live raw F. eapply (hs_bind _ _ _ (λ e mm w, e ≠ Some NoFuel ∧ Inv q' live raw F mm w)).
  - apply hs_act. intros s m w r w' es HI. destruct (leases w !! i) as [l|] eqn:Hl; intros [= <- <- <-]; exists m; (split; [done|]); [|done].
    split; [|rewrite list_insert_id by done; by apply Inv_clock]. destruct (v_ok _ _ _ _ _ _ HI _ _ Hl) as (_ & _ & He & _). by case_bool_decide.
  - intros [e|]; apply hoare_pure; intros He; [|apply IH]. apply steady_throw. congruence.
Qed.
Lemma steady_check_failed : steady (check_failed sched).
Proof. apply hs_steady_bind; [apply steady_get|]. intros. apply steady_check_leases. Qed.

(** ** The calls that move descriptors *)
Lemma hs_lease {A} i (f : lease → res A * lease * list ev) q live raw F (Q : res A → assn) :
  i ∈ live →
  (∀ m w l r l' es, Inv q live raw F m w → leases w !! i = Some l → f l = (r, l', es) →
     ∃ m', steps custody m es = Some m' ∧ Q r m' (Owner (clock w) (<[i := l']> (leases w)) (pending w) (closed w) (opened w))) →
  hs (Inv q live raw F) (with_lease sched i f) Q.
Proof.
  intros Hi Hf. apply hs_act. intros s m w r w' es HI.
  destruct (lookup_lt_is_Some_2 _ _ (v_valid _ _ _ _ _ _ HI _ Hi)) as [l Hl]. rewrite Hl.
  destruct (f l) as [[r1 l1] es1] eqn:E. intros [= <- <- <-]. eauto.
Qed.

Lemma Inv_learn q live raw F m w i k l : Inv q live raw F m w → leases w !! i = Some l → fact_of k l → Inv q live raw ((i, k) :: F) m w.
Proof. intros [] Hl Hk. split; try done. constructor; [|done]. exists l. done. Qed.
Lemma Inv_forget q live raw F F' m w : Inv q live raw F m w → F' ⊆ F → Inv q live raw F' m w.
Proof. intros [] HF. split; try done. rewrite Forall_forall in *. auto. Qed.
Lemma Inv_fact q live raw F m w i k l : Inv q live raw F m w → (i, k) ∈ F → leases w !! i = Some l → fact_of k l.
Proof. intros [] Hin Hl. rewrite Forall_forall in v_known0. destruct (v_known0 _ Hin) as (l' & Hl' & Hf). cbn in *. by simplify_eq. Qed.

Lemma hs_is_set i q live raw F : i ∈ live →
  hs (Inv q live raw F) (is_set sched i) (λ r, match r with
    | Ok b => λ m w, Inv q live raw (if b then (i, Finished) :: F else F) m w ∧ ((i, Finished) ∈ F → b = true)
    | Err _ => λ _ _, False end).
Proof.
  intros Hi. apply hs_lease; [done|]. intros m w l r l' es HI Hl [= <- <- <-]. exists m. split; [done|].
  rewrite list_insert_id by done. split; [|intros Hf; by apply (Inv_fact _ _ _ _ _ _ _ _ _ HI Hf Hl)].
  apply (Inv_clock _ _ _ _ _ _ (clock w) (closed w)). destruct (l_finished l) eqn:Hfin; [|done]. by eapply Inv_learn.
Qed.

(** A cancelled lease is submitted or already finished. *)
Lemma hs_cancel i q live raw F : i ∈ live →
  hs (Inv q live raw F) (cancel sched i) (λ r, match r with Ok _ => Inv q live raw ((i, Submitted) :: F) | Err _ => λ _ _, False end).
Proof.
  intros Hi. apply hs_lease; [done|]. intros m w l r l' es HI Hl [= <- <- <-]. exists m. split; [done|].
  pose proof (v_ok _ _ _ _ _ _ HI _ _ Hl) as Hok. match goal with |- context [<[i := ?x]> _] => set (l' := x) end.
  assert (held l' = held l ∧ lease_ok l' ∧ (l_finished l = true → l_finished l' = true) ∧ (∀ k, fact_of k l → fact_of k l') ∧ fact_of Submitted l')
    as (Hh & Hok' & Hfin & Hk & Hs).
  { destruct l as [fd parent before st fin err el cnt wk]. unfold lease_ok, held in *. unfold l'. cbn in *.
    case_bool_decide as Hs; cbn.
    - subst st. (split; [done|]). (split; [destruct wk; cbn in *; intuition (try congruence)|]). split_and!; [done|intros []; cbn; tauto|by right].
    - (split; [done|]). (split; [exact Hok|]). split_and!; [done|done|]. destruct wk; intuition (try congruence). }
  eapply (Inv_learn _ _ _ _ _ _ _ _ l'); [eapply Inv_lease; eauto| |done]. cbn. apply list_lookup_insert_eq. by eapply lookup_lt_Some.
Qed.

Lemma all_held_insert (ls : list lease) i l l' o :
  ls !! i = Some l → held l ≡ₚ o ++ held l' → all_held ls ≡ₚ o ++ all_held (<[i := l']> ls).
Proof.
  intros Hi Hh. rewrite <-(take_drop_middle ls i l Hi) at 1. rewrite insert_take_drop by (by eapply lookup_lt_Some).
  unfold all_held. rewrite !bind_app, !bind_cons, Hh. rewrite !(assoc_L (++)). f_equiv. rewrite (comm (++) (mbind held _) o). done.
Qed.

(** A descriptor leaves a finished lease and is closed next. *)
Lemma Inv_take q live raw F m w i l l' o :
  Inv q live raw F m w → leases w !! i = Some l → l_finished l = true → held l ≡ₚ o ++ held l' → lease_ok l' → l_finished l' = true →
  (∀ k, fact_of k l → fact_of k l') →
  Inv q live (o ++ raw) F m (Owner (clock w) (<[i := l']> (leases w)) (pending w) (closed w) (opened w)).
Proof.
  intros [] Hi Hfin Hh Hok Hfin' Hk. split; cbn [clock leases pending closed opened]; try done.
  - rewrite v_open0, (all_held_insert _ _ _ _ _ Hi Hh), !(assoc_L (++)). f_equiv. apply (comm (++)).
  - intros j l0. destruct (decide (i = j)) as [->|Hne].
    + rewrite list_lookup_insert_eq by (by eapply lookup_lt_Some). by intros [= <-].
    + rewrite list_lookup_insert_ne by done. apply v_ok0.
  - intros j l0. destruct (decide (i = j)) as [->|Hne].
    + rewrite list_lookup_insert_eq by (by eapply lookup_lt_Some). intros [= <-] Hj. destruct (v_released0 _ _ Hi Hj) as [Hnil _].
      rewrite Hnil in Hh. symmetry in Hh. apply Permutation_nil_r, app_eq_nil in Hh as [_ ?]. done.
    + rewrite list_lookup_insert_ne by done. apply v_released0.
  - intros j. rewrite length_insert. apply v_valid0.
  - eapply known_insert; eauto.
Qed.

Lemma hs_take_parent i q live raw F : i ∈ live → (i, Finished) ∈ F →
  hs (Inv q live raw F) (take_parent sched i) (λ r, match r with
    | Ok o => Inv q live (option_list o ++ raw) ((i, NoParent) :: F) | Err _ => λ _ _, False end).
Proof.
  intros Hi HF. apply hs_lease; [done|]. intros m w l r l' es HI Hl [= <- <- <-]. exists m. split; [done|].
  pose proof (Inv_fact _ _ _ _ _ _ _ _ _ HI HF Hl) as Hfin. cbn in Hfin. pose proof (v_ok _ _ _ _ _ _ HI _ _ Hl) as Hok.
  eapply Inv_learn; [eapply Inv_take; [done|done|done|reflexivity| |done|by intros []]| |].
  - destruct Hok as (H1 & _ & H3). split; [exact H1|]. split; [|exact H3]. cbn. by rewrite Hfin.
  - cbn. apply list_lookup_insert_eq. by eapply lookup_lt_Some.
  - done.
Qed.
Lemma hs_take_fd i q live raw F : i ∈ live → (i, Finished) ∈ F →
  hs (Inv q live raw F) (take_fd sched i) (λ r, match r with
    | Ok o => Inv q live (option_list o ++ raw) ((i, NoFd) :: F) | Err _ => λ _ _, False end).
Proof.
  intros Hi HF. apply hs_lease; [done|]. intros m w l r l' es HI Hl [= <- <- <-]. exists m. split; [done|].
  pose proof (Inv_fact _ _ _ _ _ _ _ _ _ HI HF Hl) as Hfin. cbn in Hfin. pose proof (v_ok _ _ _ _ _ _ HI _ _ Hl) as Hok.
  eapply Inv_learn; [eapply Inv_take; [done|done|done| | |done|by intros []]| |].
  - unfold held. cbn. rewrite app_nil_r. apply (comm (++)).
  - destruct Hok as (H1 & _ & H3). split; [exact H1|]. split; [|exact H3]. cbn. by rewrite Hfin.
  - cbn. apply list_lookup_insert_eq. by eapply lookup_lt_Some.
  - done.
Qed.

Lemma filter_ne_perm (d : desc) (l rest : list desc) : l ≡ₚ d :: rest → NoDup l → filter (λ d', d' ≠ d) l ≡ₚ rest.
Proof.
  intros Hp Hnd. rewrite Hp, filter_cons_False by auto. rewrite Hp in Hnd. apply NoDup_cons in Hnd as [Hd _].
  clear Hp. induction rest as [|x rest IH]; [done|]. rewrite filter_cons_True by set_solver. f_equiv. apply IH. set_solver.
Qed.

Lemma hs_os_close d q live raw F : hs (Inv q live (d :: raw) F) (os_close sched d) (λ _, Inv q live raw F).
Proof.
  apply hs_act. intros s m w r w' es HI [= <- <- <-]. pose proof HI as [].
  assert (opened w ≡ₚ d :: all_held (leases w) ++ raw) as Hp by (rewrite v_open0; symmetry; apply Permutation_middle).
  assert (NoDup (opened w)) as Hnd by (by eapply NoDup_fmap_1).
  assert (d ∈ opened w) as Hd by (rewrite Hp; set_solver).
  exists (delete (num d) m). split.
  - cbn. rewrite bool_decide_eq_true_2; [done|]. apply v_map0. by destruct d.
  - pose proof (filter_ne_perm _ _ _ Hp Hnd) as Hf. split; cbn [clock leases pending closed opened]; try done.
    + intros n g. rewrite list_elem_of_filter, <-v_map0. destruct (decide (n = num d)) as [->|Hne].
      * rewrite lookup_delete_eq. split; [done|]. intros [Hn Hg]. apply v_map0 in Hg. destruct Hn.
        assert (m !! num d = Some (born d)) as Hb by (apply v_map0; by destruct d). apply v_map0 in Hg. rewrite Hb in Hg. injection Hg as <-. by destruct d.
      * rewrite lookup_delete_ne by done. split; [|naive_solver]. intros ?. split; [|done]. intros <-. by apply Hne.
    + rewrite Hf. rewrite Hp in v_nodup0. by apply NoDup_cons in v_nodup0 as [_ ?].
Qed.

(** No failure of a call is a run that was cut off. *)
Definition fine (f : option exn) : Prop := f ≠ Some NoFuel.
Lemma fine_or {A} f (r : res A) : fine f → r ≠ Err NoFuel → fine (or_failure f r).
Proof. unfold fine, or_failure. destruct f, r; congruence. Qed.
Lemma fine_res f : fine f → match f with Some e => Err e | None => Ok tt end ≠ Err NoFuel.
Proof. unfold fine. destruct f; congruence. Qed.

Lemma hs_close_owned o q live raw F : hs (Inv q live (option_list o ++ raw) F) (close_owned sched o)
  (λ r, match r with Ok f => λ m w, fine f ∧ Inv q live raw F m w | Err _ => λ _ _, False end).
Proof.
  destruct o as [d|]; cbn; [|by apply hoare_ret].
  intros st m Hm HI r st' Hr. unfold mbind, M_bind, attempt_any in Hr. destruct (os_close sched d st) as [r1 st1] eqn:E1.
  destruct (hs_os_close d _ _ _ _ _ _ Hm HI _ _ E1) as (m1 & Hm1 & HI1). exists m1.
  unfold os_close, act in E1. destruct (run_moves _ _). destruct (raised _); injection E1 as <- <-; by injection Hr as <- <-.
Qed.

Lemma Inv_release q live raw F m w i :
  Inv q live raw F m w → (i, Finished) ∈ F → (i, NoParent) ∈ F → (i, NoFd) ∈ F → Inv q (filter (λ j, j ≠ i) live) raw F m w.
Proof.
  intros HI H1 H2 H3. pose proof HI as []. split; try done.
  - intros j l Hl Hj. destruct (decide (j = i)) as [->|Hne]; [|apply (v_released0 _ _ Hl); rewrite list_elem_of_filter in Hj; tauto].
    pose proof (Inv_fact _ _ _ _ _ _ _ _ _ HI H1 Hl) as Hf. pose proof (Inv_fact _ _ _ _ _ _ _ _ _ HI H2 Hl) as Hp.
    pose proof (Inv_fact _ _ _ _ _ _ _ _ _ HI H3 Hl) as Hd. cbn in *. unfold held. by rewrite Hp, Hd.
  - intros j [_ Hj]%list_elem_of_filter. auto.
Qed.

Lemma Inv_live q live live' raw F m w : Inv q live raw F m w → (∀ i, i ∈ live ↔ i ∈ live') → Inv q live' raw F m w.
Proof.
  intros [] Hl. split; try done; [|intros i ?%Hl; auto]. intros i l Hi Hn. eapply v_released0; [done|]. by rewrite Hl.
Qed.

Lemma hs_close_lease i q live raw F : i ∈ live → (i, Finished) ∈ F →
  hs (Inv q live raw F) (close_lease sched i) (λ r, match r with
    | Ok f => λ m w, fine f ∧ Inv q (filter (λ j, j ≠ i) live) raw F m w | Err _ => λ _ _, False end).
Proof.
  intros Hi HF. unfold close_lease.
  eapply (hs_bind _ _ _ (λ b m w, b = true ∧ Inv q live raw F m w)).
  { eapply hoare_conseq; [by apply (hs_is_set i q live raw F)|done|]. intros [b|e] m w; [|done]. intros [HI Hb]. split; [auto|].
    eapply Inv_forget; [exact HI|]. destruct b; [|done]. intros x Hx. by right. }
  intros b. apply hoare_pure. intros ->.
  eapply (hs_bind _ _ _ (λ _, Inv q live raw F)); [intros st m Hm HI r st' [= <- <-]; by eauto|]. intros [].
  eapply (hs_bind _ _ _ (λ o, Inv q live (option_list o ++ raw) ((i, NoParent) :: F))).
  { eapply hoare_conseq; [by apply (hs_take_parent i q live raw F)|done|]. by intros []. }
  intros p. eapply (hs_bind _ _ _ (λ f m w, fine f ∧ Inv q live raw ((i, NoParent) :: F) m w)).
  { eapply hoare_conseq; [apply hs_close_owned|done|]. by intros []. }
  intros f1. apply hoare_pure. intros Hf1. eapply (hs_bind _ _ _ (λ o, Inv q live (option_list o ++ raw) ((i, NoFd) :: (i, NoParent) :: F))).
  { eapply hoare_conseq; [apply (hs_take_fd i q live raw ((i, NoParent) :: F)); [done|set_solver]|done|]. by intros []. }
  intros d. eapply (hs_bind _ _ _ (λ f m w, fine f ∧ Inv q live raw ((i, NoFd) :: (i, NoParent) :: F) m w)).
  { eapply hoare_conseq; [apply hs_close_owned|done|]. by intros []. }
  intros f2. apply hoare_pure. intros Hf2. apply hoare_ret. intros m w HI. split; [by destruct f1|].
  eapply Inv_forget; [eapply Inv_release; [exact HI|set_solver..]|set_solver].
Qed.

(** The numbers already open never run out. *)
Lemma lowest_free_fresh used : lowest_free used ∉ used.
Proof.
  unfold lowest_free. destruct (List.find _ _) as [n|] eqn:E; cbn.
  - apply find_some in E as [_ E]. by ok_inv.
  - exfalso. assert (seqZ 0 (zlen used + 1) ⊆ used) as Hsub.
    { intros n Hn. destruct (decide (n ∈ used)); [done|]. apply list_elem_of_In in Hn.
      pose proof (find_none _ _ E _ Hn) as Hf. cbn in Hf. by ok_inv. }
    pose proof (NoDup_submseteq _ _ (NoDup_seqZ 0 (zlen used + 1)) Hsub) as Hs. apply submseteq_length in Hs.
    rewrite length_seqZ in Hs. unfold zlen in Hs. lia.
Qed.

Lemma hs_dup q live raw F : hs (Inv q live raw F) (dup sched) (λ r m w, r ≠ Err NoFuel ∧
  match r with Ok d => Inv q live (d :: raw) F | Err _ => Inv q live raw F end m w).
Proof.
  apply hs_act. intros s m w r w' es HI. destruct (raised s) as [e|] eqn:Hrs.
  { intros [= <- <- <-]. exists m. split; [done|]. apply raised_exception in Hrs. split; [congruence|done]. }
  set (n := lowest_free _). intros [= <- <- <-].
  assert (n ∉ num <$> opened w) as Hn. { pose proof (lowest_free_fresh (others s ++ (num <$> opened w))). set_solver. }
  destruct HI. assert (m !! n = None) as Hm.
  { destruct (m !! n) as [g|] eqn:E; [|done]. apply v_map0 in E. destruct Hn. apply list_elem_of_fmap. exists (Desc n g). done. }
  exists (<[n := clock w]> m). split; [cbn; by rewrite bool_decide_eq_true_2|]. split; [done|]. split; cbn [clock leases pending closed opened]; try done.
  - intros n' g. rewrite elem_of_app, list_elem_of_singleton, <-v_map0. destruct (decide (n' = n)) as [->|Hne].
    + rewrite lookup_insert_eq, Hm. naive_solver.
    + rewrite lookup_insert_ne by done. naive_solver.
  - rewrite fmap_app. apply NoDup_app. split_and!; [done| |apply NoDup_singleton]. cbn. set_solver.
  - rewrite v_open0, (comm (++) _ [_]). cbn. apply Permutation_middle.
Qed.

Lemma hs_new_lease fd parent before q live raw F :
  hs (Inv q live (parent :: fd :: raw) F) (new_lease sched fd parent before) (λ r, match r with
    | Ok i => λ m w, (i ∉ live) ∧ Inv q (i :: live) raw ((i, Fresh) :: F) m w | Err _ => λ _ _, False end).
Proof.
  apply hs_act. intros s m w r w' es HI [= <- <- <-]. exists m. split; [done|]. destruct HI. split.
  { intros Hi. apply v_valid0 in Hi. lia. }
  set (l := Lease _ _ _ _ _ _ _ _ _). split; cbn [clock leases pending closed opened]; try done.
  - rewrite v_open0. unfold all_held. rewrite bind_app, bind_singleton. change (held l) with [parent; fd].
    by rewrite <-(assoc_L (++)).
  - intros i l'. destruct (decide (i < length (leases w))%nat) as [Hi|Hi].
    + rewrite lookup_app_l by done. apply v_ok0.
    + intros Hl. apply lookup_app_Some in Hl as [Hl|[_ Hl]]; [by eapply v_ok0|]. apply list_lookup_singleton_Some in Hl as [_ <-].
      split; [by left|]. cbn. split_and!; [by eauto|done|done].
  - intros i l' Hl Hi. apply lookup_app_Some in Hl as [Hl|[Hge Hl]]; [eapply v_released0; [done|set_solver]|].
    apply list_lookup_singleton_Some in Hl as [Hz <-]. exfalso. apply Hi. assert (i = length (leases w)) as -> by lia. set_solver.
  - intros i [ ->|Hi]%elem_of_cons; rewrite length_app; cbn; [lia|]. apply v_valid0 in Hi. lia.
  - constructor.
    + exists l. cbn. split; [|done]. by rewrite lookup_app_r, Nat.sub_diag by lia.
    + eapply Forall_impl; [exact v_known0|]. intros [i k] (l' & Hl' & Hk). exists l'. cbn in *. split; [|done]. by apply lookup_app_l_Some.
Qed.

Lemma hs_append i q live raw F : zlen q < MAX_PENDING_SYNCS →
  hs (Inv q live raw F) (append sched i) (λ r m w, r ≠ Err NoFuel ∧ (Inv (q ++ [i]) live raw F m w ∨ (Inv q live raw F m w ∧ ∃ e, r = Err e))).
Proof.
  intros Hq. apply hs_act. intros s m w r w' es HI. pose proof HI as [].
  assert (steps custody m [EAdmit (zlen (pending w ++ [i]))] = Some m) as Hs.
  { cbn. rewrite bool_decide_eq_true_2; [done|]. rewrite v_pending0, zlen_app. change (zlen [i]) with 1. unfold MAX_PENDING_SYNCS in *. lia. }
  assert (Inv (q ++ [i]) live raw F m (Owner (clock w) (leases w) (pending w ++ [i]) (closed w) (opened w))) as HI'.
  { split; try done; cbn; [by rewrite v_pending0|]. rewrite zlen_app. change (zlen [i]) with 1. unfold MAX_PENDING_SYNCS in *. lia. }
  destruct (raised s) as [e|] eqn:Hrs; [apply raised_exception in Hrs; destruct (effective s)|]; intros [= <- <- <-]; exists m; eauto 10.
Qed.

Lemma hs_executor_submit i q live raw F : (∀ k, (i, k) ∉ F) →
  hs (Inv q live raw ((i, Fresh) :: F)) (executor_submit sched i)
    (λ r m w, r ≠ Err NoFuel ∧ match r with Ok _ => Inv q live raw ((i, Submitted) :: F) | Err _ => Inv q live raw F end m w).
Proof.
  intros HF. apply hs_act. intros s m w r w' es HI. apply (Inv_forget _ _ _ _ F) in HI as HI0; [|set_solver].
  assert (Inv q live raw ((i, Submitted) :: F) m (Owner (clock w) (alter (λ l, set_worker l WQueued) i (leases w)) (pending w) (closed w) (opened w))) as HI'.
  { pose proof (v_known _ _ _ _ _ _ HI) as Hk. rewrite Forall_cons in Hk. destruct Hk as [(l & Hl & Hw) _]. cbn in Hl, Hw.
    assert (alter (λ l, set_worker l WQueued) i (leases w) = <[i := set_worker l WQueued]> (leases w)) as ->.
    { apply list_eq. intros j. destruct (decide (i = j)) as [->|Hne].
      - rewrite list_lookup_alter_eq, Hl, list_lookup_insert_eq by (by eapply lookup_lt_Some). done.
      - by rewrite list_lookup_alter_ne, list_lookup_insert_ne. }
    eapply (Inv_learn _ _ _ _ _ _ _ _ (set_worker l WQueued)).
    - eapply Inv_lease; [done|done|done| |done|by intros k ?%HF].
      pose proof (v_ok _ _ _ _ _ _ HI _ _ Hl) as (H1 & H2 & H3 & _). rewrite Hw in H1. done.
    - cbn. apply list_lookup_insert_eq. by eapply lookup_lt_Some.
    - by left. }
  assert (Inv q live raw F m (Owner (clock w) (alter (λ l, set_worker l WQueued) i (leases w)) (pending w) (closed w) (opened w))) as HI2
    by (eapply Inv_forget; [exact HI'|set_solver]).
  destruct (raised s) as [e|] eqn:Hrs; [apply raised_exception in Hrs; destruct (effective s)|]; intros [= <- <- <-]; eauto 10.
Qed.

Lemma hs_requeue q' (f : owner → list nat) q live raw F :
  (zlen q <= MAX_PENDING_SYNCS → zlen q' <= MAX_PENDING_SYNCS) → (∀ w, pending w = q → f w = q') →
  hs (Inv q live raw F) (act sched (λ _ w, (Ok tt, Owner (clock w) (leases w) (f w) (closed w) (opened w), [])))
    (λ r, match r with Ok _ => Inv q' live raw F | Err _ => λ _ _, False end).
Proof.
  intros Hq Hf. apply hs_act. intros s m w r w' es HI [= <- <- <-]. exists m. split; [done|]. destruct HI.
  split; try done; [by apply Hf|by apply Hq].
Qed.
Lemma hs_popleft {B} i q live raw F (k : unit → M owner ev B) (Q : res B → assn) :
  hs (Inv q live raw F) (k tt) Q → hs (Inv (i :: q) live raw F) (popleft sched ≫= k) Q.
Proof.
  intros Hk. eapply (hs_bind _ _ _ (λ _, Inv q live raw F)); [|by intros []].
  eapply hoare_conseq; [apply (hs_requeue q (λ w, tail (pending w)) (i :: q))| |]; [rewrite zlen_cons; lia|by intros w ->|done|by intros []].
Qed.
Lemma hs_remove_pending {B} i q live raw F (k : unit → M owner ev B) (Q : res B → assn) :
  hs (Inv (filter (λ j, j ≠ i) q) live raw F) (k tt) Q → hs (Inv q live raw F) (remove_pending sched i ≫= k) Q.
Proof.
  intros Hk. eapply (hs_bind _ _ _ (λ _, Inv (filter (λ j, j ≠ i) q) live raw F)); [|by intros []].
  eapply hoare_conseq; [apply (hs_requeue (filter (λ j, j ≠ i) q) (λ w, filter (λ j, j ≠ i) (pending w)) q)| |];
    [|by intros w ->|done|by intros []].
  pose proof (length_filter (λ j, j ≠ i) q). unfold zlen. lia.
Qed.

(** ** Progress

    The copy thread waits for lease [i] at most [patience i] times.  When the
    worker of every lease moves at least once in any [bound i] calls, four moves
    finish a submitted lease, so a patience beyond [4 * bound i] is enough.
    [Cutoff] is what a run that is cut off shows: nothing when the schedule and
    the patience are arbitrary, falsity when they are as described. *)
Definition moves_at (c i : nat) : Prop := ∃ mv, mv ∈ moves (sched c) ∧ who mv = i.
Definition fair (bound : nat → nat) : Prop := ∀ i n, ∃ c, (n ≤ c < n + bound i)%nat ∧ moves_at c i.
Definition patient : Prop := ∃ bound, fair bound ∧ ∀ i, (4 * bound i < patience i)%nat.
Context (Cutoff : Prop) (Hlive : Cutoff ∨ patient).

(** The steps the worker still takes *)
Definition remaining (l : lease) : nat :=
  if l_finished l then 0%nat else match l_worker l with WNone => 5 | WQueued => 4 | WClaimed => 3 | WSynced _ _ => 2 | WDone => 1 | WGone => 0 end%nat.
Definition submitted (l : lease) : Prop := l_worker l ≠ WNone ∨ l_finished l = true.

Lemma remaining_0 l : lease_ok l → remaining l = 0%nat → l_finished l = true.
Proof. unfold remaining, lease_ok. destruct (l_finished l); [done|]. destruct (l_worker l); naive_solver. Qed.
Lemma remaining_le l : submitted l → (remaining l ≤ 4)%nat.
Proof. unfold remaining, submitted. destruct (l_finished l); [lia|]. destruct (l_worker l); naive_solver lia. Qed.

Lemma run_step_remaining mv l l' es : lease_ok l → submitted l → run_step mv l = (l', es) →
  submitted l' ∧ (remaining l' ≤ remaining l - 1)%nat.
Proof.
  intros Hok Hs E. destruct (run_step_spec _ _ _ _ Hok E) as (Hok' & _ & _ & Hfin & _ & Hw & _).
  split; [unfold submitted in *; tauto|]. revert E Hok. unfold lease_ok, run_step, remaining, submitted in *.
  destruct l as [fd parent before st fin err el cnt wk]; cbn in *.
  destruct wk; cbn; [intros [= <- <-]|case_bool_decide; intros [= <- <-]|destruct fd; intros [= <- <-]|intros [= <- <-]..]; cbn;
    destruct fin; cbn; intuition (try congruence; try lia).
Qed.

Lemma ok_insert (ls : list lease) i l l' : (∀ j l, ls !! j = Some l → lease_ok l) → ls !! i = Some l → lease_ok l' →
  ∀ j l, <[i := l']> ls !! j = Some l → lease_ok l.
Proof.
  intros Hok Hl Hl' j l1. destruct (decide (i = j)) as [<-|Hne].
  - rewrite list_lookup_insert_eq by (by eapply lookup_lt_Some). by intros [= <-].
  - rewrite list_lookup_insert_ne by done. apply Hok.
Qed.

Lemma run_moves_remaining ms : ∀ ls ls' es i l, (∀ j l, ls !! j = Some l → lease_ok l) → ls !! i = Some l → submitted l →
  run_moves ls ms = (ls', es) →
  ∃ l', ls' !! i = Some l' ∧ submitted l' ∧ (remaining l' ≤ remaining l)%nat
    ∧ ((∃ mv, mv ∈ ms ∧ who mv = i) → (remaining l' ≤ remaining l - 1)%nat).
Proof.
  induction ms as [|mv ms IH]; intros ls ls' es i l Hok Hl Hs; cbn [run_moves].
  { intros [= <- <-]. exists l. split_and!; [done..|]. by intros (mv & ?%elem_of_nil & _). }
  destruct (run_move ls mv) as [ls1 e1] eqn:E1. destruct (run_moves ls1 ms) as [ls2 e2] eqn:E2. intros [= <- <-].
  unfold run_move in E1. destruct (ls !! who mv) as [l0|] eqn:Hl0.
  - destruct (run_step mv l0) as [l0' es'] eqn:Er. injection E1 as <- <-.
    pose proof (ok_insert _ _ _ _ Hok Hl0 (proj1 (run_step_spec _ _ _ _ (Hok _ _ Hl0) Er))) as Hok1.
    destruct (decide (who mv = i)) as [He|Hne].
    + subst i. simplify_eq. destruct (run_step_remaining _ _ _ _ (Hok _ _ Hl) Hs Er) as [Hs1 Hr1].
      destruct (IH _ _ _ (who mv) l0' Hok1 ltac:(apply list_lookup_insert_eq; by eapply lookup_lt_Some) Hs1 E2) as (l' & ? & ? & ? & _).
      exists l'. split_and!; [done|done|lia|intros _; lia].
    + destruct (IH _ _ _ i l Hok1 ltac:(by rewrite list_lookup_insert_ne) Hs E2) as (l' & ? & ? & ? & Hm). exists l'. split_and!; [done..|].
      intros (mv' & [ ->|Hin]%elem_of_cons & Hw); [done|]. apply Hm. by exists mv'.
  - injection E1 as <- <-. destruct (IH _ _ _ i l Hok Hl Hs E2) as (l' & ? & ? & ? & Hm). exists l'. split_and!; [done..|].
    intros (mv' & [ ->|Hin]%elem_of_cons & Hw); [congruence|]. apply Hm. by exists mv'.
Qed.

(** By the time [T] the lease is finished. *)
Definition soon (bound : nat → nat) (i T : nat) (w : owner) : Prop :=
  (∀ j l, leases w !! j = Some l → lease_ok l) ∧
  ∃ l, leases w !! i = Some l ∧ submitted l ∧
    (l_finished l = true ∨ ∃ c, (clock w ≤ c)%nat ∧ moves_at c i ∧ (c + 1 + (remaining l - 1) * bound i ≤ T)%nat).

Lemma soon_start bound w i l : fair bound → (∀ j l, leases w !! j = Some l → lease_ok l) → leases w !! i = Some l → submitted l →
  soon bound i (clock w + 4 * bound i) w.
Proof.
  intros Hfair Hok Hl Hs. split; [done|]. exists l. split_and!; [done..|]. right. destruct (Hfair i (clock w)) as (c & Hc & Hm).
  exists c. split_and!; [lia|done|]. pose proof (remaining_le l Hs). nia.
Qed.

Lemma soon_slot bound i T w ls es : fair bound → soon bound i T w → run_moves (leases w) (moves (sched (clock w))) = (ls, es) →
  soon bound i T (Owner (1 + clock w) ls (pending w) (closed w) (opened w)).
Proof.
  intros Hfair (Hok & l & Hl & Hs & Hc) E.
  destruct (run_moves_remaining _ _ _ _ i l Hok Hl Hs E) as (l' & Hl' & Hs' & Hle & Hlt).
  assert (∀ j l, ls !! j = Some l → lease_ok l) as Hok'.
  { clear -Hok E. revert E Hok. generalize (moves (sched (clock w))) as ms. intros ms. generalize (leases w) as ls0. revert ls es.
    induction ms as [|mv ms IH]; intros ls es ls0; cbn [run_moves]; [by intros [= <- <-]|].
    destruct (run_move ls0 mv) as [ls1 e1] eqn:E1. destruct (run_moves ls1 ms) as [ls2 e2] eqn:E2. intros [= <- <-] Hok.
    eapply IH; [exact E2|]. unfold run_move in E1. destruct (ls0 !! who mv) as [l0|] eqn:Hl0; [|injection E1 as <- <-; apply Hok].
    destruct (run_step mv l0) as [l0' es'] eqn:Er. injection E1 as <- <-.
    by apply (ok_insert _ _ _ _ Hok Hl0), (run_step_spec _ _ _ _ (Hok _ _ Hl0) Er). }
  split; [done|]. exists l'. split_and!; [done..|]. cbn [clock].
  destruct Hc as [Hfin|(c & Hc & Hm & HT)].
  - left. apply remaining_0; [by eapply Hok'|]. unfold remaining in Hle at 2. rewrite Hfin in Hle. lia.
  - destruct (decide (remaining l' = 0%nat)) as [H0|H0]; [left; apply remaining_0; [by eapply Hok'|done]|right].
    destruct (decide (c = clock w)) as [->|Hne].
    + specialize (Hlt Hm). destruct (Hfair i (1 + clock w)%nat) as (c' & Hc' & Hm'). exists c'. split_and!; [lia|done|]. nia.
    + exists c. split_and!; [lia|done|]. nia.
Qed.

(** [n] more turns of a wait for lease [i] are enough. *)
Definition ready (n i T : nat) (w : owner) : Prop :=
  Cutoff ∨ ∃ bound, fair bound ∧ soon bound i T w ∧ (T < n + clock w)%nat.
Definition quiet {A} (m : M owner ev A) : Prop := ∀ n i T st, ready n i T (env st) → ready n i T (env (m st).2).

Lemma soon_leases bound i T w w' : leases w' = leases w → clock w' = clock w → soon bound i T w → soon bound i T w'.
Proof. unfold soon. by intros -> ->. Qed.

Lemma act_ready {A} (f : slot → owner → res A * owner * list ev) n i T st :
  (∀ s w, leases (f s w).1.2 = leases w ∧ clock (f s w).1.2 = clock w) →
  ready (S n) i T (env st) → ready n i T (env (act sched f st).2).
Proof.
  intros Hf [Hc|(bound & Hfair & Hs & HT)]; [by left|right]. unfold act. destruct (run_moves _ _) as [ls e1] eqn:E1.
  pose proof (soon_slot _ _ _ _ _ _ Hfair Hs E1) as Hs'.
  match goal with |- context [f ?s ?w] => specialize (Hf s w); destruct (f s w) as [[r w1] e2] end. cbn in *. destruct Hf as [Hl Hc].
  exists bound. split_and!; [done|refine (soon_leases _ _ _ _ _ _ _ Hs'); [exact Hl|exact Hc]|rewrite Hc; lia].
Qed.
Lemma quiet_act {A} (f : slot → owner → res A * owner * list ev) :
  (∀ s w, leases (f s w).1.2 = leases w ∧ clock (f s w).1.2 = clock w) → quiet (act sched f).
Proof.
  intros Hf n i T st Hr. apply act_ready; [done|]. destruct Hr as [Hc|(bound & ? & ? & ?)]; [by left|right]. exists bound. split_and!; [done..|lia].
Qed.
Lemma lease_read {A} (i : nat) (f : lease → res A * lease * list ev) : (∀ l, (f l).1.2 = l) →
  ∀ w, let w' := (match leases w !! i with
    | Some l => let '(r, l, es) := f l in (r, Owner (clock w) (<[i := l]> (leases w)) (pending w) (closed w) (opened w), es)
    | None => (Err AttributeError, w, [])
    end).1.2 in leases w' = leases w ∧ clock w' = clock w.
Proof.
  intros Hf w. destruct (leases w !! i) as [l|] eqn:Hl; [|done]. specialize (Hf l). destruct (f l) as [[r l'] es]. cbn in *. subst l'.
  by rewrite list_insert_id.
Qed.
Lemma quiet_bind {A B} (m : M owner ev A) (k : A → M owner ev B) : quiet m → (∀ a, quiet (k a)) → quiet (m ≫= k).
Proof.
  intros Hm Hk n i T st Hr. specialize (Hm _ _ _ _ Hr). unfold mbind, M_bind. destruct (m st) as [[a|e] st1]; [by apply Hk|done].
Qed.
Lemma quiet_plain : quiet (plain sched).
Proof. apply quiet_act. intros s w. by split. Qed.
Lemma quiet_check_failed : quiet (check_failed sched).
Proof.
  apply quiet_bind; [apply quiet_act; intros s w; by split|]. intros q. induction q as [|i q IH]; cbn [check_leases]; [by intros n j T st|].
  apply quiet_bind; [apply quiet_act; intros _ w; by apply (lease_read i (λ l, (Ok (if bool_decide (l_state l = Done) then l_error l else None), l, [])))|].
  intros []; [by intros n j T st|done].
Qed.
Lemma quiet_attempt {A} (m : M owner ev A) : quiet m → quiet (attempt_any m).
Proof. intros Hm n i T st Hr. specialize (Hm _ _ _ _ Hr). unfold attempt_any. by destruct (m st) as [[a|[]] st1]. Qed.

Lemma hs_quiet {A B} (m : M owner ev A) (k : A → M owner ev B) q live raw F n i T (Q : res B → assn) :
  steady m → quiet m → (∀ e mm w, e ≠ NoFuel → Inv q live raw F mm w → Q (Err e) mm w) →
  (∀ a, hs (λ mm w, Inv q live raw F mm w ∧ ready n i T w) (k a) Q) → hs (λ mm w, Inv q live raw F mm w ∧ ready n i T w) (m ≫= k) Q.
Proof.
  intros Hm Hq He Hk. eapply (hs_bind _ _ _ (λ _ mm w, Inv q live raw F mm w ∧ ready n i T w)); [|exact Hk].
  intros st s Hs [HI Hr] r st' E. destruct (Hm _ _ _ _ _ _ Hs HI _ _ E) as (s' & Hs' & Hn & HI'). exists s'. split; [done|].
  specialize (Hq _ _ _ _ Hr). rewrite E in Hq. destruct r as [a|e]; [done|]. apply He; [congruence|done].
Qed.

(** The test of the event: when it is not set, the wait is not over in time. *)
Lemma hs_is_set_ready i q live raw F n T : i ∈ live →
  hs (λ m w, Inv q live raw F m w ∧ ready (S n) i T w) (is_set sched i) (λ r, match r with
    | Ok true => Inv q live raw ((i, Finished) :: F)
    | Ok false => λ m w, Inv q live raw F m w ∧ ready n i T w ∧ (Cutoff ∨ (0 < n)%nat)
    | Err _ => λ _ _, False end).
Proof.
  intros Hi st m Hm [HI Hr] r st' E. destruct (hs_is_set i q live raw F Hi _ _ Hm HI _ _ E) as (m' & Hm' & HQ). exists m'. split; [done|].
  assert (ready n i T (env st')) as Hr'.
  { change st' with (r, st').2. rewrite <-E. apply act_ready; [|done]. intros _ w. by apply (lease_read i (λ l, (Ok (l_finished l), l, []))). }
  destruct r as [[|]|e]; [naive_solver| |done]. destruct HQ as [HI' _]. split_and!; [done..|].
  destruct Hr' as [|(bound & Hfair & (Hok & l & Hl & Hsub & Hc) & HT)]; [by left|right].
  assert (l_finished l = false) as Hnf.
  { unfold is_set, with_lease, act in E. destruct (run_moves _ _) as [ls e1]. cbn in E. destruct (ls !! i) as [l1|] eqn:Hl1; [|done].
    injection E as E1 <-. cbn in Hl. rewrite list_lookup_insert_eq in Hl by (by eapply lookup_lt_Some). by simplify_eq. }
  rewrite Hnf in Hc. destruct Hc as [|(c & Hc & _ & HTc)]; [done|]. nia.
Qed.

(** ** The methods

    A run that was cut off while waiting shows [Cutoff] and no more. *)
Definition cut {A} (Ψ : res A → assn) : res A → assn := λ r, match r with Err NoFuel => λ _ _, Cutoff | r => Ψ r end.
Lemma cut_intro {A} (Ψ : res A → assn) r m w : r ≠ Err NoFuel → Ψ r m w → cut Ψ r m w.
Proof. by destruct r as [a|[]]. Qed.

Lemma hs_attempt {A B} (m : M owner ev A) (k : res A → M owner ev B) Φ (R : res A → assn) Ψ :
  hs Φ m (cut R) → (∀ r, r ≠ Err NoFuel → hs (R r) (k r) (cut Ψ)) → hs Φ (attempt_any m ≫= k) (cut Ψ).
Proof.
  intros Hm Hk. eapply (hs_bind _ _ _ (λ r mm w, r ≠ Err NoFuel ∧ R r mm w)); [|intros r; apply hoare_pure, Hk].
  intros st s Hs HΦ r st' Hr. unfold attempt_any in Hr. destruct (m st) as [r1 st1] eqn:E1.
  destruct (Hm _ _ Hs HΦ _ _ E1) as (s1 & Hs1 & HR). exists s1. destruct r1 as [a|[]]; injection Hr as <- <-; done.
Qed.
Lemma hs_attempt_steady {A B} (m : M owner ev A) (k : res A → M owner ev B) q live raw F Ψ :
  steady m → (∀ r, r ≠ Err NoFuel → hs (Inv q live raw F) (k r) (cut Ψ)) → hs (Inv q live raw F) (attempt_any m ≫= k) (cut Ψ).
Proof.
  intros Hm Hk. eapply (hs_attempt _ _ _ (λ _, Inv q live raw F)); [|done].
  eapply hoare_conseq; [apply Hm|done|]. intros r s w [Hr HI]. by apply cut_intro.
Qed.

Lemma steady_tick : steady (tick sched).
Proof. apply steady_plain. Qed.

Lemma hs_await n i q live raw F T : i ∈ live →
  hs (λ m w, Inv q live raw F m w ∧ ready n i T w ∧ (Cutoff ∨ (0 < n)%nat)) (await sched n i)
    (cut (λ r, match r with Ok _ => Inv q live raw ((i, Finished) :: F) | Err _ => Inv q live raw F end)).
Proof.
  intros Hi. induction n as [|n IH]; cbn [await].
  { apply hoare_throw. intros m w (_ & _ & [Hc|]); [exact Hc|lia]. }
  eapply (hs_bind _ _ _ (λ b : bool, if b then Inv q live raw ((i, Finished) :: F)
    else λ m w, (Cutoff ∨ (0 < n)%nat) ∧ Inv q live raw F m w ∧ ready n i T w)).
  { eapply hoare_conseq; [by apply (hs_is_set_ready i q live raw F n T)|by intros m w (? & ? & _)|]. intros [[|]|e] m w; naive_solver. }
  intros [|]; [by apply hoare_ret|]. apply hoare_pure. intros Hn.
  apply hs_quiet; [apply steady_check_failed|apply quiet_check_failed|intros e m w ? ?; apply cut_intro; [congruence|done]|intros _].
  apply hs_quiet; [apply steady_tick|apply quiet_plain|intros e m w ? ?; apply cut_intro; [congruence|done]|intros _].
  apply hs_quiet; [apply steady_plain|apply quiet_plain|intros e m w ? ?; apply cut_intro; [congruence|done]|intros _].
  eapply hoare_conseq; [exact IH|by intros m w [? ?]|done].
Qed.

Lemma hs_join n i failure q live raw F T : i ∈ live → fine failure →
  hs (λ m w, Inv q live raw F m w ∧ ready n i T w ∧ (Cutoff ∨ (0 < n)%nat)) (join_lease sched n i failure)
    (cut (λ r, match r with Ok f => λ m w, fine f ∧ Inv q live raw ((i, Finished) :: F) m w | Err _ => λ _ _, False end)).
Proof.
  intros Hi. revert failure. induction n as [|n IH]; intros failure Hf; cbn [join_lease].
  { apply hoare_throw. intros m w (_ & _ & [Hc|]); [exact Hc|lia]. }
  eapply (hs_bind _ _ _ (λ b : bool, if b then Inv q live raw ((i, Finished) :: F)
    else λ m w, (Cutoff ∨ (0 < n)%nat) ∧ Inv q live raw F m w ∧ ready n i T w)).
  { eapply hoare_conseq; [by apply (hs_is_set_ready i q live raw F n T)|by intros m w (? & ? & _)|]. intros [[|]|e] m w; naive_solver. }
  intros [|]; [by apply hoare_ret|]. apply hoare_pure. intros Hn.
  eapply (hs_attempt _ _ _ (λ _ m w, Inv q live raw F m w ∧ ready n i T w)).
  - intros st m Hm [HI Hr] r st' E. destruct (steady_plain _ _ _ _ _ _ Hm HI _ _ E) as (m' & Hm' & Hn' & HI'). exists m'. split; [done|].
    apply cut_intro; [done|]. split; [done|]. pose proof (quiet_plain _ _ _ _ Hr) as Hq. by rewrite E in Hq.
  - intros r Hr. eapply hoare_conseq; [apply IH; by apply fine_or|by intros m w [? ?]|done].
Qed.

Lemma ready_start q live raw F m w i : Inv q live raw F m w → (i, Submitted) ∈ F →
  ∃ T, ready (patience i) i T w ∧ (Cutoff ∨ (0 < patience i)%nat).
Proof.
  intros HI HF. destruct Hlive as [Hc|(bound & Hfair & Hp)]; [exists 0%nat; split; by left|].
  pose proof (v_known _ _ _ _ _ _ HI) as Hk. rewrite Forall_forall in Hk. destruct (Hk _ HF) as (l & Hl & Hs). cbn in Hl.
  exists (clock w + 4 * bound i)%nat. specialize (Hp i). split; [|right; lia]. right. exists bound. split_and!; [done| |lia].
  apply (soon_start _ _ _ l); [done|apply HI|done|exact Hs].
Qed.
Lemma hs_await_submitted i q live raw F : i ∈ live → (i, Submitted) ∈ F →
  hs (Inv q live raw F) (await sched (patience i) i)
    (cut (λ r, match r with Ok _ => Inv q live raw ((i, Finished) :: F) | Err _ => Inv q live raw F end)).
Proof. intros Hi HF st m Hm HI. destruct (ready_start _ _ _ _ _ _ _ HI HF) as (T & Hr & Hp). by apply (hs_await _ _ _ _ _ _ T Hi st m Hm). Qed.
Lemma hs_join_submitted i failure q live raw F : i ∈ live → (i, Submitted) ∈ F → fine failure →
  hs (Inv q live raw F) (join_lease sched (patience i) i failure)
    (cut (λ r, match r with Ok f => λ m w, fine f ∧ Inv q live raw ((i, Finished) :: F) m w | Err _ => λ _ _, False end)).
Proof. intros Hi HF Hf st m Hm HI. destruct (ready_start _ _ _ _ _ _ _ HI HF) as (T & Hr & Hp). by apply (hs_join _ _ _ _ _ _ _ T Hi Hf st m Hm). Qed.

Lemma hs_cleanup i q live raw F : i ∈ live →
  hs (Inv q live raw F) (cleanup_lease sched patience progress_set i) (cut (λ r, match r with
    | Ok f => λ m w, fine f ∧ Inv q (filter (λ j, j ≠ i) live) raw F m w | Err _ => λ _ _, False end)).
Proof.
  intros Hi. unfold cleanup_lease. eapply (hs_bind _ _ _ (λ _, Inv q live raw ((i, Submitted) :: F))).
  { eapply hoare_conseq; [by apply (hs_cancel i q live raw F)|done|]. by intros [[]|e]. }
  intros _. set (F1 := (i, Finished) :: (i, Submitted) :: F). eapply (hs_bind _ _ _ (λ f m w, fine f ∧ Inv q live raw F1 m w)).
  { eapply hoare_conseq; [apply (hs_join_submitted i None q live raw ((i, Submitted) :: F)); [done|by left|done]|done|]. intros [f|[]]; done. }
  intros failure. apply hoare_pure. intros Hfail. apply hs_attempt_steady; [apply steady_result|]. intros r Hr.
  eapply (hs_bind _ _ _ (λ f m w, fine f ∧ Inv q (filter (λ j, j ≠ i) live) raw F1 m w)).
  { eapply hoare_conseq; [apply (hs_close_lease i q live raw F1); [done|by left]|done|]. by intros [f|e]. }
  intros f. apply hoare_pure. intros Hf. apply hoare_ret. intros m w HI. cbn. split; [by apply fine_or; [apply fine_or|apply fine_res]|].
  eapply Inv_forget; [exact HI|]. intros x Hx. by do 2 right.
Qed.

Lemma filter_ne_notin (i : nat) (q : list nat) : i ∉ q → filter (λ j, j ≠ i) q = q.
Proof. induction q as [|j q IH]; intros Hi; [done|]. rewrite filter_cons_True by set_solver. f_equal. apply IH. set_solver. Qed.
Lemma filter_ne_cons (i : nat) (q : list nat) : i ∉ q → filter (λ j, j ≠ i) (i :: q) = q.
Proof. intros Hi. rewrite filter_cons_False by auto. by apply filter_ne_notin. Qed.

(** Between the methods: the queue holds every live lease, each once, and each
    was handed to the executor. *)
Definition sub (q : list nat) : list (nat * fact) := (λ i, (i, Submitted)) <$> q.
Definition Atn (n : nat) : assn := λ m w, ∃ q, NoDup q ∧ length q = n ∧ Inv q q [] (sub q) m w.
Definition At : assn := λ m w, ∃ n, Atn n m w.
Lemma At_intro q m w : NoDup q → Inv q q [] (sub q) m w → At m w.
Proof. intros. exists (length q), q. done. Qed.
Lemma hs_at {A} (m : M owner ev A) (Q : res A → assn) : (∀ q, NoDup q → hs (Inv q q [] (sub q)) m Q) → hs At m Q.
Proof. intros H st s Hs (n & q & Hq & _ & HI). exact (H q Hq st s Hs HI). Qed.
Lemma sub_cons i q : sub (i :: q) = (i, Submitted) :: sub q.
Proof. done. Qed.
Lemma sub_notin i k q : i ∉ q → (i, k) ∉ sub q.
Proof. intros Hi (j & [= -> _] & Hj)%list_elem_of_fmap. done. Qed.

Lemma hs_embed {A B} (r : res A) (k : A → M owner ev B) Φ (Q : res B → assn) :
  (∀ e m w, r = Err e → Φ m w → Q (Err e) m w) → (∀ a, r = Ok a → hs Φ (k a) Q) → hs Φ (embed r ≫= k) Q.
Proof.
  intros He Hk st s Hs HΦ r' st' Hr. unfold mbind, M_bind, embed in Hr. destruct r as [a|e]; [by eapply Hk|].
  injection Hr as <- <-. eauto.
Qed.

Lemma hs_finish_one n : hs (Atn n) (finish_one sched patience progress_set) (cut (λ r, match r with Ok _ => Atn (n - 1) | Err _ => At end)).
Proof.
  intros st0 m0 Hm0 (q & Hq & Hn & HI0). revert st0 m0 Hm0 HI0. change (hs (Inv q q [] (sub q)) (finish_one sched patience progress_set)
    (cut (λ r, match r with Ok _ => Atn (n - 1) | Err _ => At end))).
  unfold finish_one. apply hs_queue.
  apply hs_embed; [intros e m w He HI; apply cut_intro; [by destruct q; simplify_eq|by eapply At_intro]|].
  intros i Hi. destruct q as [|i' q]; [done|]. injection Hi as ->.
  assert (∀ e m w, e ≠ NoFuel → Inv (i :: q) (i :: q) [] ((i, Finished) :: sub (i :: q)) m w →
    cut (λ r : res unit, match r with Ok _ => Atn (n - 1) | Err _ => At end) (Err e) m w) as Hexit.
  { intros e m w He HI. apply cut_intro; [congruence|]. eapply At_intro; [exact Hq|]. eapply Inv_forget; [exact HI|]. intros x Hx. by right. }
  eapply (hs_bind _ _ _ (λ _, Inv (i :: q) (i :: q) [] ((i, Finished) :: sub (i :: q)))).
  { eapply hoare_conseq; [apply (hs_await_submitted i (i :: q) (i :: q) [] (sub (i :: q))); by left|done|].
    intros [u|e] m w; [done|]. intros H. destruct e; try exact H; (apply cut_intro; [done|by eapply At_intro]). }
  intros _. apply NoDup_cons in Hq as [Hi Hq].
  apply hs_steady; [apply steady_tick|done|intros _].
  apply hs_attempt_steady.
  { apply hs_steady_bind; [apply steady_result|intros _]. apply hs_steady_bind; [apply steady_stat|intros _].
    apply hs_steady_bind; [apply steady_plain|intros _]. apply hs_steady_bind; [apply steady_stat|intros now].
    apply hs_steady_bind; [apply steady_before|intros before]. apply hs_steady_bind; [apply steady_stat|intros named].
    apply hs_steady_bind; [by apply steady_embed, ensure_not_fuel|intros _]. apply steady_tick. }
  intros r Hr. apply hs_popleft.
  eapply (hs_bind _ _ _ (λ f m w, fine f ∧ Inv q (filter (λ j, j ≠ i) (i :: q)) [] ((i, Finished) :: sub (i :: q)) m w)).
  { eapply hoare_conseq; [apply (hs_close_lease i q (i :: q) [] ((i, Finished) :: sub (i :: q))); by left|done|]. by intros []. }
  intros f. apply hoare_pure. intros Hf. rewrite filter_ne_cons by done.
  assert (∀ m w, Inv q q [] ((i, Finished) :: sub (i :: q)) m w → Inv q q [] (sub q) m w) as HA.
  { intros m w HI. eapply Inv_forget; [exact HI|]. intros x Hx. by do 2 right. }
  pose proof (fine_or (or_failure None r) _ (fine_or None r ltac:(done) Hr) (fine_res f Hf)) as Hfin.
  destruct (or_failure _ _) as [e|]; [apply hoare_throw|apply hoare_ret]; intros m w HI; apply cut_intro; [unfold fine in Hfin; congruence| |done|].
  - eapply At_intro; [done|by apply HA].
  - exists q. split_and!; [done|cbn in Hn; lia|by apply HA].
Qed.

Lemma Atn_At n m w : Atn n m w → At m w.
Proof. by exists n. Qed.
Lemma hs_finish_at : hs At (finish_one sched patience progress_set) (cut (λ _, At)).
Proof.
  intros st m Hm [n HA] r st' E. destruct (hs_finish_one n _ _ Hm HA _ _ E) as (m' & Hm' & HQ). exists m'. split; [done|].
  destruct r as [u|[]]; try exact HQ; by eapply Atn_At.
Qed.
Lemma At_steady {A B} (m : M owner ev A) (k : A → M owner ev B) Ψ :
  steady m → (∀ mm w e, At mm w → Ψ (Err e) mm w) → (∀ a, hs At (k a) (cut Ψ)) → hs At (m ≫= k) (cut Ψ).
Proof.
  intros Hm He Hk. eapply (hs_bind _ _ _ (λ _, At)); [|exact Hk]. apply hs_at. intros q Hq.
  eapply hoare_conseq; [apply Hm|done|]. intros [a|e] mm w [Hr HI]; [by eapply At_intro|]. apply cut_intro; [congruence|]. apply He. by eapply At_intro.
Qed.

Lemma hs_drain_loop n : hs (Atn n) (drain_loop sched patience progress_set n) (cut (λ _, At)).
Proof.
  induction n as [|n IH]; cbn [drain_loop]; intros st0 m0 Hm0 (q & Hq & Hn & HI0); revert st0 m0 Hm0 HI0;
    match goal with |- ∀ st m, _ → _ → ∀ r st', ?c st = _ → ∃ s', _ ∧ ?Q r s' (env st') => change (hs (Inv q q [] (sub q)) c Q) end;
    apply hs_queue; destruct q as [|i q]; try done.
  - eapply hoare_conseq; [apply steady_tick|done|]; intros r m w [Hr HI]; apply cut_intro; [done|by eapply At_intro].
  - eapply (hs_bind _ _ _ (λ _, Atn n)); [|intros _; exact IH].
    eapply hoare_conseq; [apply (hs_finish_one (S n))|by intros m w HI; exists (i :: q)|].
    cbn [Nat.sub]. rewrite Nat.sub_0_r. by intros [[]|[]].
Qed.
Lemma hs_drain : hs At (drain sched patience progress_set) (cut (λ _, At)).
Proof.
  intros st0 m0 Hm0 (n & q & Hq & Hn & HI0). revert st0 m0 Hm0 HI0. change (hs (Inv q q [] (sub q)) (drain sched patience progress_set) (cut (λ _, At))).
  unfold drain. apply hs_queue. eapply hoare_conseq; [apply hs_drain_loop|by intros m w HI; exists q|done].
Qed.

(** The calls that only record something return. *)
Lemma hs_record {B} (f : owner → res unit * owner * list ev) (k : unit → M owner ev B) q live raw F (Q : res B → assn) :
  (∀ m w, Inv q live raw F m w → ∃ w' es, f w = (Ok tt, w', es) ∧ steps custody m es = Some m ∧ Inv q live raw F m w') →
  hs (Inv q live raw F) (k tt) Q → hs (Inv q live raw F) (act sched (λ _, f) ≫= k) Q.
Proof.
  intros Hf Hk. eapply (hs_bind _ _ _ (λ _, Inv q live raw F)); [|by intros []].
  apply hs_act. intros s m w r w' es HI E. destruct (Hf _ _ HI) as (w1 & es1 & E1 & Hs & HI1). rewrite E1 in E. injection E as <- <- <-. eauto.
Qed.
Lemma hs_note {B} es (k : unit → M owner ev B) q live raw F (Q : res B → assn) :
  (∀ m, steps custody m es = Some m) → hs (Inv q live raw F) (k tt) Q → hs (Inv q live raw F) (note sched progress_set es ≫= k) Q.
Proof.
  intros He. apply hs_record. intros m w HI. eexists w, _. split; [done|]. split; [|done]. by destruct progress_set.
Qed.
Lemma hs_noted {B} (k : unit → M owner ev B) q live raw F (Q : res B → assn) :
  hs (Inv q live raw F) (k tt) Q → hs (Inv q live raw F) (act sched (λ _ w, (Ok tt, w, [ENoted])) ≫= k) Q.
Proof. apply hs_record. intros m w HI. by exists w, [ENoted]. Qed.
Lemma hs_set_closed {B} (k : unit → M owner ev B) q live raw F (Q : res B → assn) :
  hs (Inv q live raw F) (k tt) Q → hs (Inv q live raw F) (set_closed sched ≫= k) Q.
Proof. apply hs_record. intros m w HI. eexists _, []. split; [done|]. split; [done|]. by apply Inv_clock. Qed.

Lemma hs_close_raw q F raw (u : unit) :
  hs (Inv q q raw F) (forE (λ _ d, r ← attempt_any (os_close sched d);
      match r with
      | Err e => _ ← note sched progress_set [ECleanup (failure_category e)]; act sched (λ _ w, (Ok tt, w, [ENoted]))
      | Ok _ => mret tt
      end) raw u) (λ r, match r with Ok _ => Inv q q [] F | Err _ => λ _ _, False end).
Proof.
  revert u. induction raw as [|d raw IH]; intros u; cbn [forE]; [by apply hoare_ret|].
  eapply (hs_bind _ _ _ (λ _, Inv q q raw F)); [|intros u'; apply IH].
  eapply (hs_bind _ _ _ (λ _, Inv q q raw F)).
  - intros st m Hm HI r st' Hr. unfold attempt_any in Hr. destruct (os_close sched d st) as [r1 st1] eqn:E1.
    destruct (hs_os_close d _ _ _ _ _ _ Hm HI _ _ E1) as (m1 & Hm1 & HI1). exists m1.
    unfold os_close, act in E1. destruct (run_moves _ _). destruct (raised _); injection E1 as <- <-; by injection Hr as <- <-.
  - intros [[]|e]; [by apply hoare_ret|]. apply hs_note; [done|].
    apply hs_still. by intros s m w r w' es HI [= <- <- <-].
Qed.

Lemma hs_throw_at e q : NoDup q → e ≠ NoFuel → hs (Inv q q [] (sub q)) (throw (A := unit) e) (cut (λ _, At)).
Proof. intros Hq He. apply hoare_throw. intros m w HI. apply cut_intro; [congruence|]. by eapply At_intro. Qed.

Lemma hs_submit_failed_raw e raw q :
  NoDup q → e ≠ NoFuel → hs (Inv q q raw (sub q)) (submit_failed sched patience progress_set e None raw) (cut (λ _, At)).
Proof.
  intros Hq He. unfold submit_failed. apply hs_set_closed, hs_note; [done|].
  eapply (hs_bind _ _ _ (λ _, Inv q q [] (sub q))); [|intros _; by apply hs_throw_at].
  eapply hoare_conseq; [apply hs_close_raw|done|]. by intros [].
Qed.

(** The lease of a failed admission may be in the queue or not. *)
Lemma hs_submit_failed_lease e i q q' :
  NoDup q → e ≠ NoFuel → i ∉ q → filter (λ j, j ≠ i) q' = q →
  hs (Inv q' (i :: q) [] (sub q)) (submit_failed sched patience progress_set e (Some i) []) (cut (λ _, At)).
Proof.
  intros Hq He Hi Hq'. unfold submit_failed. apply hs_set_closed, hs_note; [done|].
  eapply (hs_bind _ _ _ (λ _, Inv q' q [] (sub q))).
  { eapply hoare_conseq; [apply (hs_cleanup i q' (i :: q) [] (sub q)); by left|done|]. rewrite filter_ne_cons by done. intros [f|[]] m w; naive_solver. }
  intros f. apply hs_remove_pending. rewrite Hq'.
  destruct f as [e'|]; [|by apply hs_throw_at]. apply hs_note; [done|]. apply hs_noted. by apply hs_throw_at.
Qed.

Lemma hs_submit : hs At (submit sched patience progress_set) (cut (λ _, At)).
Proof.
  unfold submit. apply At_steady; [apply steady_get|done|intros c]. apply At_steady; [by apply steady_embed, ensure_not_fuel|done|intros _].
  apply At_steady; [apply steady_check_failed|done|intros _]. apply At_steady; [apply steady_tick|done|intros _].
  apply At_steady; [apply steady_get|done|intros q0].
  eapply (hs_bind _ _ _ (λ _, At)).
  { case_bool_decide; [eapply hoare_conseq; [apply hs_finish_at|done|]; by intros [[]|[]]|by apply hoare_ret]. }
  intros _. apply hs_at. intros q Hq. apply hs_queue.
  assert (∀ e m w, e ≠ NoFuel → Inv q q [] (sub q) m w → cut (λ _ : res unit, At) (Err e) m w) as Hexit
    by (intros e m w He HI; apply cut_intro; [congruence|by eapply At_intro]).
  apply hs_embed; [intros e m w [_ ->]%ensure_Err; by apply Hexit|]. intros [] Hb. apply ensure_Ok in Hb. apply bool_decide_eq_true in Hb.
  apply hs_steady; [apply steady_tick|done|intros _]. apply hs_steady; [apply steady_check_failed|done|intros _].
  apply hs_steady; [apply steady_stat|done|intros before]. apply hs_steady; [apply steady_stat|done|intros named].
  apply hs_embed; [intros e m w [_ ->]%ensure_Err; by apply Hexit|]. intros _ _.
  apply (hs_attempt _ _ _ (λ r, match r with Ok d => Inv q q [d] (sub q) | Err _ => Inv q q [] (sub q) end)).
  { eapply hoare_conseq; [apply hs_dup|done|]. intros r m w [Hr HI]. by apply cut_intro. }
  intros [duplicate|e] He; [|apply hs_submit_failed_raw; congruence].
  apply (hs_attempt _ _ _ (λ r, match r with Ok d => Inv q q [d; duplicate] (sub q) | Err _ => Inv q q [duplicate] (sub q) end)).
  { eapply hoare_conseq; [apply hs_dup|done|]. intros r m w [Hr HI]. by apply cut_intro. }
  intros [parent|e] He'; [|apply hs_submit_failed_raw; congruence].
  apply hs_attempt_steady.
  { apply hs_steady_bind; [apply steady_stat|intros now]. apply hs_steady_bind; [apply steady_stat|intros named'].
    apply hs_steady_bind; [by apply steady_embed, ensure_not_fuel|intros _]. apply steady_tick. }
  intros [u|e] He''; [|apply hs_submit_failed_raw; congruence].
  eapply (hs_bind _ _ _ (λ i m w, (i ∉ q) ∧ Inv q (i :: q) [] ((i, Fresh) :: sub q) m w)).
  { eapply hoare_conseq; [apply hs_new_lease|done|]. by intros []. }
  intros i. apply hoare_pure. intros Hi.
  assert (filter (λ j, j ≠ i) (q ++ [i]) = q) as Hqi.
  { rewrite filter_app, filter_ne_cons by (intros ?%elem_of_nil; done). rewrite app_nil_r. by apply filter_ne_notin. }
  apply (hs_attempt _ _ _ (λ r m w, match r with
    | Ok _ => Inv (q ++ [i]) (i :: q) [] ((i, Submitted) :: sub q) m w
    | Err _ => Inv (q ++ [i]) (i :: q) [] (sub q) m w ∨ Inv q (i :: q) [] (sub q) m w end)).
  - eapply (hs_bind _ _ _ (λ _, Inv (q ++ [i]) (i :: q) [] ((i, Fresh) :: sub q))).
    + eapply hoare_conseq; [by apply (hs_append i q (i :: q) [] ((i, Fresh) :: sub q))|done|].
      assert (∀ q' m w, Inv q' (i :: q) [] ((i, Fresh) :: sub q) m w → Inv q' (i :: q) [] (sub q) m w) as HF
        by (intros q' m w HI; eapply Inv_forget; [exact HI|intros x Hx; by right]).
      intros [u'|e] m w [Hr HQ]; [by destruct HQ as [?|[_ [? ?]]]|]. apply cut_intro; [congruence|]. destruct HQ as [HI|[HI _]]; auto.
    + intros _. eapply hoare_conseq; [apply (hs_executor_submit i (q ++ [i]) (i :: q) [] (sub q)); intros k; by apply sub_notin|done|].
      intros [u'|e] m w [Hr HI]; (apply cut_intro; [congruence|]); [done|by left].
  - intros [u'|e] Hr.
    + apply hoare_ret. intros m w HI. apply cut_intro; [done|]. apply (At_intro (q ++ [i])).
      * apply NoDup_app. split_and!; [done| |apply NoDup_singleton]. intros j Hj Hji%list_elem_of_singleton. by subst j.
      * eapply Inv_forget; [eapply Inv_live; [exact HI|]|].
        -- intros j. rewrite elem_of_app, list_elem_of_singleton, elem_of_cons. tauto.
        -- unfold sub. rewrite fmap_app. intros x. rewrite elem_of_app, elem_of_cons. cbn. rewrite list_elem_of_singleton. tauto.
    + intros st m Hm [HI|HI].
      * apply (hs_submit_failed_lease e i q (q ++ [i]) Hq ltac:(congruence) Hi Hqi st m Hm HI).
      * apply (hs_submit_failed_lease e i q q Hq ltac:(congruence) Hi (filter_ne_notin _ _ Hi) st m Hm HI).
Qed.

Lemma hs_body us : (Fail NoFuel ∈ us → Cutoff) → hs At (body sched patience progress_set us) (cut (λ _, At)).
Proof.
  intros Hus. induction us as [|u us IH]; cbn [body]; [by apply hoare_ret|].
  eapply (hs_bind _ _ _ (λ _, At)); [|intros _; apply IH; intros; apply Hus; by right].
  assert (hs At (do_use sched patience progress_set u) (cut (λ _, At))) as Hu.
  { destruct u as [| |e]; cbn [do_use]; [apply hs_submit|apply hs_drain|]. apply hoare_throw. intros m w HA.
    destruct e; try exact HA. apply Hus. by left. }
  eapply hoare_conseq; [exact Hu|done|]. by intros [[]|[]].
Qed.

Lemma hs_cancel_all q F q' : (∀ i, i ∈ q' → i ∈ q) →
  hs (Inv q q [] F) (cancel_all sched q') (λ r, match r with Ok _ => Inv q q [] F | Err _ => λ _ _, False end).
Proof.
  induction q' as [|i q' IH]; intros Hq; cbn [cancel_all]; [by apply hoare_ret|].
  eapply (hs_bind _ _ _ (λ _, Inv q q [] F)); [|intros _; apply IH; intros; apply Hq; by right].
  eapply hoare_conseq; [apply (hs_cancel i q q [] F), Hq; by left|done|]. intros [u|e] m w HI; [|done].
  eapply Inv_forget; [exact HI|]. intros x Hx. by right.
Qed.

Definition Released : assn := Inv [] [] [] [].

Lemma hs_cleanup_all n q ce : NoDup q → (length q ≤ n)%nat → fine ce →
  hs (Inv q q [] (sub q)) (cleanup_all sched patience progress_set n ce)
    (cut (λ r, match r with Ok f => λ m w, fine f ∧ Released m w | Err _ => λ _ _, False end)).
Proof.
  revert q ce. induction n as [|n IH]; intros q ce Hq Hn Hce; cbn [cleanup_all]; apply hs_queue; (destruct q as [|i q]; [by apply hoare_ret|]).
  - cbn in Hn. lia.
  - apply NoDup_cons in Hq as [Hi Hq]. apply hs_popleft. eapply (hs_bind _ _ _ (λ f m w, fine f ∧ Inv q q [] (sub q) m w)).
    + eapply hoare_conseq; [apply (hs_cleanup i q (i :: q) [] (sub (i :: q))); by left|done|]. rewrite filter_ne_cons by done.
      intros [f|[]] m w; try done. intros [Hf HI]. split; [done|]. eapply Inv_forget; [exact HI|]. intros x Hx. by right.
    + intros f. apply hoare_pure. intros Hf. apply IH; [done|cbn in Hn; lia|]. apply fine_or; [done|by apply fine_res].
Qed.

Lemma hs_exit original : hs At (exit_ sched patience progress_set original) (cut (λ _, Released)).
Proof.
  apply hs_at. intros q Hq. unfold exit_. apply hs_set_closed.
  eapply (hs_bind _ _ _ (λ _, Inv q q [] (sub q))).
  { destruct original as [e|]; [|by apply hoare_ret]. apply hs_still. intros s m w r w' es HI [= <- <- <-].
    split_and!; [done|by destruct progress_set|done]. }
  intros _. apply hs_queue. eapply (hs_bind _ _ _ (λ ce m w, fine ce ∧ Inv q q [] (sub q) m w)).
  { destruct original as [e|]; [by apply hoare_ret|]. destruct q as [|i q]; [by apply hoare_ret|]. apply hs_note; [done|]. by apply hoare_ret. }
  intros ce. apply hoare_pure. intros Hce. eapply (hs_bind _ _ _ (λ _, Inv q q [] (sub q))).
  { eapply hoare_conseq; [by apply (hs_cancel_all q (sub q) q)|done|]. by intros []. }
  intros _. eapply (hs_bind _ _ _ (λ f m w, fine f ∧ Released m w)).
  { eapply hoare_conseq; [by apply (hs_cleanup_all (length q) q ce)|done|]. by intros [f|[]]. }
  intros ce'. apply hoare_pure. intros Hce'. apply hs_attempt_steady; [apply steady_plain|]. intros r Hr.
  pose proof (fine_or _ _ Hce' Hr) as Hfin.
  destruct (or_failure ce' r) as [e|]; [|by apply hoare_ret].
  destruct original as [e0|]; [|apply hoare_throw; intros m w HI; apply cut_intro; [unfold fine in Hfin; congruence|done]].
  apply hs_noted. apply hs_still. intros s m w r' w' es HI [= <- <- <-]. split_and!; [done|by destruct progress_set|done].
Qed.

Lemma hs_session us : (Fail NoFuel ∈ us → Cutoff) → hs At (session sched patience progress_set us) (cut (λ _, Released)).
Proof.
  intros Hus. unfold session. apply (hs_attempt _ _ _ (λ _, At)); [by apply hs_body|]. intros r Hr.
  eapply (hs_bind _ _ _ (λ _, Released)).
  - eapply hoare_conseq; [apply hs_exit|done|]. by intros [[]|[]].
  - intros _. intros st m Hm HI r' st' [= <- <-]. exists m. split; [done|]. by apply cut_intro.
Qed.

Lemma session_runs us r st' : (Fail NoFuel ∈ us → Cutoff) → session sched patience progress_set us (World new_owner []) = (r, st') →
  ∃ m, steps custody ∅ (trace st') = Some m ∧ cut (λ _, Released) r m (env st').
Proof.
  intros Hus E. eapply (hs_session us Hus (World new_owner []) ∅); [done| |exact E].
  exists 0%nat, []. split_and!; [constructor|done|]. split; cbn; try done.
  - intros n g. rewrite elem_of_nil. done.
  - constructor.
  - by intros i Hi%elem_of_nil.
Qed.
End Custody.

(** ** A session on a concrete schedule: before every call each worker moves
    once; the flush of the second lease fails. *)
Definition ex_slot (c : nat) : slot :=
  Slot ((λ i, Move i (if bool_decide (i = 1%nat) then Some OSError else None) 3) <$> seq 0 (S c)) None false 7 [0; 1; 2].
Definition ex_patience (i : nat) : nat := 5 + 4 * i.
Definition ex_uses : list use := [Submit; Submit; Submit; Submit; Submit; Drain].
Definition ex_session : res unit * world owner ev := session ex_slot ex_patience true ex_uses (World new_owner []).

Example ex_session_fails : ex_session.1 = Err OSError.
Proof. vm_compute. reflexivity. Qed.
Example ex_session_flushes : omap (λ e, match e with EFsync d => Some (num d) | _ => None end) (trace ex_session.2) = [3; 5].
Proof. vm_compute. reflexivity. Qed.

Lemma ex_patient : patient ex_slot ex_patience.
Proof.
  exists (λ i, S i). split; [|intros i; unfold ex_patience; lia]. intros i n. exists (n `max` i)%nat. split; [lia|].
  exists (Move i (if bool_decide (i = 1%nat) then Some OSError else None) 3). split; [|done].
  apply list_elem_of_fmap. exists i. split; [done|]. apply elem_of_seq. lia.
Qed.

(** *** What is proved of a session *)

(** C21: whatever the schedule of the workers, the faults and the uses: every
    duplicate gets a number that is not in use, every close and every flush is
    of the very duplicate the lease was made with (never of a reused number, never
    after its close), at most four leases are registered, and once the block is
    left nothing stays open: every duplicate was closed, no lease is queued,
    and each lease is finished, so that its worker will not flush again. *)
Theorem flush_custody sched patience progress_set us r st'
    (Hrun : session sched patience progress_set us (World new_owner []) = (r, st')) :
  ∃ m, steps custody ∅ (trace st') = Some m
  ∧ (r ≠ Err NoFuel → m = ∅ ∧ opened (env st') = [] ∧ pending (env st') = []
       ∧ ∀ i l, leases (env st') !! i = Some l → l_finished l = true ∧ l_worker l ≠ WClaimed).
Proof.
  destruct (session_runs sched patience progress_set True (or_introl I) us r st' (λ _, I) Hrun) as (m & Hm & HQ).
  exists m. split; [done|]. intros Hr. assert (Inv [] [] [] [] m (env st')) as HI by (destruct r as [u|[]]; done).
  assert (opened (env st') = []) as Ho.
  { apply Permutation_nil_r. rewrite (v_open _ _ _ _ _ _ HI), app_nil_r. unfold all_held. apply Permutation_nil_r.
    destruct (leases (env st') ≫= held) as [|d l] eqn:E; [done|]. exfalso.
    assert (d ∈ leases (env st') ≫= held) as Hd by (rewrite E; by left). apply list_elem_of_bind in Hd as (l0 & Hd & Hl0).
    apply list_elem_of_lookup_1 in Hl0 as [i Hi]. destruct (v_released _ _ _ _ _ _ HI i l0 Hi) as [Hnil _]; [by intros ?%elem_of_nil|].
    rewrite Hnil in Hd. by apply elem_of_nil in Hd. }
  split_and!; [|done|apply HI|].
  - apply map_eq. intros n. rewrite lookup_empty. destruct (m !! n) as [g|] eqn:E; [|done].
    apply (v_map _ _ _ _ _ _ HI) in E. rewrite Ho in E. by apply elem_of_nil in E.
  - intros i l Hl. destruct (v_released _ _ _ _ _ _ HI i l Hl) as [_ Hf]; [by intros ?%elem_of_nil|]. split; [done|].
    destruct (v_ok _ _ _ _ _ _ HI i l Hl) as [H1 _]. intros Hw. rewrite Hw in H1. destruct H1. congruence.
Qed.

Lemma flush_custody_witness : opened (env ex_session.2) = [].
Proof.
  destruct (flush_custody ex_slot ex_patience true ex_uses ex_session.1 ex_session.2) as (m & _ & H).
  - unfold ex_session. apply surjective_pairing.
  - apply H. vm_compute. discriminate.
Defined.

(** C10: when every worker takes its steps within a bounded number of calls, every
    wait ends: the session is never cut off. *)
Theorem flush_ends sched patience progress_set us
    (Hpatient : patient sched patience) (Hus : Fail NoFuel ∉ us) :
  (session sched patience progress_set us (World new_owner [])).1 ≠ Err NoFuel.
Proof.
  destruct (session _ _ _ _ _) as [r st'] eqn:E. cbn. intros ->.
  destruct (session_runs sched patience progress_set False (or_intror Hpatient) us (Err NoFuel) st' Hus E) as (m & _ & []).
Qed.

Lemma flush_ends_witness : patient ex_slot ex_patience ∧ ex_session.1 ≠ Err NoFuel.
Proof.
  split; [exact ex_patient|]. unfold ex_session. apply (flush_ends ex_slot ex_patience true ex_uses ex_patient).
  unfold ex_uses. rewrite !elem_of_cons, elem_of_nil. intros H. repeat destruct H as [H|H]; discriminate || done.
Defined.
End FileSync.
