(* ===== verification/HmPair.v ===== *)
(** * nix/home_manager_inputs.py and the metadata of home_manager_acquired_inputs.py,
    home_manager_artifact.py and home_manager_bundle.py

    The exact pair of sources a lock binds, the receipt and inventory of an
    acquired pair, the receipt of a development artifact, and the nodes of a
    declared tree: relative names, byte bounds, and links that stay inside.

    [json.loads] is the parameter [loads]; it gets the [object_pairs_hook] the
    code passes.  The digests the code pins for one acquired pair and one
    artifact are arguments where they are compared, so that the definitions can
    be run on other bytes; [PAIR_SHA] and [ARTIFACT_SHA] are the pinned ones. *)
From S2P Require Import Prelude PyBytes PyString PyValue PyText Sha256 NarDescriptor.
From Stdlib Require Import Ascii.
Import Sha256.
Local Open Scope Z_scope.

Module HmPair.

(** ** home_manager_inputs.py *)
Definition PINS : list (string * (string * string)) := [
  ("home-manager", ("65258d5c65a250189fde2e35f490d15e064c4c62", "sha256-Sxu1NLTD/Ern6hFGLlZmtKCSct3YQXZI/lls8RE1XeM="));
  ("nixpkgs", ("a9e6d84f9c2f9012f5fe7d964a7851352300e61a", "sha256-WncT27+3BOkgTaJZLnCsf3LcYf9RXMuR9ONSN4rzQ7s="))].

(** [v[w]] with a key that is any value; JSON objects have string keys *)
Definition index_of (w : value) : option Z := match w with VInt z => Some z | VBool b => Some (if b then 1 else 0) | _ => None end.
Definition at_index {A} (l : list A) (z : Z) : res A :=
  match l !! Z.to_nat (if bool_decide (z < 0) then zlen l + z else z) with
  | Some x => if bool_decide (- zlen l <= z) then Ok x else Err IndexError
  | None => Err IndexError
  end.
Definition subscript (v w : value) : res value :=
  match v with
  | VDict d => if negb (hashable w) then Err TypeError else match w with VStr k => getitem v k | _ => Err KeyError end
  | VList l => match index_of w with Some z => at_index l z | None => Err TypeError end
  | VStr s => match index_of w with Some z => VStr <$> at_index (str_chars s) z | None => Err TypeError end
  | _ => Err TypeError
  end.

Definition paired_lock (lock : value) : res dict :=
  nodes ← getitem lock "nodes";
  root_name ← getitem lock "root";
  root_node ← subscript nodes root_name;
  root ← getitem root_node "inputs";
  hm_name ← getitem root "home-manager";
  hm ← subscript nodes hm_name;
  hm_inputs ← getitem hm "inputs";
  follows ← getitem hm_inputs "nixpkgs";
  _ ← raise_if (negb (py_eq follows (VList [VStr "nixpkgs"]))) (ValueError "home-manager-nixpkgs-follow-invalid");
  forM (λ selected pin,
    let '(name, (revision, nar_hash)) := (pin : string * (string * string)) in
    input ← getitem root name;
    node ← subscript nodes input;
    locked ← getitem node "locked";
    wrong ← (rev ← get locked "rev"; Ok (negb (py_eq rev (VStr revision))))
            ||? (hash ← get locked "narHash"; Ok (negb (py_eq hash (VStr nar_hash))));
    _ ← raise_if wrong (ValueError "paired-lock-binding-invalid");
    Ok (dset name locked selected)) PINS [].

(** [/nix/store/[0-9a-z]{32}-[A-Za-z0-9._+-]+] *)
Definition STORE : string := "/nix/store/".
Definition store_source (s : string) : bool :=
  let name := str_drop 11 s in
  startswith STORE s
  && bool_decide (String.length (String.substring 0 32 name) = 32%nat)
  && str_all (λ c, is_digit c || is_lower c) (String.substring 0 32 name)
  && startswith "-" (str_drop 32 name)
  && bool_decide (str_drop 33 name ≠ "")
  && str_all (λ c, is_alnum c || chr_of "._+-" c) (str_drop 33 name).

Definition paired_sources (lock inputs : value) : res dict :=
  _ ← paired_lock lock;
  forM (λ results pin,
    let '(name, (revision, nar_hash)) := (pin : string * (string * string)) in
    supplied ← getitem inputs name;
    wrong ← (rev ← get supplied "revision"; Ok (negb (py_eq rev (VStr revision))))
            ||? (hash ← get supplied "narHash"; Ok (negb (py_eq hash (VStr nar_hash))))
            ||? (schema ← get supplied "schemaVersion"; Ok (negb (py_eq schema (VInt 1))));
    _ ← raise_if wrong (ValueError "paired-source-binding-invalid");
    source ← get_or supplied "source" (VStr "");
    path ← match source with
           | VStr s => if store_source s then Ok s else Err (ValueError "paired-source-path-invalid")
           | _ => Err (ValueError "paired-source-path-invalid")
           end;
    Ok (dset name (VDict [("source", VStr path); ("narHash", VStr nar_hash); ("verification", VStr "pending-byte-hash")]) results)) PINS [].

(** ** home_manager_acquired_inputs.py *)
Definition NAMES : list string := ["home-manager"; "nixpkgs"].
Definition REPOSITORIES : list (string * (string * string)) :=
  [("home-manager", ("nix-community", "home-manager")); ("nixpkgs", ("NixOS", "nixpkgs"))].
Definition MAX_LOCK_BYTES : Z := 65536.
Definition MAX_RECEIPT_BYTES : Z := 65536.
Definition MAX_INVENTORY_BYTES : Z := 64 * 1024 * 1024.
Definition MAX_NODES : Z := 200000.
Definition MAX_FILE_BYTES : Z := 512 * 1024 * 1024.
Definition MAX_TREE_BYTES : Z := 2 * 1024 * 1024 * 1024.
Definition MAX_NAR_BYTES : Z := 2 * 1024 * 1024 * 1024.

Definition require (condition : bool) (reason : string) : res unit := ensure condition (ValueError reason).
Definition requireM (condition : res bool) (reason : string) : res unit := c ← condition; require c reason.

Definition unique_object (pairs : list (string * value)) : res value :=
  VDict <$> forM (λ result kv,
    _ ← require (negb (bool_decide (kv.1 ∈ dkeys result))) "acquired-duplicate-json-key";
    Ok (dset kv.1 kv.2 result)) pairs [].

Definition fields (v : value) (expected : list string) : res unit :=
  require (match v with VDict d => keys_are expected d | _ => false end) "acquired-metadata-fields".

Definition sha (payload : bytes) : string := hexdigest payload.
(** [v[k]] satisfies [p] *)
Definition test (v : value) (k : string) (p : value → bool) : res bool := x ← getitem v k; Ok (p x).
Definition is_text (s : string) (v : value) : bool := py_eq v (VStr s).
Definition is_one (v : value) : bool := match v with VInt z => bool_decide (z = 1) | _ => false end.
Definition positive_upto (maximum : Z) (v : value) : bool := match v with VInt z => bool_decide (0 < z <= maximum) | _ => false end.

(** ** home_manager_artifact.py: the receipt *)
Definition ARTIFACT_MAX_BYTES : Z := 256 * 1024 * 1024.
Definition NATIVE_BINS : list string := ["bin/omux"; "bin/omuxd"; "bin/omux-native-host"; "bin/omux-control"].
Definition FIELDS : list string := ["schemaVersion"; "kind"; "archiveSha256"; "archiveBytes"; "manifestSha256";
  "narHash"; "narSize"; "system"; "channel"; "sourceRevision"; "sourceDirty"; "fullQt"; "nativeBins"; "sourceQualification"].
Definition is_hex (n : nat) (s : string) : bool := bool_decide (String.length s = n) && str_all is_lower_hex s.
Definition on_str (p : string → bool) (v : value) : bool := match v with VStr s => p s | _ => false end.
(** [sha256-[A-Za-z0-9+/]{43}=] *)
Definition nar_sri (s : string) : bool :=
  startswith "sha256-" s && bool_decide (String.length s = 51%nat)
  && str_all (λ c, is_alnum c || chr_of "+/" c) (String.substring 7 43 s) && bool_decide (str_drop 50 s = "=").

Section Metadata.
Context (loads : (list (string * value) → res value) → bytes → res value).

Definition decode (payload : bytes) (maximum : Z) : res value :=
  _ ← require (bool_decide (0 < zlen payload <= maximum)) "acquired-metadata-byte-bound";
  loads unique_object payload.

Definition validate_receipt (receipt_bytes : bytes) (frozen_sha : string) : res value :=
  _ ← require (is_sha256_hex frozen_sha && bool_decide (sha receipt_bytes = frozen_sha)) "artifact-frozen-receipt-binding";
  receipt ← decode receipt_bytes 65536;
  _ ← requireM (Ok (match receipt with VDict d => keys_are FIELDS d | _ => false end)
                &&? test receipt "schemaVersion" is_one
                &&? test receipt "kind" (is_text "omux-home-manager-development-artifact")
                &&? test receipt "system" (is_text "x86_64-linux") &&? test receipt "channel" (is_text "development")
                &&? test receipt "sourceDirty" is_True &&? test receipt "fullQt" is_True
                &&? test receipt "nativeBins" (λ v, py_eq v (VList (VStr <$> NATIVE_BINS)))
                &&? test receipt "sourceQualification" (is_text "caller-declared-dirty-development")) "artifact-receipt-schema";
  _ ← forM (λ (_ : unit) field, requireM (test receipt field (on_str is_sha256_hex)) "artifact-receipt-digest") ["archiveSha256"; "manifestSha256"] tt;
  _ ← requireM (test receipt "sourceRevision" (on_str (is_hex 40))) "artifact-receipt-revision";
  _ ← forM (λ (_ : unit) fm, requireM (test receipt fm.1 (positive_upto fm.2)) "artifact-receipt-byte-bound")
        [("archiveBytes", ARTIFACT_MAX_BYTES); ("narSize", ARTIFACT_MAX_BYTES + 4 * 1024 * 1024)] tt;
  _ ← requireM (test receipt "narHash" (on_str nar_sri)) "artifact-receipt-nar-hash";
  Ok receipt.

(** ** home_manager_bundle.py: declared trees *)
Definition relative (path : string) (root : bool) : res (list string) :=
  _ ← require ((root || bool_decide (path ≠ "")) && bool_decide (zlen (fsencode path) <= 4096)) "bundle-relative-name";
  let parts := if bool_decide (path = "") then [] else str_split "/" path in
  _ ← require (bool_decide (zlen parts <= 64) && forallb (λ p, negb (bool_decide (p ∈ [""; "."; ".."]))) parts
               && negb (str_mem Ascii.zero path || str_mem "010" path || str_mem "013" path || str_mem "\" path)) "bundle-relative-name";
  Ok parts.

(** One component of a link target: the directory it leads to *)
Definition link_step (stack : list string) (part : string) : res (list string) :=
  if bool_decide (part ∈ [""; "."]) then Ok stack else
  if bool_decide (part = "..") then
    _ ← require (bool_decide (stack ≠ [])) "bundle-link-escape"; Ok (take (length stack - 1) stack)
  else Ok (stack ++ [part]).

(** The nodes as validation reads them: [NarDescriptor.kind] has the fields of
    the node's type. *)
Definition check_node (total : Z) (node : string * NarDescriptor.kind) : res Z :=
  let '(path, k) := node in
  parts ← relative path true;
  match k with
  | NarDescriptor.Regular size _ =>
      let total := total + size in
      _ ← require (bool_decide (size <= MAX_FILE_BYTES) && bool_decide (total <= MAX_TREE_BYTES)) "bundle-file-byte-bound";
      Ok total
  | NarDescriptor.Symlink target =>
      _ ← require (bool_decide (target ≠ "") && negb (startswith "/" target) && bool_decide (zlen (fsencode target) <= 4096)
                   && negb (str_mem Ascii.zero target || str_mem "010" target || str_mem "013" target || str_mem "\" target))
            "bundle-link-escape";
      _ ← forM link_step (str_split "/" target) (take (length parts - 1) parts);
      Ok total
  | NarDescriptor.Directory => Ok total
  end.

Record descriptor := Descriptor { root : string; nodes : list (string * NarDescriptor.kind) }.

Definition checked_nodes (v : value) (root : string) : res descriptor :=
  _ ← require (match v with VList l => bool_decide (1 <= zlen l <= MAX_NODES) | _ => false end) "bundle-node-bound";
  '(by_path, _) ← NarDescriptor.validate_descriptor (VDict [("schemaVersion", VInt 1); ("root", VStr root); ("nodes", v)]);
  _ ← require (match dget "" by_path with Some NarDescriptor.Directory => true | _ => false end) "bundle-directory-root";
  _ ← forM check_node by_path 0;
  Ok (Descriptor root by_path).

Definition source_url (owner repo : string) (rev : string) : string :=
  "https://github.com/" +:+ owner +:+ "/" +:+ repo +:+ "/archive/" +:+ rev +:+ ".tar.gz".

(** [f"{pin['rev']}"]: the pinned revision, which [paired_lock] has compared *)
Definition pin_of (pins : dict) (name : string) (k : string) : res value := pin ← getitem (VDict pins) name; getitem pin k.
Definition text_of (v : value) : res string := match v with VStr s => Ok s | _ => Err TypeError end.

Definition source_row (pins : dict) (row : value) (name : string) : res unit :=
  _ ← fields row ["revision"; "narHash"; "narSize"; "url"];
  owner_repo ← (match dget name REPOSITORIES with Some p => Ok p | None => Err KeyError end);
  rev ← pin_of pins name "rev"; hash ← pin_of pins name "narHash";
  rev_text ← text_of rev;
  requireM (test row "revision" (λ v, py_eq v rev) &&? test row "narHash" (λ v, py_eq v hash)
            &&? test row "narSize" (positive_upto MAX_NAR_BYTES)
            &&? test row "url" (is_text (source_url owner_repo.1 owner_repo.2 rev_text))) "bundle-source-pin".

Definition pair_metadata (pair_sha : string) (lock receipt_bytes inventory_bytes : bytes) : res (value * list (string * descriptor)) :=
  _ ← require (bool_decide (sha receipt_bytes = pair_sha)) "bundle-pair-receipt";
  receipt ← decode receipt_bytes MAX_RECEIPT_BYTES;
  inventory ← decode inventory_bytes MAX_INVENTORY_BYTES;
  _ ← fields receipt ["schemaVersion"; "kind"; "lockSha256"; "inventorySha256"; "sources"];
  _ ← requireM (test receipt "schemaVersion" is_one &&? test receipt "kind" (is_text "omux-home-manager-acquired-pair")
                &&? test receipt "lockSha256" (is_text (sha lock)) &&? test receipt "inventorySha256" (is_text (sha inventory_bytes)))
        "bundle-pair-binding";
  _ ← fields inventory ["schemaVersion"; "sources"];
  _ ← requireM (test inventory "schemaVersion" is_one) "bundle-inventory-schema";
  receipt_sources ← getitem receipt "sources";
  inventory_sources ← getitem inventory "sources";
  _ ← fields receipt_sources NAMES;
  _ ← fields inventory_sources NAMES;
  locked ← decode lock MAX_LOCK_BYTES;
  pins ← paired_lock locked;
  descriptors ← forM (λ descriptors name,
    row ← getitem receipt_sources name;
    _ ← source_row pins row name;
    item ← getitem inventory_sources name;
    _ ← fields item ["nodes"];
    vnodes ← getitem item "nodes";
    d ← checked_nodes vnodes ("/declared/" +:+ name);
    Ok (dset name d descriptors)) NAMES [];
  Ok (receipt, descriptors).
End Metadata.

Definition PAIR_SHA : string := "9e9c04f6768b4ba7ac4023f54c5ae98c5a585da1642a3fca9c0c153d8a1c30eb".
Definition ARTIFACT_SHA : string := "aa9c9f0c5808da597294b04d59f1e7111567145e1c3f2790fff07c5e670e2ae8".
(** ** What an accepted tree satisfies *)

(** A link target whose components never climb above the tree, read from a
    directory at the given depth *)
Definition climbs (parts : list string) : nat := length (filter (λ p, p = "..") parts).
Definition descends (parts : list string) : nat := length (filter (λ p, p ∉ [""; "."; ".."]) parts).
Definition stays (depth : nat) (parts : list string) : Prop :=
  ∀ n, (climbs (take n parts) <= depth + descends (take n parts))%nat.

Record tree_ok (d : descriptor) : Prop := {
  t_nodup : NoDup (dkeys (nodes d));
  t_count : 1 <= zlen (nodes d) <= MAX_NODES;
  t_root : ("", NarDescriptor.Directory) ∈ nodes d;
  t_names : ∀ p, p ∈ dkeys (nodes d) → relative p true = Ok (NarDescriptor.parts_of p);
  t_parents : ∀ p parent n, p ∈ dkeys (nodes d) → NarDescriptor.parts_of p = parent ++ [n] →
    (NarDescriptor.join parent, NarDescriptor.Directory) ∈ nodes d;
  t_sizes : ∀ p k, (p, k) ∈ nodes d → 0 <= NarDescriptor.size_of k <= MAX_FILE_BYTES;
  t_total : NarDescriptor.total_size (nodes d) <= MAX_TREE_BYTES;
  t_links : ∀ p target, (p, NarDescriptor.Symlink target) ∈ nodes d →
    target ≠ "" ∧ startswith "/" target = false ∧ stays (length (NarDescriptor.parts_of p) - 1) (str_split "/" target);
}.

Lemma link_steps_stay parts : ∀ stack stack', forM link_step parts stack = Ok stack' → stays (length stack) parts.
Proof.
  induction parts as [|p parts IH]; intros stack stack' H n; cbn [forM] in H.
  { rewrite take_nil. cbn. lia. }
  apply bind_Ok in H as (s1 & Hp & H). specialize (IH _ _ H). destruct n as [|n]; [cbn; lia|]. specialize (IH n).
  unfold climbs, descends in *. cbn [take]. rewrite !filter_cons. unfold link_step in Hp.
  case_bool_decide as E1.
  { injection Hp as <-. rewrite decide_False by set_solver. rewrite decide_False by set_solver. done. }
  case_bool_decide as E2.
  - apply bind_Ok in Hp as (u & Hu%ensure_Ok%bool_decide_eq_true & [= <-]). rewrite length_take in IH.
    rewrite decide_True by done. rewrite decide_False by set_solver. cbn. destruct stack; [done|]. cbn in *. lia.
  - injection Hp as <-. rewrite length_app in IH. rewrite decide_False by done. rewrite decide_True by set_solver. cbn in *. lia.
Qed.

Lemma relative_Ok path parts : relative path true = Ok parts → parts = NarDescriptor.parts_of path.
Proof. unfold relative. intros H. ok_inv. done. Qed.

Lemma check_node_Ok total path k total' : check_node total (path, k) = Ok total' →
  relative path true = Ok (NarDescriptor.parts_of path) ∧ total' = total + NarDescriptor.size_of k
  ∧ match k with
    | NarDescriptor.Regular size _ => size <= MAX_FILE_BYTES ∧ total' <= MAX_TREE_BYTES
    | NarDescriptor.Symlink target => target ≠ "" ∧ startswith "/" target = false ∧ stays (length (NarDescriptor.parts_of path) - 1) (str_split "/" target)
    | NarDescriptor.Directory => True
    end.
Proof.
  unfold check_node. intros (parts & Hr & H)%bind_Ok. rewrite Hr. rewrite (relative_Ok _ _ Hr) in *. clear Hr.
  destruct k as [size x|target|]; cbn.
  - apply bind_Ok in H as (u & Hu & [= <-]). unfold require in Hu. ok_inv. split_and!; auto.
  - apply bind_Ok in H as (u & Hu & H). apply bind_Ok in H as (st & Hst & [= <-]). unfold require in Hu. ok_inv.
    apply link_steps_stay in Hst. rewrite length_take in Hst.
    replace (_ `min` _)%nat with (length (NarDescriptor.parts_of path) - 1)%nat in Hst by lia.
    split_and!; [done|lia|done|done|done].
  - injection H as <-. split_and!; [done|lia|done].
Qed.

Lemma check_nodes_Ok l : ∀ total total', Forall (λ b, 0 <= NarDescriptor.size_of b.2) l → total <= MAX_TREE_BYTES →
  forM check_node l total = Ok total' → total' = total + NarDescriptor.total_size l ∧ total' <= MAX_TREE_BYTES
  ∧ ∀ p k, (p, k) ∈ l → ∃ t t', check_node t (p, k) = Ok t'.
Proof.
  induction l as [|[p k] l IH]; intros total total' Hpos Ht; cbn [forM].
  { intros [= <-]. cbn. split_and!; [lia|done|]. by intros ?? ?%elem_of_nil. }
  inversion Hpos as [|? ? Hp Hpos']; subst. intros (t1 & H1 & H)%bind_Ok.
  destruct (check_node_Ok _ _ _ _ H1) as (_ & Hsz & Hk). cbn in Hp.
  assert (t1 <= MAX_TREE_BYTES) as Ht1 by (destruct k; cbn in *; lia).
  destruct (IH _ _ Hpos' Ht1 H) as (-> & Hle & Hin). split_and!; [|done|].
  - unfold NarDescriptor.total_size. cbn. fold (NarDescriptor.total_size l). unfold NarDescriptor.total_size in *. cbn in *. lia.
  - intros p' k' [[= -> ->]|?]%elem_of_cons; eauto.
Qed.

Lemma checked_nodes_sound v root d : checked_nodes v root = Ok d → tree_ok d ∧ HmPair.root d = root.
Proof.
  unfold checked_nodes. intros H. apply bind_Ok in H as (u & Hlen & H). apply bind_Ok in H as ([bp ch] & Hv & H).
  apply bind_Ok in H as (u' & Hroot & H). apply bind_Ok in H as (t & Hn & [= <-]). cbn.
  unfold require in *. apply ensure_Ok in Hlen, Hroot. destruct v as [| | | | |l|]; try done. apply bool_decide_eq_true in Hlen.
  destruct (NarDescriptor.validate_descriptor_inv _ _ _ Hv) as (Hwf & Hpos & _ & (dd & rt & ns & st & [= <-] & _ & [= <-] & Hloop & -> & ->)).
  destruct (NarDescriptor.vinv_loop _ _ Hloop) as [_ Hnl].
  destruct (check_nodes_Ok _ 0 t Hpos ltac:(done) Hn) as (Ht & Hle & Hin). split; [|done].
  assert (∀ p k, dget p (NarDescriptor.by_path st) = Some k → (p, k) ∈ NarDescriptor.by_path st) as Hget by (intros; by apply dget_Some_elem).
  split; cbn [nodes].
  - apply Hwf.
  - unfold zlen in *. lia.
  - apply Hget. destruct (dget "" _) as [[]|]; done.
  - intros p ([p' k] & -> & Hp)%list_elem_of_fmap. destruct (Hin _ _ Hp) as (t1 & t2 & Hc). by apply (check_node_Ok _ _ _ _ Hc).
  - intros p parent n Hp Hs. apply Hget. by apply (NarDescriptor.wf_parents _ _ Hwf p parent n).
  - intros p k Hp. rewrite Forall_forall in Hpos. pose proof (Hpos _ Hp). destruct (Hin _ _ Hp) as (t1 & t2 & Hc).
    destruct (check_node_Ok _ _ _ _ Hc) as (_ & _ & Hk). cbn in *. destruct k; cbn in *; unfold MAX_FILE_BYTES in *; lia.
  - lia.
  - intros p target Hp. destruct (Hin _ _ Hp) as (t1 & t2 & Hc). by apply (check_node_Ok _ _ _ _ Hc).
Qed.

(** ** What an accepted pair is bound to *)
Definition pinned (locked : value) (rev hash : string) : Prop :=
  get locked "rev" = Ok (VStr rev) ∧ get locked "narHash" = Ok (VStr hash).

Lemma paired_lock_pins lock selected : paired_lock lock = Ok selected →
  ∀ name rev hash, (name, (rev, hash)) ∈ PINS → ∃ locked, dget name selected = Some locked ∧ pinned locked rev hash.
Proof.
  unfold paired_lock. intros H. skip_steps 9 in H. unfold PINS in H. cbn [forM] in H.
  apply bind_Ok in H as (s1 & H1 & H). apply bind_Ok in H as (s2 & H2 & [= <-]).
  skip_steps 2 in H1. apply bind_Ok in H1 as (l1 & _ & H1). apply bind_Ok in H1 as (w1 & Hw1 & H1).
  skip_steps 2 in H2. apply bind_Ok in H2 as (l2 & _ & H2). apply bind_Ok in H2 as (w2 & Hw2 & H2).
  apply bind_Ok in H1 as (u1 & ->%raise_if_Ok & [= <-]). apply bind_Ok in H2 as (u2 & ->%raise_if_Ok & [= <-]).
  apply orM_false in Hw1 as [(r1 & Hr1 & [= Er1])%bind_Ok (h1 & Hh1 & [= Eh1])%bind_Ok].
  apply orM_false in Hw2 as [(r2 & Hr2 & [= Er2])%bind_Ok (h2 & Hh2 & [= Eh2])%bind_Ok].
  apply negb_false_iff, py_eq_str in Er1, Eh1, Er2, Eh2. subst.
  intros name rev hash. unfold PINS. rewrite !elem_of_cons, elem_of_nil.
  intros [[= -> -> ->]|[[= -> -> ->]|[]]]; [exists l1|exists l2]; done.
Qed.

(** The sources handed on: the pinned hashes, at paths of the store. *)
Lemma paired_sources_pinned lock inputs results : paired_sources lock inputs = Ok results →
  ∀ name rev hash, (name, (rev, hash)) ∈ PINS → ∃ source, store_source source = true
    ∧ dget name results = Some (VDict [("source", VStr source); ("narHash", VStr hash); ("verification", VStr "pending-byte-hash")]).
Proof.
  assert (∀ s name rev hash s', (supplied ← getitem inputs name;
    wrong ← (r ← get supplied "revision"; Ok (negb (py_eq r (VStr rev)))) ||? (h ← get supplied "narHash"; Ok (negb (py_eq h (VStr hash))))
            ||? (schema ← get supplied "schemaVersion"; Ok (negb (py_eq schema (VInt 1))));
    _ ← raise_if wrong (ValueError "paired-source-binding-invalid");
    source ← get_or supplied "source" (VStr "");
    path ← match source with
           | VStr t => if store_source t then Ok t else Err (ValueError "paired-source-path-invalid")
           | _ => Err (ValueError "paired-source-path-invalid")
           end;
    Ok (dset name (VDict [("source", VStr path); ("narHash", VStr hash); ("verification", VStr "pending-byte-hash")]) s)) = Ok s' →
    ∃ source, store_source source = true
      ∧ s' = dset name (VDict [("source", VStr source); ("narHash", VStr hash); ("verification", VStr "pending-byte-hash")]) s) as Hstep.
  { intros s name rev hash s' Hs. skip_steps 3 in Hs. apply bind_Ok in Hs as (v & _ & (t & Ht & [= <-])%bind_Ok).
    destruct v as [| | | |t'| |]; try done. destruct (store_source t') eqn:E; [|done]. injection Ht as <-. by exists t'. }
  unfold paired_sources. intros (u & _ & Hf)%bind_Ok. unfold PINS in Hf. cbn [forM] in Hf. apply bind_Ok in Hf as (s1 & H1%Hstep & (s2 & H2%Hstep & [= <-])%bind_Ok).
  destruct H1 as (p1 & Hp1 & ->), H2 as (p2 & Hp2 & ->). intros name rev hash. unfold PINS. rewrite !elem_of_cons, elem_of_nil.
  intros [[= -> -> ->]|[[= -> -> ->]|[]]]; [exists p1|exists p2]; done.
Qed.

Lemma test_str v k s : test v k (is_text s) = Ok true → getitem v k = Ok (VStr s).
Proof. unfold test, is_text. intros (x & Hx & [= E])%bind_Ok. apply py_eq_str in E as ->. done. Qed.

Lemma fields_Ok v names u : fields v names = Ok u → ∃ d, v = VDict d ∧ ∀ k, k ∈ dkeys d ↔ k ∈ names.
Proof. unfold fields, require. intros H%ensure_Ok. destruct v as [| | | | | |d]; try done. exists d. by rewrite <-keys_are_spec. Qed.

(** A row of the receipt names exactly the pinned source. *)
Definition row_bound (row : value) (name : string) : Prop :=
  ∃ rev hash owner repo size,
    (name, (rev, hash)) ∈ PINS ∧ (name, (owner, repo)) ∈ REPOSITORIES
    ∧ getitem row "revision" = Ok (VStr rev) ∧ getitem row "narHash" = Ok (VStr hash)
    ∧ getitem row "url" = Ok (VStr (source_url owner repo rev))
    ∧ getitem row "narSize" = Ok (VInt size) ∧ 0 < size <= MAX_NAR_BYTES.

Lemma test_eq v k w : test v k (λ x, py_eq x w) = Ok true → ∃ x, getitem v k = Ok x ∧ py_eq x w = true.
Proof. unfold test. intros (x & Hx & [= E])%bind_Ok. by exists x. Qed.

Lemma source_row_bound lock pins row name u : paired_lock lock = Ok pins → name ∈ NAMES → source_row pins row name = Ok u → row_bound row name.
Proof.
  intros Hp Hn H. unfold source_row in H. apply bind_Ok in H as (? & _ & H).
  apply bind_Ok in H as ([owner repo] & Ho & H). apply bind_Ok in H as (rev & Hrev & H).
  apply bind_Ok in H as (hash & Hhash & H). apply bind_Ok in H as (rt & Ht & H).
  assert (∃ r h, (name, (r, h)) ∈ PINS) as (r & h & Hin).
  { unfold NAMES in Hn. rewrite !elem_of_cons, elem_of_nil in Hn. destruct Hn as [->|[->|[]]]; eexists _, _; [left|right; left]. }
  destruct (paired_lock_pins _ _ Hp _ _ _ Hin) as (locked & Hl & [Hr Hh]).
  unfold pin_of in Hrev, Hhash. cbn [getitem] in Hrev, Hhash. rewrite Hl in Hrev, Hhash. cbn in Hrev, Hhash.
  assert (rev = VStr r) as ->.
  { destruct locked; try done. cbn in *. destruct (dget "rev" d); [|done]. cbn in Hr. congruence. }
  assert (hash = VStr h) as ->.
  { destruct locked; try done. cbn in *. destruct (dget "narHash" d); [|done]. cbn in Hh. congruence. }
  cbn in Ht. injection Ht as <-. unfold requireM, require in H. apply bind_Ok in H as (c & Hc & ->%ensure_Ok).
  ok_inv. repeat match goal with H : test _ _ (λ x, py_eq x _) = Ok true |- _ => apply test_eq in H as (? & ? & ->%py_eq_str) end.
  match goal with H : test _ "url" _ = _ |- _ => apply test_str in H end.
  match goal with H : test _ "narSize" _ = _ |- _ => unfold test in H; apply bind_Ok in H as (sz & Hsz & [= Hb]) end.
  destruct sz as [| |size| | | |]; try done. apply bool_decide_eq_true in Hb.
  exists r, h, owner, repo, size. split_and!; try done; try lia.
  destruct (dget name REPOSITORIES) as [[]|] eqn:E; [|done]. injection Ho as -> ->. by apply dget_Some_elem.
Qed.

Section Bound.
Context (loads : (list (string * value) → res value) → bytes → res value).

Record pair_ok (pair_sha : string) (lock receipt_bytes inventory_bytes : bytes) (receipt : value) (ds : list (string * descriptor)) : Prop := {
  p_receipt : sha receipt_bytes = pair_sha ∧ loads unique_object receipt_bytes = Ok receipt;
  p_lock : getitem receipt "lockSha256" = Ok (VStr (sha lock));
  p_inventory : getitem receipt "inventorySha256" = Ok (VStr (sha inventory_bytes));
  p_lengths : 0 < zlen receipt_bytes <= MAX_RECEIPT_BYTES ∧ 0 < zlen inventory_bytes <= MAX_INVENTORY_BYTES ∧ 0 < zlen lock <= MAX_LOCK_BYTES;
  p_rows : ∃ sources, getitem receipt "sources" = Ok sources ∧ ∀ name, name ∈ NAMES → ∃ row, getitem sources name = Ok row ∧ row_bound row name;
  p_names : dkeys ds = NAMES;
  p_trees : ∀ name d, (name, d) ∈ ds → tree_ok d;
}.

Lemma decode_Ok payload maximum v : decode loads payload maximum = Ok v → loads unique_object payload = Ok v ∧ 0 < zlen payload <= maximum.
Proof. unfold decode, require. intros (u & Hu%ensure_Ok%bool_decide_eq_true & H)%bind_Ok. done. Qed.

Lemma pair_metadata_sound pair_sha lock rb ib receipt ds :
  pair_metadata loads pair_sha lock rb ib = Ok (receipt, ds) → pair_ok pair_sha lock rb ib receipt ds.
Proof.
  unfold pair_metadata. intros H. apply bind_Ok in H as (? & Hsha%ensure_Ok%bool_decide_eq_true & H).
  apply bind_Ok in H as (rc & [Hrc Hrl]%decode_Ok & H). apply bind_Ok in H as (inv & [Hinv Hil]%decode_Ok & H).
  apply bind_Ok in H as (? & _ & H). apply bind_Ok in H as (? & Hb & H).
  unfold requireM at 1 in Hb. apply bind_Ok in Hb as (c & Hc & ->%ensure_Ok). skip_steps 2 in H.
  apply bind_Ok in H as (rs & Hrs & H). apply bind_Ok in H as (is_ & His & H). skip_steps 2 in H.
  apply bind_Ok in H as (locked & [_ Hll]%decode_Ok & H). apply bind_Ok in H as (pins & Hpins & H).
  apply bind_Ok in H as (ds' & Hds & [= <- <-]).
  assert (dkeys ds' = NAMES ∧ (∀ name, name ∈ NAMES → ∃ row, getitem rs name = Ok row ∧ row_bound row name)
          ∧ ∀ name d, (name, d) ∈ ds' → tree_ok d) as (Hk & Hrows & Htrees).
  { assert (∀ s name s', name ∈ NAMES → (row ← getitem rs name; _ ← source_row pins row name; item ← getitem is_ name; _ ← fields item ["nodes"];
      vnodes ← getitem item "nodes"; d ← checked_nodes vnodes ("/declared/" +:+ name); Ok (dset name d s)) = Ok s' →
      ∃ d row, s' = dset name d s ∧ tree_ok d ∧ getitem rs name = Ok row ∧ row_bound row name) as Hstep.
    { intros s name s' Hn (row & Hrow & (u & Hr & (item & _ & (u' & _ & (vn & _ & (d & [Hd _]%checked_nodes_sound & [= <-])%bind_Ok)%bind_Ok)%bind_Ok)%bind_Ok)%bind_Ok)%bind_Ok.
      exists d, row. split_and!; [done..|]. by eapply source_row_bound. }
    unfold NAMES at 1 in Hds. cbn [forM] in Hds. apply bind_Ok in Hds as (s1 & H1 & (s2 & H2 & [= <-])%bind_Ok).
    apply Hstep in H1 as (d1 & r1 & -> & Hd1 & Hr1 & Hb1); [|unfold NAMES; set_solver].
    apply Hstep in H2 as (d2 & r2 & -> & Hd2 & Hr2 & Hb2); [|unfold NAMES; set_solver].
    split_and!; [done| |].
    - intros name. unfold NAMES. rewrite !elem_of_cons, elem_of_nil. intros [ ->|[ ->|[]]]; eauto.
    - intros name d [[= -> ->]|[[= -> ->]|[]%elem_of_nil]%elem_of_dset]%elem_of_dset; done. }
  ok_inv. split; try done; [by apply test_str|by apply test_str|]. exists rs. done.
Qed.
End Bound.
End HmPair.
