(* ===== verification/HmBundle.v ===== *)
(** * nix/home_manager_bundle.py: the framed bundle and its private tree

    [pack] frames three metadata files, the nodes of the artifact and the bytes
    of every regular file; [materialize] reads such a framing from a stream and
    builds the private tree.  A stream is a type with the interface
    [Stream]: reads that may be short, the checks that may raise, and writes
    that may be partial.  [StreamLaws] is what [materialize] relies on, proved
    of an opened bundle here and of the framing of retained files in [HmStream].  The tree is a map from paths below the worker directory;
    a directory without its owner's write bit refuses new entries, so the order
    in which modes are set matters. *)
From S2P Require Import Prelude PyBytes PyString PyValue PyText NarDescriptor FileSync HmPair.
From Stdlib Require Import Ascii.
Import HmPair.
Local Open Scope Z_scope.

Module HmBundle.

Definition MAGIC : bytes := fsencode ("OMUX-HM-BUNDLE-1" +:+ LF).
Definition DISK_BUDGET : Z := 8 * 1024 * 1024 * 1024.
Definition MAX_BUNDLE : Z := DISK_BUDGET.
Definition ARTIFACT_MAX_NODES : Z := 2048.
Definition MAX_FILES : Z := 256.

(** ** Streams *)

(** The fields of a stat the budget reads *)
Record info := Info { i_dev : Z; i_ino : Z; i_blocks : Z }.

(** What the code calls besides reading and writing: the deadline with the live
    directory and the free space ([tick]), the stream's own check, entering,
    checking and leaving a held directory, waiting for or looking at a flush,
    and any other system call.  Each may raise. *)
Inductive sys := Tick | Check | Anchor | Flush | Syscall.

Class Stream (S : Type) := {
  read : S → Z → res (bytes * S);
  call : sys → S → res S;
  os_write : S → Z → res (Z * S);       (** how many of the offered bytes are written *)
  os_stat : S → list string → res (info * S);
}.

Class StreamLaws (S : Type) `{Stream S} := {
  rest : S → bytes;
  read_rest : ∀ s n d s', 0 < n <= 65536 → read s n = Ok (d, s') → rest s = d ++ rest s' ∧ zlen d <= n ∧ (d = [] → rest s = []);
  call_rest : ∀ c s s', call c s = Ok s' → rest s' = rest s;
  write_rest : ∀ s n k s', os_write s n = Ok (k, s') → rest s' = rest s ∧ k <= n;
  stat_rest : ∀ s q i s', os_stat s q = Ok (i, s') → rest s' = rest s;
  read_raises : ∀ s n, 0 < n <= 65536 → read s n ≠ Err NoFuel;
  call_raises : ∀ c s, call c s ≠ Err NoFuel;
  write_raises : ∀ s n, os_write s n ≠ Err NoFuel;
  stat_raises : ∀ s q, os_stat s q ≠ Err NoFuel;
}.

(** [exact]; each turn reads a byte at least, so [count] turns are enough. *)
Fixpoint exact_loop {S} `{Stream S} (fuel : nat) (s : S) (remaining : Z) (parts : bytes) : res (bytes * S) :=
  if bool_decide (remaining = 0) then Ok (parts, s) else
  match fuel with
  | O => Err NoFuel
  | Datatypes.S fuel =>
      s ← call Check s;
      '(part, s) ← read s (Z.min 65536 remaining);
      _ ← require (bool_decide (part ≠ [])) "bundle-truncated";
      exact_loop fuel s (remaining - zlen part) (parts ++ part)
  end.
Definition exact {S} `{Stream S} (s : S) (count : Z) : res (bytes * S) := exact_loop (Z.to_nat count) s count [].

(** ** The order of the files *)
Definition name_le (a b : string * NarDescriptor.kind) : Prop := String.le a.1 b.1.
#[export] Instance name_le_dec a b : Decision (name_le a b).
Proof. unfold name_le. apply _. Defined.

Definition slashes (s : string) : nat := (length (str_split "/" s) - 1)%nat.
(** [key=lambda n: (n["path"].count("/"), os.fsencode(n["path"]))] *)
Definition depth_le (a b : string * NarDescriptor.kind) : Prop :=
  (slashes a.1 < slashes b.1)%nat ∨ (slashes a.1 = slashes b.1 ∧ String.le a.1 b.1).
#[export] Instance depth_le_dec a b : Decision (depth_le a b).
Proof. unfold depth_le. apply _. Defined.

Definition is_directory (k : NarDescriptor.kind) : bool := match k with NarDescriptor.Directory => true | _ => false end.

Definition regular_of (name : string) (node : string * NarDescriptor.kind) : option (string * string * Z * bool) :=
  match node.2 with NarDescriptor.Regular size executable => Some (name, node.1, size, executable) | _ => None end.

Definition ROOTS : list string := NAMES ++ ["artifact"].
(** The regular files, as (tree, path, size, executable); every tree of [ROOTS]
    is present where the code asks for them. *)
Definition entries (descriptors : list (string * descriptor)) : list (string * string * Z * bool) :=
  name ← ROOTS;
  match dget name descriptors with
  | Some d => omap (regular_of name) (merge_sort name_le (nodes d))
  | None => []
  end.

(** ** Framing *)
Definition frame (payload : bytes) : bytes := encode LE 8 (zlen payload) ++ payload.

(** ** The budget of a reconstruction *)
Record budget := Budget { b_logical : Z; b_blocks : gmap (Z * Z) Z; b_allocated : Z }.

Definition new_budget (logical : Z) : res budget :=
  _ ← require (bool_decide (0 <= logical <= DISK_BUDGET)) "reconstruction-joint-disk-budget";
  Ok (Budget logical ∅ 0).

Definition record (b : budget) (i : info) : res budget :=
  let key := (i_dev i, i_ino i) in
  _ ← require (bool_decide (is_Some (b_blocks b !! key)) || bool_decide (Z.of_nat (size (b_blocks b)) < 3 * MAX_NODES + 1024))
        "reconstruction-account-bound";
  let current := i_blocks i * 512 in
  let previous := default 0 (b_blocks b !! key) in
  let allocated := b_allocated b + Z.max 0 (current - previous) in
  let b := Budget (b_logical b) (<[key := Z.max current previous]> (b_blocks b)) allocated in
  _ ← require (bool_decide (Z.max (b_logical b) allocated <= DISK_BUDGET)) "reconstruction-joint-disk-budget";
  Ok b.

(** ** The private tree *)
Inductive obj := ODir (mode : Z) | OFile (data : bytes) (mode : Z) | OLink (target : string).
Definition path := list string.
Abbreviation tree := (gmap path obj).

Definition dir_at (t : tree) (p : path) : res Z :=
  match t !! p with Some (ODir m) => Ok m | Some _ => Err OSError | None => Err FileNotFoundError end.

(** A new entry: its parent is a directory its owner may write, and the name is free. *)
Definition add_entry (t : tree) (parent : path) (leaf : string) (o : obj) : res tree :=
  m ← dir_at t parent;
  _ ← raise_if (bool_decide (Z.land m 128 = 0)) OSError;
  _ ← raise_if (bool_decide (is_Some (t !! (parent ++ [leaf])))) OSError;
  Ok (<[parent ++ [leaf] := o]> t).

Definition fchmod (t : tree) (p : path) (mode : Z) : res tree :=
  match t !! p with
  | Some (ODir _) => Ok (<[p := ODir mode]> t)
  | Some (OFile d _) => Ok (<[p := OFile d mode]> t)
  | _ => Err OSError
  end.

(** [parent_fd]: every directory on the way is opened without following links. *)
Definition parent_fd (t : tree) (root : path) (name : string) : res (path * string) :=
  parts ← relative name false;
  fd ← forM (λ fd part, _ ← dir_at t (fd ++ [part]); Ok (fd ++ [part])) (take (length parts - 1) parts) root;
  leaf ← (match last parts with Some l => Ok l | None => Err IndexError end);
  Ok (fd, leaf).

Section Materialize.
Context {S : Type} `{Stream S} (loads : (list (string * value) → res value) → bytes → res value).
Context (PAIR_SHA ARTIFACT_SHA : string).

(** [syncs] are the files [FileSyncOwner] has registered and not finished. *)
Record private := Private { stream : S; objects : tree; allocated : Z; account : option budget; syncs : list path }.

Definition with_stream (s : S) (p : private) : private := Private s (objects p) (allocated p) (account p) (syncs p).
Definition with_objects (t : tree) (p : private) : private := Private (stream p) t (allocated p) (account p) (syncs p).
Definition with_syncs (q : list path) (p : private) : private := Private (stream p) (objects p) (allocated p) (account p) q.

Definition on_stream (c : sys) (p : private) : res private := s ← call c (stream p); Ok (with_stream s p).
Definition local_tick (p : private) : res private := p ← on_stream Tick p; on_stream Check p.

(** [HeldDirectory.check] for the directory at [at_], and the block under
    [with HeldDirectory(...)] *)
Definition check_held (at_ : path) (p : private) : res private :=
  p ← on_stream Anchor p; _ ← dir_at (objects p) at_; Ok p.
Definition held (at_ : path) (f : private → res private) (p : private) : res private :=
  p ← check_held at_ p; p ← f p; on_stream Anchor p.

Definition account_record (i : info) (p : private) : res private :=
  match account p with
  | None => Ok p
  | Some b => p ← on_stream Tick p; b ← record b i; Ok (Private (stream p) (objects p) (allocated p) (Some b) (syncs p))
  end.

Definition charge_blocks (logical_bytes : Z) (i : info) (previous : Z) (p : private) : res private :=
  p ← local_tick p;
  p ← account_record i p;
  let allocated' := allocated p + Z.max 0 (i_blocks i * 512 - previous) in
  _ ← require (bool_decide (Z.max logical_bytes allocated' <= DISK_BUDGET)) "bundle-private-disk-budget";
  Ok (Private (stream p) (objects p) allocated' (account p) (syncs p)).

(** [charge_blocks(os.fstat(fd), 0)] for the object at [at_] *)
Definition charge_at (logical_bytes : Z) (at_ : path) (p : private) : res private :=
  '(i, s) ← os_stat (stream p) at_;
  charge_blocks logical_bytes i 0 (with_stream s p).

(** A new object, after which its parent's entry exists *)
Definition make (parent : path) (leaf : string) (o : obj) (p : private) : res private :=
  p ← on_stream Syscall p;
  t ← add_entry (objects p) parent leaf o; Ok (with_objects t p).
Definition chmod (at_ : path) (mode : Z) (p : private) : res private :=
  p ← on_stream Syscall p;
  t ← fchmod (objects p) at_ mode; Ok (with_objects t p).

(** [os.mkdir(leaf, 0o700, dir_fd=parent)] *)
Definition mkdir (parent : path) (leaf : string) : private → res private := make parent leaf (ODir 448).

(** [write_all] to the file at [at_]; every write takes a byte at least. *)
Fixpoint write_loop (fuel : nat) (at_ : path) (data : bytes) (p : private) : res private :=
  match data with
  | [] => Ok p
  | _ :: _ =>
      match fuel with
      | O => Err NoFuel
      | Datatypes.S fuel =>
          p ← on_stream Tick p;
          '(amount, s) ← os_write (stream p) (zlen (take (Z.to_nat 65536) data));
          _ ← require (bool_decide (amount > 0)) "bundle-short-write";
          t ← (match objects p !! at_ with
               | Some (OFile d m) => Ok (<[at_ := OFile (d ++ take (Z.to_nat amount) data) m]> (objects p))
               | _ => Err OSError
               end);
          write_loop fuel at_ (drop (Z.to_nat amount) data) (with_objects t (with_stream s p))
      end
  end.
Definition write_all (at_ : path) (data : bytes) (p : private) : res private := write_loop (length data) at_ data p.

(** [while remaining: data = exact(...); write_all(...)] *)
Fixpoint fill (fuel : nat) (at_ : path) (remaining : Z) (p : private) : res private :=
  if bool_decide (remaining = 0) then Ok p else
  match fuel with
  | O => Err NoFuel
  | Datatypes.S fuel =>
      '(data, s) ← exact (stream p) (Z.min 65536 remaining);
      p ← write_all at_ data (with_stream s p);
      fill fuel at_ (remaining - zlen data) p
  end.

Definition root_path (name : string) : path := if bool_decide (name = "artifact") then ["artifact"] else ["pair"; name].

(** *** [FileSyncOwner] as this thread sees it; [FileSync] has the workers. *)
Definition finish_one (logical_bytes : Z) (p : private) : res private :=
  match syncs p with
  | [] => Err IndexError
  | at_ :: q =>
      p ← on_stream Flush p;
      p ← local_tick p;
      p ← charge_at logical_bytes at_ p;
      p ← on_stream Syscall p;
      p ← local_tick p;
      Ok (with_syncs q p)
  end.

Definition submit (logical_bytes : Z) (at_ : path) (p : private) : res private :=
  p ← on_stream Flush p;
  p ← local_tick p;
  p ← (if bool_decide (zlen (syncs p) = FileSync.MAX_PENDING_SYNCS) then finish_one logical_bytes p else Ok p);
  _ ← require (bool_decide (zlen (syncs p) < FileSync.MAX_PENDING_SYNCS)) "acquisition-copy-sync-bound";
  p ← local_tick p;
  p ← on_stream Flush p;
  p ← on_stream Syscall p;
  p ← local_tick p;
  Ok (with_syncs (syncs p ++ [at_]) p).

Fixpoint drain_loop (n : nat) (logical_bytes : Z) (p : private) : res private :=
  match syncs p, n with
  | [], _ => local_tick p
  | _ :: _, O => Err NoFuel
  | _ :: _, Datatypes.S n => p ← finish_one logical_bytes p; drain_loop n logical_bytes p
  end.
Definition drain (logical_bytes : Z) (p : private) : res private := drain_loop (length (syncs p)) logical_bytes p.

(** [__exit__] of the block *)
Definition leave (p : private) : res private :=
  _ ← require (bool_decide (syncs p = [])) "acquisition-copy-sync-owner"; on_stream Flush p.

(** *** The phases of [materialize] *)
Definition make_directory (name : string) (p : private) (node : string * NarDescriptor.kind) : res private :=
  if negb (is_directory node.2) || bool_decide (node.1 = "") then Ok p else
  p ← local_tick p;
  p ← on_stream Syscall p;
  '(parent, leaf) ← parent_fd (objects p) (root_path name) node.1;
  mkdir parent leaf p.

Definition make_directories (p : private) (nd : string * descriptor) : res private :=
  held (root_path nd.1) (λ p, forM (make_directory nd.1) (merge_sort depth_le (nodes nd.2)) p) p.

Definition make_file (logical_bytes : Z) (p : private) (e : string * string * Z * bool) : res private :=
  let '(name, name', size, executable) := e in
  held (root_path name) (λ p,
    p ← on_stream Syscall p;
    '(parent, leaf) ← parent_fd (objects p) (root_path name) name';
    let at_ := parent ++ [leaf] in
    p ← make parent leaf (OFile [] 384) p;
    p ← fill (Z.to_nat size) at_ size p;
    p ← chmod at_ (if (executable : bool) then 365 else 292) p;
    p ← submit logical_bytes at_ p;
    on_stream Syscall p) p.

Definition make_link (logical_bytes : Z) (name : string) (p : private) (node : string * NarDescriptor.kind) : res private :=
  match node.2 with
  | NarDescriptor.Symlink target =>
      p ← local_tick p;
      p ← on_stream Syscall p;
      '(parent, leaf) ← parent_fd (objects p) (root_path name) node.1;
      p ← make parent leaf (OLink target) p;
      charge_at logical_bytes (parent ++ [leaf]) p
  | _ => Ok p
  end.

Definition seal_directory (logical_bytes : Z) (name : string) (p : private) (node : string * NarDescriptor.kind) : res private :=
  p ← local_tick p;
  p ← on_stream Syscall p;
  at_ ← (if bool_decide (node.1 = "") then Ok (root_path name) else
         '(parent, leaf) ← parent_fd (objects p) (root_path name) node.1;
         Ok (parent ++ [leaf]));
  _ ← dir_at (objects p) at_;
  p ← chmod at_ 365 p;
  p ← on_stream Syscall p;
  charge_at logical_bytes at_ p.

Definition finish_tree (logical_bytes : Z) (p : private) (nd : string * descriptor) : res private :=
  held (root_path nd.1) (λ p,
    p ← forM (make_link logical_bytes nd.1) (nodes nd.2) p;
    forM (seal_directory logical_bytes nd.1) (reverse (merge_sort depth_le (filter (λ n, is_directory n.2 = true) (nodes nd.2)))) p) p.

Definition make_metadata (logical_bytes : Z) (p : private) (np : string * bytes) : res private :=
  let '(name, payload) := np in
  p ← make ["pair"] name (OFile [] 384) p;
  p ← write_all ["pair"; name] payload p;
  p ← chmod ["pair"; name] 292 p;
  p ← submit logical_bytes ["pair"; name] p;
  on_stream Syscall p.

(** The four framed parts *)
Definition read_part (acc : list bytes * S) (maximum : Z) : res (list bytes * S) :=
  let '(parts, s) := acc in
  '(field, s) ← exact s 8;
  let length_ := PyBytes.decode LE field in
  _ ← require (bool_decide (0 < length_ <= maximum)) "bundle-header-bound";
  '(part, s) ← exact s length_;
  Ok (parts ++ [part], s).

Definition HEADER_BOUNDS : list Z := [MAX_RECEIPT_BYTES; MAX_INVENTORY_BYTES; 65536; 1024 * 1024].

Definition sizes (es : list (string * string * Z * bool)) : Z := foldr Z.add 0 ((λ e, e.1.2) <$> es).

Definition artifact_nodes (raw_nodes : bytes) : res descriptor :=
  vnodes ← decode loads raw_nodes (1024 * 1024);
  d ← checked_nodes vnodes "/declared/artifact";
  _ ← require (bool_decide (zlen (nodes d) <= ARTIFACT_MAX_NODES)
               && forallb (λ n, match n.2 with NarDescriptor.Symlink _ => false | _ => true end) (nodes d)) "bundle-artifact-node-bound";
  let files := omap (regular_of "artifact") (nodes d) in
  _ ← require (bool_decide (zlen files <= MAX_FILES) && bool_decide (sizes files <= ARTIFACT_MAX_BYTES)) "bundle-artifact-byte-bound";
  Ok d.

(** Everything that is read before the first object is made *)
Record plan := Plan { raw_pair : bytes; raw_inventory : bytes; raw_artifact : bytes; raw_nodes : bytes;
                      trees : list (string * descriptor); logical : Z }.

Definition read_plan (s : S) (lock : bytes) (compact : value) : res (plan * S) :=
  '(magic, s) ← exact s (zlen MAGIC);
  _ ← require (bool_decide (magic = MAGIC)) "bundle-magic";
  '(metadata, s) ← forM read_part HEADER_BOUNDS ([], s);
  match metadata with
  | [raw_pair; raw_inventory; raw_artifact; raw_nodes] =>
      '(_, descriptors) ← pair_metadata loads PAIR_SHA lock raw_pair raw_inventory;
      _ ← validate_receipt loads raw_artifact ARTIFACT_SHA;
      artifact ← artifact_nodes raw_nodes;
      let descriptors := dset "artifact" artifact descriptors in
      let logical_bytes := sizes (entries descriptors) + zlen raw_pair + zlen raw_inventory in
      _ ← require (bool_decide (logical_bytes <= DISK_BUDGET)) "bundle-private-disk-budget";
      _ ← requireM (test compact "pairReceiptSha256" (is_text PAIR_SHA) &&? test compact "artifactReceiptSha256" (is_text ARTIFACT_SHA))
            "bundle-component-binding";
      Ok (Plan raw_pair raw_inventory raw_artifact raw_nodes descriptors logical_bytes, s)
  | _ => Err (ValueError "not enough values to unpack")
  end.

(** Everything that is made, under [with FileSyncOwner(...)] *)
Definition build (pl : plan) (p : private) : res private :=
  p ← forM (λ p name, p ← check_held [] p; mkdir [] name p) ["pair"; "artifact"; "home"] p;
  p ← held ["pair"] (λ p, forM (λ p name, p ← local_tick p; p ← check_held ["pair"] p; mkdir ["pair"] name p) NAMES p) p;
  p ← forM make_directories (trees pl) p;
  p ← forM (make_file (logical pl)) (entries (trees pl)) p;
  p ← drain (logical pl) p;
  '(extra, s) ← read (stream p) 1;
  _ ← require (bool_decide (extra = [])) "bundle-trailing-byte";
  p ← on_stream Check (with_stream s p);
  p ← forM (finish_tree (logical pl)) (trees pl) p;
  p ← held ["pair"] (λ p,
    p ← forM (make_metadata (logical pl)) [("receipt.json", raw_pair pl); ("inventory.json", raw_inventory pl)] p;
    p ← drain (logical pl) p;
    p ← check_held ["pair"] p;
    p ← chmod ["pair"] 365 p;
    p ← check_held ["pair"] p;
    charge_at (logical pl) ["pair"] p) p;
  p ← held ["home"] (charge_at (logical pl) ["home"]) p;
  p ← charge_at (logical pl) [] p;
  p ← leave p;
  local_tick p.

Definition empty_worker : tree := {[ [] := ODir 448 ]}.

Definition materialize (s : S) (lock : bytes) (compact : value) (account : option budget) : res (private * bytes) :=
  '(pl, s) ← read_plan s lock compact;
  p ← build pl (Private s empty_worker 0 account []);
  Ok (p, raw_artifact pl).
End Materialize.

(** ** The budget *)
Definition total_blocks (m : gmap (Z * Z) Z) : Z := map_fold (λ _ x acc, x + acc) 0 m.

(** What [ReconstructionBudget] keeps: the allocated bytes are those of the
    recorded objects, each at its largest, and fit the disk budget. *)
Record budget_ok (b : budget) : Prop := {
  k_sum : b_allocated b = total_blocks (b_blocks b);
  k_nonneg : ∀ key x, b_blocks b !! key = Some x → 0 <= x;
  k_count : Z.of_nat (size (b_blocks b)) <= 3 * MAX_NODES + 1024;
  k_fits : Z.max (b_logical b) (b_allocated b) <= DISK_BUDGET;
}.

Lemma total_blocks_insert m key x : m !! key = None → total_blocks (<[key := x]> m) = x + total_blocks m.
Proof. intros Hk. unfold total_blocks. rewrite map_fold_insert_L; [done| |done]. intros. lia. Qed.

Lemma total_blocks_update m key x : total_blocks (<[key := x]> m) = total_blocks m - default 0 (m !! key) + x.
Proof.
  destruct (m !! key) as [y|] eqn:E; cbn; [|rewrite total_blocks_insert by done; lia].
  assert (total_blocks m = y + total_blocks (delete key m)) as ->.
  { rewrite <-(insert_delete_id m key y E) at 1. by rewrite total_blocks_insert by apply lookup_delete_eq. }
  rewrite <-insert_delete_eq, total_blocks_insert by apply lookup_delete_eq. lia.
Qed.

Lemma new_budget_ok logical b : new_budget logical = Ok b → budget_ok b.
Proof.
  unfold new_budget, require. intros (u & Hu%ensure_Ok%bool_decide_eq_true & [= <-])%bind_Ok.
  split; cbn; [done|done| |lia]. rewrite map_size_empty. unfold MAX_NODES. lia.
Qed.

Lemma record_ok b i b' : budget_ok b → record b i = Ok b' → budget_ok b'.
Proof.
  intros [Hs Hn Hc Hf]. unfold record, require. intros (u & Hu%ensure_Ok & (u' & Hu'%ensure_Ok%bool_decide_eq_true & [= <-])%bind_Ok)%bind_Ok.
  cbn in *. set (key := (i_dev i, i_ino i)) in *. assert (0 <= default 0 (b_blocks b !! key)) as Hd.
  { destruct (b_blocks b !! key) as [x|] eqn:E; cbn; [by eapply Hn|lia]. }
  split; cbn [b_logical b_blocks b_allocated].
  - rewrite total_blocks_update, <-Hs. lia.
  - intros k x. destruct (decide (k = key)) as [->|Hk]; [rewrite lookup_insert_eq; intros [= <-]; lia|].
    rewrite lookup_insert_ne by done. apply Hn.
  - apply orb_true_iff in Hu as [Hu%bool_decide_eq_true|Hu%bool_decide_eq_true].
    + rewrite map_size_insert_Some by done. done.
    + destruct (b_blocks b !! key) eqn:E; [rewrite map_size_insert_Some by eauto; done|]. rewrite map_size_insert_None by done. lia.
  - done.
Qed.

(** ** What a run did: the bytes it took from the stream and the objects it
    wrote, in order *)
Definition inserts (ops : list (path * obj)) (t : tree) : tree := foldl (λ t op, <[op.1 := op.2]> t) t ops.

Lemma inserts_app ops1 ops2 t : inserts (ops1 ++ ops2) t = inserts ops2 (inserts ops1 t).
Proof. apply foldl_app. Qed.

Definition account_ok (a : option budget) : Prop := match a with Some b => budget_ok b | None => True end.

Section Did.
Context {S : Type} `{StreamLaws S}.
Implicit Types p : private (S := S).

Definition did (e : bytes) (ops : list (path * obj)) p p' : Prop :=
  rest (stream p) = e ++ rest (stream p') ∧ objects p' = inserts ops (objects p) ∧ (account_ok (account p) → account_ok (account p')).
Definition quiet (f : private → res private) : Prop := ∀ p p', f p = Ok p' → did [] [] p p'.

Lemma did_refl p : did [] [] p p.
Proof. done. Qed.
Lemma did_trans e1 ops1 e2 ops2 p p1 p2 : did e1 ops1 p p1 → did e2 ops2 p1 p2 → did (e1 ++ e2) (ops1 ++ ops2) p p2.
Proof. intros (H1 & H2 & H3) (G1 & G2 & G3). split_and!; [by rewrite H1, G1, app_assoc|by rewrite inserts_app, <-H2|auto]. Qed.
Lemma did_quiet_l e ops p p1 p2 : did [] [] p p1 → did e ops p1 p2 → did e ops p p2.
Proof. intros H1 H2. apply (did_trans _ _ _ _ _ _ _ H1 H2). Qed.
Lemma did_quiet_r e ops p p1 p2 : did e ops p p1 → did [] [] p1 p2 → did e ops p p2.
Proof. intros H1 H2. rewrite <-(app_nil_r e), <-(app_nil_r ops). by eapply did_trans. Qed.
Lemma did_write e ops1 ops2 p p1 p2 : did [] ops1 p p1 → did e ops2 p1 p2 → did e (ops1 ++ ops2) p p2.
Proof. intros H1 H2. apply (did_trans _ _ _ _ _ _ _ H1 H2). Qed.

Lemma quiet_seq f g : quiet f → quiet g → quiet (λ p, f p ≫= g).
Proof. intros Hf Hg p p' (p1 & H1 & H2)%bind_Ok. eapply did_quiet_l; [by apply Hf|by apply Hg]. Qed.
Lemma quiet_ok : quiet (λ p, Ok p).
Proof. by intros p p' [= <-]. Qed.
Lemma quiet_require b reason f : quiet f → quiet (λ p, _ ← require (b p) reason; f p).
Proof. intros Hf p p' (u & _ & Hp)%bind_Ok. by apply Hf. Qed.
Lemma quiet_stream c : quiet (on_stream c).
Proof. intros p p'. unfold on_stream. intros (s & Hs & [= <-])%bind_Ok. split_and!; [by rewrite <-(call_rest _ _ _ Hs)|done|done]. Qed.
Lemma quiet_local_tick : quiet local_tick.
Proof. apply quiet_seq; apply quiet_stream. Qed.
Lemma quiet_syncs q : quiet (λ p, Ok (with_syncs (q p) p)).
Proof. by intros p p' [= <-]. Qed.

Lemma quiet_charge_blocks logical i previous : quiet (charge_blocks logical i previous).
Proof.
  unfold charge_blocks. apply quiet_seq; [apply quiet_local_tick|]. apply quiet_seq.
  - intros p p'. unfold account_record. destruct (account p) as [b|] eqn:Ea; [|by intros [= <-]].
    intros (p1 & H1%quiet_stream & (b' & Hb & [= <-])%bind_Ok)%bind_Ok. destruct H1 as (H1 & H2 & H3).
    split_and!; [done|done|]. cbn. rewrite Ea. cbn. intros Hok. by eapply record_ok.
  - intros p p' (u & _ & [= <-])%bind_Ok. done.
Qed.

Lemma quiet_charge_at logical at_ : quiet (charge_at logical at_).
Proof.
  intros p p' ([i s] & Hs & Hc)%bind_Ok. apply quiet_charge_blocks in Hc as (H1 & H2 & H3).
  split_and!; [|done|done]. rewrite <-H1. cbn. by rewrite (stat_rest _ _ _ _ Hs).
Qed.

Lemma quiet_finish_one logical : quiet (finish_one logical).
Proof.
  intros p p'. unfold finish_one. destruct (syncs p) as [|a q]; [done|]. revert p p'. fold (quiet (λ p,
    p ← on_stream Flush p; p ← local_tick p; p ← charge_at logical a p; p ← on_stream Syscall p; p ← local_tick p; Ok (with_syncs q p))).
  do 2 (apply quiet_seq; [auto using quiet_stream, quiet_local_tick|]). apply quiet_seq; [apply quiet_charge_at|].
  do 2 (apply quiet_seq; [auto using quiet_stream, quiet_local_tick|]). apply (quiet_syncs (λ _, q)).
Qed.

Lemma quiet_submit logical at_ : quiet (submit logical at_).
Proof.
  unfold submit. do 2 (apply quiet_seq; [auto using quiet_stream, quiet_local_tick|]). apply quiet_seq.
  { intros p p'. case_bool_decide; [apply quiet_finish_one|by intros [= <-]]. }
  apply quiet_require. do 4 (apply quiet_seq; [auto using quiet_stream, quiet_local_tick|]).
  apply (quiet_syncs (λ p, syncs p ++ [at_])).
Qed.

Lemma quiet_drain logical : quiet (drain logical).
Proof.
  intros p p'. unfold drain. generalize (length (syncs p)) as n. intros n. revert p p'. fold (quiet (drain_loop n logical)).
  induction n as [|n IH]; intros p p'; cbn [drain_loop]; destruct (syncs p) as [|a q]; try done; try apply quiet_local_tick.
  intros (p1 & H1 & H2)%bind_Ok. eapply did_quiet_l; [by eapply quiet_finish_one|by apply IH].
Qed.

Lemma quiet_leave : quiet leave.
Proof. unfold leave. apply quiet_require, quiet_stream. Qed.

Lemma quiet_check_held at_ : quiet (check_held at_).
Proof. apply quiet_seq; [apply quiet_stream|]. intros p p' (m & _ & [= <-])%bind_Ok. apply did_refl. Qed.

Lemma did_held at_ f e ops p p' : (∀ p p', f p = Ok p' → did e ops p p') → held at_ f p = Ok p' → did e ops p p'.
Proof.
  intros Hf (p1 & H1%quiet_check_held & (p2 & H2%Hf & H3%quiet_stream)%bind_Ok)%bind_Ok.
  eapply did_quiet_l; [done|]. by eapply did_quiet_r.
Qed.

Lemma did_forM {A} (f : private → A → res private) (ops : A → list (path * obj)) l : ∀ p p',
  (∀ p x p', x ∈ l → f p x = Ok p' → did [] (ops x) p p') → forM f l p = Ok p' → did [] (l ≫= ops) p p'.
Proof.
  induction l as [|x l IH]; intros p p' Hf; cbn [forM]; [by intros [= <-]|].
  intros (p1 & H1 & H2)%bind_Ok. cbn. eapply did_write; [by apply Hf; [left|]|]. apply IH; [|done].
  intros. apply Hf; [by right|done].
Qed.

(** ** The system calls *)
Lemma did_make parent leaf o p p' : make parent leaf o p = Ok p' → did [] [(parent ++ [leaf], o)] p p'.
Proof.
  intros (p1 & H1%quiet_stream & (t & Ht & [= <-])%bind_Ok)%bind_Ok. eapply did_quiet_l; [done|].
  unfold add_entry in Ht. skip_steps 3 in Ht. injection Ht as <-. done.
Qed.

Definition chmodded (o : obj) (mode : Z) : obj := match o with ODir _ => ODir mode | OFile d _ => OFile d mode | o => o end.
Lemma did_chmod at_ mode p p' : chmod at_ mode p = Ok p' → ∃ o, objects p !! at_ = Some o ∧ did [] [(at_, chmodded o mode)] p p'.
Proof.
  intros (p1 & H1%quiet_stream & (t & Ht & [= <-])%bind_Ok)%bind_Ok. unfold fchmod in Ht.
  assert (objects p1 = objects p) as Ho by apply H1. rewrite Ho in Ht.
  destruct (objects p !! at_) as [[]|] eqn:E; try done; injection Ht as <-; eexists; (split; [done|]);
    (eapply did_quiet_l; [done|]); cbn [chmodded]; rewrite <-Ho; done.
Qed.

Lemma parent_fd_Ok t root name parent leaf : parent_fd t root name = Ok (parent, leaf) → parent ++ [leaf] = root ++ NarDescriptor.parts_of name.
Proof.
  unfold parent_fd. intros (parts & Hr & (fd & Hfd & (l & Hl & [= <- <-])%bind_Ok)%bind_Ok)%bind_Ok.
  assert (parts = NarDescriptor.parts_of name) as <- by (unfold relative in Hr; ok_inv; done).
  destruct (last parts) as [l'|] eqn:E; [|done]. injection Hl as <-. apply last_Some in E as [init ->].
  rewrite length_app in Hfd. cbn in Hfd. rewrite Nat.add_sub, take_app_length in Hfd.
  assert (fd = root ++ init) as ->; [|by rewrite app_assoc].
  revert Hfd. apply (forM_inv _ (λ done fd, fd = root ++ done)); [by rewrite app_nil_r|].
  intros before x s1 s2 -> _ (m & _ & [= <-])%bind_Ok. by rewrite app_assoc.
Qed.

Lemma exact_loop_spec fuel : ∀ s remaining parts d s', 0 <= remaining →
  exact_loop fuel s remaining parts = Ok (d, s') → ∃ e, d = parts ++ e ∧ rest s = e ++ rest s' ∧ zlen e = remaining.
Proof.
  induction fuel as [|fuel IH]; intros s remaining parts d s' Hr; cbn [exact_loop]; case_bool_decide as Hz; try done.
  1,2: intros [= <- <-]; exists []; rewrite app_nil_r; (split_and!; try done; by subst).
  intros (s1 & Hc%call_rest & ([part s2] & Hrd & (u & Hp%ensure_Ok%bool_decide_eq_true & Hl)%bind_Ok)%bind_Ok)%bind_Ok.
  apply read_rest in Hrd as (Hrest & Hle & _); [|lia]. pose proof (zlen_nonneg part).
  apply IH in Hl as (e & -> & He & Hlen); [|lia]. exists (part ++ e). rewrite <-app_assoc. split_and!; [done| |].
  - rewrite <-Hc, Hrest, He. by rewrite app_assoc.
  - rewrite zlen_app. lia.
Qed.
Lemma exact_spec s n d s' : 0 <= n → exact s n = Ok (d, s') → rest s = d ++ rest s' ∧ zlen d = n.
Proof. intros Hn H1. apply exact_loop_spec in H1 as (e & -> & ? & ?); done. Qed.

(** Appending to the file at [at_] *)
Definition appended (at_ : path) (d : bytes) (m : Z) (e : bytes) (data : bytes) p p' : Prop :=
  objects p !! at_ = Some (OFile d m) → did e [(at_, OFile (d ++ data) m)] p p'.

Lemma appended_nil at_ d m p p' : did [] [] p p' → appended at_ d m [] [] p p'.
Proof.
  intros (H1 & H2 & H3) Ho. split_and!; [done| |done]. cbn in *. rewrite app_nil_r, H2. symmetry. by apply insert_id.
Qed.

Lemma write_loop_spec fuel at_ : ∀ data d m p p', write_loop fuel at_ data p = Ok p' → appended at_ d m [] data p p'.
Proof.
  induction fuel as [|fuel IH]; intros data d m p p'; cbn [write_loop]; destruct data as [|b data]; try done.
  1,2: intros [= <-]; by apply appended_nil.
  set (l := b :: data). intros (p1 & H1%quiet_stream & ([amount s] & Hw & (u & Hu%ensure_Ok%bool_decide_eq_true & (t & Ht & Hl)%bind_Ok)%bind_Ok)%bind_Ok)%bind_Ok Ho.
  destruct H1 as (R1 & O1 & A1). cbn in O1. apply write_rest in Hw as [Hw Hle]. rewrite O1, Ho in Ht. injection Ht as <-.
  destruct (IH _ (d ++ take (Z.to_nat amount) l) m _ _ Hl) as (R2 & O2 & A2); [by cbn; rewrite lookup_insert_eq|]. cbn in *.
  split_and!; [by rewrite R1, <-Hw, R2| |auto]. rewrite O2. cbn. rewrite insert_insert_eq, <-app_assoc, take_drop. done.
Qed.
Lemma write_all_spec at_ data d m p p' : write_all at_ data p = Ok p' → appended at_ d m [] data p p'.
Proof. apply write_loop_spec. Qed.

Lemma fill_spec fuel at_ : ∀ remaining d m p p', 0 <= remaining → fill fuel at_ remaining p = Ok p' → objects p !! at_ = Some (OFile d m) →
  ∃ data, zlen data = remaining ∧ did data [(at_, OFile (d ++ data) m)] p p'.
Proof.
  induction fuel as [|fuel IH]; intros remaining d m p p' Hr; cbn [fill]; case_bool_decide as Hz; try done.
  1,2: intros [= <-] Ho; exists []; (split; [by subst|]); by apply appended_nil.
  intros ([part s] & He & (p1 & Hw & Hl)%bind_Ok)%bind_Ok Ho. apply exact_spec in He as [Hrest Hlen]; [|lia].
  destruct (write_all_spec _ _ d m _ _ Hw Ho) as (R1 & O1 & A1). cbn in *.
  apply (IH _ (d ++ part) m) in Hl as (data & Hd & (R2 & O2 & A2)); [|lia|by rewrite O1, lookup_insert_eq].
  exists (part ++ data). rewrite zlen_app. split; [lia|]. split_and!; [|cbn in *|auto].
  - by rewrite Hrest, R1, R2, app_assoc.
  - by rewrite O2, O1, insert_insert_eq, <-app_assoc.
Qed.

(** ** The phases *)
Definition node_path (name path : string) : HmBundle.path := root_path name ++ NarDescriptor.parts_of path.

Definition dir_op (name : string) (node : string * NarDescriptor.kind) : list (path * obj) :=
  if negb (is_directory node.2) || bool_decide (node.1 = "") then [] else [(node_path name node.1, ODir 448)].
Definition dir_ops (nd : string * descriptor) : list (path * obj) := merge_sort depth_le (nodes nd.2) ≫= dir_op nd.1.
Definition file_op (e : string * string * Z * bool) (data : bytes) : path * obj :=
  let '(name, name', _, executable) := e in (node_path name name', OFile data (if (executable : bool) then 365 else 292)).
Definition link_op (name : string) (node : string * NarDescriptor.kind) : list (path * obj) :=
  match node.2 with NarDescriptor.Symlink target => [(node_path name node.1, OLink target)] | _ => [] end.
Definition seal_op (name : string) (node : string * NarDescriptor.kind) : list (path * obj) := [(node_path name node.1, ODir 365)].
Definition finish_ops (nd : string * descriptor) : list (path * obj) :=
  (nodes nd.2 ≫= link_op nd.1)
  ++ (reverse (merge_sort depth_le (filter (λ n, is_directory n.2 = true) (nodes nd.2))) ≫= seal_op nd.1).

Lemma did_make_directory name p node p' : make_directory name p node = Ok p' → did [] (dir_op name node) p p'.
Proof.
  unfold make_directory, dir_op. destruct (_ || _) eqn:E; [by intros [= <-]|].
  intros (p1 & H1%quiet_local_tick & (p2 & H2%quiet_stream & ([parent leaf] & Hp%parent_fd_Ok & H3%did_make)%bind_Ok)%bind_Ok)%bind_Ok.
  eapply did_quiet_l; [done|]. eapply did_quiet_l; [done|]. unfold node_path. by rewrite <-Hp.
Qed.

Lemma did_make_directories p nd p' : make_directories p nd = Ok p' → did [] (dir_ops nd) p p'.
Proof. apply did_held. clear p p'. intros p p'. apply did_forM. intros ? ? ? ?. apply did_make_directory. Qed.

Lemma did_overwrite e at_ o o' p p1 p2 : did [] [(at_, o)] p p1 → did e [(at_, o')] p1 p2 → did e [(at_, o')] p p2.
Proof.
  intros (R1 & O1 & A1) (R2 & O2 & A2). split_and!; [by rewrite R1, R2| |auto]. cbn in *. by rewrite O2, O1, insert_insert_eq.
Qed.
Lemma did_lookup e at_ o p p' : did e [(at_, o)] p p' → objects p' !! at_ = Some o.
Proof. intros (_ & -> & _). cbn. by rewrite lookup_insert_eq. Qed.

(** A file that is made, filled, sealed and submitted *)
Lemma did_seal_file logical at_ mode e data m p p1 p2 p3 p4 :
  did e [(at_, OFile data m)] p p1 → chmod at_ mode p1 = Ok p2 → submit logical at_ p2 = Ok p3 → on_stream Syscall p3 = Ok p4 →
  did e [(at_, OFile data mode)] p p4.
Proof.
  intros H1 (o & Ho & H2)%did_chmod H3%quiet_submit H4%quiet_stream. rewrite (did_lookup _ _ _ _ _ H1) in Ho. injection Ho as <-.
  eapply did_quiet_r; [|done]. eapply did_quiet_r; [|done].
  destruct H1 as (R1 & O1 & A1), H2 as (R2 & O2 & A2). split_and!; [by rewrite R1, R2| |auto]. cbn in *. by rewrite O2, O1, insert_insert_eq.
Qed.

Lemma did_make_file logical p e p' : 0 <= e.1.2 → make_file logical p e = Ok p' →
  ∃ data, zlen data = e.1.2 ∧ did data [file_op e data] p p'.
Proof.
  destruct e as [[[name name'] size] x]. cbn. intros Hs (p1 & H1%quiet_check_held & (p2 & H2 & H3%quiet_stream)%bind_Ok)%bind_Ok.
  apply bind_Ok in H2 as (p3 & H4%quiet_stream & ([parent leaf] & Hp%parent_fd_Ok & (p4 & H5%did_make & (p5 & H6 & (p6 & H7 & (p7 & H8 & H9)%bind_Ok)%bind_Ok)%bind_Ok)%bind_Ok)%bind_Ok).
  apply (fill_spec _ _ _ [] 384) in H6 as (data & Hd & H6); [|done|by eapply did_lookup].
  exists data. split; [done|]. eapply did_quiet_l; [done|]. eapply did_quiet_r; [|done]. eapply did_quiet_l; [done|].
  unfold node_path. rewrite <-Hp. eapply did_seal_file; [|done..]. by eapply did_overwrite.
Qed.

Lemma did_make_files logical es : ∀ p p', Forall (λ e, 0 <= e.1.2) es → forM (make_file logical) es p = Ok p' →
  ∃ datas, Forall2 (λ e data, zlen data = e.1.2) es datas ∧ did (concat datas) (zip_with file_op es datas) p p'.
Proof.
  induction es as [|e es IH]; intros p p' Hs; cbn [forM].
  { intros [= <-]. exists []. split; [constructor|apply did_refl]. }
  inversion Hs; subst. intros (p1 & H1 & H2)%bind_Ok. apply did_make_file in H1; [|done]. apply IH in H2; [|done].
  destruct H1 as (data & Hd & H1), H2 as (datas & Hds & H2). exists (data :: datas). split; [by constructor|]. by eapply (did_trans _ [_]).
Qed.

Lemma did_make_link logical name p node p' : make_link logical name p node = Ok p' → did [] (link_op name node) p p'.
Proof.
  unfold make_link, link_op. destruct node.2 as [| target |]; try (by intros [= <-]).
  intros (p1 & H1%quiet_local_tick & (p2 & H2%quiet_stream & ([parent leaf] & Hp%parent_fd_Ok & (p3 & H3%did_make & H4%quiet_charge_at)%bind_Ok)%bind_Ok)%bind_Ok)%bind_Ok.
  eapply did_quiet_l; [done|]. eapply did_quiet_l; [done|]. eapply did_quiet_r; [|done]. unfold node_path. by rewrite <-Hp.
Qed.

Lemma dir_at_Ok t q m : dir_at t q = Ok m → t !! q = Some (ODir m).
Proof. unfold dir_at. destruct (t !! q) as [[]|]; try done. by intros [= ->]. Qed.

Lemma did_seal_directory logical name p node p' : seal_directory logical name p node = Ok p' → did [] (seal_op name node) p p'.
Proof.
  intros (p1 & H1%quiet_local_tick & (p2 & H2%quiet_stream & (at_ & Ha & (m & Hm%dir_at_Ok & (p3 & (o & Ho & H3)%did_chmod & (p4 & H4%quiet_stream & H5%quiet_charge_at)%bind_Ok)%bind_Ok)%bind_Ok)%bind_Ok)%bind_Ok)%bind_Ok.
  rewrite Hm in Ho. injection Ho as <-. cbn in H3.
  assert (at_ = node_path name node.1) as ->.
  { unfold node_path. case_bool_decide as E; [injection Ha as <-; rewrite E; cbn; by rewrite app_nil_r|].
    by apply bind_Ok in Ha as ([parent leaf] & Hp%parent_fd_Ok & [= <-]). }
  eapply did_quiet_l; [done|]. eapply did_quiet_l; [done|]. eapply did_quiet_r; [|done]. by eapply did_quiet_r.
Qed.

Lemma did_finish_tree logical p nd p' : finish_tree logical p nd = Ok p' → did [] (finish_ops nd) p p'.
Proof.
  apply did_held. clear p p'. intros p p' (p1 & H1 & H2)%bind_Ok. eapply did_write.
  - eapply did_forM; [|done]. intros ? ? ? ?. apply did_make_link.
  - eapply did_forM; [|done]. intros ? ? ? ?. apply did_seal_directory.
Qed.

Lemma did_make_metadata logical p np p' : make_metadata logical p np = Ok p' → did [] [(["pair"; np.1], OFile np.2 292)] p p'.
Proof.
  destruct np as [name payload]. cbn. intros (p1 & H1%did_make & (p2 & H2 & (p3 & H3 & (p4 & H4 & H5)%bind_Ok)%bind_Ok)%bind_Ok)%bind_Ok.
  pose proof (did_lookup _ _ _ _ _ H1) as Ho. pose proof (write_all_spec _ _ _ _ _ _ H2 Ho) as H2'.
  eapply did_seal_file; [|done..]. by eapply did_overwrite.
Qed.

(** The objects [build] writes, in order *)
Definition script (pl : plan) (datas : list bytes) : list (path * obj) :=
  [(["pair"], ODir 448); (["artifact"], ODir 448); (["home"], ODir 448)]
  ++ ((λ name, (["pair"; name], ODir 448)) <$> NAMES)
  ++ (trees pl ≫= dir_ops) ++ zip_with file_op (entries (trees pl)) datas
  ++ (trees pl ≫= finish_ops)
  ++ [(["pair"; "receipt.json"], OFile (raw_pair pl) 292); (["pair"; "inventory.json"], OFile (raw_inventory pl) 292)]
  ++ [(["pair"], ODir 365)].

Lemma did_roots p p' : forM (λ p name, p ← check_held [] p; mkdir [] name p) ["pair"; "artifact"; "home"] p = Ok p' →
  did [] [(["pair"], ODir 448); (["artifact"], ODir 448); (["home"], ODir 448)] p p'.
Proof.
  intros Hf. eapply (did_forM _ (λ name, [([name], ODir 448)])) in Hf; [exact Hf|].
  intros p1 name p2 _ (p3 & H3%quiet_check_held & H4%did_make)%bind_Ok. by eapply did_quiet_l.
Qed.
Lemma did_pair_roots p p' :
  held ["pair"] (λ p, forM (λ p name, p ← local_tick p; p ← check_held ["pair"] p; mkdir ["pair"] name p) NAMES p) p = Ok p' →
  did [] ((λ name, (["pair"; name], ODir 448)) <$> NAMES) p p'.
Proof.
  apply did_held. clear p p'. intros p p' Hf. eapply (did_forM _ (λ name, [(["pair"; name], ODir 448)])) in Hf; [exact Hf|].
  intros p1 name p2 _ (p3 & H3%quiet_local_tick & (p4 & H4%quiet_check_held & H5%did_make)%bind_Ok)%bind_Ok.
  eapply did_quiet_l; [done|]. by eapply did_quiet_l.
Qed.

(** The last block: the metadata of the pair, and its directory sealed *)
Lemma did_pair_block logical np1 np2 p p' :
  held ["pair"] (λ p, p ← forM (make_metadata logical) [np1; np2] p; p ← drain logical p; p ← check_held ["pair"] p;
    p ← chmod ["pair"] 365 p; p ← check_held ["pair"] p; charge_at logical ["pair"] p) p = Ok p' →
  did [] ([(["pair"; np1.1], OFile np1.2 292); (["pair"; np2.1], OFile np2.2 292)] ++ [(["pair"], ODir 365)]) p p'.
Proof.
  apply did_held. clear p p'. intros p p' (p1 & H1 & (p2 & H2%quiet_drain & (p3 & H3 & (p4 & (o & Ho & H4)%did_chmod & (p5 & H5%quiet_check_held & H6%quiet_charge_at)%bind_Ok)%bind_Ok)%bind_Ok)%bind_Ok)%bind_Ok.
  pose proof (quiet_check_held _ _ _ H3) as H3'. apply bind_Ok in H3 as (p6 & _ & (m & Hm%dir_at_Ok & [= ->])%bind_Ok).
  rewrite Hm in Ho. injection Ho as <-. eapply (did_forM _ (λ np, [(["pair"; np.1], OFile np.2 292)])) in H1; [|intros ? ? ? _; apply did_make_metadata].
  eapply did_write; [exact H1|]. eapply did_quiet_l; [done|]. eapply did_quiet_l; [done|]. eapply did_quiet_r; [|done]. by eapply did_quiet_r.
Qed.

Lemma charge_at_fits logical at_ p p' : charge_at logical at_ p = Ok p' → logical <= DISK_BUDGET ∧ allocated p' <= DISK_BUDGET.
Proof.
  intros ([i s] & _ & (p1 & _ & (p2 & _ & (u & Hu%ensure_Ok%bool_decide_eq_true & [= <-])%bind_Ok)%bind_Ok)%bind_Ok)%bind_Ok. cbn. lia.
Qed.
Lemma on_stream_allocated c p p' : on_stream c p = Ok p' → allocated p' = allocated p ∧ syncs p' = syncs p.
Proof. by intros (s & _ & [= <-])%bind_Ok. Qed.

Lemma build_did pl p p' : Forall (λ e, 0 <= e.1.2) (entries (trees pl)) → build pl p = Ok p' →
  ∃ datas, Forall2 (λ e data, zlen data = e.1.2) (entries (trees pl)) datas
    ∧ did (concat datas) (script pl datas) p p' ∧ rest (stream p') = [] ∧ allocated p' <= DISK_BUDGET ∧ syncs p' = [].
Proof.
  intros Hs Hb. apply bind_Ok in Hb as (p1 & H1%did_roots & Hb). apply bind_Ok in Hb as (p2 & H2%did_pair_roots & Hb).
  apply bind_Ok in Hb as (p3 & H3 & Hb). eapply did_forM in H3; [|intros ? ? ? _; apply did_make_directories].
  apply bind_Ok in Hb as (p4 & H4 & Hb). apply did_make_files in H4 as (datas & Hd & H4); [|done].
  apply bind_Ok in Hb as (p5 & H5%quiet_drain & Hb). apply bind_Ok in Hb as ([extra s] & Hr & Hb).
  apply bind_Ok in Hb as (u & Hu%ensure_Ok%bool_decide_eq_true & Hb). subst extra.
  apply read_rest in Hr as (Hrest & _ & Hend); [|lia]. specialize (Hend eq_refl). cbn in Hrest.
  apply bind_Ok in Hb as (p6 & H6%quiet_stream & Hb). apply bind_Ok in Hb as (p7 & H7 & Hb).
  eapply did_forM in H7; [|intros ? ? ? _; apply did_finish_tree].
  apply bind_Ok in Hb as (p8 & H8%did_pair_block & Hb). apply bind_Ok in Hb as (p9 & H9 & Hb).
  eapply did_held in H9; [|apply quiet_charge_at]. apply bind_Ok in Hb as (pa & Ha & Hb).
  pose proof (charge_at_fits _ _ _ _ Ha) as [_ Hfit]. apply quiet_charge_at in Ha.
  apply bind_Ok in Hb as (pb & Hl & Ht). pose proof (quiet_leave _ _ Hl) as Hq.
  apply bind_Ok in Hl as (v & Hv%ensure_Ok%bool_decide_eq_true & Hl). apply on_stream_allocated in Hl as [Hl1 Hl2].
  pose proof (quiet_local_tick _ _ Ht) as Hqt. apply bind_Ok in Ht as (pc & [Ht1 Ht2]%on_stream_allocated & [Ht3 Ht4]%on_stream_allocated).
  assert (did [] [] p5 p6) as H56.
  { destruct H6 as (R & O & A). split_and!; [|exact O|exact A]. by rewrite Hrest. }
  assert (did [] ((trees pl ≫= finish_ops) ++ [(["pair"; "receipt.json"], OFile (raw_pair pl) 292); (["pair"; "inventory.json"], OFile (raw_inventory pl) 292)]
    ++ [(["pair"], ODir 365)]) p5 p') as H5'.
  { eapply did_quiet_l; [done|]. eapply did_write; [done|]. eapply did_quiet_r; [done|]. eapply did_quiet_l; [done|].
    eapply did_quiet_l; [done|]. by eapply did_quiet_l. }
  exists datas. split_and!; [done| | | |].
  - unfold script. do 3 (eapply did_write; [done|]).
    rewrite <-(app_nil_r (concat datas)). eapply did_trans; [done|]. by eapply did_quiet_l.
  - destruct H5' as (R & _). cbn in R. by rewrite <-R, Hend.
  - by rewrite Ht3, Ht1, Hl1.
  - by rewrite Ht4, Ht2, Hl2.
Qed.
End Did.

(** ** The order of the files *)
Lemma roots_nodup : NoDup ROOTS.
Proof. apply (bool_decide_eq_true_1 (NoDup ROOTS)). by vm_compute. Qed.

Lemma elem_of_entries ds name path size x :
  (name, path, size, x) ∈ entries ds ↔ name ∈ ROOTS ∧ ∃ d, dget name ds = Some d ∧ (path, NarDescriptor.Regular size x) ∈ nodes d.
Proof.
  unfold entries. rewrite list_elem_of_bind. split.
  - intros (n & Hin & Hn). destruct (dget n ds) as [d|] eqn:E; [|by apply elem_of_nil in Hin].
    apply list_elem_of_omap in Hin as ([q k] & Hq & Hr). rewrite merge_sort_Permutation in Hq.
    unfold regular_of in Hr. cbn in Hr. destruct k; try done. injection Hr as -> -> -> ->. split; [done|]. by exists d.
  - intros (Hn & d & Hd & Hin). exists name. split; [|done]. rewrite Hd. apply list_elem_of_omap.
    exists (path, NarDescriptor.Regular size x). by rewrite merge_sort_Permutation.
Qed.

Lemma fmap_bind {A B C} (f : B → C) (g : A → list B) l : f <$> (l ≫= g) = l ≫= (λ x, f <$> g x).
Proof. induction l as [|x l IH]; cbn; [done|]. rewrite fmap_app. by f_equal. Qed.

Lemma entries_nodup ds : (∀ name d, dget name ds = Some d → NoDup (dkeys (nodes d))) → NoDup ((λ e, e.1.1) <$> entries ds).
Proof.
  intros Hnd. unfold entries.
  assert (∀ name (l : list (string * NarDescriptor.kind)) y, y ∈ (λ e, e.1.1) <$> omap (regular_of name) l → y.1 = name ∧ y.2 ∈ dkeys l) as Hkey.
  { intros name l y (e & -> & ([q k] & Hq & Hr)%list_elem_of_omap)%list_elem_of_fmap. unfold regular_of in Hr. cbn in Hr.
    destruct k; try done. injection Hr as <-. cbn. split; [done|]. apply list_elem_of_fmap. by exists (q, NarDescriptor.Regular size executable). }
  change (NoDup ((λ e : string * string * Z * bool, e.1.1) <$> (ROOTS ≫= λ name, match dget name ds with
    | Some d => omap (regular_of name) (merge_sort name_le (nodes d)) | None => [] end))).
  rewrite fmap_bind. apply NoDup_bind; [| |apply roots_nodup].
  - intros n1 n2 y _ _ H1 H2. destruct (dget n1 ds), (dget n2 ds); try (by apply elem_of_nil in H1 || by apply elem_of_nil in H2).
    apply Hkey in H1 as [<- _], H2 as [<- _]. done.
  - intros name _. destruct (dget name ds) as [d|] eqn:E; [|constructor].
    assert (NoDup (dkeys (merge_sort name_le (nodes d)))) as Hd by (unfold dkeys; rewrite merge_sort_Permutation; by eapply Hnd).
    induction (merge_sort name_le (nodes d)) as [|[q k] l IH]; [constructor|]. cbn in Hd. apply NoDup_cons in Hd as [Hq Hd].
    cbn. destruct k; cbn; auto. apply NoDup_cons. split; [|auto]. intros [_ Hin]%Hkey. done.
Qed.

(** The data of each file, by its tree and path *)
Lemma keyed {A K} `{EqDecision K} (key : A → K) (l : list A) (datas : list bytes) :
  NoDup (key <$> l) → length l = length datas → ∃ content, datas = (λ a, content (key a)) <$> l.
Proof.
  revert datas. induction l as [|a l IH]; intros [|d datas] Hnd Hlen; try done; [by exists (λ _, [])|].
  cbn in Hnd. apply NoDup_cons in Hnd as [Ha Hnd]. injection Hlen as Hlen. destruct (IH _ Hnd Hlen) as [f ->].
  exists (λ k, if bool_decide (k = key a) then d else f k). cbn. rewrite bool_decide_true by done. f_equal.
  apply list_fmap_ext. intros i b Hb. rewrite bool_decide_false; [done|]. intros Heq. apply Ha. rewrite <-Heq.
  apply list_elem_of_fmap. exists b. split; [done|]. by eapply list_elem_of_lookup_2.
Qed.

(** ** What is laid down *)
Definition placed (content : string * string → bytes) (name path : string) (k : NarDescriptor.kind) : obj :=
  match k with
  | NarDescriptor.Directory => ODir 365
  | NarDescriptor.Regular _ executable => OFile (content (name, path)) (if (executable : bool) then 365 else 292)
  | NarDescriptor.Symlink target => OLink target
  end.

Inductive laid (pl : plan) (content : string * string → bytes) : path → obj → Prop :=
  | laid_worker : laid pl content [] (ODir 448)
  | laid_home : laid pl content ["home"] (ODir 448)
  | laid_pair : laid pl content ["pair"] (ODir 365)
  | laid_receipt : laid pl content ["pair"; "receipt.json"] (OFile (raw_pair pl) 292)
  | laid_inventory : laid pl content ["pair"; "inventory.json"] (OFile (raw_inventory pl) 292)
  | laid_node name d path k : (name, d) ∈ trees pl → (path, k) ∈ nodes d → laid pl content (node_path name path) (placed content name path k).

(** The plan as [read_plan] returns it *)
Record trees_ok (ds : list (string * descriptor)) : Prop := {
  o_names : dkeys ds = ROOTS;
  o_trees : ∀ name d, (name, d) ∈ ds → tree_ok d;
}.

Lemma trees_dget ds name d : trees_ok ds → dget name ds = Some d ↔ (name, d) ∈ ds.
Proof.
  intros [Hn _]. split; [apply dget_Some_elem|]. apply dget_NoDup. rewrite Hn. apply roots_nodup.
Qed.
Lemma trees_root ds name d : trees_ok ds → (name, d) ∈ ds → name ∈ ROOTS.
Proof. intros [Hn _] Hd. rewrite <-Hn. apply list_elem_of_fmap. by exists (name, d). Qed.
Lemma trees_some ds name : trees_ok ds → name ∈ ROOTS → ∃ d, (name, d) ∈ ds.
Proof. intros [Hn _] Hd. rewrite <-Hn in Hd. apply list_elem_of_fmap in Hd as ([n d] & -> & Hd). by exists d. Qed.

Lemma entries_sizes ds : trees_ok ds → Forall (λ e, 0 <= e.1.2) (entries ds).
Proof.
  intros Hok. apply Forall_forall. intros [[[name path] size] x] (_ & d & Hd%(trees_dget _ _ _ Hok) & Hp)%elem_of_entries.
  apply (t_sizes _ (o_trees _ Hok _ _ Hd) _ _ Hp).
Qed.

(** The places are all different. *)
Lemma node_path_shape name path : name ∈ ROOTS →
  (name = "artifact" ∧ node_path name path = "artifact" :: NarDescriptor.parts_of path)
  ∨ (name ∈ NAMES ∧ node_path name path = "pair" :: name :: NarDescriptor.parts_of path).
Proof.
  unfold ROOTS, node_path, root_path. rewrite elem_of_app, list_elem_of_singleton. intros [Hn| ->].
  - right. rewrite bool_decide_false; [done|]. intros ->. unfold NAMES in Hn; set_solver.
  - left. done.
Qed.
Lemma node_path_inj name path name' path' : name ∈ ROOTS → name' ∈ ROOTS → node_path name path = node_path name' path' → name = name' ∧ path = path'.
Proof.
  intros H1 H2 Heq. destruct (node_path_shape name path H1) as [[-> E1]|[_ E1]], (node_path_shape name' path' H2) as [[-> E2]|[_ E2]];
    rewrite E1, E2 in Heq; try done; injection Heq as ?; simplify_eq; split; try done; by apply NarDescriptor.parts_of_inj.
Qed.
Lemma node_path_fixed name path : name ∈ ROOTS →
  node_path name path ∉ [[]; ["home"]; ["pair"]; ["pair"; "receipt.json"]; ["pair"; "inventory.json"]].
Proof.
  intros H1 Hin. destruct (node_path_shape name path H1) as [[-> E1]|[Hn E1]]; rewrite E1, !elem_of_cons, elem_of_nil in Hin;
    destruct_or! Hin; try done; injection Hin as -> _; unfold NAMES in Hn; set_solver.
Qed.
Lemma node_unique ds name d path k name' d' path' k' : trees_ok ds → (name, d) ∈ ds → (path, k) ∈ nodes d → (name', d') ∈ ds → (path', k') ∈ nodes d' →
  node_path name path = node_path name' path' → name = name' ∧ path = path' ∧ k = k'.
Proof.
  intros Hok H1 H2 H3 H4 Heq. destruct (node_path_inj _ _ _ _ (trees_root _ _ _ Hok H1) (trees_root _ _ _ Hok H3) Heq) as [-> ->].
  split_and!; [done..|]. apply (trees_dget _ _ _ Hok) in H1 as E1, H3 as E3. rewrite E1 in E3. injection E3 as <-.
  pose proof (t_nodup _ (o_trees _ Hok _ _ H1)) as Hnd. apply (dget_NoDup _ _ _ Hnd) in H2, H4. congruence.
Qed.

(** ** The final tree *)
Lemma inserts_cons op ops t : inserts (op :: ops) t = inserts ops (<[op.1 := op.2]> t).
Proof. done. Qed.
Lemma inserts_out ops t q : (∀ o, (q, o) ∉ ops) → inserts ops t !! q = t !! q.
Proof.
  revert t. induction ops as [|[q' o] ops IH]; intros t Hq; [done|]. rewrite inserts_cons, IH by (intros o' Ho; apply (Hq o'); by right).
  apply lookup_insert_ne. cbn. intros ->. apply (Hq o). left.
Qed.
Lemma inserts_in ops t q o : (q, o) ∈ ops → (∀ o', (q, o') ∈ ops → o' = o) → inserts ops t !! q = Some o.
Proof.
  revert t. induction ops as [|[q' o'] ops IH]; intros t Hin Hu; [by apply elem_of_nil in Hin|]. rewrite inserts_cons.
  destruct (decide (Exists (λ op, op.1 = q) ops)) as [([q1 o1] & Ho & Hq)%Exists_exists|Hout]; cbn in *.
  - subst q1. rewrite (Hu o1 ltac:(by right)) in Ho. apply IH; [done|]. intros. apply Hu. by right.
  - rewrite inserts_out; [|intros o1 Ho; apply Hout, Exists_exists; by exists (q, o1)].
    apply elem_of_cons in Hin as [[= <- <-]|Hin]; [by rewrite lookup_insert_eq|]. destruct Hout. apply Exists_exists. by exists (q, o).
Qed.
Lemma inserts_key ops t q o : inserts ops t !! q = Some o → (∃ o', (q, o') ∈ ops) ∨ t !! q = Some o.
Proof.
  revert t. induction ops as [|[q' o'] ops IH]; intros t; [by right|]. rewrite inserts_cons. intros [[o1 Ho]|Ho]%IH; [left; exists o1; by right|].
  cbn in Ho. destruct (decide (q = q')) as [->|Hne]; [left; exists o'; left|]. rewrite lookup_insert_ne in Ho by done. by right.
Qed.

Section Layout.
Context (pl : plan) (content : string * string → bytes) (Hok : trees_ok (trees pl)).

Abbreviation files := ((λ e, content e.1.1) <$> entries (trees pl)).

(** The place of a node, and what an operation may leave there: the node's own
    object, or a directory that is still open *)
Definition at_node (q : path) (o : obj) (opened : Prop) : Prop :=
  ∃ name d path k, (name, d) ∈ trees pl ∧ (path, k) ∈ nodes d ∧ q = node_path name path
    ∧ (o = placed content name path k ∨ (opened ∧ k = NarDescriptor.Directory ∧ o = ODir 448)).

Lemma elem_of_dirs q o : (q, o) ∈ (trees pl ≫= dir_ops) → at_node q o True.
Proof.
  intros ([name d] & Hin & Hd)%list_elem_of_bind. apply list_elem_of_bind in Hin as ([path k] & Hin & Hp).
  rewrite merge_sort_Permutation in Hp. unfold dir_op in Hin. cbn in *. destruct (_ || _) eqn:E; [by apply elem_of_nil in Hin|].
  apply list_elem_of_singleton in Hin as [= -> ->]. exists name, d, path, k. split_and!; [done..|]. right. by destruct k.
Qed.

Lemma elem_of_files q o : (q, o) ∈ zip_with file_op (entries (trees pl)) files → at_node q o False.
Proof.
  rewrite zip_with_fmap_r, zip_with_diag. intros ([[[name path] size] x] & [= -> ->] & He)%list_elem_of_fmap.
  apply elem_of_entries in He as (_ & d & Hd%(trees_dget _ _ _ Hok) & Hp). exists name, d, path, (NarDescriptor.Regular size x).
  split_and!; [done..|]. by left.
Qed.

Lemma elem_of_finish q o : (q, o) ∈ (trees pl ≫= finish_ops) → at_node q o False.
Proof.
  intros ([name d] & Hin & Hd)%list_elem_of_bind. apply elem_of_app in Hin as [Hin|Hin]; apply list_elem_of_bind in Hin as ([path k] & Hin & Hp).
  - unfold link_op in Hin. cbn in *. destruct k as [| target |]; try (by apply elem_of_nil in Hin).
    apply list_elem_of_singleton in Hin as [= -> ->]. exists name, d, path, (NarDescriptor.Symlink target). split_and!; [done..|]. by left.
  - apply list_elem_of_singleton in Hin as [= -> ->]. rewrite elem_of_reverse, merge_sort_Permutation, list_elem_of_filter in Hp.
    destruct Hp as [Hk Hp]. cbn in *. destruct k; try done. exists name, d, path, NarDescriptor.Directory. split_and!; [done..|]. by left.
Qed.

(** Every entry of the script but those of the fixed places is at a node. *)
Definition fixed : list (path * obj) :=
  [(["home"], ODir 448); (["pair"], ODir 448); (["pair"; "receipt.json"], OFile (raw_pair pl) 292);
   (["pair"; "inventory.json"], OFile (raw_inventory pl) 292); (["pair"], ODir 365)].

Lemma at_root name : name ∈ ROOTS → at_node (node_path name "") (ODir 448) True.
Proof.
  intros Hn. destruct (trees_some _ _ Hok Hn) as [d Hd]. exists name, d, "", NarDescriptor.Directory.
  split_and!; [done| |done|by right]. apply (o_trees _ Hok _ _ Hd).
Qed.

Lemma elem_of_script q o : (q, o) ∈ script pl files → (q, o) ∈ fixed ∨ at_node q o True.
Proof.
  assert (∀ q o, at_node q o False → at_node q o True) as Hweak.
  { intros ? ? (name & d & path & k & ? & ? & ? & [?|[[] _]]). exists name, d, path, k. split_and!; [done..|]. by left. }
  unfold script. rewrite !elem_of_app. intros [Hin|[Hin|[Hin|[Hin|[Hin|[Hin|Hin]]]]]].
  - rewrite !elem_of_cons, elem_of_nil in Hin. destruct Hin as [[= -> ->]|[[= -> ->]|[[= -> ->]|[]]]];
      [left; by do 1 right; left|right|left; left]. apply (at_root "artifact"). by do 2 right; left.
  - right. apply list_elem_of_fmap in Hin as (name & [= -> ->] & Hn).
    assert (name ∈ ROOTS) as Hr by (unfold ROOTS; rewrite elem_of_app; by left). pose proof (at_root _ Hr) as Ha.
    destruct (node_path_shape name "" Hr) as [[-> _]|[_ E]]; [unfold NAMES in Hn; set_solver|]. by rewrite E in Ha.
  - right. by apply elem_of_dirs.
  - right. by apply Hweak, elem_of_files.
  - right. by apply Hweak, elem_of_finish.
  - left. rewrite !elem_of_cons, elem_of_nil in Hin. destruct Hin as [[= -> ->]|[[= -> ->]|[]]]; [do 2 right; left|do 3 right; left].
  - left. apply list_elem_of_singleton in Hin as [= -> ->]. do 4 right. left.
Qed.

Lemma fixed_places q o : (q, o) ∈ fixed → q ∈ [[]; ["home"]; ["pair"]; ["pair"; "receipt.json"]; ["pair"; "inventory.json"]] ∧ q ≠ [].
Proof. unfold fixed. rewrite !elem_of_cons, elem_of_nil. intros Hin. destruct_or! Hin; try done; injection Hin as -> ->; (split; [tauto|done]). Qed.

Lemma at_node_place q o b : at_node q o b → q ∉ [[]; ["home"]; ["pair"]; ["pair"; "receipt.json"]; ["pair"; "inventory.json"]].
Proof. intros (name & d & path & k & Hd & _ & -> & _). apply node_path_fixed. by eapply trees_root. Qed.

(** At a node's place only the node's own entries stand. *)
Lemma at_node_own name d path k o b : (name, d) ∈ trees pl → (path, k) ∈ nodes d → at_node (node_path name path) o b →
  o = placed content name path k ∨ (b ∧ k = NarDescriptor.Directory ∧ o = ODir 448).
Proof.
  intros Hd Hp (name' & d' & path' & k' & Hd' & Hp' & Heq & Ho).
  destruct (node_unique _ _ _ _ _ _ _ _ _ Hok Hd Hp Hd' Hp' Heq) as (-> & -> & ->). done.
Qed.

Lemma script_fixed q o : (q, o) ∈ fixed → q ≠ ["pair"] → (q, o) ∈ script pl files → inserts (script pl files) empty_worker !! q = Some o.
Proof.
  intros Hf Hq Hs. apply inserts_in; [done|]. intros o' [Hf'|Hn]%elem_of_script.
  - unfold fixed in Hf, Hf'. rewrite !elem_of_cons, elem_of_nil in Hf, Hf'. destruct_or! Hf; destruct_or! Hf'; try done; simplify_eq; done.
  - apply at_node_place in Hn. by apply fixed_places in Hf as [? _].
Qed.

Definition closing : list (path * obj) :=
  (trees pl ≫= finish_ops)
  ++ [(["pair"; "receipt.json"], OFile (raw_pair pl) 292); (["pair"; "inventory.json"], OFile (raw_inventory pl) 292)]
  ++ [(["pair"], ODir 365)].
Lemma script_split : ∃ opening, script pl files = opening ++ closing.
Proof. eexists. unfold script, closing. by rewrite !(assoc_L (++)). Qed.
Lemma elem_of_closing q o : (q, o) ∈ closing → (q, o) ∈ fixed ∨ at_node q o False.
Proof.
  unfold closing. rewrite !elem_of_app. intros [Hin|[Hin|Hin]]; [right; by apply elem_of_finish|left..].
  - rewrite !elem_of_cons, elem_of_nil in Hin. destruct Hin as [[= -> ->]|[[= -> ->]|[]]]; [do 2 right; left|do 3 right; left].
  - apply list_elem_of_singleton in Hin as [= -> ->]. do 4 right. left.
Qed.

Lemma laid_lookup q o : laid pl content q o → inserts (script pl files) empty_worker !! q = Some o.
Proof.
  intros [| | | | |name d path k Hd Hp].
  - rewrite inserts_out; [done|]. intros o' [[_ ?]%fixed_places|Hn]%elem_of_script; [done|]. apply at_node_place in Hn. apply Hn. left.
  - apply script_fixed; [left|done|]. unfold script. rewrite !elem_of_app. left. do 2 right. left.
  - unfold script. rewrite !(assoc_L (++)), inserts_app. cbn. by rewrite lookup_insert_eq.
  - apply script_fixed; [do 2 right; left|done|]. unfold script. rewrite !elem_of_app. do 5 right. left. left.
  - apply script_fixed; [do 3 right; left|done|]. unfold script. rewrite !elem_of_app. do 5 right. left. right. left.
  - assert (name ∈ ROOTS) as Hr by by eapply trees_root. pose proof (node_path_fixed name path Hr) as Hplace.
    assert (∀ o' b, (node_path name path, o') ∈ fixed ∨ at_node (node_path name path) o' b →
      o' = placed content name path k ∨ (b ∧ k = NarDescriptor.Directory ∧ o' = ODir 448)) as Hown.
    { intros o' b [[? _]%fixed_places|Hn]; [done|]. by eapply at_node_own. }
    destruct k as [size x|target|].
    + apply inserts_in.
      * unfold script. rewrite !elem_of_app. do 3 right. left. rewrite zip_with_fmap_r, zip_with_diag.
        apply list_elem_of_fmap. exists (name, path, size, x). split; [done|]. apply elem_of_entries. split; [done|].
        exists d. split; [by apply trees_dget|done].
      * intros o' [ ->|(_ & ? & _)]%elem_of_script%Hown; done.
    + apply inserts_in.
      * unfold script. rewrite !elem_of_app. do 4 right. left. apply list_elem_of_bind. exists (name, d). split; [|done].
        apply elem_of_app. left. apply list_elem_of_bind. exists (path, NarDescriptor.Symlink target). split; [by left|done].
      * intros o' [ ->|(_ & ? & _)]%elem_of_script%Hown; done.
    + destruct script_split as [opening ->]. rewrite inserts_app. apply inserts_in.
      * unfold closing. rewrite !elem_of_app. left. apply list_elem_of_bind. exists (name, d). split; [|done].
        apply elem_of_app. right. apply list_elem_of_bind. exists (path, NarDescriptor.Directory). split; [by left|].
        rewrite elem_of_reverse, merge_sort_Permutation, list_elem_of_filter. done.
      * intros o' [ ->|([] & _)]%elem_of_closing%Hown; done.
Qed.

(** The tree a finished script leaves is exactly what was to be laid. *)
Lemma script_laid q o : inserts (script pl files) empty_worker !! q = Some o ↔ laid pl content q o.
Proof.
  split; [|apply laid_lookup]. intros Ho. assert (∃ o', laid pl content q o') as [o' Hl]; [|apply laid_lookup in Hl as Ho'; congruence].
  apply inserts_key in Ho as [[o' [Hf|(name & d & path & k & Hd & Hp & -> & _)]%elem_of_script]|Ho].
  - unfold fixed in Hf. rewrite !elem_of_cons, elem_of_nil in Hf. destruct_or! Hf; try done; injection Hf as -> ->; eexists; constructor.
  - eexists. by eapply laid_node.
  - unfold empty_worker in Ho. apply lookup_singleton_Some in Ho as [<- <-]. eexists. constructor.
Qed.
End Layout.

(** ** Reading the plan *)
Section Plan.
Context {S : Type} `{StreamLaws S} (loads : (list (string * value) → res value) → bytes → res value).
Context (PAIR_SHA ARTIFACT_SHA : string).

Lemma read_part_spec acc maximum parts s' : read_part acc maximum = Ok (parts, s') →
  ∃ part, parts = acc.1 ++ [part] ∧ rest acc.2 = frame part ++ rest s' ∧ 0 < zlen part <= maximum.
Proof.
  destruct acc as [before s]. cbn [fst snd]. unfold read_part. intros ([field s1] & H1%exact_spec & (u & Hu%ensure_Ok%bool_decide_eq_true & ([part s2] & H2 & [= <- <-])%bind_Ok)%bind_Ok)%bind_Ok; [|lia].
  destruct H1 as [R1 L1]. apply exact_spec in H2 as [R2 L2]; [|lia]. exists part. split_and!; [done| |lia|lia].
  unfold frame. rewrite L2, encode_decode by (unfold zlen in L1; lia). by rewrite R1, R2, app_assoc.
Qed.

Lemma read_parts_spec bounds s parts s' : forM read_part bounds ([], s) = Ok (parts, s') →
  rest s = concat (frame <$> parts) ++ rest s' ∧ Forall2 (λ maximum part, 0 < zlen part <= maximum) bounds parts.
Proof.
  apply (forM_inv _ (λ done acc, rest s = concat (frame <$> acc.1) ++ rest acc.2 ∧ Forall2 (λ maximum part, 0 < zlen part <= maximum) done acc.1)
    bounds ([], s) (parts, s')); [done|].
  intros before maximum [parts1 s1] [parts2 s2] [R1 F1] _ (part & -> & R2 & Hl)%read_part_spec. cbn [fst snd] in *. split.
  - rewrite fmap_app, concat_app, R1, R2, fmap_cons, fmap_nil, concat_cons, concat_nil, app_nil_r. by rewrite app_assoc.
  - apply Forall2_app; [done|]. by constructor.
Qed.

Record plan_ok (lock : bytes) (pl : plan) : Prop := {
  q_pair : ∃ receipt ds, pair_metadata loads PAIR_SHA lock (raw_pair pl) (raw_inventory pl) = Ok (receipt, ds)
    ∧ pair_ok loads PAIR_SHA lock (raw_pair pl) (raw_inventory pl) receipt ds
    ∧ ∃ artifact, artifact_nodes loads (raw_nodes pl) = Ok artifact ∧ trees pl = ds ++ [("artifact", artifact)] ∧ tree_ok artifact
      ∧ (∀ path target, (path, NarDescriptor.Symlink target) ∉ nodes artifact);
  q_lengths : Forall (λ part, 0 < zlen part <= MAX_INVENTORY_BYTES) [raw_pair pl; raw_inventory pl; raw_artifact pl; raw_nodes pl];
  q_artifact : HmPair.sha (raw_artifact pl) = ARTIFACT_SHA;
  q_logical : logical pl = sizes (entries (trees pl)) + zlen (raw_pair pl) + zlen (raw_inventory pl) ∧ logical pl <= DISK_BUDGET;
}.

Lemma artifact_nodes_Ok raw d : artifact_nodes loads raw = Ok d → tree_ok d ∧ ∀ path target, (path, NarDescriptor.Symlink target) ∉ nodes d.
Proof.
  intros (v & _ & (d' & [Hd _]%checked_nodes_sound & (u & Hu%ensure_Ok & (u' & _ & [= <-])%bind_Ok)%bind_Ok)%bind_Ok)%bind_Ok.
  split; [done|]. intros path target Hin. apply andb_true_iff in Hu as [_ Hu]. rewrite forallb_forall in Hu.
  apply list_elem_of_In in Hin. by specialize (Hu _ Hin).
Qed.

Lemma read_plan_spec s lock compact pl s' : read_plan loads PAIR_SHA ARTIFACT_SHA s lock compact = Ok (pl, s') →
  rest s = MAGIC ++ concat (frame <$> [raw_pair pl; raw_inventory pl; raw_artifact pl; raw_nodes pl]) ++ rest s' ∧ plan_ok lock pl.
Proof.
  intros ([magic s1] & H1%exact_spec & (u & Hm%ensure_Ok%bool_decide_eq_true & ([parts s2] & [R2 F2]%read_parts_spec & Hp)%bind_Ok)%bind_Ok)%bind_Ok; [|done].
  destruct H1 as [R1 _]. subst magic. destruct parts as [|a [|b [|c [|n [|]]]]]; try done.
  apply bind_Ok in Hp as ([receipt ds] & Hmeta & Hp). pose proof (pair_metadata_sound _ _ _ _ _ _ _ Hmeta) as Hpair.
  apply bind_Ok in Hp as (art & Hart & Hp). apply bind_Ok in Hp as (artifact & Hnodes & Hp). pose proof (artifact_nodes_Ok _ _ Hnodes) as [Hd Hl]. apply bind_Ok in Hp as (? & Hb%ensure_Ok%bool_decide_eq_true & Hp).
  apply bind_Ok in Hp as (? & _ & [= <- <-]). cbn. split; [by rewrite R1, R2|].
  assert (dset "artifact" artifact ds = ds ++ [("artifact", artifact)]) as E.
  { apply dset_new. rewrite (p_names _ _ _ _ _ _ _ Hpair). unfold NAMES. set_solver. }
  split; cbn.
  - exists receipt, ds. split_and!; [done..|]. by exists artifact.
  - unfold HEADER_BOUNDS, MAX_RECEIPT_BYTES in F2. unfold MAX_INVENTORY_BYTES in *.
    repeat (apply Forall2_cons in F2 as [? F2]). repeat (apply Forall_cons; split; [lia|]). constructor.
  - unfold validate_receipt in Hart. apply bind_Ok in Hart as (? & Hs%ensure_Ok & _). ok_inv. done.
  - done.
Qed.

Lemma plan_trees lock pl : plan_ok lock pl → trees_ok (trees pl).
Proof.
  intros [(receipt & ds & _ & Hp & artifact & _ & -> & Ha & _) _ _ _]. split.
  - unfold dkeys. rewrite fmap_app. fold (dkeys ds). by rewrite (p_names _ _ _ _ _ _ _ Hp).
  - intros name d [Hd|[= -> ->]%list_elem_of_singleton]%elem_of_app; [|done]. by eapply (p_trees _ _ _ _ _ _ _ Hp).
Qed.

(** Links stand in the trees of the pair, and lead, read lexically, nowhere
    above the tree they stand in. *)
Lemma laid_link content lock pl q target : plan_ok lock pl → laid pl content q (OLink target) →
  ∃ name path, name ∈ NAMES ∧ q = node_path name path ∧ stays (length (NarDescriptor.parts_of path) - 1) (str_split "/" target).
Proof.
  intros Hpl Hl. inversion Hl as [| | | | |name d path k Hd Hp E1 E2]; subst. destruct k as [|target'|]; try done. injection E2 as ->.
  destruct (q_pair _ _ Hpl) as (receipt & ds & _ & Hpair & artifact & _ & Ht & Ha & Hn). rewrite Ht in Hd.
  apply elem_of_app in Hd as [Hd|[= -> ->]%list_elem_of_singleton]; [|by apply Hn in Hp]. exists name, path. split_and!; [|done|].
  - rewrite <-(p_names _ _ _ _ _ _ _ Hpair). apply list_elem_of_fmap. by exists (name, d).
  - by apply (t_links _ (p_trees _ _ _ _ _ _ _ Hpair _ _ Hd)).
Qed.

(** C35: whatever the stream does between the calls, an accepted bundle is exactly
    its framing: the magic, four framed parts and the files of the three trees,
    nothing after them.  The parts are the pinned receipts and what they bind.
    The private tree has exactly the declared objects, each file with its own
    bytes of the stream, every directory of the trees and every file closed to
    writing; each link stays inside its tree; and the budgets hold. *)
Theorem materialize_exact s lock compact acct p raw
    (Hacct : account_ok acct)
    (Hrun : materialize loads PAIR_SHA ARTIFACT_SHA s lock compact acct = Ok (p, raw)) :
  ∃ pl content, plan_ok lock pl ∧ raw = raw_artifact pl
    ∧ rest s = MAGIC ++ concat (frame <$> [raw_pair pl; raw_inventory pl; raw_artifact pl; raw_nodes pl])
        ++ concat ((λ e, content e.1.1) <$> entries (trees pl))
    ∧ (∀ e, e ∈ entries (trees pl) → zlen (content e.1.1) = e.1.2)
    ∧ (∀ q o, objects p !! q = Some o ↔ laid pl content q o)
    ∧ (∀ q target, objects p !! q = Some (OLink target) → ∃ name path, name ∈ NAMES ∧ q = node_path name path
         ∧ stays (length (NarDescriptor.parts_of path) - 1) (str_split "/" target))
    ∧ rest (stream p) = [] ∧ allocated p <= DISK_BUDGET ∧ account_ok (account p).
Proof.
  apply bind_Ok in Hrun as ([pl s1] & [R1 Hpl]%read_plan_spec & (p1 & Hb & [= <- <-])%bind_Ok).
  pose proof (plan_trees _ _ Hpl) as Hok.
  destruct (build_did _ _ _ (entries_sizes _ Hok) Hb) as (datas & Hlen & (R2 & O2 & A2) & Hend & Hfit & _).
  destruct (keyed (λ e : string * string * Z * bool, e.1.1) (entries (trees pl)) datas) as [content ->].
  { apply entries_nodup. intros name d Hd%(trees_dget _ _ _ Hok). apply (o_trees _ Hok _ _ Hd). }
  { by eapply Forall2_length. }
  assert (∀ q o, objects p1 !! q = Some o ↔ laid pl content q o) as Hlaid by (intros; rewrite O2; by apply script_laid).
  exists pl, content. split_and!; [done|done| | |done| |done|done|auto].
  - cbn in R2. rewrite R1, R2, Hend. by rewrite app_nil_r.
  - rewrite Forall2_fmap_r in Hlen. intros e [i Hi]%list_elem_of_lookup_1. by apply (Forall2_lookup_lr _ _ _ _ _ _ Hlen Hi Hi).
  - intros q target Hl%Hlaid. by eapply laid_link.
Qed.
End Plan.
(** ** Every loop ends *)
Section Ends.
Context {S : Type} `{StreamLaws S} (loads : (list (string * value) → res value) → bytes → res value).
Context (PAIR_SHA ARTIFACT_SHA : string).
Hypothesis loads_raises : ∀ hook payload, loads hook payload ≠ Err NoFuel.
Abbreviation ends := (raises (λ e, e ≠ NoFuel)).

Lemma ends_intro {A} (m : res A) : m ≠ Err NoFuel → ends m.
Proof. intros Hm e He ->. done. Qed.
Lemma ends_stream c (p : private) : ends (on_stream c p).
Proof. apply raises_bind; [apply ends_intro, call_raises|]. intros. apply raises_ok. Qed.
Lemma ends_require b reason : ends (require b reason).
Proof. by apply raises_ensure. Qed.
Lemma ends_test v k f : ends (test v k f).
Proof. apply raises_bind; [|intros; apply raises_ok]. destruct v; try (by apply raises_err). cbn. case_match; [apply raises_ok|by apply raises_err]. Qed.
#[local] Hint Resolve ends_stream ends_require ends_test : omux.

Lemma ends_relative path root : ends (relative path root).
Proof. unfold relative. solve_raises. Qed.
Lemma ends_dir_at t q : ends (dir_at t q).
Proof. unfold dir_at. repeat case_match; solve_raises. Qed.
#[local] Hint Resolve ends_relative ends_dir_at : omux.
Lemma ends_parent_fd t root name : ends (parent_fd t root name).
Proof. unfold parent_fd. solve_raises. Qed.
Lemma ends_add_entry t parent leaf o : ends (add_entry t parent leaf o).
Proof. unfold add_entry. solve_raises. Qed.
Lemma ends_fchmod t q mode : ends (fchmod t q mode).
Proof. unfold fchmod. repeat case_match; solve_raises. Qed.
#[local] Hint Resolve ends_parent_fd ends_add_entry ends_fchmod : omux.

Lemma ends_make parent leaf o (p : private) : ends (make parent leaf o p).
Proof. unfold make. solve_raises. Qed.
Lemma ends_chmod at_ mode (p : private) : ends (chmod at_ mode p).
Proof. unfold chmod. solve_raises. Qed.
Lemma ends_local_tick (p : private) : ends (local_tick p).
Proof. unfold local_tick. solve_raises. Qed.
Lemma ends_check_held at_ (p : private) : ends (check_held at_ p).
Proof. unfold check_held. solve_raises. Qed.
#[local] Hint Resolve ends_make ends_chmod ends_local_tick ends_check_held : omux.

Lemma ends_held at_ f (p : private) : (∀ p, ends (f p)) → ends (held at_ f p).
Proof. intros Hf. unfold held. solve_raises. Qed.
Lemma ends_charge_at logical at_ (p : private) : ends (charge_at logical at_ p).
Proof.
  unfold charge_at. apply raises_bind; [apply ends_intro, stat_raises|]. intros [i s]. unfold charge_blocks, account_record, record.
  solve_raises.
Qed.
#[local] Hint Resolve ends_charge_at : omux.
Lemma ends_finish_one logical (p : private) : ends (finish_one logical p).
Proof. unfold finish_one. case_match; solve_raises. Qed.
#[local] Hint Resolve ends_finish_one : omux.
Lemma ends_submit logical at_ (p : private) : ends (submit logical at_ p).
Proof. unfold submit. solve_raises. Qed.

Lemma finish_one_syncs logical (p p' : private) : finish_one logical p = Ok p' → syncs p' = tail (syncs p).
Proof. unfold finish_one. destruct (syncs p); [done|]. intros H1. skip_steps 5 in H1. by injection H1 as <-. Qed.
Lemma ends_drain_loop logical n : ∀ p : private, (length (syncs p) <= n)%nat → ends (drain_loop n logical p).
Proof.
  induction n as [|n IH]; intros p Hn; cbn [drain_loop]; destruct (syncs p) as [|a q] eqn:E; try apply ends_local_tick; [cbn in Hn; lia|].
  apply raises_bind_eq; [apply ends_finish_one|]. intros p' Hp%finish_one_syncs. apply IH. rewrite Hp, E. cbn in *. lia.
Qed.
Lemma ends_drain logical (p : private) : ends (drain logical p).
Proof. by apply ends_drain_loop. Qed.

Lemma ends_exact_loop fuel : ∀ (s : S) remaining parts, 0 <= remaining <= Z.of_nat fuel → ends (exact_loop fuel s remaining parts).
Proof.
  induction fuel as [|fuel IH]; intros s remaining parts Hr; cbn [exact_loop]; case_bool_decide; try apply raises_ok; [lia|].
  apply raises_bind; [apply ends_intro, call_raises|]. intros s1. apply raises_bind_eq; [apply ends_intro, read_raises; lia|].
  intros [part s2] (_ & Hle & _)%read_rest; [|lia]. apply raises_bind_eq; [apply ends_require|].
  intros u Hu%ensure_Ok%bool_decide_eq_true. apply IH. destruct part as [|b part]; [done|]. rewrite zlen_cons in *. pose proof (zlen_nonneg part). lia.
Qed.
Lemma ends_exact (s : S) n : 0 <= n → ends (exact s n).
Proof. intros Hn. apply ends_exact_loop. lia. Qed.

Lemma ends_write_loop fuel at_ : ∀ data (p : private), (length data <= fuel)%nat → ends (write_loop fuel at_ data p).
Proof.
  induction fuel as [|fuel IH]; intros data p Hl; cbn [write_loop]; destruct data as [|b data]; try apply raises_ok; [cbn in Hl; lia|].
  apply raises_bind; [apply ends_stream|]. intros p1. apply raises_bind; [apply ends_intro, write_raises|]. intros [amount s].
  apply raises_bind_eq; [apply ends_require|]. intros u Hu%ensure_Ok%bool_decide_eq_true. apply raises_bind; [repeat case_match; solve_raises|].
  intros t. apply IH. rewrite length_drop. cbn in *. lia.
Qed.
Lemma ends_write_all at_ data (p : private) : ends (write_all at_ data p).
Proof. by apply ends_write_loop. Qed.
Lemma ends_fill fuel at_ : ∀ remaining (p : private), 0 <= remaining <= Z.of_nat fuel → ends (fill fuel at_ remaining p).
Proof.
  induction fuel as [|fuel IH]; intros remaining p Hr; cbn [fill]; case_bool_decide; try apply raises_ok; [lia|].
  apply raises_bind_eq; [apply ends_exact; lia|]. intros [data s] [_ Hlen]%exact_spec; [|lia].
  apply raises_bind; [apply ends_write_all|]. intros p1. apply IH. lia.
Qed.
#[local] Hint Resolve ends_submit ends_drain ends_write_all : omux.

Lemma ends_make_directories (p : private) nd : ends (make_directories p nd).
Proof.
  apply ends_held. intros p1. apply raises_forM. intros p2 node _. unfold make_directory, mkdir. case_match; [apply raises_ok|].
  solve_raises.
Qed.

Lemma ends_make_file logical (p : private) e : 0 <= e.1.2 → ends (make_file logical p e).
Proof.
  destruct e as [[[name path] size] x]. cbn [fst snd]. intros Hs. apply ends_held. intros p1.
  apply raises_bind; [apply ends_stream|]. intros p2. apply raises_bind; [apply ends_parent_fd|]. intros [parent leaf].
  apply raises_bind; [apply ends_make|]. intros p3. apply raises_bind; [apply ends_fill; lia|]. intros p4. solve_raises.
Qed.
Lemma ends_finish_tree logical (p : private) nd : ends (finish_tree logical p nd).
Proof.
  apply ends_held. intros p1. apply raises_bind; [|intros p2]; apply raises_forM; intros p3 node _; unfold make_link, seal_directory; solve_raises.
Qed.
Lemma ends_make_metadata logical (p : private) np : ends (make_metadata logical p np).
Proof. unfold make_metadata. solve_raises. Qed.
#[local] Hint Resolve ends_make_directories ends_finish_tree ends_make_metadata : omux.

Lemma ends_build pl (p : private) : Forall (λ e, 0 <= e.1.2) (entries (trees pl)) → ends (build pl p).
Proof.
  intros Hs. unfold build. apply raises_bind; [unfold mkdir; solve_raises|]. intros p1.
  apply raises_bind; [apply ends_held; intros; unfold mkdir; solve_raises|]. intros p2. apply raises_bind; [solve_raises|]. intros p3.
  apply raises_bind; [apply raises_forM; intros; apply ends_make_file; rewrite Forall_forall in Hs; by apply Hs|]. intros p4.
  apply raises_bind; [apply ends_drain|]. intros p5. apply raises_bind; [apply ends_intro, read_raises; lia|]. intros [extra s].
  apply raises_bind; [apply ends_require|]. intros u. apply raises_bind; [apply ends_stream|]. intros p6. apply raises_bind; [solve_raises|]. intros p7.
  apply raises_bind; [apply ends_held; intros; solve_raises|]. intros p8. apply raises_bind; [apply ends_held; intros; solve_raises|].
  intros p9. unfold leave. solve_raises.
Qed.

Lemma ends_decode payload maximum : ends (decode loads payload maximum).
Proof. apply raises_bind; [apply ends_require|]. intros. apply ends_intro, loads_raises. Qed.
Lemma ends_getitem v k : ends (getitem v k).
Proof. by apply raises_getitem. Qed.
Lemma ends_get v k : ends (get v k).
Proof. by apply raises_get. Qed.
Lemma ends_requireM c reason : ends c → ends (requireM c reason).
Proof. intros Hc. apply raises_bind; [done|]. intros. apply ends_require. Qed.
Lemma ends_fields v names : ends (fields v names).
Proof. apply ends_require. Qed.
#[local] Hint Resolve ends_decode ends_getitem ends_get ends_requireM ends_fields : omux.

Lemma ends_subscript v w : ends (subscript v w).
Proof. unfold subscript, at_index. solve_raises. Qed.
#[local] Hint Resolve ends_subscript : omux.
Lemma ends_paired_lock lock : ends (paired_lock lock).
Proof. unfold paired_lock. solve_raises. Qed.
Lemma ends_checked_nodes v root : ends (checked_nodes v root).
Proof.
  unfold checked_nodes. apply raises_bind; [apply ends_require|]. intros. apply raises_bind; [apply NarDescriptor.fuelled_validate|].
  intros [bp ch]. unfold check_node, link_step. solve_raises.
Qed.
#[local] Hint Resolve ends_paired_lock ends_checked_nodes : omux.
Lemma ends_source_row pins row name : ends (source_row pins row name).
Proof. unfold source_row, pin_of, text_of, requireM. solve_raises. Qed.
#[local] Hint Resolve ends_source_row : omux.
Lemma ends_pair_metadata pair_sha lock rb ib : ends (pair_metadata loads pair_sha lock rb ib).
Proof. unfold pair_metadata, requireM. solve_raises. Qed.
Lemma ends_validate_receipt raw frozen : ends (validate_receipt loads raw frozen).
Proof. unfold validate_receipt, requireM. solve_raises. Qed.
Lemma ends_artifact_nodes raw : ends (artifact_nodes loads raw).
Proof. unfold artifact_nodes. solve_raises. Qed.
#[local] Hint Resolve ends_pair_metadata ends_validate_receipt ends_artifact_nodes : omux.

Lemma ends_read_part acc maximum : ends (read_part acc maximum).
Proof.
  destruct acc as [parts s]. unfold read_part. apply raises_bind; [apply ends_exact; lia|]. intros [field s1].
  apply raises_bind_eq; [apply ends_require|]. intros u Hu%ensure_Ok%bool_decide_eq_true.
  apply raises_bind; [apply ends_exact; lia|]. intros [part s2]. apply raises_ok.
Qed.
Lemma ends_read_plan s lock compact : ends (read_plan loads PAIR_SHA ARTIFACT_SHA s lock compact).
Proof.
  unfold read_plan, requireM. apply raises_bind; [by apply ends_exact|]. intros [magic s1]. apply raises_bind; [apply ends_require|]. intros u.
  apply raises_bind; [apply raises_forM; intros; apply ends_read_part|]. intros [parts s2]. solve_raises.
Qed.

(** Reading, laying out and flushing a bundle always ends, whatever the stream
    yields: each read, write or flush makes progress or raises. *)
Theorem materialize_ends s lock compact acct : materialize loads PAIR_SHA ARTIFACT_SHA s lock compact acct ≠ Err NoFuel.
Proof.
  intros Hm. assert (ends (materialize loads PAIR_SHA ARTIFACT_SHA s lock compact acct)) as He; [|by apply (He _ Hm)].
  apply raises_bind_eq; [apply ends_read_plan|]. intros [pl s1] [_ Hpl]%read_plan_spec. pose proof (plan_trees _ _ _ _ _ Hpl) as Hok.
  apply raises_bind; [|intros; apply raises_ok]. by apply ends_build, entries_sizes.
Qed.
End Ends.

(** ** An opened bundle

    The file [evaluate_bundle] passes: reads and writes are as short as
    [f_chunk] says, and the [n]-th call raises [f_fault n]. *)
Record fstream := FStream { f_rest : bytes; f_clock : nat; f_chunk : nat → Z; f_fault : nat → option exn; f_info : nat → info }.

Definition f_next (s : fstream) (r : bytes) : fstream := FStream r (S (f_clock s)) (f_chunk s) (f_fault s) (f_info s).
Definition f_raise {A} (s : fstream) (a : A) : res A :=
  match FileSync.exception (f_fault s (f_clock s)) with Some e => Err e | None => Ok a end.

#[export] Instance file_stream : Stream fstream := {|
  read s n := let k := Z.to_nat (Z.max 1 (Z.min n (f_chunk s (f_clock s)))) in
              f_raise s (take k (f_rest s), f_next s (drop k (f_rest s)));
  call _ s := f_raise s (f_next s (f_rest s));
  os_write s n := f_raise s (Z.min n (f_chunk s (f_clock s)), f_next s (f_rest s));
  os_stat s _ := f_raise s (f_info s (f_clock s), f_next s (f_rest s));
|}.

Lemma f_raise_Ok {A} s (a b : A) : f_raise s a = Ok b → b = a.
Proof. unfold f_raise. case_match; [done|]. by intros [= <-]. Qed.
Lemma f_raise_fuel {A} s (a : A) : f_raise s a ≠ Err NoFuel.
Proof. unfold f_raise, FileSync.exception. destruct (f_fault s (f_clock s)) as [[]|]; done. Qed.

#[export] Program Instance file_laws : StreamLaws fstream := {| rest := f_rest |}.
Next Obligation.
  intros s n d s' Hn [= -> ->]%f_raise_Ok. cbn. set (k := Z.max 1 _). split_and!; [by rewrite take_drop|unfold zlen; rewrite length_take; lia|].
  intros Ht. destruct (f_rest s); [done|]. destruct (Z.to_nat k) eqn:E; [lia|done].
Qed.
Next Obligation. by intros c s s' ->%f_raise_Ok. Qed.
Next Obligation. intros s n k s' [= -> ->]%f_raise_Ok. cbn. split; [done|lia]. Qed.
Next Obligation. by intros s q i s' [= -> ->]%f_raise_Ok. Qed.
Next Obligation. intros. apply f_raise_fuel. Qed.
Next Obligation. intros. apply f_raise_fuel. Qed.
Next Obligation. intros. apply f_raise_fuel. Qed.
Next Obligation. intros. apply f_raise_fuel. Qed.

(** *** A small bundle *)
Definition node (path type : string) (more : dict) : value := VDict ([("path", VStr path); ("type", VStr type)] ++ more).
Definition ex_tree : value := VList [
  node "" "directory" []; node "doc" "directory" [];
  node "doc/a" "regular" [("size", VInt 3); ("executable", VBool false)];
  node "link" "symlink" [("target", VStr "doc/../doc/a")]].
Definition ex_artifact_tree : value := VList [
  node "" "directory" []; node "run" "regular" [("size", VInt 2); ("executable", VBool true)]].
Definition ex_lock : bytes := fsencode "lock".
Definition ex_inventory : bytes := fsencode "inventory".
Definition ex_receipt : bytes := fsencode "receipt".
Definition ex_artifact : bytes := fsencode "artifact".
Definition ex_nodes : bytes := fsencode "nodes".

Definition ex_pin (name : string) : string * string := default ("", "") (dget name PINS).
Definition ex_row (name : string) : value :=
  let '(owner, repo) := default ("", "") (dget name REPOSITORIES) in
  VDict [("revision", VStr (ex_pin name).1); ("narHash", VStr (ex_pin name).2); ("narSize", VInt 8);
         ("url", VStr (source_url owner repo (ex_pin name).1))].
Definition ex_locked (name : string) (inputs : dict) : value :=
  VDict [("inputs", VDict inputs); ("locked", VDict [("rev", VStr (ex_pin name).1); ("narHash", VStr (ex_pin name).2)])].
Definition ex_values : list (bytes * value) := [
  (ex_lock, VDict [("root", VStr "root"); ("nodes", VDict [
    ("root", VDict [("inputs", VDict [("home-manager", VStr "home-manager"); ("nixpkgs", VStr "nixpkgs")])]);
    ("home-manager", ex_locked "home-manager" [("nixpkgs", VList [VStr "nixpkgs"])]); ("nixpkgs", ex_locked "nixpkgs" [])])]);
  (ex_inventory, VDict [("schemaVersion", VInt 1); ("sources", VDict ((λ name, (name, VDict [("nodes", ex_tree)])) <$> NAMES))]);
  (ex_receipt, VDict [("schemaVersion", VInt 1); ("kind", VStr "omux-home-manager-acquired-pair"); ("lockSha256", VStr (HmPair.sha ex_lock));
    ("inventorySha256", VStr (HmPair.sha ex_inventory)); ("sources", VDict ((λ name, (name, ex_row name)) <$> NAMES))]);
  (ex_artifact, VDict [("schemaVersion", VInt 1); ("kind", VStr "omux-home-manager-development-artifact");
    ("archiveSha256", VStr (HmPair.sha [])); ("archiveBytes", VInt 1); ("manifestSha256", VStr (HmPair.sha []));
    ("narHash", VStr (ex_pin "nixpkgs").2); ("narSize", VInt 1); ("system", VStr "x86_64-linux"); ("channel", VStr "development");
    ("sourceRevision", VStr (ex_pin "nixpkgs").1); ("sourceDirty", VBool true); ("fullQt", VBool true);
    ("nativeBins", VList (VStr <$> NATIVE_BINS)); ("sourceQualification", VStr "caller-declared-dirty-development")]);
  (ex_nodes, ex_artifact_tree)].
Definition ex_loads (_ : dict → res value) (payload : bytes) : res value :=
  match List.find (λ kv, bool_decide (kv.1 = payload)) ex_values with Some kv => Ok kv.2 | None => Err (ValueError "json") end.

Definition ex_bundle : bytes := MAGIC ++ concat (frame <$> [ex_receipt; ex_inventory; ex_artifact; ex_nodes]) ++ fsencode "abcdefgo".
Definition ex_stream : fstream := FStream ex_bundle 0 (λ n, 1 + Z.of_nat n mod 5) (λ _, None) (λ n, Info 1 (Z.of_nat n) 8).
Definition ex_compact : value :=
  VDict [("pairReceiptSha256", VStr (HmPair.sha ex_receipt)); ("artifactReceiptSha256", VStr (HmPair.sha ex_artifact))].
Abbreviation ex_run := (materialize ex_loads (HmPair.sha ex_receipt) (HmPair.sha ex_artifact) ex_stream ex_lock ex_compact None).

Definition outcome {S} (s : S) (r : res (@private S * bytes)) : @private S :=
  match r with Ok (p, _) => p | Err _ => Private s ∅ 0 None [] end.
Definition returned {S} (r : res (@private S * bytes)) : option bytes := match r with Ok (_, raw) => Some raw | Err _ => None end.
Lemma outcome_Ok {S} (s : S) r raw : returned r = Some raw → r = Ok (outcome s r, raw).
Proof. destruct r as [[p raw']|]; [|done]. by intros [= ->]. Qed.

Definition ex_private : @private fstream := outcome ex_stream ex_run.
Lemma ex_run_ok : ex_run = Ok (ex_private, ex_artifact).
Proof. apply (outcome_Ok ex_stream). vm_compute. reflexivity. Qed.
Lemma ex_run_link : objects ex_private !! ["pair"; "nixpkgs"; "link"] = Some (OLink "doc/../doc/a").
Proof. vm_compute. reflexivity. Qed.

Lemma materialize_exact_witness :
  ∃ name path, name ∈ NAMES ∧ ["pair"; "nixpkgs"; "link"] = node_path name path
    ∧ stays (length (NarDescriptor.parts_of path) - 1) (str_split "/" "doc/../doc/a").
Proof.
  destruct (materialize_exact ex_loads (HmPair.sha ex_receipt) (HmPair.sha ex_artifact) ex_stream ex_lock ex_compact None ex_private ex_artifact I
    ex_run_ok) as (pl & content & _ & _ & _ & _ & _ & Hl & _).
  exact (Hl ["pair"; "nixpkgs"; "link"] "doc/../doc/a" ex_run_link).
Defined.
End HmBundle.
