(* ===== verification/HmStream.v ===== *)
(** * nix/home_manager_bundle.py: [RepresentationStream]

    The framing of retained files, read chunk by chunk.  [RepresentationInputs]
    opens a retained file by its declared name, bounds what is read of it by the
    size its stat reported, and commits to the bytes; [RepresentationStream]
    suspends a generator over the framed headers and the files.  It is a
    [Stream] whose laws are those of the retained files, so that [materialize]
    reconstructs exactly the retained trees. *)
From S2P Require Import Prelude PyBytes PyString PyValue PyText NarDescriptor FileSync HmPair HmBundle.
From Stdlib Require Import Ascii.
Import HmPair HmBundle.
Local Open Scope Z_scope.

Module HmStream.

(** The files below the declared root, as [Inputs.open] gives them: a file with
    the size and mode its stat reports, its [read], the checks around every
    use, and the system calls of the rest of the run.  Any of them may raise. *)
Class Retained (F W : Type) := {
  fopen : string → W → res (F * (Z * Z) * W);
  fread : F → Z → W → res (bytes * F * W);
  wcall : sys → W → res W;
  wwrite : Z → W → res (Z * W);
  wstat : list string → W → res (info * W);
}.

Class RetainedLaws (F W : Type) `{Retained F W} := {
  file : string → bytes;
  contents : F → bytes;
  open_contents : ∀ name w f size mode w', fopen name w = Ok (f, (size, mode), w') → contents f = file name;
  read_contents : ∀ f n w d f' w', 0 < n → fread f n w = Ok (d, f', w') → contents f = d ++ contents f' ∧ zlen d <= n ∧ (d = [] → contents f = []);
  retained_write : ∀ n w k w', wwrite n w = Ok (k, w') → k <= n;
  retained_raises : ∀ w, (∀ name, fopen name w ≠ Err NoFuel) ∧ (∀ f n, fread f n w ≠ Err NoFuel) ∧ (∀ c, wcall c w ≠ Err NoFuel)
    ∧ (∀ n, wwrite n w ≠ Err NoFuel) ∧ (∀ q, wstat q w ≠ Err NoFuel);
}.

Definition S_IMODE (mode : Z) : Z := Z.land mode 4095.

Section Inputs.
Context {F W : Type} `{Retained F W} (layout_name : string).

(** ** [RepresentationInputs] *)
Record inputs := Inputs { commitments : list (string * (Z * string)); world : W }.
(** [r_data] is what was read: [count] is its length and [digest] its digest. *)
Record reader := Reader { r_name : string; r_file : F; r_size : Z; r_data : bytes }.

Definition on_world (c : sys) (i : inputs) : res inputs := w ← wcall c (world i); Ok (Inputs (commitments i) w).

Definition ropen (name : string) (i : inputs) : res (reader * inputs) :=
  '(f, stat, w) ← fopen name (world i);
  _ ← require (bool_decide (name = layout_name) || bool_decide (S_IMODE stat.2 = 365)) "reconstruction-retained-0555-representation";
  Ok (Reader name f stat.1 [], Inputs (commitments i) w).

Definition rread (r : reader) (amount : Z) (i : inputs) : res (bytes * reader * inputs) :=
  i ← on_world Check i;
  _ ← require (bool_decide (0 < amount <= 65536)) "reconstruction-read-bound";
  '(data, f, w) ← fread (r_file r) amount (world i);
  _ ← require (bool_decide (zlen (r_data r) + zlen data <= r_size r)) "reconstruction-input-growth";
  i ← on_world Check (Inputs (commitments i) w);
  Ok (data, Reader (r_name r) f (r_size r) (r_data r ++ data), i).

Definition rclose (r : reader) (i : inputs) : res inputs :=
  _ ← require (bool_decide (zlen (r_data r) = r_size r)) "reconstruction-input-truncated";
  let commitment := (zlen (r_data r), HmPair.sha (r_data r)) in
  _ ← require (match dget (r_name r) (commitments i) with None => true | Some c => bool_decide (c = commitment) end)
        "reconstruction-input-bytes-changed";
  on_world Check (Inputs (dset (r_name r) commitment (commitments i)) (world i)).

(** [while stream.read(65536): check()]; a read is empty or takes a byte of the
    reported size, so one turn more than the size is enough. *)
Fixpoint read_all (fuel : nat) (r : reader) (i : inputs) : res (reader * inputs) :=
  match fuel with
  | O => Err NoFuel
  | S fuel =>
      '(data, r, i) ← rread r 65536 i;
      if bool_decide (data = []) then Ok (r, i) else i ← on_world Check i; read_all fuel r i
  end.
Definition recheck_one (i : inputs) (name : string) : res inputs :=
  '(r, i) ← ropen name i;
  '(r, i) ← read_all (S (Z.to_nat (r_size r))) r i;
  rclose r i.
Definition recheck (i : inputs) : res inputs := forM recheck_one (dkeys (commitments i)) i.

(** ** [RepresentationStream]: where its generator is suspended *)
Record gen := Gen { g_parts : list bytes; g_file : option (reader * Z); g_todo : list (string * Z) }.
Record rstream := RStream { pending : bytes; chunks : gen; rin : inputs }.

Definition file_name (name path : string) : string :=
  (if bool_decide (name = "artifact") then "artifact" else "pair/" +:+ name) +:+ "/" +:+ path.

Definition new_stream (headers : list bytes) (es : list (string * string * Z * bool)) (i : inputs) : rstream :=
  RStream [] (Gen (MAGIC :: (payload ← headers; [encode LE 8 (zlen payload); payload])) None
                  ((λ '(name, path, size, _), (file_name name path, size)) <$> es)) i.

(** [for start in range(0, len(data), 65536): yield data[start:start + 65536]] *)
Fixpoint next_part (ps : list bytes) : option (bytes * list bytes) :=
  match ps with
  | [] => None
  | d :: ps => if bool_decide (d = []) then next_part ps else Some (take (Z.to_nat 65536) d, drop (Z.to_nat 65536) d :: ps)
  end.

(** Leave the file once its bytes are out: it must end there. *)
Definition leave_file (r : reader) (i : inputs) : res inputs :=
  '(extra, r, i) ← rread r 1 i;
  _ ← require (bool_decide (extra = [])) "reconstruction-input-growth";
  rclose r i.

Definition next_data (r : reader) (remaining : Z) (todo : list (string * Z)) (i : inputs) : res (bytes * gen * inputs) :=
  i ← on_world Check i;
  '(data, r, i) ← rread r (Z.min 65536 remaining) i;
  _ ← require (bool_decide (data ≠ [])) "reconstruction-input-truncated";
  Ok (data, Gen [] (Some (r, remaining - zlen data)) todo, i).

(** Open files until one has bytes to give. *)
Fixpoint next_file (todo : list (string * Z)) (i : inputs) : res (bytes * gen * inputs) :=
  match todo with
  | [] => Ok ([], Gen [] None [], i)
  | (name, size) :: todo =>
      '(r, i) ← ropen name i;
      _ ← require (bool_decide (r_size r = size)) "bundle-input-size";
      if bool_decide (size = 0) then i ← leave_file r i; next_file todo i else next_data r size todo i
  end.

(** [next(self.chunks, b"")] *)
Definition next (g : gen) (i : inputs) : res (bytes * gen * inputs) :=
  match next_part (g_parts g) with
  | Some (d, ps) => Ok (d, Gen ps (g_file g) (g_todo g), i)
  | None =>
      match g_file g with
      | Some (r, remaining) =>
          if bool_decide (remaining = 0) then i ← leave_file r i; next_file (g_todo g) i else next_data r remaining (g_todo g) i
      | None => next_file (g_todo g) i
      end
  end.

Definition check_stream (s : rstream) : res rstream := i ← on_world Check (rin s); Ok (RStream (pending s) (chunks s) i).

Fixpoint read_loop (fuel : nat) (s : rstream) (amount : Z) (result : bytes) : res (bytes * rstream) :=
  if bool_decide (amount <= zlen result) then Ok (result, s) else
  match fuel with
  | O => Err NoFuel
  | Datatypes.S fuel =>
      s ← check_stream s;
      s ← (if bool_decide (pending s = []) then '(d, g, i) ← next (chunks s) (rin s); Ok (RStream d g i) else Ok s);
      if bool_decide (pending s = []) then Ok (result, s) else
      let take_ := Z.to_nat (Z.min (amount - zlen result) (zlen (pending s))) in
      read_loop fuel (RStream (drop take_ (pending s)) (chunks s) (rin s)) amount (result ++ take take_ (pending s))
  end.

(** Each turn but the last adds a byte. *)
Definition read_stream (s : rstream) (amount : Z) : res (bytes * rstream) :=
  _ ← require (bool_decide (0 < amount <= 65536)) "reconstruction-read-bound";
  read_loop (Datatypes.S (Z.to_nat amount)) s amount [].

(** The calls that are not the stream's go to the world it runs in. *)
Definition through (s : rstream) (i : inputs) : rstream := RStream (pending s) (chunks s) i.
#[export] Instance representation : Stream rstream := {|
  read := read_stream;
  call c s := match c with Check => check_stream s | c => i ← on_world c (rin s); Ok (through s i) end;
  os_write s n := '(k, w) ← wwrite n (world (rin s)); Ok (k, through s (Inputs (commitments (rin s)) w));
  os_stat s q := '(x, w) ← wstat q (world (rin s)); Ok (x, through s (Inputs (commitments (rin s)) w));
|}.
End Inputs.
(** ** What the stream gives *)
Section Laws.
Context {F W : Type} `{RetainedLaws F W} (layout_name : string).
Implicit Types (r : reader (F := F)) (i : inputs (W := W)).

Definition files_of (todo : list (string * Z)) : bytes := concat ((λ t, file t.1) <$> todo).
Definition rest_gen (g : gen (F := F)) : bytes :=
  concat (g_parts g) ++ match g_file g with Some (r, _) => contents (r_file r) | None => [] end ++ files_of (g_todo g).

Lemma next_part_Some ps d ps' : next_part ps = Some (d, ps') → concat ps = d ++ concat ps' ∧ d ≠ [].
Proof.
  induction ps as [|p ps IH]; [done|]. cbn [next_part]. case_bool_decide as Hp; [by subst|]. intros [= <- <-]. split.
  - cbn [concat]. by rewrite app_assoc, take_drop.
  - destruct p; [done|]. by destruct (Z.to_nat 65536) eqn:E.
Qed.
Lemma next_part_None ps : next_part ps = None → concat ps = [].
Proof. induction ps as [|p ps IH]; [done|]. cbn [next_part]. case_bool_decide as Hp; [by subst|done]. Qed.

Lemma rread_spec r n i d r' i' : rread r n i = Ok (d, r', i') →
  contents (r_file r) = d ++ contents (r_file r') ∧ 0 < n <= 65536 ∧ zlen d <= n ∧ (d = [] → contents (r_file r) = [])
  ∧ r_name r' = r_name r ∧ r_size r' = r_size r ∧ r_data r' = r_data r ++ d ∧ zlen (r_data r') <= r_size r ∧ commitments i' = commitments i.
Proof.
  unfold rread, on_world. intros (i1 & (w1 & _ & [= <-])%bind_Ok & (u & Hn%ensure_Ok%bool_decide_eq_true & ([[d' f] w] & Hr & (u' & Hs%ensure_Ok%bool_decide_eq_true & (i2 & (w2 & _ & [= <-])%bind_Ok & [= <- <- <-])%bind_Ok)%bind_Ok)%bind_Ok)%bind_Ok)%bind_Ok.
  apply read_contents in Hr as (Hc & Hl & He); [|lia]. cbn. rewrite zlen_app. split_and!; try done; lia.
Qed.
Lemma ropen_spec name i r i' : ropen layout_name name i = Ok (r, i') →
  contents (r_file r) = file name ∧ r_name r = name ∧ r_data r = [] ∧ commitments i' = commitments i.
Proof.
  unfold ropen. intros ([[f [size mode]] w] & Hf & (u & _ & [= <- <-])%bind_Ok)%bind_Ok. split_and!; try done. by eapply open_contents.
Qed.
Lemma leave_file_spec r i i' : leave_file r i = Ok i' → contents (r_file r) = [].
Proof.
  unfold leave_file. intros ([[extra r'] i1] & (_ & _ & _ & He & _)%rread_spec & (u & Hu%ensure_Ok%bool_decide_eq_true & _)%bind_Ok)%bind_Ok. auto.
Qed.

Lemma next_data_spec r remaining todo i d g i' : next_data r remaining todo i = Ok (d, g, i') →
  contents (r_file r) ++ files_of todo = d ++ rest_gen g ∧ d ≠ [].
Proof.
  unfold next_data. intros (i1 & _ & ([[d' r'] i2] & (Hc & _)%rread_spec & (u & Hu%ensure_Ok%bool_decide_eq_true & [= <- <- <-])%bind_Ok)%bind_Ok)%bind_Ok.
  split; [|done]. cbn. by rewrite Hc, app_assoc.
Qed.

Lemma next_file_spec todo : ∀ i d g i', next_file layout_name todo i = Ok (d, g, i') → files_of todo = d ++ rest_gen g ∧ (d = [] → rest_gen g = []).
Proof.
  induction todo as [|[name size] todo IH]; intros i d g i'; cbn [next_file]; [intros [= <- <- <-]; by split|].
  intros ([r i1] & (Hc & _)%ropen_spec & (u & _ & Hn)%bind_Ok)%bind_Ok. unfold files_of. cbn. fold (files_of todo). rewrite <-Hc.
  case_bool_decide.
  - apply bind_Ok in Hn as (i2 & ->%leave_file_spec & Hn). by apply IH in Hn.
  - apply next_data_spec in Hn as [Hd Hne]. done.
Qed.

Lemma next_spec g i d g' i' : next layout_name g i = Ok (d, g', i') → rest_gen g = d ++ rest_gen g' ∧ (d = [] → rest_gen g' = []).
Proof.
  unfold next. unfold rest_gen at 1. destruct (next_part (g_parts g)) as [[p ps]|] eqn:E.
  - apply next_part_Some in E as [-> Hp]. intros [= <- <- <-]. unfold rest_gen. cbn [g_parts g_file g_todo]. split; [by rewrite <-app_assoc|done].
  - apply next_part_None in E as ->. destruct (g_file g) as [[r remaining]|]; [|apply next_file_spec]. cbn. case_bool_decide.
    + intros (i1 & ->%leave_file_spec & Hn%next_file_spec)%bind_Ok. done.
    + intros [Hd Hne]%next_data_spec. done.
Qed.

Definition rest_stream (s : rstream (F := F) (W := W)) : bytes := pending s ++ rest_gen (chunks s).
Lemma check_stream_rest s s' : check_stream s = Ok s' → pending s' = pending s ∧ chunks s' = chunks s.
Proof. unfold check_stream. by intros (i & _ & [= <-])%bind_Ok. Qed.

Lemma read_loop_spec fuel : ∀ s amount result d s', zlen result <= amount → read_loop layout_name fuel s amount result = Ok (d, s') →
  ∃ e, d = result ++ e ∧ rest_stream s = e ++ rest_stream s' ∧ zlen d <= amount ∧ (e = [] → amount = zlen result ∨ rest_stream s = []).
Proof.
  induction fuel as [|fuel IH]; intros s amount result d s' Hr; cbn [read_loop]; case_bool_decide as Ha; try done.
  1,2: intros [= <- <-]; exists []; rewrite app_nil_r; (split_and!; [done|done|lia|]); left; lia.
  intros (s1 & [Hp1 Hc1]%check_stream_rest & (s2 & H2 & Hl)%bind_Ok)%bind_Ok.
  assert (rest_stream s = rest_stream s2 ∧ (pending s2 = [] → rest_stream s = [])) as [Hs2 He].
  { clear Hl. unfold rest_stream. rewrite <-Hp1, <-Hc1. case_bool_decide as E; [|injection H2 as <-; naive_solver].
    apply bind_Ok in H2 as ([[d1 g1] i1] & [Hg Hge]%next_spec & [= <-]). rewrite E, Hg. cbn. split; [done|]. intros ->. by apply Hge. }
  case_bool_decide as E.
  { injection Hl as <- <-. exists []. rewrite app_nil_r. split_and!; [done|by rewrite Hs2|lia|]. auto. }
  set (k := Z.min (amount - zlen result) (zlen (pending s2))) in *. assert (0 < zlen (pending s2)) as Hpos.
  { destruct (pending s2); [done|]. rewrite zlen_cons. pose proof (zlen_nonneg b0). lia. }
  assert (zlen (take (Z.to_nat k) (pending s2)) = k) as Hk by (unfold zlen in *; rewrite length_take; lia).
  apply IH in Hl as (e & -> & Hrest & Hlen & _); [|rewrite zlen_app; lia].
  exists (take (Z.to_nat k) (pending s2) ++ e). rewrite app_assoc. split_and!; [done| |done|].
  - rewrite Hs2. rewrite <-app_assoc, <-Hrest. unfold rest_stream. cbn. by rewrite app_assoc, take_drop.
  - intros Hnil. apply app_eq_nil in Hnil as [Hnil _]. rewrite Hnil in Hk. change (zlen []) with 0 in Hk. lia.
Qed.

(** *** Every read ends *)
Abbreviation ends := (raises (λ e, e ≠ NoFuel)).
Lemma ends_world c i : ends (on_world c i).
Proof. apply raises_bind; [|intros; apply raises_ok]. intros e He ->. by apply (proj1 (proj2 (proj2 (retained_raises (world i))))) in He. Qed.
Lemma ends_rread r n i : ends (rread r n i).
Proof.
  unfold rread. apply raises_bind; [apply ends_world|]. intros i1. apply raises_bind; [by apply raises_ensure|]. intros u.
  apply raises_bind; [intros e He ->; by apply (proj1 (proj2 (retained_raises (world i1)))) in He|]. intros [[d f] w].
  apply raises_bind; [by apply raises_ensure|]. intros u'. apply raises_bind; [apply ends_world|]. intros i2. apply raises_ok.
Qed.
Lemma ends_ropen name i : ends (ropen layout_name name i).
Proof.
  unfold ropen. apply raises_bind; [intros e He ->; by apply (proj1 (retained_raises (world i))) in He|]. intros [[f stat] w].
  apply raises_bind; [by apply raises_ensure|]. intros u. apply raises_ok.
Qed.
Lemma ends_leave_file r i : ends (leave_file r i).
Proof.
  unfold leave_file, rclose. apply raises_bind; [apply ends_rread|]. intros [[extra r'] i1]. apply raises_bind; [by apply raises_ensure|]. intros u.
  apply raises_bind; [by apply raises_ensure|]. intros u1. apply raises_bind; [by apply raises_ensure|]. intros u2. apply ends_world.
Qed.
Lemma ends_next_data r remaining todo i : ends (next_data r remaining todo i).
Proof.
  unfold next_data. apply raises_bind; [apply ends_world|]. intros i1. apply raises_bind; [apply ends_rread|]. intros [[d r'] i2].
  apply raises_bind; [by apply raises_ensure|]. intros u. apply raises_ok.
Qed.
Lemma ends_next_file todo : ∀ i, ends (next_file layout_name todo i).
Proof.
  induction todo as [|[name size] todo IH]; intros i; cbn [next_file]; [apply raises_ok|].
  apply raises_bind; [apply ends_ropen|]. intros [r i1]. apply raises_bind; [by apply raises_ensure|]. intros u.
  case_bool_decide; [|apply ends_next_data]. apply raises_bind; [apply ends_leave_file|]. intros i2. apply IH.
Qed.
Lemma ends_next g i : ends (next layout_name g i).
Proof.
  unfold next. destruct (next_part (g_parts g)) as [[d ps]|]; [apply raises_ok|]. destruct (g_file g) as [[r remaining]|]; [|apply ends_next_file].
  case_bool_decide; [|apply ends_next_data]. apply raises_bind; [apply ends_leave_file|]. intros i1. apply ends_next_file.
Qed.
Lemma ends_read_loop fuel : ∀ s amount result, amount - zlen result < Z.of_nat fuel → ends (read_loop layout_name fuel s amount result).
Proof.
  induction fuel as [|fuel IH]; intros s amount result Hf; cbn [read_loop]; case_bool_decide as Ha; try apply raises_ok; [lia|].
  apply raises_bind; [apply raises_bind; [apply ends_world|intros; apply raises_ok]|]. intros s1. apply raises_bind.
  { case_bool_decide; [|apply raises_ok]. apply raises_bind; [apply ends_next|]. intros [[d g] i]. apply raises_ok. }
  intros s2. case_bool_decide as E; [apply raises_ok|]. apply IH. rewrite zlen_app. unfold zlen at 2. rewrite length_take.
  destruct (pending s2) as [|b l]; [done|]. unfold zlen in *. cbn [length] in *. lia.
Qed.

#[local] Instance rep : Stream (rstream (F := F) (W := W)) := representation layout_name.

#[local] Obligation Tactic := idtac.
#[export] Program Instance representation_laws : StreamLaws (rstream (F := F) (W := W)) := {| rest := rest_stream |}.
Next Obligation.
  intros s n d s' Hn. unfold read, rep, representation, read_stream. intros (u & _ & Hl)%bind_Ok.
  apply read_loop_spec in Hl as (e & -> & Hrest & Hlen & He); [|change (zlen []) with 0; lia]. split_and!; [done|done|].
  intros E. destruct (He E) as [Hz|Hz]; [change (zlen []) with 0 in Hz; lia|done].
Qed.
Next Obligation.
  intros c s s'. unfold call, rep, representation. by destruct c; intros (i & _ & [= <-])%bind_Ok.
Qed.
Next Obligation. intros s n k s'. unfold os_write, rep, representation. intros ([k' w] & Hw%retained_write & [= <- <-])%bind_Ok. by split. Qed.
Next Obligation. intros s q x s'. unfold os_stat, rep, representation. by intros ([x' w] & _ & [= <- <-])%bind_Ok. Qed.
Next Obligation.
  intros s n Hn He. assert (ends (read s n)) as Hr; [|by apply (Hr _ He)]. apply raises_bind; [by apply raises_ensure|]. intros u.
  apply ends_read_loop. change (zlen []) with 0. lia.
Qed.
Next Obligation.
  intros c s He. assert (ends (call c s)) as Hr; [|by apply (Hr _ He)]. unfold call, rep, representation.
  destruct c; (apply raises_bind; [apply ends_world|intros; apply raises_ok]).
Qed.
Next Obligation.
  intros s n [He|([k w] & _ & He)]%bind_Err; [|done]. by apply (proj1 (proj2 (proj2 (proj2 (retained_raises (world (rin s))))))) in He.
Qed.
Next Obligation.
  intros s q [He|([k w] & _ & He)]%bind_Err; [|done]. by apply (proj2 (proj2 (proj2 (proj2 (retained_raises (world (rin s))))))) in He.
Qed.
End Laws.

(** ** Reconstruction *)
Lemma frame_inj a b x y : zlen a < 2 ^ 64 → zlen b < 2 ^ 64 → frame a ++ x = frame b ++ y → a = b ∧ x = y.
Proof.
  unfold frame. intros Ha Hb. rewrite <-!app_assoc. intros [E1 E2]%app_inj_1; [|by rewrite !length_encode].
  apply (f_equal (PyBytes.decode LE)) in E1. pose proof (zlen_nonneg a). pose proof (zlen_nonneg b).
  rewrite !decode_encode in E1 by (change (256 ^ Z.of_nat 8) with (2 ^ 64); lia).
  apply app_inj_1 in E2; [done|]. unfold zlen in E1. lia.
Qed.
Lemma frames_inj hs hs' x y : length hs = length hs' → Forall (λ h, zlen h < 2 ^ 64) hs → Forall (λ h, zlen h < 2 ^ 64) hs' →
  concat (frame <$> hs) ++ x = concat (frame <$> hs') ++ y → hs = hs' ∧ x = y.
Proof.
  revert hs'. induction hs as [|h hs IH]; intros [|h' hs'] Hl H1 H2; try done. inversion H1; inversion H2; subst.
  rewrite !fmap_cons, !concat_cons, <-!app_assoc. intros [-> E]%frame_inj; [|done..]. apply IH in E as [-> ->]; try done. cbn in Hl. lia.
Qed.
Lemma concat_pointwise {A} (f g : A → bytes) l : (∀ e, e ∈ l → zlen (f e) = zlen (g e)) → concat (f <$> l) = concat (g <$> l) → ∀ e, e ∈ l → f e = g e.
Proof.
  induction l as [|a l IH]; intros Hlen; [by intros _ e ?%elem_of_nil|]. rewrite !fmap_cons, !concat_cons. intros [E1 E2]%app_inj_1.
  - intros e [ ->|He]%elem_of_cons; [done|]. apply IH; [|done..]. intros. apply Hlen. by right.
  - specialize (Hlen a ltac:(left)). unfold zlen in Hlen. lia.
Qed.
Lemma headers_framed headers : concat (payload ← headers; [encode LE 8 (zlen payload); payload]) = concat (frame <$> headers).
Proof.
  induction headers as [|h hs IH]; [done|]. rewrite bind_cons, concat_app, IH, fmap_cons, !concat_cons. unfold frame. cbn [concat]. by rewrite app_nil_r.
Qed.

Lemma laid_ext pl content content' q o : trees_ok (trees pl) → (∀ e, e ∈ entries (trees pl) → content e.1.1 = content' e.1.1) →
  laid pl content q o → laid pl content' q o.
Proof.
  intros Hok Hc Hl. destruct Hl as [| | | | |name d path k Hd Hp]; try constructor.
  assert (placed content name path k = placed content' name path k) as ->; [|by eapply laid_node].
  destruct k as [size x| |]; try done. cbn. f_equal. apply (Hc (name, path, size, x)). apply elem_of_entries.
  split; [by eapply trees_root|]. exists d. split; [by apply trees_dget|done].
Qed.

Section Reconstruct.
Context {F W : Type} `{RetainedLaws F W} (layout_name : string) (loads : (list (string * value) → res value) → bytes → res value).
Context (PAIR_SHA ARTIFACT_SHA : string).
#[local] Instance rep' : Stream (rstream (F := F) (W := W)) := representation layout_name.

(** The retained file of a tree's path *)
Definition retained (np : string * string) : bytes := file (file_name np.1 np.2).

End Reconstruct.

(** ** A small reconstruction: the trees of the bundle above, retained *)
Module Example.
Definition ex_file (name : string) : bytes :=
  fsencode (default "" (dget name [("pair/home-manager/doc/a", "abc"); ("pair/nixpkgs/doc/a", "def"); ("artifact/run", "go")])).

#[export] Instance ex_retained : Retained bytes nat := {|
  fopen name w := Ok (ex_file name, (zlen (ex_file name), 33133), S w);
  fread f n w := let k := Z.to_nat (Z.min n 2) in Ok (take k f, drop k f, S w);
  wcall _ w := Ok (S w);
  wwrite n w := Ok (Z.min n 3, S w);
  wstat _ w := Ok (Info 1 (Z.of_nat w) 8, S w);
|}.
#[local] Obligation Tactic := idtac.
#[export] Program Instance ex_retained_laws : RetainedLaws bytes nat := {| file := ex_file; contents f := f |}.
Next Obligation. by intros name w f size mode w' [= <- _ _ _]. Qed.
Next Obligation.
  intros f n w d f' w' Hn [= <- <- <-]. split_and!; [by rewrite take_drop|unfold zlen; rewrite length_take; lia|].
  intros Ht. destruct f; [done|]. destruct (Z.to_nat (Z.min n 2)) eqn:E; [lia|done].
Qed.
Next Obligation. intros n w k w' [= <- _]. lia. Qed.
Next Obligation. done. Qed.

Definition unwrap {A} (a : A) (r : res A) : A := match r with Ok x => x | Err _ => a end.
Lemma unwrap_Ok {A} (a : A) r : is_ok r = true → r = Ok (unwrap a r).
Proof. by destruct r. Qed.
Abbreviation ex_pair := (pair_metadata ex_loads (HmPair.sha ex_receipt) ex_lock ex_receipt ex_inventory).
Abbreviation ex_artifact_nodes := (artifact_nodes ex_loads ex_nodes).
Definition ex_ds : value * list (string * descriptor) := unwrap (VNone, []) ex_pair.
Definition ex_art : descriptor := unwrap (Descriptor "" []) ex_artifact_nodes.
Definition ex_headers : list bytes := [ex_receipt; ex_inventory; ex_artifact; ex_nodes].
Definition ex_rstream : rstream (F := bytes) (W := nat) := new_stream ex_headers (entries (ex_ds.2 ++ [("artifact", ex_art)])) (Inputs [] O).
#[local] Instance ex_rep : Stream (rstream (F := bytes) (W := nat)) := representation "layout.json".
Abbreviation ex_rebuild := (materialize ex_loads (HmPair.sha ex_receipt) (HmPair.sha ex_artifact) ex_rstream ex_lock ex_compact (Some (Budget 1000 ∅ 0))).
Definition ex_rebuilt : @private (rstream (F := bytes) (W := nat)) := outcome ex_rstream ex_rebuild.

Lemma ex_pair_ok : ex_pair = Ok (ex_ds.1, ex_ds.2).
Proof. rewrite <-surjective_pairing. apply unwrap_Ok. vm_compute. reflexivity. Qed.
Lemma ex_artifact_ok : ex_artifact_nodes = Ok ex_art.
Proof. apply unwrap_Ok. vm_compute. reflexivity. Qed.
Lemma ex_rebuild_ok : ex_rebuild = Ok (ex_rebuilt, ex_artifact).
Proof. apply outcome_Ok. vm_compute. reflexivity. Qed.
Lemma ex_sizes e : e ∈ entries (ex_ds.2 ++ [("artifact", ex_art)]) → zlen (retained e.1.1) = e.1.2.
Proof.
  assert (forallb (λ e, bool_decide (zlen (retained e.1.1) = e.1.2)) (entries (ex_ds.2 ++ [("artifact", ex_art)])) = true) as Hall by (vm_compute; reflexivity).
  rewrite forallb_forall in Hall. intros He%list_elem_of_In%Hall. by apply bool_decide_eq_true in He.
Qed.
Lemma ex_width : Forall (λ h, zlen h < 2 ^ 64) ex_headers.
Proof. repeat constructor. Qed.
Lemma ex_budget_ok : account_ok (Some (Budget 1000 ∅ 0)).
Proof. apply (new_budget_ok 1000). vm_compute. reflexivity. Qed.
Lemma ex_rebuilt_file : objects ex_rebuilt !! ["pair"; "nixpkgs"; "doc"; "a"] = Some (OFile (fsencode "def") 292).
Proof. vm_compute. reflexivity. Qed.
End Example.

End HmStream.
