(* ===== verification/HmPublish.v ===== *)
(** * nix/home_manager_bundle.py: the publication of a reconstructed bundle

    [reconstruct_retained] promotes the packed bundle and its receipt into the
    output directory by renames that never replace, closes what it holds, and
    rolls back by name when anything was raised.

    The file system is what these calls see of it: two directories of names,
    and the inodes of the two files the run owns.  Every call of the thread
    takes the next entry of [sched]: what other processes do to the names of
    the output directory just before it (remove any name, or put a file of
    their own under it), the exception the call raises if any, and whether it
    took effect all the same, as an interrupted call may have.  A test of the
    file system has no memory: other processes act between any two calls, also
    between the stat and the unlink of one name in the rollback.

    A phase around the publication (a tick, a custody check, an account entry,
    a flush, an input check, the making of the private tree) is one call that
    returns or raises.  The names of the private tree are not among [output]. *)
From S2P Require Import Prelude PyBytes PyString PyValue PyText Effect.
From Stdlib Require Import Ascii.
Local Open Scope Z_scope.

Module HmPublish.

Definition IDENTITY : exn := ValueError "reconstruction-publication-identity".
Definition NAMES : list string := ["bundle"; ".pending-bundle"; ".pending-receipt"; "receipt.json"].
Definition PROMOTED : list string := [".pending-bundle"; "bundle"; "receipt.json"].
Definition CLOSE_REFUSED : string := "reconstruction-publication-close-refused".
Definition ROLLBACK_REFUSED : string := "reconstruction-publication-rollback-refused".
Definition OWNED_CLOSE : string := "bundle-owned-close-refused".
Definition OWNED_CLEANUP : string := "bundle-owned-cleanup-refused".
Definition HELD_CLOSE : string := "acquisition-held-close-refused".
Definition allowed : list string := [OWNED_CLOSE; OWNED_CLEANUP; HELD_CLOSE; CLOSE_REFUSED; ROLLBACK_REFUSED].

(** ** The file system *)
(** The inode of the run's [k]-th file, or one of another process *)
Inductive inode := Own (k : nat) | Foreign (z : Z).
#[export] Instance inode_eq_dec : EqDecision inode.
Proof. solve_decision. Defined.

(** [acquired.snapshot]: the fields of a stat, [ino] being the device and the
    inode number together, [stamp] the two times *)
Record snap := Snap { ino : inode; mode : Z; uid : Z; nlink : Z; nbytes : Z; stamp : Z }.
#[export] Instance snap_eq_dec : EqDecision snap.
Proof. solve_decision. Defined.

Inductive side := Publication | Output.
#[export] Instance side_eq_dec : EqDecision side.
Proof. solve_decision. Defined.

(** [PublicationFile]; [p_fd] is the inode the descriptor is open on *)
Record pfile := PFile { p_fd : option inode; p_name : string; output_names : list string; p_identity : option (inode * Z); witness : option snap }.

Record slot := Slot { fault : option exn; effective : bool; foreign : list (string * option Z); time : Z; amount : Z }.

Record fs := Fs {
  clock : nat;
  publication : gmap string inode;
  output : gmap string inode;
  inodes : gmap nat snap;
  files : list pfile;
  chain_witness : bool;            (** [chain_witness is not None] *)
  notes : list string;             (** the categories on the exception being raised *)
}.

(** What the run does to the names of the output directory; an unlink carries
    the number of its call *)
Inductive ev := ELink (name : string) (i : inode) | EMove (name : string) (i : inode) | EUnlink (c : nat) (name : string) (i : inode).

(** A missing name is what the calls find, not a fault. *)
Definition raised (s : slot) : option exn :=
  match fault s with Some NoFuel => None | Some FileNotFoundError => Some OSError | e => e end.

Definition with_output (o : gmap string inode) (w : fs) : fs :=
  Fs (clock w) (publication w) o (inodes w) (files w) (chain_witness w) (notes w).
Definition with_publication (o : gmap string inode) (w : fs) : fs :=
  Fs (clock w) o (output w) (inodes w) (files w) (chain_witness w) (notes w).
Definition with_inodes (t : gmap nat snap) (w : fs) : fs :=
  Fs (clock w) (publication w) (output w) t (files w) (chain_witness w) (notes w).
Definition with_files (l : list pfile) (w : fs) : fs :=
  Fs (clock w) (publication w) (output w) (inodes w) l (chain_witness w) (notes w).
Definition with_notes (n : list string) (w : fs) : fs :=
  Fs (clock w) (publication w) (output w) (inodes w) (files w) (chain_witness w) n.
Definition with_chain (w : fs) : fs :=
  Fs (clock w) (publication w) (output w) (inodes w) (files w) true (notes w).
Definition ticked (w : fs) : fs :=
  Fs (S (clock w)) (publication w) (output w) (inodes w) (files w) (chain_witness w) (notes w).

(** A change of an inode of the run, at time [t] *)
Definition changed (f : snap → snap) (t : Z) (i : inode) (w : fs) : fs :=
  match i with
  | Own k => with_inodes (alter (λ s, let s := f s in Snap (ino s) (mode s) (uid s) (nlink s) (nbytes s) t) k (inodes w)) w
  | Foreign _ => w
  end.
Definition unlinked (s : snap) : snap := Snap (ino s) (mode s) (uid s) (nlink s - 1) (nbytes s) (stamp s).
Definition dropped (t : Z) (i : option inode) (w : fs) : fs := match i with Some i => changed unlinked t i w | None => w end.

(** Another process removes a name of the output, or puts a file of its own under it. *)
Definition interfere (t : Z) (w : fs) (m : string * option Z) : fs :=
  let w := dropped t (output w !! m.1) w in
  with_output (match m.2 with Some z => <[m.1 := Foreign z]> (output w) | None => delete m.1 (output w) end) w.

Section Run.
Context (sched : nat → slot) (getuid : Z) (foreign_stat : Z → snap) (packed : snap) (bundleBytes payload : Z).
Abbreviation P := (M fs ev).

(** A call: other processes act first, then it raises, takes effect, or both. *)
Definition act {A} (f : slot → fs → res A * fs * list ev) : P A := λ st,
  let s := sched (clock (env st)) in
  let w := foldl (interfere (time s)) (ticked (env st)) (foreign s) in
  match raised s with
  | None => let '(r, w', es) := f s w in (r, World w' (trace st ++ es))
  | Some e => if effective s then let '(_, w', es) := f s w in (Err e, World w' (trace st ++ es)) else (Err e, World w (trace st))
  end.

(** A change of the thread's own objects, which raises nothing *)
Definition modify (f : fs → fs) : P unit := λ st, (Ok tt, World (f (env st)) (trace st)).
Definition get {A} (f : fs → A) : P A := λ st, (Ok (f (env st)), st).

(** A call that changes nothing of what is modelled *)
Definition plain : P unit := act (λ _ w, (Ok tt, w, [])).

Definition entries (d : side) (w : fs) : gmap string inode := match d with Publication => publication w | Output => output w end.
Definition set_entries (d : side) (o : gmap string inode) (w : fs) : fs :=
  match d with Publication => with_publication o w | Output => with_output o w end.

Definition stat_inode (w : fs) (i : inode) : res snap :=
  match i with
  | Own k => match inodes w !! k with Some s => Ok s | None => Err OSError end
  | Foreign z => let s := foreign_stat z in Ok (Snap (Foreign z) (mode s) (uid s) (nlink s) (nbytes s) (stamp s))
  end.

(** [os.stat(name, dir_fd=..., follow_symlinks=False)] and [os.fstat] *)
Definition stat (d : side) (name : string) : P snap := act (λ _ w,
  (match entries d w !! name with Some i => stat_inode w i | None => Err FileNotFoundError end, w, [])).
Definition fstat (i : inode) : P snap := act (λ _ w, (stat_inode w i, w, [])).

Definition touch (f : slot → snap → snap) (i : inode) : P unit := act (λ s w, (Ok tt, changed (f s) (time s) i w, [])).

Definition event (d : side) (e : ev) : list ev := match d with Output => [e] | Publication => [] end.

(** [publication_noreplace]: [renameat2] with [RENAME_NOREPLACE] *)
Definition publication_noreplace (source : side) (source_name : string) (destination : side) (name : string) : P unit := act (λ s w,
  match entries source w !! source_name with
  | None => (Err FileNotFoundError, w, [])
  | Some i =>
      match entries destination w !! name with
      | Some _ => (Err (ValueError "reconstruction-publication-destination-exists"), w, [])
      | None =>
          let w := set_entries source (delete source_name (entries source w)) w in
          let w := set_entries destination (<[name := i]> (entries destination w)) w in
          (Ok tt, changed id (time s) i w, event source (EMove source_name i) ++ event destination (ELink name i))
      end
  end).

(** ** [PublicationFile] *)
Definition set_file (k : nat) (f : pfile → pfile) : P unit := modify (λ w, with_files (alter f k (files w)) w).
Definition file_at (k : nat) : P pfile := f ← get (λ w, files w !! k); embed (match f with Some f => Ok f | None => Err IndexError end).

Definition require (condition : bool) (e : exn) : P unit := embed (ensure condition e).

(** The constructor and [files.append]; the value is the index in [files]. *)
Definition new_file (name : string) (in_output : bool) : P nat :=
  _ ← require (bool_decide (name ∈ NAMES)) IDENTITY;
  k ← get (λ w, length (files w));
  _ ← modify (λ w, with_files (files w ++ [PFile None name (if in_output then [name] else []) None None]) w);
  mret k.

Definition set_fd (k : nat) (fd : option inode) : P unit :=
  set_file k (λ f, PFile fd (p_name f) (output_names f) (p_identity f) (witness f)).

Definition identity_of (s : snap) : inode * Z := (ino s, uid s).

Definition capture (k : nat) : P snap :=
  f ← file_at k;
  info ← (match p_fd f with Some i => fstat i | None => throw TypeError end);
  _ ← require (match p_identity f with None => true | Some i => bool_decide (identity_of info = i) end) IDENTITY;
  _ ← set_file k (λ f, PFile (p_fd f) (p_name f) (output_names f) (Some (identity_of info)) (Some info));
  mret info.

Definition S_ISREG (mode : Z) : bool := bool_decide (Z.land mode 61440 = 32768).
Definition custody (s : snap) : bool := S_ISREG (mode s) && bool_decide (uid s = getuid) && bool_decide (nlink s = 1).

Definition inspect (k : nat) (owner : side) : P snap :=
  _ ← plain;
  info ← capture k;
  _ ← require (custody info) IDENTITY;
  f ← file_at k;
  named ← stat owner (p_name f);
  _ ← require (bool_decide (info = named)) IDENTITY;
  mret info.

Definition promote (k : nat) (source destination : side) (name : string) : P unit :=
  _ ← inspect k source;
  _ ← require (bool_decide (name ∈ PROMOTED)) IDENTITY;
  _ ← set_file k (λ f, PFile (p_fd f) (p_name f) (name :: output_names f) (p_identity f) (witness f));
  f ← file_at k;
  _ ← publication_noreplace source (p_name f) destination name;
  _ ← set_file k (λ f, PFile (p_fd f) name (output_names f) (p_identity f) (witness f));
  _ ← inspect k destination;
  mret tt.

(** [except BaseException] *)
Definition attempt_any {A} (m : P A) : P (res A) := λ st, let '(r, st) := m st in (Ok r, st).
Definition error_of {A} (r : res A) : option exn := match r with Err e => Some e | Ok _ => None end.

(** [close]: [primary] when an exception of the caller is being handled, [active]
    when any is.  What the capture raises is another exception than the
    primary one, and the category that [close_resources] sets is on it. *)
Definition close_file (primary active : bool) (k : nat) : P unit :=
  f ← file_at k;
  match p_fd f with
  | None => mret tt
  | Some _ =>
      r ← attempt_any (capture k);
      _ ← set_fd k None;
      closed ← attempt_any plain;
      match r, closed with
      | Ok _, Ok _ => mret tt
      | Ok _, Err e => if active then modify (with_notes [OWNED_CLOSE]) else throw e
      | Err e, Ok _ => _ ← (if primary then mret tt else modify (with_notes [])); throw e
      | Err e, Err _ => _ ← (if primary then mret tt else modify (with_notes [OWNED_CLOSE])); throw e
      end
  end.

(** [publication_cleanup_failure] *)
Definition note (category : string) : P unit :=
  _ ← require (bool_decide (category ∈ allowed)) (ValueError "reconstruction-publication-category");
  modify (λ w, with_notes (sorted_set (category :: filter (λ c, c ∈ allowed) (notes w))) w).

Definition close_checked (primary : bool) (k : nat) : P unit :=
  f ← file_at k;
  r ← attempt_any (
    if negb primary && bool_decide (is_Some (p_fd f)) then
      _ ← plain;
      held ← (match p_fd f with Some i => fstat i | None => throw TypeError end);
      _ ← require (bool_decide (witness f = Some held)) IDENTITY;
      named ← stat Output (p_name f);
      require (bool_decide (held = named)) IDENTITY
    else mret tt);
  _ ← close_file primary (primary || negb (is_ok r)) k;
  embed r.

(** The exception of one file with its categories; the primary one keeps its own. *)
Definition close_one (primary : bool) (failure : option (exn * list string)) (k : nat) : P (option (exn * list string)) :=
  r ← attempt_any (close_checked primary k);
  n ← get notes;
  _ ← (if primary then mret tt else modify (with_notes []));
  mret (match failure, error_of r with Some _, _ => failure | None, Some e => Some (e, n) | None, None => None end).

(** [close_publication] *)
Definition close_publication (primary : option exn) : P unit :=
  n ← get (λ w, length (files w));
  failure ← forE (close_one (bool_decide (is_Some primary))) (reverse (seq 0 n)) None;
  match failure, primary with
  | None, _ => mret tt
  | Some _, Some _ => note CLOSE_REFUSED
  | Some (e, n), None => _ ← modify (with_notes n); _ ← note CLOSE_REFUSED; throw e
  end.

(** [__exit__]: what the close raises is a category on the exception of the
    body [r], or what is raised. *)
Definition exit_held {A} (r : res A) : P A :=
  left ← attempt_any plain;
  match r, left with
  | _, Ok _ => embed r
  | Ok _, Err e => throw e
  | Err e, Err _ => _ ← modify (with_notes [HELD_CLOSE]); throw e
  end.

(** [with HeldDirectory(...): m] *)
Definition holding {A} (m : P A) : P A := _ ← plain; r ← attempt_any m; exit_held r.

(** ** [rollback_publication] *)
Definition unlink (name : string) : P unit := act (λ s w,
  match output w !! name with
  | Some i => (Ok tt, with_output (delete name (output w)) (changed unlinked (time s) i w), [EUnlink (pred (clock w)) name i])
  | None => (Err FileNotFoundError, w, [])
  end).

Definition rollback_name (k : nat) (name : string) : P unit :=
  _ ← plain;
  named ← attempt (λ e, bool_decide (e = FileNotFoundError)) (stat Output name);
  match named with
  | None => mret tt
  | Some named =>
      f ← file_at k;
      w ← (match p_fd f with Some _ => info ← capture k; mret (Some info) | None => mret (witness f) end);
      _ ← require (bool_decide (w = Some named) && custody named) IDENTITY;
      _ ← unlink name;
      plain
  end.

Definition noting (category : string) (m : P unit) : P unit :=
  r ← attempt_any m;
  match r with Ok _ => mret tt | Err _ => note category end.

Definition rollback_file (k : nat) : P unit :=
  f ← file_at k;
  forE (λ _ name, noting ROLLBACK_REFUSED (rollback_name k name)) (sorted_set (output_names f)) tt.

(** The second [plain] is the comparison of the chain of the reopened directory. *)
Definition rollback_publication : P unit :=
  noting ROLLBACK_REFUSED (
    _ ← plain;
    holding (
      _ ← plain;
      n ← get (λ w, length (files w));
      forE (λ _ k, rollback_file k) (reverse (seq 0 n)) tt)).

(** ** [reconstruct_retained] from the opening of the output *)
(** [pack], after all that precedes it in the private tree: one call *)
Definition packing : P unit := act (λ _ w,
  (Ok tt, with_inodes (<[0%nat := Snap (Own 0) (mode packed) (uid packed) (nlink packed) (nbytes packed) (stamp packed)]> (inodes w))
            (with_publication {[ "bundle" := Own 0 ]} w), [])).

(** [os.open("bundle", ..., dir_fd=publication.fd)] *)
Definition open_bundle : P inode := act (λ _ w, (match publication w !! "bundle" with Some i => Ok i | None => Err FileNotFoundError end, w, [])).

(** [os.open(".pending-receipt", O_CREAT | O_EXCL, 0o600)] by the [k]-th file *)
Definition create (k : nat) (name : string) : P inode := act (λ s w,
  match output w !! name with
  | Some _ => (Err (Errno 17), w, [])
  | None => (Ok (Own k), with_inodes (<[k := Snap (Own k) 33152 getuid 1 0 (time s)]> (inodes w)) (with_output (<[name := Own k]> (output w)) w),
             [ELink name (Own k)])
  end).

(** [os.write] of [count] bytes *)
Definition written (count : Z) (s : slot) : Z := Z.max 0 (Z.min (amount s) count).
Definition write (i : inode) (count : Z) : P Z := act (λ s w,
  (Ok (written count s), changed (λ p, Snap (ino p) (mode p) (uid p) (nlink p) (nbytes p + written count s) (stamp p)) (time s) i w, [])).

Fixpoint write_all (fuel : nat) (i : inode) (remaining : Z) : P unit :=
  if bool_decide (remaining <= 0) then mret tt else
  match fuel with
  | O => throw NoFuel
  | S fuel =>
      _ ← plain;
      a ← write i (Z.min 65536 remaining);
      _ ← require (bool_decide (0 < a)) (ValueError "bundle-short-write");
      write_all fuel i (remaining - a)
  end.

(** [remove_owned]: what the publication directory still holds goes with the tree *)
Definition remove_tree : P unit := act (λ s w, (Ok tt, with_publication ∅ (dropped (time s) (publication w !! "bundle") w), [])).

Definition remove_private (created worker : bool) : P unit :=
  _ ← plain; _ ← plain;
  _ ← require created (ValueError "bundle-private-root-unqualified");
  _ ← plain;
  _ ← (if worker then _ ← plain; _ ← remove_tree; plain else mret tt);
  _ ← plain; _ ← plain; _ ← plain; plain.

(** The directory is made, entered with [worker] and removed again.  What the
    removal raises is a category on the exception of the body, or the refusal
    of the phase. *)
Definition private_tree {A} (m : P A) : P A :=
  _ ← plain;
  holding (
    _ ← plain; _ ← plain;
    created ← attempt_any (_ ← plain; plain);
    worker ← attempt_any (_ ← embed created; plain);
    r ← attempt_any (_ ← embed worker; _ ← plain; m);
    removed ← attempt_any (remove_private (is_ok created) (is_ok worker));
    closed ← attempt_any (if is_ok worker then plain else mret tt);
    match r with
    | Ok _ => if is_ok removed && is_ok closed then embed r else throw (ValueError OWNED_CLEANUP)
    | Err e => _ ← (if is_ok removed && is_ok closed then mret tt else modify (with_notes [OWNED_CLEANUP])); throw e
    end).

Definition S_IMODE (mode : Z) : Z := Z.land mode 4095.
Definition PENDING : exn := ValueError "reconstruction-pending-changed".

(** The bundle leaves the private tree under a pending name. *)
Definition publish_pending : P (nat * snap) :=
  _ ← plain; _ ← plain;
  k ← new_file "bundle" false;
  fd ← open_bundle;
  _ ← set_fd k (Some fd);
  pending_facts ← inspect k Publication;
  _ ← require (bool_decide (S_IMODE (mode pending_facts) = 292) && bool_decide (nbytes pending_facts = bundleBytes)) PENDING;
  _ ← promote k Publication Output ".pending-bundle";
  pending_facts ← inspect k Output;
  _ ← plain;
  mret (k, pending_facts).

Definition in_tree : P (nat * snap) :=
  _ ← packing;
  _ ← plain; _ ← plain; _ ← plain;
  facts ← holding publish_pending;
  _ ← plain; _ ← plain;
  mret facts.

(** After the private tree is gone: the bundle and the receipt get their names. *)
Definition publish_final (owned_bundle : nat) (pending_facts : snap) : P unit :=
  _ ← plain; _ ← plain; _ ← plain;
  facts ← inspect owned_bundle Output;
  _ ← require (bool_decide (pending_facts = facts)) PENDING;
  _ ← promote owned_bundle Output Output "bundle";
  k ← new_file ".pending-receipt" true;
  fd ← create k ".pending-receipt";
  _ ← set_fd k (Some fd);
  _ ← inspect k Output;
  _ ← write_all (Z.to_nat payload) fd payload;
  _ ← touch (λ _ s, Snap (ino s) 33060 (uid s) (nlink s) (nbytes s) (stamp s)) fd;
  _ ← plain; _ ← plain;
  _ ← inspect k Output;
  _ ← promote k Output Output "receipt.json";
  _ ← plain; _ ← plain;
  plain.

Definition publish : P unit :=
  _ ← modify with_chain;
  _ ← plain;
  empty ← act (λ _ w, (Ok (bool_decide (output w = ∅)), w, []));
  _ ← require empty (ValueError "reconstruction-output-scope");
  _ ← plain;
  r ← attempt_any ('(k, facts) ← private_tree in_tree; publish_final k facts);
  _ ← close_publication (error_of r);
  embed r.

Definition reconstruct : P unit :=
  r ← attempt_any (_ ← holding publish; plain);
  match r with
  | Ok _ => mret tt
  | Err e =>
      c ← get chain_witness;
      _ ← (if (c : bool) then rollback_publication else mret tt);
      throw e
  end.

(** The output holds names of other processes only. *)
Definition start (o : gmap string Z) : world fs ev := World (Fs 0 ∅ (Foreign <$> o) ∅ [] false []) [].
End Run.

(** ** Runs *)
Definition uid0 : Z := 1000.
Definition packed0 : snap := Snap (Own 0) 33060 uid0 1 700 0.
Definition calm (c : nat) : slot := Slot None false [] (Z.of_nat c) 65536.
Definition faulty (at_ : nat) (eff : bool) (c : nat) : slot := if bool_decide (c = at_) then Slot (Some KeyboardInterrupt) eff [] (Z.of_nat c) 65536 else calm c.
Definition run (sched : nat → slot) : res unit * world fs ev :=
  reconstruct sched uid0 (λ _, packed0) packed0 700 70000 (start ∅).

(** ** Invariants that the calls keep *)
(** Keeping an invariant and saying more of a returned value *)
Definition spec {A} (P : world fs ev → Prop) (m : M fs ev A) (Q : A → world fs ev → Prop) (E : world fs ev → Prop) : Prop :=
  ∀ st, P st → match m st with (Ok a, st') => Q a st' | (Err _, st') => E st' end.

Lemma spec_bind {A B} P (m : M fs ev A) (k : A → M fs ev B) Q R E : spec P m Q E → (∀ a, spec (Q a) (k a) R E) → spec P (m ≫= k) R E.
Proof.
  intros Hm Hk st HP. specialize (Hm st HP). unfold mbind, M_bind. destruct (m st) as [[a|e] st']; [by apply Hk|done].
Qed.
Lemma spec_ret {A} (P : world fs ev → Prop) (a : A) (Q : A → world fs ev → Prop) E : (∀ st, P st → Q a st) → spec P (mret a) Q E.
Proof. intros H st HP. by apply H. Qed.
Lemma spec_keeps {A} (I E : world fs ev → Prop) (m : M fs ev A) : keeps I m → (∀ st, I st → E st) → spec I m (λ _, I) E.
Proof. intros Hm HE st HI. specialize (Hm st HI). destruct (m st) as [[a|e] st']; [done|by apply HE]. Qed.
Lemma spec_conseq {A} (P P' : world fs ev → Prop) (m : M fs ev A) Q Q' E E' :
  spec P' m Q' E' → (∀ st, P st → P' st) → (∀ a st, Q' a st → Q a st) → (∀ st, E' st → E st) → spec P m Q E.
Proof. intros Hm HP HQ HE st H. specialize (Hm st (HP _ H)). destruct (m st) as [[a|e] st']; auto. Qed.
Lemma spec_any {A} P (m : M fs ev A) (Q : A → world fs ev → Prop) E (R : world fs ev → Prop) :
  spec P m Q E → (∀ a st, Q a st → R st) → (∀ st, E st → R st) → ∀ st, P st → R (m st).2.
Proof. intros Hm HQ HE st HP. specialize (Hm st HP). destruct (m st) as [[a|e] st']; simpl; eauto. Qed.

Lemma any_spec {A} P (m : M fs ev A) (R : world fs ev → Prop) : (∀ st, P st → R (m st).2) → spec P m (λ _, R) R.
Proof. intros Hm st HP. specialize (Hm st HP). by destruct (m st) as [[a|e] st']. Qed.
(** Nothing gets past an [except BaseException]. *)
Lemma spec_attempt {A} P (m : M fs ev A) R E : spec P m (λ _, R) R → spec P (attempt_any m) (λ _, R) E.
Proof. intros Hm st HP. specialize (Hm st HP). unfold attempt_any. by destruct (m st) as [[|] ?]. Qed.
(** The two ways a body ends are told apart. *)
Lemma spec_attempt_res {A} P (m : M fs ev A) Q R E : spec P m Q R →
  spec P (attempt_any m) (λ r st, match r with Ok a => Q a st | Err _ => R st end) E.
Proof. intros Hm st HP. specialize (Hm st HP). unfold attempt_any. by destruct (m st) as [[|] ?]. Qed.
Lemma spec_attempt_any {A} I (m : M fs ev A) E : keeps I m → spec I (attempt_any m) (λ _, I) E.
Proof. intros Hm. by apply spec_attempt, any_spec. Qed.

Lemma keeps_attempt_any {A} I (m : M fs ev A) : keeps I m → keeps I (attempt_any m).
Proof. intros Hm st HI. specialize (Hm st HI). unfold attempt_any. by destruct (m st). Qed.
Lemma keeps_get {A} I (f : fs → A) : keeps I (get f).
Proof. by intros st HI. Qed.
Lemma keeps_require I b e : keeps I (require b e).
Proof. by intros st HI. Qed.
Lemma keeps_file_at I k : keeps I (file_at k).
Proof. apply keeps_bind; [apply keeps_get|]. intros f. apply keeps_embed. Qed.
Lemma keeps_for {A S} I (f : S → A → M fs ev S) l : (∀ s x, x ∈ l → keeps I (f s x)) → ∀ s, keeps I (forE f l s).
Proof.
  induction l as [|x l IH]; intros Hf s; cbn [forE]; [apply keeps_ret|].
  apply keeps_bind; [apply Hf; set_solver|]. intros s'. apply IH. intros ???. apply Hf. set_solver.
Qed.
#[export] Hint Resolve keeps_get keeps_require keeps_file_at : omux.
Ltac keep := repeat first [apply keeps_attempt_any | keeps_step
  | match goal with |- keeps _ ((match ?x with _ => _ end) _) => destruct x; cbv beta end].

Definition keeps_ino (f : snap → snap) : Prop := ∀ s, ino (f s) = ino s.

Section Proofs.
Context (sched : nat → slot) (getuid : Z) (foreign_stat : Z → snap) (packed : snap) (bundleBytes payload : Z).
Abbreviation stat_inode := (stat_inode foreign_stat).
Abbreviation plain := (plain sched).
Abbreviation stat := (stat sched foreign_stat).
Abbreviation fstat := (fstat sched foreign_stat).
Abbreviation capture := (capture sched foreign_stat).
Abbreviation inspect := (inspect sched getuid foreign_stat).

Definition before (w : fs) : fs := foldl (interfere (time (sched (clock w)))) (ticked w) (foreign (sched (clock w))).
Definition captured (k : nat) (info : snap) (w : fs) : fs :=
  with_files (alter (λ f, PFile (p_fd f) (p_name f) (output_names f) (Some (identity_of info)) (Some info)) k (files w)) w.

(** What an invariant needs to be kept by the calls that only look *)
Class Stable (I : world fs ev → Prop) := {
  stable_before w tr : I (World w tr) → I (World (before w) tr);
  stable_changed w tr f t i : keeps_ino f → I (World w tr) → I (World (changed f t i w) tr);
  stable_captured w tr k f i info : files w !! k = Some f → p_fd f = Some i → stat_inode w i = Ok info →
    I (World w tr) → I (World (captured k info w) tr) }.
(** and by the closes *)
Class Closable (I : world fs ev → Prop) := {
  closable_notes w tr n : I (World w tr) → I (World (with_notes n w) tr);
  closable_fd w tr k : I (World w tr) →
    I (World (with_files (alter (λ f, PFile None (p_name f) (output_names f) (p_identity f) (witness f)) k (files w)) w) tr) }.

Lemma act_spec {A} (I : world fs ev → Prop) (f : slot → fs → res A * fs * list ev) (Q : res A → world fs ev → Prop) :
  (∀ w tr e, I (World w tr) → raised (sched (clock w)) = Some e → Q (Err e) (World (before w) tr)) →
  (∀ w tr, I (World w tr) → let '(r, w', es) := f (sched (clock w)) (before w) in
     let st' := World w' (tr ++ es) in match raised (sched (clock w)) with None => Q r st' | Some e => Q (Err e) st' end) →
  ∀ st, I st → Q (act sched f st).1 (act sched f st).2.
Proof.
  intros H1 H2 [w tr] HI. specialize (H1 w tr). specialize (H2 w tr HI). unfold act. cbn [env trace].
  fold (before w). destruct (f _ (before w)) as [[r w'] es]. destruct (raised (sched (clock w))) as [e|]; [|done].
  destruct (effective _); [done|]. by apply H1.
Qed.

(** The fuel of a write is enough: every turn takes a byte or is refused. *)
Lemma write_all_ends fuel i : ∀ n, n <= Z.of_nat fuel → throws (λ e, e ≠ NoFuel) (write_all sched fuel i n).
Proof.
  assert (∀ A (f : slot → fs → res A * fs * list ev), (∀ s w, (f s w).1.1 ≠ Err NoFuel) → throws (λ e, e ≠ NoFuel) (act sched f)) as Hact.
  { intros A f Hf st e st'. unfold act. set (w := foldl _ _ _). specialize (Hf (sched (clock (env st))) w).
    destruct (f (sched (clock (env st))) w) as [[r w'] es]. unfold raised.
    repeat case_match; simplify_eq/=; intros; simplify_eq; congruence. }
  induction fuel as [|fuel IH]; intros n Hn; cbn [write_all]; case_bool_decide; try apply throws_ret; [lia|].
  apply throws_bind; [by apply Hact|]. intros _. apply throws_bind; [by apply Hact|]. intros a.
  unfold require. destruct (bool_decide (0 < a)) eqn:Ha; [|intros st e st'; unfold mbind, M_bind, embed; cbn; congruence].
  apply bool_decide_eq_true in Ha. apply throws_bind; [by intros st e st'|]. intros _. apply IH. lia.
Qed.

Section Looking.
Context (I : world fs ev → Prop) `{!Stable I}.

Lemma keeps_look {A} (f : slot → fs → res A * fs * list ev) :
  (∀ s w, ∃ r, f s w = (r, w, [])) → keeps I (act sched f).
Proof.
  intros Hf st HI. apply (act_spec I f (λ _, I)); [|intros w tr Hw|done].
  - intros w tr e Hw _. by apply stable_before.
  - destruct (Hf (sched (clock w)) (before w)) as [r ->]. rewrite app_nil_r. destruct (raised _); by apply stable_before.
Qed.
Lemma keeps_plain : keeps I plain.
Proof. apply keeps_look. eauto. Qed.
Lemma keeps_stat d name : keeps I (stat d name).
Proof. apply keeps_look. eauto. Qed.
Lemma keeps_fstat i : keeps I (fstat i).
Proof. apply keeps_look. eauto. Qed.

Lemma keeps_inode {A} (f : slot → fs → res A) g i : (∀ s, keeps_ino (g s)) →
  keeps I (act sched (λ s w, (f s w, changed (g s) (time s) i w, []))).
Proof.
  intros Hg st HI. apply (act_spec I _ (λ _, I)); [|intros w tr Hw|done].
  - intros w tr e Hw _. by apply stable_before.
  - cbn. rewrite app_nil_r. destruct (raised _); apply stable_changed; auto; by apply stable_before.
Qed.
Lemma keeps_touch f i : (∀ s, keeps_ino (f s)) → keeps I (touch sched f i).
Proof. intros Hf. unfold touch. by apply keeps_inode. Qed.
Lemma keeps_write i n : keeps I (write sched i n).
Proof. unfold write. by apply keeps_inode. Qed.
Lemma keeps_write_all fuel i : ∀ n, keeps I (write_all sched fuel i n).
Proof.
  induction fuel as [|fuel IH]; intros n; cbn; case_match; keep.
  - apply keeps_plain.
  - apply keeps_write.
Qed.

(** The snapshot is of the inode that the descriptor is open on. *)
Lemma fstat_spec k f i : spec (λ st, I st ∧ files (env st) !! k = Some f) (fstat i)
  (λ info st, I st ∧ files (env st) !! k = Some f ∧ stat_inode (env st) i = Ok info) I.
Proof.
  intros [w tr] [HI Hf]. assert (Hw := stable_before _ _ HI).
  assert (files (before w) !! k = Some f) as Hb.
  { unfold before. assert (files (foldl (interfere (time (sched (clock w)))) (ticked w) (foreign (sched (clock w)))) = files (ticked w)) as ->; [|done].
    generalize (ticked w). induction (foreign (sched (clock w))) as [|m ms IH]; intros w1; [done|]. cbn. rewrite IH.
    unfold interfere, dropped, changed. by repeat case_match. }
  unfold HmPublish.fstat, act. cbn [env trace]. fold (before w). rewrite app_nil_r. destruct (raised _); [by destruct (effective _)|].
  by destruct (stat_inode (before w) i) eqn:E.
Qed.

Lemma keeps_capture k : keeps I (capture k).
Proof.
  intros [w tr] HI. unfold HmPublish.capture, file_at, get, embed. unfold mbind at 1, M_bind at 1, mbind at 1, M_bind at 1. cbn [env].
  destruct (files w !! k) as [f|] eqn:Hf; [|done]. destruct (p_fd f) as [i|] eqn:Hi; [|done].
  assert (Hs := fstat_spec k f i (World w tr) (conj HI Hf)).
  unfold mbind at 1, M_bind at 1. destruct (fstat i (World w tr)) as [[info|e] [w' tr']]; [|done].
  destruct Hs as (Hw & Hf' & Hinfo). unfold require, embed, mbind, M_bind. destruct (ensure _ _); [|done]. cbn.
  by apply (stable_captured _ _ _ f i).
Qed.

Lemma keeps_inspect k d : keeps I (inspect k d).
Proof. unfold HmPublish.inspect. keep; [apply keeps_plain|apply keeps_capture|apply keeps_stat]. Qed.

Context `{!Closable I}.
Lemma keeps_notes n : keeps I (modify (with_notes n)).
Proof. intros [w tr] HI. by apply closable_notes. Qed.
Lemma keeps_fd_none k : keeps I (set_fd k None).
Proof. intros [w tr] HI. by apply (closable_fd _ _ k) in HI. Qed.
Lemma keeps_note c : keeps I (note c).
Proof. unfold note. apply keeps_bind; [apply keeps_require|]. intros [] [w tr] HI. by apply closable_notes. Qed.
Lemma keeps_close_file primary active k : keeps I (close_file sched foreign_stat primary active k).
Proof.
  unfold close_file. keep. all: first [apply keeps_capture|apply keeps_fd_none|apply keeps_plain|apply keeps_notes].
Qed.
Lemma keeps_close_one primary failure k : keeps I (close_one sched foreign_stat primary failure k).
Proof.
  unfold close_one, close_checked. keep; first [apply keeps_close_file|apply keeps_plain|apply keeps_fstat|apply keeps_stat|apply keeps_notes].
Qed.
Lemma keeps_close_publication primary : keeps I (close_publication sched foreign_stat primary).
Proof.
  unfold close_publication. keep; first [apply keeps_note|apply keeps_notes|apply keeps_for; intros; apply keeps_close_one].
Qed.
Lemma keeps_holding {A} (m : M fs ev A) : keeps I m → keeps I (holding sched m).
Proof. intros Hm. unfold holding, exit_held. keep; first [apply keeps_plain|apply keeps_notes|done]. Qed.
End Looking.
Ltac look := keep; try first [apply keeps_plain|apply keeps_notes|apply keeps_fstat|apply keeps_stat|apply keeps_capture|apply keeps_fd_none
  |apply keeps_inspect|apply keeps_write_all|apply keeps_note|apply keeps_close_publication]; try typeclasses eauto.

(** ** Closing leaves no descriptor open *)
Definition closed_at (l : list nat) (st : world fs ev) : Prop := ∀ k f, k ∈ l → files (env st) !! k = Some f → p_fd f = None.

Lemma files_before w : files (before w) = files w.
Proof.
  unfold before. change (files w) with (files (ticked w)). generalize (ticked w).
  induction (foreign (sched (clock w))) as [|m ms IH]; intros w1; [done|]. cbn. rewrite IH.
  unfold interfere, dropped, changed. by repeat case_match.
Qed.
Lemma files_changed f t i w : files (changed f t i w) = files w.
Proof. by destruct i. Qed.
Lemma alter_inv {A} (f : A → A) (k : nat) (l : list A) (j : nat) g :
  alter f k l !! j = Some g → ∃ g0, l !! j = Some g0 ∧ ((j ≠ k ∧ g = g0) ∨ (j = k ∧ g = f g0)).
Proof.
  rewrite list_lookup_alter. case_decide; [|eauto]. subst. intros (g0 & ? & ->)%fmap_Some. eauto.
Qed.

#[export] Instance closed_at_stable l : Stable (closed_at l).
Proof.
  split.
  - intros w tr H k f Hk. cbn. rewrite files_before. by apply H.
  - intros w tr f t i _ H k g Hk. cbn. rewrite files_changed. by apply H.
  - intros w tr k f i info Hf Hi _ H j g Hj (g0 & Hg0 & Hg)%alter_inv. specialize (H _ _ Hj Hg0). naive_solver.
Qed.
#[export] Instance closed_at_closable l : Closable (closed_at l).
Proof.
  split; [done|]. intros w tr k H j g Hj (g0 & Hg0 & Hg)%alter_inv. specialize (H _ _ Hj Hg0). naive_solver.
Qed.

Lemma spec_file_at I k E : (∀ st, I st → E st) → spec I (file_at k) (λ f st, I st ∧ files (env st) !! k = Some f) E.
Proof.
  intros HE st HI. unfold file_at, get, embed, mbind, M_bind. cbn. destruct (files (env st) !! k) eqn:Hf; cbn; auto.
Qed.

Lemma close_file_closed primary active k l st : closed_at l st → closed_at (k :: l) (close_file sched foreign_stat primary active k st).2.
Proof.
  intros Hl. unfold close_file, file_at, get, embed. unfold mbind at 1, M_bind at 1, mbind at 1, M_bind at 1. cbn [env].
  destruct (files (env st) !! k) as [f|] eqn:Hf; [destruct (p_fd f) as [i|] eqn:Hi|].
  - unfold mbind at 1, M_bind at 1. unfold attempt_any at 1. assert (H1 := keeps_capture _ k st Hl).
    destruct (capture k st) as [r st1]. unfold mbind at 1, M_bind at 1. cbn [set_fd set_file modify].
    assert (closed_at (k :: l) (World (with_files (alter (λ f, PFile None (p_name f) (output_names f) (p_identity f) (witness f)) k (files (env st1))) (env st1)) (trace st1))) as H2.
    { intros j g Hj (g0 & Hg0 & Hg)%alter_inv. destruct Hg as [[Hne ->]|[ -> ->]]; [|done].
      apply elem_of_cons in Hj as [ ->|Hj]; [done|by eapply H1]. }
    revert H2. generalize (World (with_files (alter (λ f, PFile None (p_name f) (output_names f) (p_identity f) (witness f)) k (files (env st1))) (env st1)) (trace st1)).
    refine (_ : keeps (closed_at (k :: l)) _). look.
  - intros j g [ ->|Hj]%elem_of_cons Hg; cbn in Hg; [congruence|by eapply Hl].
  - intros j g [ ->|Hj]%elem_of_cons Hg; cbn in Hg; [congruence|by eapply Hl].
Qed.

Lemma close_one_closed primary failure k l st : closed_at l st → closed_at (k :: l) (close_one sched foreign_stat primary failure k st).2.
Proof.
  revert st. apply (spec_any _ _ (λ _, closed_at (k :: l)) (closed_at (k :: l))); [|done|done].
  apply spec_bind with (Q := λ _, closed_at (k :: l)).
  - intros st Hl. unfold attempt_any. assert (closed_at (k :: l) (close_checked sched foreign_stat primary k st).2) as H; [|by destruct (close_checked _ _ _ _ st)].
    revert st Hl. apply (spec_any _ _ (λ _, closed_at (k :: l)) (closed_at (k :: l))); [|done|done].
    unfold close_checked. apply spec_bind with (Q := λ _, closed_at l).
    { intros st Hl. unfold file_at, get, embed, mbind, M_bind. cbn. destruct (files (env st) !! k) eqn:Hf; cbn; [done|].
      intros j g [ ->|Hj]%elem_of_cons Hg; [congruence|by eapply Hl]. }
    intros f. apply spec_bind with (Q := λ _, closed_at l).
    { apply spec_attempt_any. look. }
    intros r. apply spec_bind with (Q := λ _, closed_at (k :: l)); [apply any_spec; intros; by apply close_file_closed|].
    intros _. apply spec_keeps; [apply keeps_embed|done].
  - intros r. apply spec_keeps; [|done]. look.
Qed.

Lemma close_all_closed primary ks : ∀ failure l st, closed_at l st → closed_at (ks ++ l) (forE (close_one sched foreign_stat primary) ks failure st).2.
Proof.
  induction ks as [|k ks IH]; intros failure l st Hl; [done|]. cbn [forE]. unfold mbind, M_bind.
  assert (Hk := close_one_closed primary failure k l st Hl). destruct (close_one _ _ _ _ _ st) as [[fl|e] st1] eqn:E.
  - specialize (IH fl _ _ Hk). intros j g Hj. apply IH. set_solver.
  - exfalso. revert E. unfold close_one, mbind, M_bind, attempt_any, get. destruct (close_checked _ _ _ _ st) as [r [w tr]]. by destruct primary.
Qed.

Definition sized (n : nat) (st : world fs ev) : Prop := length (files (env st)) = n.
#[export] Instance sized_stable n : Stable (sized n).
Proof.
  split; unfold sized; cbn.
  - intros w _. by rewrite files_before.
  - intros w _ f t i _. by rewrite files_changed.
  - intros. by rewrite length_alter.
Qed.
#[export] Instance sized_closable n : Closable (sized n).
Proof. split; [done|]. intros w tr k H. unfold sized in *. cbn in *. by rewrite length_alter. Qed.

Definition closed (st : world fs ev) : Prop := ∀ k f, files (env st) !! k = Some f → p_fd f = None.
Lemma close_publication_closed primary st : closed (close_publication sched foreign_stat primary st).2.
Proof.
  set (n := length (files (env st))).
  assert (closed_at (reverse (seq 0 n) ++ []) (close_publication sched foreign_stat primary st).2) as H.
  { unfold close_publication, mbind at 1, M_bind at 1, get at 1. fold n. cbn.
    unfold mbind at 1, M_bind at 1.
    assert (Hc := close_all_closed (bool_decide (is_Some primary)) (reverse (seq 0 n)) None [] st ltac:(intros ?? []%elem_of_nil)).
    destruct (forE _ _ _ st) as [[fl|e] st1]; [|done]. revert st1 Hc.
    refine (_ : keeps (closed_at (reverse (seq 0 n) ++ [])) _). look. }
  intros k f Hf. apply (H k f); [|done]. apply elem_of_app. left. apply elem_of_reverse, elem_of_seq.
  split; [lia|]. apply lookup_lt_Some in Hf. by rewrite (keeps_close_publication (sized n) primary st) in Hf.
Qed.

(** ** Whose names the output holds *)
(** The names that the [k]-th file of the run ever has in the output *)
Definition own_names (k : nat) : list string :=
  match k with 0%nat => [".pending-bundle"; "bundle"] | 1%nat => [".pending-receipt"; "receipt.json"] | _ => [] end.

Record file_ok (k : nat) (f : pfile) : Prop := {
  ok_fd : ∀ i, p_fd f = Some i → i = Own k;
  ok_witness : ∀ s, witness f = Some s → ino s = Own k;
  ok_names : output_names f ⊆ own_names k;
  ok_name : p_name f ∈ own_names k }.

(** A name of the output that leads to a file of the run was announced in the
    [output_names] of that file before it was made. *)
Context (seen : Z → Prop) (Hseen : ∀ c name z, (name, Some z) ∈ foreign (sched c) → seen z).
Record wf (w : fs) : Prop := {
  wf_out : ∀ name k, output w !! name = Some (Own k) → ∃ f, files w !! k = Some f ∧ name ∈ output_names f;
  wf_pub : ∀ name i, publication w !! name = Some i → name = "bundle" ∧ i = Own 0;
  wf_ino : ∀ k s, inodes w !! k = Some s → ino s = Own k;
  wf_files : ∀ k f, files w !! k = Some f → file_ok k f;
  wf_foreign : ∀ name z, output w !! name = Some (Foreign z) → seen z }.

(** The run unlinks a file of another process only if that process put it there
    between the stat and the unlink. *)
Definition honest (tr : list ev) : Prop := ∀ c name i, EUnlink c name i ∈ tr → (∃ k, i = Own k) ∨ name ∈ (foreign (sched c)).*1.

Definition good (b : bool) (n : nat) (st : world fs ev) : Prop :=
  wf (env st) ∧ honest (trace st) ∧ chain_witness (env st) = b ∧ length (files (env st)) = n.

Lemma wf_changed f t i w : keeps_ino f → wf w → wf (changed f t i w).
Proof.
  intros Hf [H1 H2 H3 H4 H5]. destruct i as [k|z]; [|done]. split; [done|done| |done|done].
  intros j s. cbn. rewrite lookup_alter. case_decide; [|apply H3]. subst. intros (s0 & Hs0 & ->)%fmap_Some. cbn. rewrite Hf. by apply H3.
Qed.
Lemma keeps_ino_unlinked : keeps_ino unlinked.
Proof. by intros []. Qed.
Lemma wf_dropped t i w : wf w → wf (dropped t i w).
Proof. destruct i; [|done]. apply wf_changed, keeps_ino_unlinked. Qed.
Lemma output_dropped t i w : output (dropped t i w) = output w.
Proof. destruct i as [[k|z]|]; done. Qed.

(** Other processes only take away names of the run. *)
Lemma interfere_own t w m name k : output (interfere t w m) !! name = Some (Own k) → output w !! name = Some (Own k).
Proof.
  destruct m as [x [z|]]; cbn; rewrite output_dropped; destruct (decide (name = x)) as [ ->|Hne].
  - by rewrite lookup_insert_eq.
  - by rewrite lookup_insert_ne by done.
  - by rewrite lookup_delete_eq.
  - by rewrite lookup_delete_ne by done.
Qed.
Lemma interfere_files t w m : files (interfere t w m) = files w.
Proof. unfold interfere, dropped, changed. by repeat case_match. Qed.
Lemma interfere_other t w m name : name ≠ m.1 → output (interfere t w m) !! name = output w !! name.
Proof. intros Hne. destruct m as [x [z|]]; cbn in *; rewrite output_dropped; [by rewrite lookup_insert_ne by done|by rewrite lookup_delete_ne by done]. Qed.

Lemma wf_interfere t w m : (∀ z, m.2 = Some z → seen z) → wf w → wf (interfere t w m).
Proof.
  intros Hm Hw. assert (Hd := wf_dropped t (output w !! m.1) w Hw). destruct Hd as [_ H2 H3 H4 H5]. split; [|done|done|done|].
  - intros name k Hk%interfere_own. rewrite interfere_files. by apply Hw.
  - intros name z. cbn. rewrite output_dropped. destruct m as [x [z'|]]; cbn.
    + rewrite lookup_insert_Some. intros [[_ [= <-]]|[_ Hz]]; [by apply Hm|by apply (wf_foreign _ Hw name)].
    + intros [_ Hz]%lookup_delete_Some. by apply (wf_foreign _ Hw name).
Qed.
Lemma before_own w name k : output (before w) !! name = Some (Own k) → output w !! name = Some (Own k).
Proof.
  unfold before. change (output w) with (output (ticked w)). generalize (ticked w).
  induction (foreign (sched (clock w))) as [|m ms IH]; intros w1; [done|]. intros H%IH. by apply interfere_own in H.
Qed.
Lemma before_other w name : name ∉ (foreign (sched (clock w))).*1 → output (before w) !! name = output w !! name.
Proof.
  unfold before. change (output w) with (output (ticked w)). generalize (ticked w).
  induction (foreign (sched (clock w))) as [|m ms IH]; intros w1; [done|]. cbn. intros Hn. rewrite IH by set_solver.
  apply interfere_other. set_solver.
Qed.
Lemma wf_before w : wf w → wf (before w).
Proof.
  intros Hw. unfold before. assert (wf (ticked w)) as H by (destruct Hw; by split). revert H. generalize (ticked w).
  assert (∀ m z, m ∈ foreign (sched (clock w)) → m.2 = Some z → seen z) as Hms by (intros [x y] z; cbn; intros Hin ->; by eapply Hseen).
  revert Hms. induction (foreign (sched (clock w))) as [|m ms IH]; intros Hms w1 H; [done|].
  apply IH; [intros; eapply Hms; [by right|done]|]. apply wf_interfere; [|done]. intros z. apply Hms. left.
Qed.
Lemma frame_before w : chain_witness (before w) = chain_witness w ∧ notes (before w) = notes w ∧ clock (before w) = S (clock w).
Proof.
  unfold before. change (chain_witness w) with (chain_witness (ticked w)). change (notes w) with (notes (ticked w)).
  change (S (clock w)) with (clock (ticked w)). generalize (ticked w).
  induction (foreign (sched (clock w))) as [|m ms IH]; intros w1; [done|]. cbn [foldl].
  destruct (IH (interfere (time (sched (clock w))) w1 m)) as (-> & -> & ->). unfold interfere, dropped, changed. by repeat case_match.
Qed.

Lemma stat_inode_ino w i s : wf w → stat_inode w i = Ok s → ino s = i.
Proof.
  intros Hw. destruct i as [k|z]; cbn; [|by intros [= <-]]. destruct (inodes w !! k) eqn:E; [|done].
  intros [= <-]. by apply (wf_ino _ Hw).
Qed.
(** A change of one file that keeps its names *)
Lemma wf_alter k g w : (∀ f, file_ok k f → file_ok k (g f) ∧ output_names f ⊆ output_names (g f)) → wf w → wf (with_files (alter g k (files w)) w).
Proof.
  intros Hg [H1 H2 H3 H4 H5]. split; [|done|done| |done].
  - intros name j Hj. destruct (H1 _ _ Hj) as (f & Hf & Hn). cbn. rewrite list_lookup_alter. case_decide; [|eauto]. subst.
    exists (g f). split; [by rewrite Hf|]. by apply (Hg f); [apply H4|].
  - intros j f (f0 & Hf0 & [[_ ->]|[ -> ->]])%alter_inv; [by apply H4|]. by apply Hg, H4.
Qed.

#[export] Instance good_stable b n : Stable (good b n).
Proof.
  split; unfold good; cbn.
  - intros w tr (Hw & ?). destruct (frame_before w) as (-> & _). rewrite files_before. split; [by apply wf_before|done].
  - intros w tr f t i Hf (Hw & ? & ? & ?). split; [by apply wf_changed|]. rewrite files_changed. by destruct i.
  - intros w tr k f i info Hf Hi Hs (Hw & ? & ? & ?). rewrite length_alter. split; [|done].
    assert (ino info = Own k) as Hk.
    { rewrite (stat_inode_ino _ _ _ Hw Hs). by apply (ok_fd _ _ (wf_files _ Hw _ _ Hf)). }
    apply wf_alter; [|done]. intros g []. split; [|done]. split; try done. intros ?. cbn. by intros [= <-].
Qed.
#[export] Instance good_closable b n : Closable (good b n).
Proof.
  split; unfold good; cbn.
  - intros w tr l (Hw & ?). split; [|done]. by destruct Hw.
  - intros w tr k (Hw & ? & ? & ?). rewrite length_alter. split; [|done]. apply wf_alter; [|done].
    intros g []. split; [|done]. by split.
Qed.

(** ** The publication keeps the invariant *)
Definition some_good (b : bool) (st : world fs ev) : Prop := ∃ n, good b n st.
Lemma good_some b n st : good b n st → some_good b st.
Proof. by exists n. Qed.
Hint Resolve good_some : core.
#[export] Instance some_good_stable b : Stable (some_good b).
Proof.
  split.
  - intros w tr [n H]. exists n. by apply stable_before.
  - intros w tr f t i Hf [n H]. exists n. by apply stable_changed.
  - intros w tr k f i info Hf Hi Hs [n H]. exists n. by apply (stable_captured _ _ _ f i).
Qed.
#[export] Instance some_good_closable b : Closable (some_good b).
Proof. split; [intros w tr l [n H]|intros w tr k [n H]]; exists n; [by apply closable_notes|by apply closable_fd]. Qed.

Definition no_unlink (es : list ev) : Prop := ∀ c x i, EUnlink c x i ∉ es.
Lemma honest_app tr es : no_unlink es → honest tr → honest (tr ++ es).
Proof. intros He Ht c x i [H|H]%elem_of_app; [by eapply Ht|by apply He in H]. Qed.

(** A call that changes names or inodes; [Φ] is what is known of the files. *)
Lemma act_good {A} (Φ : list pfile → Prop) (f : slot → fs → res A * fs * list ev) (Q : A → Prop) b n :
  (∀ s w r w' es, wf w → Φ (files w) → f s w = (r, w', es) →
     wf w' ∧ chain_witness w' = chain_witness w ∧ files w' = files w ∧ no_unlink es ∧ (∀ a, r = Ok a → Q a)) →
  spec (λ st, good b n st ∧ Φ (files (env st))) (act sched f) (λ a st, Q a ∧ good b n st ∧ Φ (files (env st))) (good b n).
Proof.
  intros Hf st HI.
  assert (match (act sched f st).1 with Ok a => Q a ∧ good b n (act sched f st).2 ∧ Φ (files (env (act sched f st).2)) | Err _ => good b n (act sched f st).2 end) as H;
    [|by destruct (act sched f st) as [[] ?]].
  revert st HI. apply (act_spec (λ st, good b n st ∧ Φ (files (env st))) f (λ r st, match r with Ok a => Q a ∧ good b n st ∧ Φ (files (env st)) | Err _ => good b n st end)).
  - intros w tr e [Hw _] _. by apply stable_before.
  - intros w tr [Hw HΦ]. assert (Hb := stable_before _ _ Hw). destruct Hb as (Hb & Ht & Hc & Hn). cbn in *. rewrite <-files_before in HΦ.
    destruct (f _ (before w)) as [[r w'] es] eqn:Ef. destruct (Hf _ _ _ _ _ Hb HΦ Ef) as (Hw' & Hc' & Hf' & Hes & HQ).
    assert (good b n (World w' (tr ++ es))) as Hg by (unfold good; cbn; rewrite Hc', Hf'; auto using honest_app).
    destruct (raised _); [done|]. destruct r; [|done]. cbn. rewrite Hf'. auto.
Qed.
Lemma act_good_any {A} (f : slot → fs → res A * fs * list ev) b n :
  (∀ s w r w' es, wf w → f s w = (r, w', es) → wf w' ∧ chain_witness w' = chain_witness w ∧ files w' = files w ∧ no_unlink es) →
  keeps (good b n) (act sched f).
Proof.
  intros Hf st HI. apply (spec_any (λ st, good b n st ∧ True) _ (λ _ st, True ∧ good b n st ∧ True) (good b n)); [|naive_solver|done|done].
  apply (act_good (λ _, True) f (λ _, True)). intros s w r w' es Hw _ E. destruct (Hf _ _ _ _ _ Hw E) as (? & ? & ? & ?). done.
Qed.
Lemma no_unlink_nil : no_unlink [].
Proof. by intros c x i ?%elem_of_nil. Qed.
Hint Resolve no_unlink_nil : core.

Lemma own_names_disjoint name j k : name ∈ own_names j → name ∈ own_names k → j = k.
Proof. intros Hj Hk. destruct j as [|[|j]], k as [|[|k]]; cbn in *; try done; set_solver. Qed.

Lemma keeps_packing b n : keeps (good b n) (packing sched packed).
Proof.
  apply act_good_any. intros s w r w' es [H1 H2 H3 H4 H5] [= <- <- <-]. split; [|done]. split; [done| | |done|done]; cbn.
  - intros name i. rewrite lookup_singleton_Some. naive_solver.
  - intros k p. rewrite lookup_insert_Some. intros [[<- <-]|[_ Hk]]; [done|by apply H3].
Qed.
Lemma keeps_remove_tree b n : keeps (good b n) (remove_tree sched).
Proof.
  apply act_good_any. intros s w r w' es Hw [= <- <- <-]. assert (Hd := wf_dropped (time s) (publication w !! "bundle") w Hw).
  split; [destruct Hd as [H1 H2 H3 H4 H5]; split; [done|by intros ??|done|done|done]|]. unfold dropped, changed. by repeat case_match.
Qed.
Lemma spec_open_bundle b n : spec (good b n) (open_bundle sched) (λ i st, i = Own 0 ∧ good b n st) (good b n).
Proof.
  eapply spec_conseq; [apply (act_good (λ _, True) _ (λ i, i = Own 0))| |naive_solver|done]; [|done].
  intros s w r w' es Hw _ [= <- <- <-]. split; [done|]. split; [done|]. split; [done|]. split; [done|].
  intros a. destruct (publication w !! "bundle") eqn:E; [|done]. intros [= <-]. by apply (wf_pub _ Hw) in E as [_ ->].
Qed.
Lemma spec_new_file b n name in_output : name ∈ own_names n →
  spec (good b n) (new_file name in_output) (λ k st, k = n ∧ good b (S n) st ∧ (in_output = true → ∃ f, files (env st) !! n = Some f ∧ name ∈ output_names f)) (good b n).
Proof.
  intros Hname [w tr] ([H1 H2 H3 H4 H5] & Ht & Hc & Hn). unfold new_file, require, embed, mbind, M_bind, get, modify, mret, M_ret. cbn in *.
  destruct (ensure _ _); [|by split]. subst. unfold good. cbn. rewrite length_app. cbn.
  assert ((files w ++ [PFile None name (if in_output then [name] else []) None None]) !! length (files w)
    = Some (PFile None name (if in_output then [name] else []) None None)) as Hl by by rewrite lookup_app_r, Nat.sub_diag.
  split; [done|]. split; [split; [|split; [done|split; [done|lia]]]|intros ->; eexists; split; [exact Hl|apply list_elem_of_singleton; done]].
  split; [|done|done| |done].
  - intros x k (f & Hf & Hx)%H1. exists f. split; [|done]. cbn. by apply lookup_app_l_Some.
  - intros k f. cbn. rewrite lookup_app. destruct (files w !! k) eqn:E; [intros [= <-]; by apply H4|].
    rewrite list_lookup_singleton_Some. intros [Hk <-]. apply lookup_ge_None in E. replace k with (length (files w)) by lia.
    split; cbn; [done|done| |done]. destruct in_output; set_solver.
Qed.
Lemma keeps_set_fd b n k : keeps (good b n) (set_fd k (Some (Own k))).
Proof.
  intros [w tr] (Hw & ? & ? & Hn). unfold good. cbn in *. rewrite length_alter. split; [|done]. apply wf_alter; [|done].
  intros f []. split; [|done]. split; try done. cbn. by intros ? [= <-].
Qed.

Definition announced (k : nat) (name : string) (l : list pfile) : Prop := ∃ f, l !! k = Some f ∧ name ∈ output_names f.

Lemma spec_create b n k name : spec (λ st, good b n st ∧ announced k name (files (env st))) (create sched getuid k name)
  (λ i st, i = Own k ∧ good b n st) (good b n).
Proof.
  eapply spec_conseq with (P' := λ st, good b n st ∧ announced k name (files (env st))) (E' := good b n) (Q' := λ i st, i = Own k ∧ good b n st ∧ announced k name (files (env st))); [|done|naive_solver|done].
  apply act_good.
  intros s w r w' es Hw Ha E. destruct (output w !! name) eqn:Eo; injection E as <- <- <-; [by split_and!|]. destruct Hw as [H1 H2 H3 H4 H5].
  split; [|split; [done|split; [done|split; [|by intros a [= <-]]]]].
  - split; [|done| |done|]; cbn.
    + intros x j. rewrite lookup_insert_Some. intros [[<- [= <-]]|[_ Hj]]; [done|by apply H1].
    + intros j p. rewrite lookup_insert_Some. intros [[<- <-]|[_ Hj]]; [done|by apply H3].
    + intros x z. rewrite lookup_insert_Some. intros [[_ ?]|[_ Hz]]; [done|by eapply H5].
  - by intros c x i ?%list_elem_of_singleton.
Qed.

Lemma spec_noreplace b n k f source name : p_name f ∈ own_names k →
  spec (λ st, good b n st ∧ announced k name (files (env st))) (publication_noreplace sched source (p_name f) Output name) (λ _, good b n) (good b n).
Proof.
  intros Hp. eapply spec_conseq with (Q' := λ _ st, True ∧ good b n st ∧ announced k name (files (env st))) (P' := λ st, good b n st ∧ announced k name (files (env st))) (E' := good b n); [|done|naive_solver|done].
  apply act_good.
  intros s w r w' es Hw Ha E. destruct (entries source w !! p_name f) as [i|] eqn:Ei; [|by injection E as <- <- <-; split_and!].
  destruct (entries Output w !! name) eqn:Eo; injection E as <- <- <-; [by split_and!|].
  split; [|split; [by destruct i, source|split; [by destruct i, source|split; [|done]]]].
  - apply wf_changed; [done|]. destruct Hw as [H1 H2 H3 H4 H5].
    assert (∀ j, i = Own j → j = k) as Hik.
    { intros j ->. destruct source; cbn in Ei; [apply H2 in Ei as [Hb [= ->]]|].
      - rewrite Hb in Hp. by apply (own_names_disjoint "bundle"); [set_solver|].
      - apply H1 in Ei as (g & Hg & Hn). apply (own_names_disjoint (p_name f)); [|done]. by apply (ok_names _ _ (H4 _ _ Hg)). }
    assert (∀ x j, (<[name := i]> (match source with Output => delete (p_name f) (output w) | Publication => output w end)) !! x = Some (Own j) →
      ∃ g, files w !! j = Some g ∧ x ∈ output_names g) as Ho.
    { intros x j. rewrite lookup_insert_Some. intros [[<- ->]|[_ Hj]]; [by rewrite (Hik j)|]. apply H1.
      destruct source; [done|]. by apply lookup_delete_Some in Hj as [_ ?]. }
    assert (∀ x z, (<[name := i]> (match source with Output => delete (p_name f) (output w) | Publication => output w end)) !! x = Some (Foreign z) → seen z) as Hz.
    { intros x z. rewrite lookup_insert_Some. intros [[_ ->]|[_ Hz]].
      - destruct source; cbn in Ei; [by apply H2 in Ei as [_ ?]|by eapply H5].
      - destruct source; [|apply lookup_delete_Some in Hz as [_ Hz]]; by eapply H5. }
    destruct source; cbn; split; cbn; try done. intros x j Hx. apply lookup_delete_Some in Hx as [_ Hx]. by apply H2.
  - intros c x j. destruct source; cbn; set_solver.
Qed.

Lemma keeps_promote b n k source name : name ∈ own_names k → keeps (good b n) (promote sched getuid foreign_stat k source Output name).
Proof.
  intros Hname. unfold keeps. apply (spec_any _ _ (λ _, good b n) (good b n)); [|done|done]. unfold promote.
  eapply spec_bind; [apply spec_keeps; [apply keeps_inspect; typeclasses eauto|done]|]. intros ?; cbv beta.
  eapply spec_bind; [apply spec_keeps; [apply keeps_require|done]|]. intros ?; cbv beta.
  apply spec_bind with (Q := λ _ st, good b n st ∧ ∀ f, files (env st) !! k = Some f → name ∈ output_names f).
  { intros [w tr] (Hw & ? & ? & ?). cbn in *. unfold good. cbn. rewrite length_alter. split; [split; [|done]|].
    - apply wf_alter; [|done]. intros f [Hf1 Hf2 Hf3 Hf4]. split; [split|]; cbn; try done; set_solver.
    - intros f (f0 & _ & [[? _]|[_ ->]])%alter_inv; [done|]. cbn. set_solver. }
  intros ?; cbv beta. eapply spec_bind; [by apply spec_file_at; intros ? [? _]|]. intros f.
  apply spec_bind with (Q := λ _, good b n).
  { intros st [[Hg Ha] Hf]. apply (spec_noreplace b n k f source name); [by apply (wf_files (env st)); [apply Hg|]|].
    split; [done|]. exists f. auto. }
  intros _. apply spec_bind with (Q := λ _, good b n).
  { intros [w tr] (Hw & ? & ? & ?). cbn in *. unfold good. cbn. rewrite length_alter. split; [|done].
    apply wf_alter; [|done]. intros g [Hf1 Hf2 Hf3 Hf4]. split; [split|]; cbn; done. }
  intros _. apply spec_keeps; [|done]. keep. apply keeps_inspect; typeclasses eauto.
Qed.

(** A body that ended, with what is known then *)
Definition ended {A} (φ : A → Prop) b n (r : res A) (st : world fs ev) : Prop :=
  match r with Ok a => φ a ∧ good b n st | Err _ => some_good b st end.
Lemma keeps_some_good {A} b (m : M fs ev A) : (∀ n, keeps (good b n) m) → keeps (some_good b) m.
Proof. intros Hm st [n Hg]. exists n. by apply Hm. Qed.
Lemma keeps_ended {A B} (φ : A → Prop) b n r (m : M fs ev B) : (∀ n, keeps (good b n) m) → keeps (ended φ b n r) m.
Proof. intros Hm st H. destruct r as [a|e]; [destruct H; split; [done|by apply Hm]|by apply keeps_some_good]. Qed.
Lemma ended_embed {A} (φ : A → Prop) b n r : spec (ended φ b n r) (embed r) (λ a st, φ a ∧ good b n st) (some_good b).
Proof. intros st H. by destruct r. Qed.
Lemma ended_notes {A} (φ : A → Prop) b n e l : spec (ended φ b n (Err e)) (_ ← modify (with_notes l); throw e) (λ a st, φ a ∧ good b n st) (some_good b).
Proof. intros st H. by apply (keeps_notes (some_good b) l). Qed.
Lemma ended_throw {A} (φ : A → Prop) b n r e : spec (ended φ b n r) (throw e) (λ a st, φ a ∧ good b n st) (some_good b).
Proof. intros st H. destruct r; [by eapply good_some, H|done]. Qed.

Lemma spec_holding {A} b n0 (m : M fs ev A) (φ : A → Prop) n :
  spec (good b n0) m (λ a st, φ a ∧ good b n st) (some_good b) → spec (good b n0) (holding sched m) (λ a st, φ a ∧ good b n st) (some_good b).
Proof.
  intros Hm. eapply spec_bind; [apply spec_keeps; [apply keeps_plain; typeclasses eauto|by eauto]|]. intros ?; cbv beta.
  apply spec_bind with (Q := ended φ b n); [by apply spec_attempt_res|]. intros r. unfold exit_held.
  apply spec_bind with (Q := λ _, ended φ b n r).
  { apply spec_attempt_any, keeps_ended. intros. apply keeps_plain; typeclasses eauto. }
  intros [u|e']; [destruct r; apply ended_embed|]. destruct r; [apply ended_throw|apply ended_notes].
Qed.
Lemma spec_step {A B} b n (m : M fs ev A) (k : A → M fs ev B) Q :
  keeps (good b n) m → (∀ a, spec (good b n) (k a) Q (some_good b)) → spec (good b n) (m ≫= k) Q (some_good b).
Proof. intros Hm Hk. eapply spec_bind; [apply spec_keeps; [done|by eauto]|]. done. Qed.
Lemma spec_pure {A} (φ : Prop) P (m : M fs ev A) Q E : (φ → spec P m Q E) → spec (λ st, φ ∧ P st) m Q E.
Proof. intros H st [Hφ HP]. by apply H. Qed.
Lemma spec_weaken {A} b n P (m : M fs ev A) Q : spec P m Q (good b n) → spec P m Q (some_good b).
Proof. intros H st HP. specialize (H st HP). destruct (m st) as [[|] ?]; eauto. Qed.
Ltac steps := repeat (apply spec_step; [solve [first [apply keeps_require|apply keeps_plain; typeclasses eauto|apply keeps_inspect; typeclasses eauto
  |apply keeps_set_fd|apply keeps_promote; set_solver|apply keeps_packing|apply keeps_write_all; typeclasses eauto
  |apply keeps_touch; [typeclasses eauto|done]]]|intros ?]).

Lemma publish_pending_good : spec (good true 0) (publish_pending sched getuid foreign_stat bundleBytes) (λ r st, r.1 = 0%nat ∧ good true 1 st) (some_good true).
Proof.
  unfold publish_pending. steps.
  eapply spec_bind; [by apply spec_weaken with (n := 0%nat), spec_new_file; set_solver|]. intros k. cbv beta.
  apply spec_pure. intros ->. apply spec_conseq with (P' := good true 1) (Q' := λ r st, r.1 = 0%nat ∧ good true 1 st) (E' := some_good true); [|naive_solver|done|done].
  eapply spec_bind; [by apply spec_weaken with (n := 1%nat), spec_open_bundle|]. intros i. cbv beta.
  apply spec_pure. intros ->. steps. apply spec_ret. by intros.
Qed.
Lemma in_tree_good : spec (good true 0) (in_tree sched getuid foreign_stat packed bundleBytes) (λ r st, r.1 = 0%nat ∧ good true 1 st) (some_good true).
Proof.
  unfold in_tree. steps. eapply spec_bind; [apply (spec_holding true 0 _ (λ r, r.1 = 0%nat)), publish_pending_good|].
  intros r. cbv beta. apply spec_pure. intros Hr. steps. apply spec_ret. by intros.
Qed.
Lemma private_tree_good : spec (good true 0) (private_tree sched (in_tree sched getuid foreign_stat packed bundleBytes)) (λ r st, r.1 = 0%nat ∧ good true 1 st) (some_good true).
Proof.
  unfold private_tree. apply spec_step; [apply keeps_plain; typeclasses eauto|intros ?]. apply (spec_holding true 0 _ (λ r, r.1 = 0%nat)).
  do 2 (apply spec_step; [apply keeps_plain; typeclasses eauto|intros ?]).
  apply spec_step; [look|intros created]. apply spec_step; [look|intros worker].
  apply spec_bind with (Q := ended (λ r, r.1 = 0%nat) true 1).
  { apply spec_attempt_res. apply spec_step; [apply keeps_embed|intros ?]. apply spec_step; [apply keeps_plain; typeclasses eauto|intros ?]. apply in_tree_good. }
  intros r. apply spec_bind with (Q := λ _, ended (λ r, r.1 = 0%nat) true 1 r).
  { apply spec_attempt_any, keeps_ended. intros n. unfold remove_private. keep; first [apply keeps_plain; typeclasses eauto|apply keeps_remove_tree]. }
  intros removed. apply spec_bind with (Q := λ _, ended (λ r, r.1 = 0%nat) true 1 r).
  { apply spec_attempt_any, keeps_ended. intros n. look. }
  intros closed_. destruct r as [v|e], (is_ok removed && is_ok closed_); [apply ended_embed|apply ended_throw|apply (ended_throw _ _ _ (Err e))|apply ended_notes].
Qed.
Lemma publish_final_good facts : spec (good true 1) (publish_final sched getuid foreign_stat payload 0 facts) (λ _, some_good true) (some_good true).
Proof.
  unfold publish_final. steps.
  eapply spec_bind; [by apply spec_weaken with (n := 1%nat), spec_new_file; set_solver|]. intros k. cbv beta. apply spec_pure. intros ->.
  eapply spec_bind with (Q := λ i st, i = Own 1 ∧ good true 2 st).
  { apply spec_weaken with (n := 2%nat). eapply spec_conseq; [apply spec_create|intros st [? H]; by split; [|apply H]|done|done]. }
  intros i. cbv beta. apply spec_pure. intros ->. steps.
  intros st Hg. assert (H := keeps_plain (good true 2) st Hg). destruct (plain st) as [[|] st']; by exists 2%nat.
Qed.

Lemma publish_good st : good false 0 st → some_good true (publish sched getuid foreign_stat packed bundleBytes payload st).2 ∧ closed (publish sched getuid foreign_stat packed bundleBytes payload st).2.
Proof.
  revert st. apply (spec_any _ _ (λ _ st, some_good true st ∧ closed st) (λ st, some_good true st ∧ closed st) (λ st, some_good true st ∧ closed st)); [|done|done].
  unfold publish.
  assert (∀ st, good true 0 st → some_good true st ∧ closed st) as Hclosed.
  { intros st Hg. split; [by eauto|]. destruct Hg as (_ & _ & _ & Hn%nil_length_inv). intros k f. by rewrite Hn. }
  apply spec_bind with (Q := λ _, good true 0); [by intros st ([] & ? & ? & ?); split|]. intros ?; cbv beta.
  eapply spec_bind; [apply spec_keeps; [apply keeps_plain; typeclasses eauto|done]|]. intros ?; cbv beta.
  eapply spec_bind; [apply spec_keeps; [apply keeps_look; [typeclasses eauto|by eauto]|done]|]. intros ?; cbv beta.
  eapply spec_bind; [apply spec_keeps; [apply keeps_require|done]|]. intros ?; cbv beta.
  eapply spec_bind; [apply spec_keeps; [apply keeps_plain; typeclasses eauto|done]|]. intros ?; cbv beta.
  apply spec_bind with (Q := λ _, some_good true).
  { apply spec_attempt. eapply spec_bind; [apply private_tree_good|]. intros [k facts]. cbv beta. apply spec_pure. cbn [fst]. intros ->.
    apply publish_final_good. }
  intros r. apply spec_bind with (Q := λ _ st, some_good true st ∧ closed st).
  - apply any_spec. intros st Hg. split; [by apply keeps_close_publication; [typeclasses eauto|typeclasses eauto|]|apply close_publication_closed].
  - intros ?. by apply spec_keeps; [apply keeps_embed|].
Qed.

Abbreviation publish := (publish sched getuid foreign_stat packed bundleBytes payload).
Lemma main_good st : good false 0 st →
  let st' := ((_ ← holding sched publish; plain) st).2 in good false 0 st' ∨ (some_good true st' ∧ closed st').
Proof.
  intros Hg. unfold mbind, M_bind, holding, exit_held, attempt_any. unfold mbind, M_bind. cbv zeta.
  assert (Hp := keeps_plain (good false 0) st Hg). destruct (plain st) as [[|e] st1]; [|by left]. cbn in Hp.
  destruct (publish_good st1 Hp) as [H1 H2]. destruct (publish st1) as [r st2]. cbn in H1, H2.
  assert (∀ st, some_good true st ∧ closed st → some_good true (plain st).2 ∧ closed (plain st).2) as Hplain.
  { intros st3 [H3 H4]. split; [by apply keeps_plain; [typeclasses eauto|]|]. intros k f Hf.
    eapply (keeps_plain (closed_at [k])); [|apply list_elem_of_singleton; reflexivity|exact Hf]. intros j g ->%list_elem_of_singleton. apply H4. }
  destruct (Hplain st2 (conj H1 H2)) as [H3 H4]. destruct (plain st2) as [l st3]. cbn in H3, H4. right.
  assert (∀ n, some_good true (World (with_notes n (env st3)) (trace st3)) ∧ closed (World (with_notes n (env st3)) (trace st3))) as Hnotes.
  { intros n. split; [|done]. by apply (keeps_notes (some_good true) n). }
  destruct r, l; cbn; first [by split|by apply Hnotes|by apply Hplain].
Qed.

(** ** The rollback *)
(** Names of the run only go, and a refusal once noted stays noted. *)
Definition shrinks (w w' : fs) : Prop :=
  (∀ name k, output w' !! name = Some (Own k) → output w !! name = Some (Own k)) ∧ (notes w' = [] → notes w = []) ∧ files w' = files w.
#[export] Instance shrinks_preorder : PreOrder shrinks.
Proof.
  split; [by intros w|]. intros w1 w2 w3 (H1 & H2 & H3) (H4 & H5 & H6). split; [auto|]. split; [auto|congruence].
Qed.
Lemma shrinks_before w : shrinks w (before w).
Proof. split; [apply before_own|]. destruct (frame_before w) as (_ & -> & _). by rewrite files_before. Qed.

(** What a step of the rollback does, from a state where [P] holds *)
Definition undoes {A} (P : fs → Prop) (m : M fs ev A) (Q : res A → fs → Prop) : Prop := ∀ b n st, good b n st → closed st → P (env st) →
  let '(r, st') := m st in good b n st' ∧ closed st' ∧ shrinks (env st) (env st') ∧ Q r (env st').

Lemma undoes_bind {A B} P (m : M fs ev A) (k : A → M fs ev B) Q (R : res B → fs → Prop) :
  undoes P m Q → (∀ a, undoes (Q (Ok a)) (k a) R) → (∀ e w, Q (Err e) w → R (Err e) w) → undoes P (m ≫= k) R.
Proof.
  intros Hm Hk He b n st Hg Hc HP. specialize (Hm b n st Hg Hc HP). unfold mbind, M_bind.
  destruct (m st) as [[a|e] st1]; destruct Hm as (Hg1 & Hc1 & Hs1 & HQ); [|by auto].
  specialize (Hk a b n st1 Hg1 Hc1 HQ). destruct (k a st1) as [r st2]. destruct Hk as (? & ? & ? & ?). split_and!; try done. by etrans.
Qed.
Lemma undoes_conseq {A} (P P' : fs → Prop) (m : M fs ev A) (Q Q' : res A → fs → Prop) :
  undoes P' m Q' → (∀ w, P w → P' w) → (∀ r w, Q' r w → Q r w) → undoes P m Q.
Proof. intros Hm HP HQ b n st Hg Hc Hp. specialize (Hm b n st Hg Hc (HP _ Hp)). destruct (m st) as [r st']. naive_solver. Qed.
Lemma undoes_pure {A} (P : fs → Prop) (r : res A) (Q : res A → fs → Prop) : (∀ w, P w → Q r w) → undoes P (embed r) Q.
Proof. intros HQ b n st Hg Hc HP. cbn. split_and!; auto. done. Qed.

Lemma closed_files w tr w' tr' : files w' = files w → closed (World w tr) → closed (World w' tr').
Proof. unfold closed. cbn. by intros ->. Qed.

Lemma undoes_look {A} (f : slot → fs → res A * fs * list ev) (Q : res A → fs → Prop) :
  (∀ s w, ∃ r, f s w = (r, w, []) ∧ Q r w) → (∀ s w e, raised s = Some e → Q (Err e) w) → undoes (λ _, True) (act sched f) Q.
Proof.
  intros Hf He b n [w tr] Hg Hc _. unfold act. cbn [env trace]. fold (before w). assert (Hb := stable_before _ _ Hg).
  assert (closed (World (before w) tr)) as Hcb by (eapply closed_files; [apply files_before|done]).
  destruct (Hf (sched (clock w)) (before w)) as (r & -> & HQ). rewrite app_nil_r.
  destruct (raised _) eqn:E; [destruct (effective _)|]; (split; [done|split; [done|split; [apply shrinks_before|eauto]]]).
Qed.
Lemma undoes_plain : undoes (λ _, True) plain (λ _ _, True).
Proof. apply undoes_look; eauto. Qed.
Lemma undoes_stat name : undoes (λ _, True) (stat Output name) (λ r w,
  match r with Ok s => ∃ i, output w !! name = Some i ∧ stat_inode w i = Ok s | Err e => e = FileNotFoundError → output w !! name = None end).
Proof.
  apply undoes_look.
  - intros s w. eexists. split; [done|]. cbn. destruct (output w !! name) as [i|] eqn:E; [|done].
    destruct (stat_inode w i) eqn:Es; [by eauto|]. intros ->. unfold HmPublish.stat_inode in Es. by repeat case_match.
  - intros s w e. unfold raised. intros Hr ->. by repeat case_match.
Qed.

Definition gone (name : string) (w : fs) : Prop := ∀ k, output w !! name ≠ Some (Own k).
Lemma gone_shrinks name w w' : shrinks w w' → gone name w → gone name w'.
Proof. intros (H & _) Hg k Hk. by eapply Hg, H. Qed.
(** A name that is gone stays gone. *)
Lemma undoes_stable {A} (S P : fs → Prop) (m : M fs ev A) Q :
  (∀ w w', shrinks w w' → S w → S w') → undoes P m Q → undoes (λ w, P w ∧ S w) m (λ r w, Q r w ∧ S w).
Proof.
  intros HS Hm b n st Hg Hc [HP Hs]. specialize (Hm b n st Hg Hc HP). destruct (m st) as [r st']. naive_solver.
Qed.

Lemma undoes_unlink k name : undoes (λ w, output w !! name = Some (Own k)) (unlink sched name) (λ r w, is_ok r → gone name w).
Proof.
  intros b n [w tr] Hg Hc Hk. unfold unlink, act. cbn [env trace] in *. fold (before w). assert (Hb := stable_before _ _ Hg).
  assert (closed (World (before w) tr)) as Hcb by (eapply closed_files; [apply files_before|done]). assert (Hs := shrinks_before w).
  destruct (output (before w) !! name) as [i|] eqn:Ei.
  - set (w' := with_output _ _). set (es := [EUnlink _ name i]). assert (output w' = delete name (output (before w))) as Ho by done.
    assert (files w' = files (before w)) as Hf by by destruct i.
    assert (good b n (World w' (tr ++ es))) as Hg'.
    { destruct Hb as (Hw & Ht & Hch & Hn). split; [|split; [|by destruct i]]; cbn [env trace] in *.
      - apply (wf_changed unlinked (time (sched (clock w))) i) in Hw as [H1 H2 H3 H4 H5]; [|apply keeps_ino_unlinked]. split; [|done|done|done|].
        + intros x j. rewrite Ho. intros [_ Hx]%lookup_delete_Some. apply H1. by destruct i.
        + intros x z. rewrite Ho. intros [_ Hx]%lookup_delete_Some. apply (H5 x). by destruct i.
      - intros c x j [H|H]%elem_of_app; [by eapply Ht|]. apply list_elem_of_singleton in H as [= -> -> ->].
        destruct (frame_before w) as (_ & _ & ->). cbn. destruct (decide (name ∈ (foreign (sched (clock w))).*1)) as [Hin|Hout]; [by right|left].
        rewrite (before_other w name Hout), Hk in Ei. injection Ei as <-. eauto. }
    assert (closed (World w' (tr ++ es))) as Hc' by by eapply closed_files.
    assert (shrinks w w') as Hs'.
    { etrans; [exact Hs|]. split; [intros x j; rewrite Ho; by intros [_ ?]%lookup_delete_Some|]. by destruct i. }
    assert (gone name w') as Hgone by (intros j; by rewrite Ho, lookup_delete_eq).
    destruct (raised _); [destruct (effective _)|]; split_and!; done.
  - rewrite app_nil_r. destruct (raised _); [destruct (effective _)|]; split_and!; done.
Qed.

Lemma gone_None name w : output w !! name = None → gone name w.
Proof. by intros H k; rewrite H. Qed.
Lemma undoes_rollback_name k name : undoes (λ _, True) (rollback_name sched getuid foreign_stat k name) (λ r w, is_ok r → gone name w).
Proof.
  unfold rollback_name. eapply undoes_bind; [apply undoes_plain| |done]. intros ?; cbv beta.
  apply undoes_bind with (Q := λ r w, match r with
    | Ok (Some s) => ∃ i, output w !! name = Some i ∧ stat_inode w i = Ok s | Ok None => output w !! name = None | Err _ => True end); [| |done].
  { intros b n st Hg Hc _. assert (H := undoes_stat name b n st Hg Hc I). unfold attempt, try_except, mbind, M_bind.
    destruct (stat Output name st) as [[s1|e] st1]; [done|]. case_bool_decide; naive_solver. }
  intros [named|]; [|intros b n st Hg Hc H; split_and!; [done|done|done|by intros _; apply gone_None]].
  intros b n st Hg Hc (i & Hi & Hs). unfold file_at, get, embed. unfold mbind at 1, M_bind at 1, mbind at 1, M_bind at 1. cbn [env].
  destruct (files (env st) !! k) as [f|] eqn:Hf; [|by split_and!]. rewrite (Hc _ _ Hf).
  unfold mbind at 1, M_bind at 1. cbn [mret M_ret]. unfold require, embed, mbind at 1, M_bind at 1.
  destruct (bool_decide (witness f = Some named) && _) eqn:Eb; [|by split_and!]. cbn [ensure].
  apply andb_prop in Eb as [Hw%bool_decide_eq_true _].
  assert (i = Own k) as ->.
  { rewrite <-(stat_inode_ino _ _ _ (proj1 Hg) Hs). destruct Hg as (Hg & _). by apply (ok_witness _ _ (wf_files _ Hg _ _ Hf)). }
  assert (undoes (λ w, output w !! name = Some (Own k)) (_ ← unlink sched name; plain) (λ r w, is_ok r → gone name w)) as H; [|by apply H].
  eapply undoes_bind; [apply undoes_unlink| |by intros e w _]. intros u. cbn.
  eapply undoes_conseq; [apply (undoes_stable (gone name) (λ _, True)); [apply gone_shrinks|apply undoes_plain]| |]; naive_solver.
Qed.

Lemma undoes_note P (c : string) : c ∈ allowed → undoes P (note c) (λ r w, is_ok r ∧ notes w ≠ []).
Proof.
  intros Hc b n [w tr] Hg Hcl _. unfold note, require, embed, mbind, M_bind. rewrite bool_decide_eq_true_2 by done. cbn [ensure].
  unfold modify. cbn [env trace]. set (l := sorted_set _). assert (l ≠ []) as Hl.
  { intros Hnil. assert (c ∈ l) as Hin; [|rewrite Hnil in Hin; by apply elem_of_nil in Hin].
    apply elem_of_sorted_set. constructor. }
  split; [by apply (closable_notes w tr l)|]. split; [done|]. split; [|done]. by split.
Qed.
Lemma undoes_noting P (m : M fs ev unit) (S : fs → Prop) : undoes P m (λ r w, is_ok r → S w) →
  undoes P (noting ROLLBACK_REFUSED m) (λ r w, is_ok r ∧ (notes w = [] → S w)).
Proof.
  intros Hm. unfold noting. apply undoes_bind with (Q := λ r w, match r with Ok (Ok _) => S w | Ok (Err _) => True | Err _ => False end); [| |done].
  - intros b n st Hg Hc HP. specialize (Hm b n st Hg Hc HP). unfold attempt_any. destruct (m st) as [[|] st1]; naive_solver.
  - intros [u|e].
    + apply (undoes_pure _ (Ok ())). naive_solver.
    + eapply undoes_conseq; [apply (undoes_note (λ _, True)); set_solver|done|]. naive_solver.
Qed.

(** Unless a refusal was noted, [S] holds; it stays so. *)
Definition or_noted (S : fs → Prop) (w : fs) : Prop := notes w = [] → S w.
Lemma undoes_for {A} (f : unit → A → M fs ev unit) (S : A → fs → Prop) l :
  (∀ x w w', shrinks w w' → S x w → S x w') → (∀ x, undoes (λ _, True) (f tt x) (λ r w, is_ok r → or_noted (S x) w)) →
  undoes (λ _, True) (forE f l tt) (λ r w, is_ok r → ∀ x, x ∈ l → or_noted (S x) w).
Proof.
  intros HS Hf. induction l as [|x l IH]; cbn [forE].
  - apply (undoes_pure _ (Ok ())). intros w _ _ x []%elem_of_nil.
  - eapply undoes_bind; [apply Hf| |done]. intros []. cbn.
    eapply undoes_conseq; [apply (undoes_stable (or_noted (S x)) (λ _, True)); [|exact IH]| |].
    + intros w w' Hs Hx Hn. apply (HS x w w' Hs), Hx. by apply Hs.
    + naive_solver.
    + intros r w [H1 H2] Hr y [ ->|Hy]%elem_of_cons; [done|by apply H1].
Qed.

Definition no_own (k : nat) (w : fs) : Prop := ∀ name, output w !! name ≠ Some (Own k).
Lemma no_own_shrinks k w w' : shrinks w w' → no_own k w → no_own k w'.
Proof. intros (H & _) Hg name Hk. by eapply Hg, H. Qed.

Lemma undoes_rollback_file k : undoes (λ _, True) (rollback_file sched getuid foreign_stat k) (λ r w, is_ok r → or_noted (no_own k) w).
Proof.
  intros b n st Hg Hc _. unfold rollback_file, file_at, get, embed. unfold mbind at 1, M_bind at 1, mbind at 1, M_bind at 1.
  destruct (files (env st) !! k) as [f|] eqn:Hf; [|by split_and!].
  assert (H := undoes_for (λ _ name, noting ROLLBACK_REFUSED (rollback_name sched getuid foreign_stat k name)) gone (sorted_set (output_names f))
    gone_shrinks (λ name, undoes_conseq _ _ _ _ _ (undoes_noting _ _ _ (undoes_rollback_name k name)) (λ _ H, H) (λ r w H _, proj2 H)) b n st Hg Hc I).
  destruct (forE _ _ _ st) as [r st']. destruct H as (Hg' & Hc' & Hs & HQ). split_and!; [done|done|done|].
  intros Hr Hn name Hname. destruct (wf_out _ (proj1 Hg') _ _ Hname) as (f' & Hf' & Hin).
  assert (f' = f) as -> by (destruct Hs as (_ & _ & Heq); rewrite Heq in Hf'; congruence).
  by apply (HQ Hr name ltac:(by apply elem_of_sorted_set) Hn k).
Qed.

Definition all_gone (w : fs) : Prop := ∀ k, no_own k w.
Lemma all_gone_shrinks w w' : shrinks w w' → all_gone w → all_gone w'.
Proof. intros Hs H k. eapply no_own_shrinks; [done|apply H]. Qed.

Lemma undoes_rollback_files : undoes (λ _, True) (n ← get (λ w, length (files w)); forE (λ _ k, rollback_file sched getuid foreign_stat k) (reverse (seq 0 n)) tt)
  (λ r w, is_ok r → or_noted all_gone w).
Proof.
  intros b n st Hg Hc _. unfold get, mbind, M_bind. set (n0 := length (files (env st))).
  assert (H := undoes_for (λ _ k, rollback_file sched getuid foreign_stat k) no_own (reverse (seq 0 n0)) no_own_shrinks undoes_rollback_file b n st Hg Hc I).
  destruct (forE _ _ _ st) as [r st']. destruct H as (Hg' & Hc' & Hs & HQ). split_and!; [done|done|done|].
  intros Hr Hn k name Hname. destruct (wf_out _ (proj1 Hg') _ _ Hname) as (f & Hf & _). destruct Hs as (_ & _ & Heq).
  rewrite Heq in Hf. apply lookup_lt_Some in Hf. refine (HQ Hr k _ Hn name Hname). apply elem_of_reverse, elem_of_seq. lia.
Qed.

Lemma undoes_holding {A} (m : M fs ev A) (S : fs → Prop) : (∀ w w', shrinks w w' → S w → S w') →
  undoes (λ _, True) m (λ r w, is_ok r → S w) → undoes (λ _, True) (holding sched m) (λ r w, is_ok r → S w).
Proof.
  intros HS Hm. unfold holding. eapply undoes_bind; [apply undoes_plain| |done]. intros ?; cbv beta. intros b n st Hg Hc _.
  unfold exit_held, attempt_any, mbind, M_bind. specialize (Hm b n st Hg Hc I). destruct (m st) as [r st1]. destruct Hm as (Hg1 & Hc1 & Hs1 & HQ).
  assert (Hp := undoes_plain b n st1 Hg1 Hc1 I). destruct (plain st1) as [l st2]. destruct Hp as (Hg2 & Hc2 & Hs2 & _).
  assert (shrinks (env st) (env st2)) as Hs by by etrans.
  destruct r as [v|e], l as [|e']; cbn; split_and!; try done.
  - intros _. eapply HS; [exact Hs2|]. by apply HQ.
  - by apply (closable_notes (env st2) (trace st2)); destruct st2.
  - etrans; [exact Hs|]. by split.
Qed.

Lemma rollback_all : undoes (λ _, True) (rollback_publication sched getuid foreign_stat) (λ r w, is_ok r ∧ or_noted all_gone w).
Proof.
  unfold rollback_publication.
  apply (undoes_conseq _ (λ _, True) _ _ (λ r w, is_ok r ∧ (notes w = [] → or_noted all_gone w))); [|done|unfold or_noted; naive_solver].
  apply undoes_noting. eapply undoes_bind; [apply undoes_plain| |done]. intros ?; cbv beta.
  apply undoes_holding.
  - intros w w' Hs H Hn. eapply all_gone_shrinks; [done|]. apply H. by apply Hs.
  - eapply undoes_bind; [apply undoes_plain| |done]. intros ?; cbv beta. apply undoes_rollback_files.
Qed.

(** *** The publication of a bundle *)
Lemma start_good o : (∀ name z, o !! name = Some z → seen z) → good false 0 (start o).
Proof.
  intros Ho. split; [|split; [by intros ??? ?%elem_of_nil|done]]. split; cbn; [|by intros ??|by intros ??|by intros ??|].
  - intros name k. rewrite lookup_fmap. intros (z & _ & ?)%fmap_Some. done.
  - intros name z. rewrite lookup_fmap. intros (z' & Hz & [= ->])%fmap_Some. by eapply Ho.
Qed.
Lemma good_all_gone b st : good b 0 st → all_gone (env st).
Proof. intros (Hw & _ & _ & Hn%nil_length_inv) k name (f & Hf & _)%(wf_out _ Hw). by rewrite Hn in Hf. Qed.

Abbreviation reconstruct := (reconstruct sched getuid foreign_stat packed bundleBytes payload).
Lemma reconstruct_good o : (∀ name z, o !! name = Some z → seen z) → let '(r, st) := reconstruct (start o) in
  some_good (chain_witness (env st)) st ∧ (is_ok r = false → or_noted all_gone (env st)).
Proof.
  intros Ho. unfold HmPublish.reconstruct, attempt_any, get. unfold mbind at 1, M_bind at 1.
  assert (Hm := main_good (start o) (start_good o Ho)). destruct ((_ ← holding sched publish; plain) (start o)) as [r st1]. cbn [snd] in Hm.
  assert (Hsome : ∀ b n st, good b n st → some_good (chain_witness (env st)) st).
  { intros b n st Hg. exists n. assert (Hc := Hg). destruct Hc as (_ & _ & -> & _). done. }
  destruct r as [u|e].
  - cbn. split; [|done]. destruct Hm as [Hg|[[n Hg] _]]; eauto.
  - unfold mbind, M_bind. destruct Hm as [Hg|[[n Hg] Hc]]; assert (Hch := Hg); destruct Hch as (_ & Ht & -> & _).
    + cbn. split; [by eauto|]. intros _ _. by apply (good_all_gone _ _ Hg).
    + assert (H := rollback_all true n st1 Hg Hc I).
      destruct (rollback_publication _ _ _ st1) as [r' st2]. destruct H as (Hg2 & _ & _ & Hr' & Hgone).
      destruct r'; [|done]. cbn. split; [by eauto|done].
Qed.

(** ** What a publication that returns leaves, when no other process acts *)
Section Quiet.
Context (Hquiet : ∀ c, foreign (sched c) = []).
Abbreviation anything := (λ _ : world fs ev, True).

Definition shape (o p : gmap string inode) (names : list string) (st : world fs ev) : Prop :=
  output (env st) = o ∧ publication (env st) = p ∧ p_name <$> files (env st) = names.

Lemma before_quiet w : before w = ticked w.
Proof. unfold before. by rewrite Hquiet. Qed.
Lemma names_alter g (k : nat) (l : list pfile) : (∀ f, p_name (g f) = p_name f) → p_name <$> alter g k l = p_name <$> l.
Proof.
  intros Hg. apply list_eq. intros j. rewrite !list_lookup_fmap, list_lookup_alter. case_decide; [|done].
  subst. destruct (l !! j); cbn; [|done]. by rewrite Hg.
Qed.
#[export] Instance shape_stable o p names : Stable (shape o p names).
Proof.
  split; unfold shape; cbn.
  - intros w tr. by rewrite before_quiet.
  - intros w tr f t i _. by destruct i.
  - intros w tr k f i info _ _ _ (? & ? & <-). by rewrite names_alter.
Qed.
#[export] Instance shape_closable o p names : Closable (shape o p names).
Proof. split; [done|]. unfold shape. cbn. intros w tr k (? & ? & <-). by rewrite names_alter. Qed.

Lemma act_shape {A} (f : slot → fs → res A * fs * list ev) (I : world fs ev → Prop) (Q : A → world fs ev → Prop) :
  (∀ s w tr r w' es, I (World w tr) → f s (ticked w) = (Ok r, w', es) → Q r (World w' (tr ++ es))) → spec I (act sched f) Q anything.
Proof.
  intros Hf [w tr] HI. unfold act. cbn [env trace]. fold (before w). rewrite before_quiet.
  destruct (f _ (ticked w)) as [[[a|e] w'] es] eqn:E; (destruct (raised _); [by destruct (effective _)|]); [by eapply Hf|done].
Qed.
Lemma spec_on {A B} I (m : M fs ev A) (k : A → M fs ev B) Q : keeps I m → (∀ a, spec I (k a) Q anything) → spec I (m ≫= k) Q anything.
Proof. intros Hm Hk. eapply spec_bind; [by apply spec_keeps|]. done. Qed.
(** A computation that never returns *)
Definition fails {A} (m : M fs ev A) : Prop := ∀ st, is_ok (m st).1 = false.
Lemma fails_bind {A B} (m : M fs ev A) (k : A → M fs ev B) : (∀ a, fails (k a)) → fails (m ≫= k).
Proof. intros Hk st. unfold mbind, M_bind. destruct (m st) as [[a|e] st']; [apply Hk|done]. Qed.
Lemma fails_attempt {A B C} e (k : A → M fs ev B) (f : res B → M fs ev C) : fails (f (Err e)) → fails (attempt_any (embed (Err e) ≫= k) ≫= f).
Proof. intros Hf st. exact (Hf st). Qed.
Lemma spec_fails {A} P (m : M fs ev A) Q : fails m → spec P m Q anything.
Proof. intros Hm st _. specialize (Hm st). by destruct (m st) as [[] ?]. Qed.

Lemma spec_holding_ok {A} o p names (m : M fs ev A) (Q : A → world fs ev → Prop) : spec (shape o p names) m Q anything → (∀ a, keeps (Q a) plain) →
  spec (shape o p names) (holding sched m) Q anything.
Proof.
  intros Hm Hp. apply spec_on; [apply keeps_plain; typeclasses eauto|]. intros _.
  eapply spec_bind; [apply spec_attempt_res; exact Hm|]. intros [a|e].
  - apply spec_on; [apply keeps_attempt_any, Hp|]. intros [u|e]; by intros st H.
  - apply spec_fails, fails_bind. by intros [].
Qed.

Lemma packing_shape o p names : spec (shape o p names) (packing sched packed) (λ _, shape o {[ "bundle" := Own 0 ]} names) anything.
Proof. apply act_shape. intros s w tr r w' es (? & ? & ?) [= <- <- <-]. by split_and!. Qed.
Lemma remove_tree_shape o p names : spec (shape o p names) (remove_tree sched) (λ _, shape o ∅ names) anything.
Proof.
  apply act_shape. intros s w tr r w' es (Ho & ? & ?) [= <- <- <-]. unfold shape, dropped, changed. cbn. repeat case_match; by split_and!.
Qed.
Lemma create_shape o p names k name : spec (shape o p names) (create sched getuid k name) (λ _, shape (<[name := Own k]> o) p names) anything.
Proof.
  apply act_shape. intros s w tr r w' es (Ho & ? & ?) E. destruct (output (ticked w) !! name) eqn:Eo; [done|]. injection E as <- <- <-.
  unfold shape. cbn in *. by rewrite Ho.
Qed.
Lemma new_file_shape o p names name b : spec (shape o p names) (new_file name b) (λ k st, k = length names ∧ shape o p (names ++ [name]) st) anything.
Proof.
  intros [w tr] (Ho & Hp & Hn). unfold new_file, require, embed, mbind, M_bind, get, modify, mret, M_ret. cbn in *.
  destruct (ensure _ _); [|done]. unfold shape. cbn. rewrite fmap_app, Hn. split; [|done]. by rewrite <-Hn, length_fmap.
Qed.

Definition without (source : side) (name : string) (o : gmap string inode) : gmap string inode := match source with Output => delete name o | Publication => o end.
Lemma noreplace_shape o p names source source_name name i : match source with Output => o | Publication => p end !! source_name = Some i →
  spec (shape o p names) (publication_noreplace sched source source_name Output name)
    (λ _, shape (<[name := i]> (without source source_name o)) (match source with Output => p | Publication => delete source_name p end) names) anything.
Proof.
  intros Hi. apply act_shape. intros s w tr r w' es (Ho & Hp & Hn) E. cbn in Ho, Hp, Hn.
  assert (entries source (ticked w) !! source_name = Some i) as Hs by (destruct source; cbn; congruence). rewrite Hs in E.
  destruct (entries Output (ticked w) !! name); [done|]. injection E as <- <- <-.
  unfold shape. destruct source, i; cbn; by rewrite ?Ho, ?Hp.
Qed.
Lemma promote_shape o p names k source source_name name i : names !! k = Some source_name →
  match source with Output => o | Publication => p end !! source_name = Some i →
  spec (shape o p names) (promote sched getuid foreign_stat k source Output name)
    (λ _, shape (<[name := i]> (without source source_name o)) (match source with Output => p | Publication => delete source_name p end) (<[k := name]> names)) anything.
Proof.
  intros Hk Hi. unfold promote. apply spec_on; [apply keeps_inspect; typeclasses eauto|]. intros _. apply spec_on; [apply keeps_require|]. intros _.
  apply spec_on; [intros [w tr] (? & ? & <-); unfold shape; cbn; by rewrite names_alter|]. intros _.
  eapply spec_bind; [by apply spec_file_at|]. intros f. cbv beta.
  eapply spec_bind with (Q := λ _, _).
  { intros st [Hs Hf]. assert (p_name f = source_name) as ->; [|by apply (noreplace_shape o p names source source_name name i Hi st Hs)].
    destruct Hs as (_ & _ & Hn). rewrite <-Hn, list_lookup_fmap, Hf in Hk. by injection Hk. }
  intros _. set (o' := <[name := i]> _). set (p' := match source with Output => p | _ => _ end).
  apply spec_bind with (Q := λ _, shape o' p' (<[k := name]> names)).
  { intros [w tr] (? & ? & <-). unfold shape. cbn. split_and!; [done|done|].
    apply list_eq. intros j. rewrite list_lookup_fmap, list_lookup_alter. destruct (decide (k = j)) as [ ->|Hne].
    - destruct (files w !! j) eqn:Ej; cbn.
      + rewrite list_lookup_insert_eq; [done|]. rewrite length_fmap. by eapply lookup_lt_Some.
      + symmetry. apply lookup_ge_None. rewrite length_insert, length_fmap. by apply lookup_ge_None.
    - by rewrite list_lookup_insert_ne, list_lookup_fmap. }
  intros _. apply spec_keeps; [|done]. keep. apply keeps_inspect; typeclasses eauto.
Qed.

Definition published : gmap string inode := <["receipt.json" := Own 1]> {[ "bundle" := Own 0 ]}.

Lemma set_fd_shape o p names k fd : keeps (shape o p names) (set_fd k fd).
Proof. intros [w tr] (? & ? & <-). unfold shape. cbn. by rewrite names_alter. Qed.
Ltac on := repeat (apply spec_on; [solve [first [apply keeps_require|apply keeps_plain; typeclasses eauto|apply keeps_inspect; typeclasses eauto
  |apply set_fd_shape|apply keeps_write_all; typeclasses eauto|apply keeps_touch; [typeclasses eauto|done]|apply keeps_look; [typeclasses eauto|by eauto]]]|intros ?]).
Ltac on_shape H := eapply spec_bind; [eapply H|intros ?; cbv beta].

Definition left_tree : gmap string inode := delete "bundle" {[ "bundle" := Own 0 ]}.
Lemma publish_pending_shape : spec (shape ∅ {[ "bundle" := Own 0 ]} []) (publish_pending sched getuid foreign_stat bundleBytes)
  (λ r st, r.1 = 0%nat ∧ shape {[ ".pending-bundle" := Own 0 ]} left_tree [".pending-bundle"] st) anything.
Proof.
  unfold publish_pending. on. on_shape new_file_shape. apply spec_pure. intros ->. cbn [length app]. unfold open_bundle. on.
  on_shape (promote_shape ∅ {[ "bundle" := Own 0 ]} ["bundle"] 0 Publication "bundle" ".pending-bundle" (Own 0)); [done|done|].
  cbn [without list_insert]. on. by apply spec_ret.
Qed.
Lemma in_tree_shape : spec (shape ∅ ∅ []) (in_tree sched getuid foreign_stat packed bundleBytes)
  (λ r st, r.1 = 0%nat ∧ shape {[ ".pending-bundle" := Own 0 ]} left_tree [".pending-bundle"] st) anything.
Proof.
  unfold in_tree. on_shape packing_shape. on.
  eapply spec_bind; [apply spec_holding_ok; [apply publish_pending_shape|]|].
  { intros r st [Hr Hs]. split; [done|]. by apply keeps_plain; [typeclasses eauto|]. }
  intros r. cbv beta. apply spec_pure. intros Hr. on. by apply spec_ret.
Qed.
Lemma remove_private_shape o p names created : spec (shape o p names) (remove_private sched created true) (λ _, shape o ∅ names) anything.
Proof.
  unfold remove_private. on. eapply spec_bind with (Q := λ _, shape o ∅ names).
  - on. on_shape remove_tree_shape. apply spec_keeps; [|done]. apply keeps_plain; typeclasses eauto.
  - intros _. on. apply spec_keeps; [|done]. apply keeps_plain; typeclasses eauto.
Qed.
Lemma private_tree_shape : spec (shape ∅ ∅ []) (private_tree sched (in_tree sched getuid foreign_stat packed bundleBytes))
  (λ r st, r.1 = 0%nat ∧ shape {[ ".pending-bundle" := Own 0 ]} ∅ [".pending-bundle"] st) anything.
Proof.
  unfold private_tree. apply spec_on; [apply keeps_plain; typeclasses eauto|]. intros _. apply spec_holding_ok.
  - do 2 (apply spec_on; [apply keeps_plain; typeclasses eauto|intros _]).
    apply spec_on; [look|intros created]. apply spec_on; [look|intros [u|e]].
    2:{ apply spec_fails, fails_attempt, fails_bind. intros removed. apply fails_bind. intros closed_. by apply fails_bind. }
    eapply spec_bind; [apply spec_attempt_res, spec_on; [apply keeps_embed|intros _; apply spec_on; [apply keeps_plain; typeclasses eauto|intros _; apply in_tree_shape]]|].
    intros [v|e]; [|apply spec_fails, fails_bind; intros removed; apply fails_bind; intros closed_; by apply fails_bind].
    apply spec_pure. intros Hv. cbn [is_ok].
    eapply spec_bind; [apply spec_attempt_res with (R := anything), remove_private_shape|].
    intros [w|e]; [|apply spec_fails, fails_bind; by intros []].
    apply spec_on; [apply keeps_attempt_any, keeps_plain; typeclasses eauto|]. intros [c|e]; [by intros st H|by intros st H].
  - intros r st [Hr Hs]. split; [done|]. by apply keeps_plain; [typeclasses eauto|].
Qed.
Lemma publish_final_shape facts : spec (shape {[ ".pending-bundle" := Own 0 ]} ∅ [".pending-bundle"]) (publish_final sched getuid foreign_stat payload 0 facts)
  (λ _, shape published ∅ ["bundle"; "receipt.json"]) anything.
Proof.
  unfold publish_final. on.
  on_shape (promote_shape {[ ".pending-bundle" := Own 0 ]} ∅ [".pending-bundle"] 0 Output ".pending-bundle" "bundle" (Own 0)); [done|done|].
  on_shape new_file_shape. apply spec_pure. intros ->. on_shape create_shape. on.
  on_shape (promote_shape (<[".pending-receipt" := Own 1]> (<["bundle" := Own 0]> (delete ".pending-bundle" {[ ".pending-bundle" := Own 0 ]}))) ∅ ["bundle"; ".pending-receipt"]
    1 Output ".pending-receipt" "receipt.json" (Own 1)); [done|done|].
  on. apply spec_keeps; [|done]. apply keeps_plain; typeclasses eauto.
Qed.

Lemma reconstruct_shape : spec (shape ∅ ∅ []) reconstruct (λ _, shape published ∅ ["bundle"; "receipt.json"]) anything.
Proof.
  unfold HmPublish.reconstruct.
  assert (spec (shape ∅ ∅ []) (_ ← holding sched publish; plain) (λ _, shape published ∅ ["bundle"; "receipt.json"]) anything) as Hm.
  { eapply spec_bind; [apply spec_holding_ok with (Q := λ _, shape published ∅ ["bundle"; "receipt.json"])|].
    - unfold HmPublish.publish. apply spec_on; [by intros ??|]. intros _. on.
      eapply spec_bind with (Q := λ r st, match r with Ok _ => shape published ∅ ["bundle"; "receipt.json"] st | Err _ => True end).
      { apply spec_attempt_res. eapply spec_bind; [apply private_tree_shape|]. intros [k facts]. cbv beta. apply spec_pure. cbn [fst]. intros ->.
        apply publish_final_shape. }
      intros [u|e].
      + apply spec_on; [apply keeps_close_publication; typeclasses eauto|]. by intros _ st Hs.
      + by apply spec_fails, fails_bind.
    - intros a. apply keeps_plain; typeclasses eauto.
    - intros ?. apply spec_keeps; [|done]. apply keeps_plain; typeclasses eauto. }
  intros st Hs. specialize (Hm st Hs). unfold attempt_any. unfold mbind at 1, M_bind at 1.
  destruct ((_ ← holding sched publish; plain) st) as [[[]|e] st1]; [done|]. unfold get, mbind, M_bind. 
  destruct (chain_witness (env st1)); [destruct (rollback_publication _ _ _ st1) as [[] ?]|]; done.
Qed.
End Quiet.
End Proofs.


(** C12: when no other process acts on the output, the publication is all or
    nothing: a run that returns leaves the bundle and the receipt and no other
    name, and one that raises leaves the output empty or notes a refusal. *)
Theorem publication_atomic sched getuid foreign_stat packed bundleBytes payload : (∀ c, foreign (sched c) = []) →
  let '(r, st) := reconstruct sched getuid foreign_stat packed bundleBytes payload (start ∅) in
  match r with
  | Ok _ => output (env st) = {[ "bundle" := Own 0; "receipt.json" := Own 1 ]}
  | Err _ => notes (env st) = [] → output (env st) = ∅
  end.
Proof.
  intros Hquiet.
  assert (H := reconstruct_good sched getuid foreign_stat packed bundleBytes payload (λ _, False)
    ltac:(intros c name z; rewrite Hquiet; by intros ?%elem_of_nil) ∅ ltac:(intros ??; by rewrite lookup_empty)).
  assert (Hs := reconstruct_shape sched getuid foreign_stat packed bundleBytes payload Hquiet (start ∅) ltac:(split; [apply fmap_empty|done])).
  destruct (reconstruct _ _ _ _ _ _ (start ∅)) as [[u|e] st].
  - destruct Hs as (-> & _). by apply map_eq_iff.
  - destruct H as [[n (Hw & _)] Hgone]. intros Hn. apply map_empty. intros name.
    destruct (output (env st) !! name) as [[k|z]|] eqn:E; [by apply Hgone in E|by apply (wf_foreign _ _ Hw) in E|done].
Qed.
Lemma publication_atomic_witness : (∀ c, foreign (calm c) = []) ∧
  let '(r, st) := reconstruct calm uid0 (λ _, packed0) packed0 700 70000 (start ∅) in
  match r with
  | Ok _ => output (env st) = {[ "bundle" := Own 0; "receipt.json" := Own 1 ]}
  | Err _ => notes (env st) = [] → output (env st) = ∅
  end.
Proof. split; [done|]. by apply (publication_atomic calm uid0 (λ _, packed0) packed0 700 70000). Defined.

Definition summary (x : res unit * world fs ev) : bool * list (string * inode) * list string :=
  (is_ok x.1, map_to_list (output (env x.2)), notes (env x.2)).
(** An undisturbed run makes 98 calls and returns. *)
Example calm_run : summary (run calm) = (true, [("receipt.json", Own 1); ("bundle", Own 0)], []) ∧ clock (env (run calm).2) = 98%nat.
Proof. by vm_compute. Qed.

(** One fault at any call, with or without effect, leaves the output empty, and
    no rollback is refused: *)
Definition undone (at_ : nat) (eff : bool) : bool :=
  let '(ok, left_, noted) := summary (run (faulty at_ eff)) in negb ok && bool_decide (left_ = []) && bool_decide (ROLLBACK_REFUSED ∉ noted).
Example single_faults : filter (λ p, negb (undone p.1 p.2)) (list_prod (seq 0 98) [false; true]) = [(62%nat, true)].
Proof. by vm_compute. Qed.
(** but the creation of the receipt that is interrupted after it took effect:
    its inode was never witnessed, so the name stays and the refusal is noted. *)
Example interrupted_create : summary (run (faulty 62 true)) = (false, [(".pending-receipt", Own 1)], [ROLLBACK_REFUSED]).
Proof. by vm_compute. Qed.
(** A replacement of the bundle while it is being closed is never removed. *)
Definition replaced (at_ : nat) (c : nat) : slot := if bool_decide (c = at_) then Slot None false [("bundle", Some 7)] (Z.of_nat c) 65536 else calm c.
Example replaced_run : summary (run (replaced 91)) = (false, [("bundle", Foreign 7)], [CLOSE_REFUSED; ROLLBACK_REFUSED]).
Proof. by vm_compute. Qed.
End HmPublish.
